(** * Watchables: a shallow embedding of the reactive value graph

    The development follows the TypeScript sources class by class:
    [IterableWeakSet], [ListenerManager], [Mutator], [PlainField],
    [Derived], [Field], [Signal] and [Throttled].  Objects live in a
    heap indexed by their identity, methods are computations in a state
    and exception monad, and calls that may re-enter the graph
    (a dependency's [get], a listener invocation, the continuation of a
    listener loop) go through one fuel-indexed interpreter. *)

From Stdlib Require Import ZArith Bool String List Lia.
From stdpp Require Import base numbers option list.

Open Scope Z_scope.
Open Scope nat_scope.

(** ** JavaScript values

    The fragment of JavaScript values the sources manipulate:
    [undefined], [null], booleans, integral numbers, [NaN], references to
    watchable objects, and the two record shapes [{plain: v}] and
    [{watchable: w}] that [Field] stores in its inner [PlainField].  A
    record carries the address it was allocated at: two records are the
    same object exactly when their addresses agree. *)

Inductive jsval : Type :=
| VUndefined
| VNull
| VBool (b : bool)
| VNum (z : Z)
| VNaN
| VWatchable (w : nat)
| VPlainObj (addr : nat) (plain : jsval)
| VSourceObj (addr : nat) (watchable : nat).

#[global] Instance jsval_eq_dec : EqDecision jsval.
Proof. solve_decision. Defined.

(** [ToNumber] on the primitives of the fragment; objects of the
    fragment have the default [toString] and convert to [NaN]. *)
Definition toNumber (v : jsval) : option Z :=
  match v with
  | VUndefined => None
  | VNull => Some 0%Z
  | VBool b => Some (if b then 1%Z else 0%Z)
  | VNum z => Some z
  | _ => None
  end.

(** The source's [a == b] (abstract equality). *)
Definition looseEq (a b : jsval) : bool :=
  match a, b with
  | VUndefined, (VUndefined | VNull) => true
  | VNull, (VUndefined | VNull) => true
  | VUndefined, _ | VNull, _ | _, VUndefined | _, VNull => false
  | VNaN, _ | _, VNaN => false
  | VBool x, VBool y => Bool.eqb x y
  | VNum x, VNum y => Z.eqb x y
  | VBool x, VNum y => Z.eqb (if x then 1 else 0) y
  | VNum x, VBool y => Z.eqb x (if y then 1 else 0)
  | VWatchable x, VWatchable y => Nat.eqb x y
  | (VPlainObj x _ | VSourceObj x _), (VPlainObj y _ | VSourceObj y _) => Nat.eqb x y
  | _, _ => false
  end.

(** The source's [a != b]. *)
Definition looseNeq (a b : jsval) : bool := negb (looseEq a b).

(** Truthiness, as tested by [if (...)], [&&] and [||]. *)
Definition truthy (v : jsval) : bool :=
  match v with
  | VUndefined | VNull | VNaN => false
  | VBool b => b
  | VNum z => negb (Z.eqb z 0)
  | _ => true
  end.

(** The value stored by [x++]: [ToNumber x + 1]. *)
Definition increment (v : jsval) : jsval :=
  match toNumber v with
  | Some z => VNum (z + 1)
  | None => VNaN
  end.

(** ** Exceptions and the state monad *)

Inductive error : Type :=
| DirtyDispatchAccess   (* thrown by [checkNotDispatchingDirty] *)
| PerformedOnce         (* thrown by [Mutator.commit] and [Mutator.perform] *)
| SignaledOnce          (* thrown by [Mutator.commit] and [Mutator.signal] *)
| SignalBeforePerform   (* thrown by [Mutator.signal] *)
| UserError (tag : nat) (* any exception raised by user code *)
| BadReference          (* a member access on something that is not such an object *)
| OutOfFuel.            (* the interpreter's call budget is exhausted *)

Definition error_message (e : error) : string :=
  match e with
  | DirtyDispatchAccess =>
      "Watchable values may not be accessed during their dirty dispatch event"
  | PerformedOnce => "Mutations can only be performed once"
  | SignaledOnce => "Mutations can only be signaled once"
  | SignalBeforePerform => "Mutations may only signal after being performed"
  | UserError _ => "user"
  | BadReference => "TypeError"
  | OutOfFuel => "out of fuel"
  end.

(** The specification's names for the library's own errors. *)
Definition ReadDuringDirtyDispatch (e : error) : bool :=
  match e with DirtyDispatchAccess => true | _ => false end.

Definition MutationAlreadyConsumed (e : error) : bool :=
  match e with
  | PerformedOnce | SignaledOnce | SignalBeforePerform => true
  | _ => false
  end.

Inductive outcome (A : Type) : Type :=
| Ok (a : A)
| Throw (e : error).
Arguments Ok {A} a.
Arguments Throw {A} e.

(** A method body: it transforms the state and either returns or throws.
    A thrown exception keeps the state reached so far, as in the sources,
    which have no [finally] blocks. *)
Definition M (S A : Type) : Type := S -> S * outcome A.

#[global] Instance M_ret {S} : MRet (M S) := fun A a s => (s, Ok a).
#[global] Instance M_bind {S} : MBind (M S) := fun A B f m s =>
  match m s with
  | (s', Ok a) => f a s'
  | (s', Throw e) => (s', Throw e)
  end.

Definition throw {S A} (e : error) : M S A := fun s => (s, Throw e).
Definition gets {S A} (f : S -> A) : M S A := fun s => (s, Ok (f s)).
Definition modify {S} (f : S -> S) : M S unit := fun s => (f s, Ok tt).
Definition when {S} (b : bool) (m : M S unit) : M S unit :=
  if b then m else mret tt.

(** [for (const x of xs) body(x)] over a list that the body cannot change. *)
Fixpoint forEach {S A} (xs : list A) (body : A -> M S unit) : M S unit :=
  match xs with
  | [] => mret tt
  | x :: xs' => body x;; forEach xs' body
  end.

(** ** Mutator (mutator/Mutator.ts) *)

Module Mutator.

(** Which callback an operation invoked; a ghost log, appended to at
    the places where the source calls [performCB] and [signalCB]. *)
Inductive invoked := PerformCB | SignalCB.

Section Mutator.
(** [W] is whatever the callbacks act on, [R] the result of the
    mutation and [I] the data passed from perform to signal
    ([None] is [undefined]). *)
Context {W R I : Type}.

Record callbacks : Type := {
  performCB : M W (R * option I);
  signalCB : option I -> M W unit;
}.

Record state : Type := {
  performed : bool;
  signaled : bool;
  passed : option I;
  world : W;
  invocations : list invoked;
}.

(** The constructor: [performed] and [signaled] are declared without
    an initialiser and read as falsy, [passed] is [undefined]. *)
Definition new (w : W) : state :=
  {| performed := false; signaled := false; passed := None;
     world := w; invocations := [] |}.

(** The constructor's wrapper for [passing = false]:
    [() => ({result: perform(), pass: undefined})]. *)
Definition plain (perform : M W R) (signal : M W unit) : callbacks :=
  {| performCB := (r ← perform; mret (r, None));
     signalCB := fun _ => signal |}.

Definition set_performed (s : state) : state :=
  {| performed := true; signaled := signaled s; passed := passed s;
     world := world s; invocations := invocations s |}.
Definition set_signaled (s : state) : state :=
  {| performed := performed s; signaled := true; passed := passed s;
     world := world s; invocations := invocations s |}.
Definition set_passed (p : option I) (s : state) : state :=
  {| performed := performed s; signaled := signaled s; passed := p;
     world := world s; invocations := invocations s |}.

(** Calling a callback: it is logged, then runs on the world. *)
Definition invoke {A} (which : invoked) (cb : M W A) : M state A := fun s =>
  let s1 := {| performed := performed s; signaled := signaled s;
               passed := passed s; world := world s;
               invocations := invocations s ++ [which] |} in
  let '(w', o) := cb (world s1) in
  ({| performed := performed s1; signaled := signaled s1;
      passed := passed s1; world := w';
      invocations := invocations s1 |}, o).

Variable cb : callbacks.

Definition commit : M state R :=
  p ← gets performed;
  when p (throw PerformedOnce);;
  s ← gets signaled;
  when s (throw SignaledOnce);;
  modify set_performed;;
  rp ← invoke PerformCB (performCB cb);
  modify set_signaled;;
  invoke SignalCB (signalCB cb (snd rp));;
  mret (fst rp).

Definition perform : M state R :=
  p ← gets performed;
  when p (throw PerformedOnce);;
  modify set_performed;;
  rp ← invoke PerformCB (performCB cb);
  modify (set_passed (snd rp));;
  mret (fst rp).

Definition signal : M state unit :=
  p ← gets performed;
  when (negb p) (throw SignalBeforePerform);;
  s ← gets signaled;
  when s (throw SignaledOnce);;
  modify set_signaled;;
  ps ← gets passed;
  invoke SignalCB (signalCB cb ps).

(** Client programs: any sequence of the three operations. *)
Inductive op := Commit | Perform | Signal.

Definition run_op (o : op) : M state unit :=
  match o with
  | Commit => commit;; mret tt
  | Perform => perform;; mret tt
  | Signal => signal
  end.

(** Runs the operations in order; an exception is caught by the
    client, who carries on with the next operation. *)
Fixpoint run_ops (os : list op) (s : state) : state * list (outcome unit) :=
  match os with
  | [] => (s, [])
  | o :: os' =>
      let '(s1, r) := run_op o s in
      let '(s2, rs) := run_ops os' s1 in
      (s2, r :: rs)
  end.

(** The states a mutator can be in after its construction. *)
Inductive reachable : state -> Prop :=
| reachable_new w : reachable (new w)
| reachable_step o s : reachable s -> reachable (fst (run_op o s)).

(** An operation is rejected when it throws one of the mutator's own
    errors without touching the state: no callback was invoked. *)
Definition rejected {A} (m : M state A) (s : state) : Prop :=
  exists e, m s = (s, Throw e) /\ MutationAlreadyConsumed e = true.

Definition perform_ran (s : state) : Prop := In PerformCB (invocations s).
Definition signal_ran (s : state) : Prop := In SignalCB (invocations s).

(** The flags record exactly which callbacks were invoked. *)
Definition flags_track_invocations (s : state) : Prop :=
  (performed s = true <-> perform_ran s) /\ (signaled s = true <-> signal_ran s).

End Mutator.

Arguments callbacks : clear implicits.
Arguments state : clear implicits.
End Mutator.

(** ** Listeners and IterableWeakSet (utils/IterableWeakSet.ts)

    A listener is a function object, compared by identity.  The library
    itself creates two per derived value ([Derived.dirtyListener] and
    [Derived.changeListener]); every other listener is user code, which
    is modelled as a recording mock (as [jest.fn()] in the tests) that
    may in addition read watchables. *)

Inductive listener : Type :=
| DirtyListenerOf (d : nat)              (* [() => d.whenDirty()] *)
| ChangeListenerOf (d : nat)             (* [() => d.whenChange()] *)
| UserListener (l : nat) (reads : list nat).

#[global] Instance listener_eq_dec : EqDecision listener.
Proof. solve_decision. Defined.

(** What user listeners record. *)
Inductive event : Type :=
| Called (l : nat)
| ReadValue (l : nat) (w : nat) (v : jsval).

#[global] Instance event_eq_dec : EqDecision event.
Proof. solve_decision. Defined.

Module IterableWeakSet.
(** [refs] is a JavaScript [Set]: an append-only list of entries in
    which a deleted entry is emptied in place, so that a running
    iterator, which holds an index into the list, skips it and still
    reaches the entries appended meanwhile.  Weakly held listeners are
    assumed to stay alive: no garbage collection happens during the
    runs considered. *)
Abbreviation t := (list (option listener)).

Definition empty : t := [].

Definition has (s : t) (v : listener) : bool := bool_decide (Some v ∈ s).

Definition add (v : listener) (s : t) : t :=
  if has s v then s else s ++ [Some v].

Definition delete (v : listener) (s : t) : t :=
  (fun e => if decide (e = Some v) then None else e) <$> s.

(** The live elements, in iteration order. *)
Definition values (s : t) : list listener := omap id s.

Definition size (s : t) : nat := length (values s).
End IterableWeakSet.

(** ** Objects *)

(** A compute function [(watch, oldValue) => ...] applied to its
    [oldValue]: it returns, or calls [watch] on a dependency and goes on
    with the value it gets.  [IsThrottling] is the one impure read the
    library's own compute functions make ([!!t.throttle?.signal] in
    [Throttled.throttling]). *)
Inductive comp : Type :=
| Return (v : jsval)
| Watch (dependency : nat) (k : jsval -> comp)
| IsThrottling (t : nat) (k : bool -> comp).

Module IDependency.
(** [unsubDirty] and [unsubChange] hold the closures returned by
    [watchable.onDirty(dirtyListener)] and
    [watchable.onChange(changeListener)], or [undefined] ([false]). *)
Record t : Type := {
  watchable : nat;
  value : jsval;
  unsubDirty : bool;
  unsubChange : bool;
}.
End IDependency.

Inductive ISignal := SigDirty | SigChange.

#[global] Instance ISignal_eq_dec : EqDecision ISignal.
Proof. solve_decision. Defined.

Module Throttle.
(** The type of [Throttled.throttle] when it is defined. *)
Record t : Type := {
  type : ISignal;
  signal : option ISignal;
  timeoutID : nat;
}.
End Throttle.

Record DerivedFields : Type := {
  compute : jsval -> comp;
  dependencies : list IDependency.t;
  computationID : nat;
  initialized : bool;
}.

Record ThrottledFields : Type := {
  source : nat;
  period : nat;
  throttleEndSignal : nat;
  throttleStartSignal : nat;
  throttle : option Throttle.t;
  activeIndicator : bool;
  throttling : nat;
}.

(** The classes that extend [Derived] and override some of its methods. *)
Inductive subclass : Type :=
| JustDerived
| FieldClass (val : nat)
| ThrottledClass (t : ThrottledFields).

Inductive classData : Type :=
| PlainFieldClass (equals : jsval -> jsval -> bool)
| DerivedClass (d : DerivedFields) (sub : subclass)
| SignalClass.

(** Every watchable extends [ListenerManager] (the first six fields) and
    declares a [value]. *)
Record object : Type := {
  dirtyListeners : IterableWeakSet.t;
  changeListeners : IterableWeakSet.t;
  callingDirtyListeners : bool;
  callingChangeListeners : bool;
  dirty : bool;
  signaled : bool;
  value : jsval;
  cls : classData;
}.

(** A pending [setTimeout(target.throttleEnd, delay)]. *)
Record timer : Type := {
  timer_id : nat;
  timer_target : nat;
  timer_delay : nat;
}.

Record heap : Type := {
  objects : list object;
  timers : list timer;
  nextTimeoutID : nat;
  nextAddr : nat;
  log : list event;
}.

Definition emptyHeap : heap :=
  {| objects := []; timers := []; nextTimeoutID := 1; nextAddr := 0; log := [] |}.

(** *** Field updates *)

Definition with_objects (f : list object -> list object) (h : heap) : heap :=
  {| objects := f (objects h); timers := timers h;
     nextTimeoutID := nextTimeoutID h; nextAddr := nextAddr h; log := log h |}.
Definition with_timers (f : list timer -> list timer) (h : heap) : heap :=
  {| objects := objects h; timers := f (timers h);
     nextTimeoutID := nextTimeoutID h; nextAddr := nextAddr h; log := log h |}.
Definition with_nextTimeoutID (n : nat) (h : heap) : heap :=
  {| objects := objects h; timers := timers h;
     nextTimeoutID := n; nextAddr := nextAddr h; log := log h |}.
Definition with_nextAddr (n : nat) (h : heap) : heap :=
  {| objects := objects h; timers := timers h;
     nextTimeoutID := nextTimeoutID h; nextAddr := n; log := log h |}.
Definition with_log (f : list event -> list event) (h : heap) : heap :=
  {| objects := objects h; timers := timers h;
     nextTimeoutID := nextTimeoutID h; nextAddr := nextAddr h; log := f (log h) |}.

Definition with_dirtyListeners (f : IterableWeakSet.t -> IterableWeakSet.t) (o : object) :=
  {| dirtyListeners := f (dirtyListeners o); changeListeners := changeListeners o;
     callingDirtyListeners := callingDirtyListeners o;
     callingChangeListeners := callingChangeListeners o;
     dirty := dirty o; signaled := signaled o; value := value o; cls := cls o |}.
Definition with_changeListeners (f : IterableWeakSet.t -> IterableWeakSet.t) (o : object) :=
  {| dirtyListeners := dirtyListeners o; changeListeners := f (changeListeners o);
     callingDirtyListeners := callingDirtyListeners o;
     callingChangeListeners := callingChangeListeners o;
     dirty := dirty o; signaled := signaled o; value := value o; cls := cls o |}.
Definition with_callingDirtyListeners (b : bool) (o : object) :=
  {| dirtyListeners := dirtyListeners o; changeListeners := changeListeners o;
     callingDirtyListeners := b;
     callingChangeListeners := callingChangeListeners o;
     dirty := dirty o; signaled := signaled o; value := value o; cls := cls o |}.
Definition with_callingChangeListeners (b : bool) (o : object) :=
  {| dirtyListeners := dirtyListeners o; changeListeners := changeListeners o;
     callingDirtyListeners := callingDirtyListeners o;
     callingChangeListeners := b;
     dirty := dirty o; signaled := signaled o; value := value o; cls := cls o |}.
Definition with_dirty (b : bool) (o : object) :=
  {| dirtyListeners := dirtyListeners o; changeListeners := changeListeners o;
     callingDirtyListeners := callingDirtyListeners o;
     callingChangeListeners := callingChangeListeners o;
     dirty := b; signaled := signaled o; value := value o; cls := cls o |}.
Definition with_signaled (b : bool) (o : object) :=
  {| dirtyListeners := dirtyListeners o; changeListeners := changeListeners o;
     callingDirtyListeners := callingDirtyListeners o;
     callingChangeListeners := callingChangeListeners o;
     dirty := dirty o; signaled := b; value := value o; cls := cls o |}.
Definition with_value (v : jsval) (o : object) :=
  {| dirtyListeners := dirtyListeners o; changeListeners := changeListeners o;
     callingDirtyListeners := callingDirtyListeners o;
     callingChangeListeners := callingChangeListeners o;
     dirty := dirty o; signaled := signaled o; value := v; cls := cls o |}.
Definition with_cls (c : classData) (o : object) :=
  {| dirtyListeners := dirtyListeners o; changeListeners := changeListeners o;
     callingDirtyListeners := callingDirtyListeners o;
     callingChangeListeners := callingChangeListeners o;
     dirty := dirty o; signaled := signaled o; value := value o; cls := c |}.

Definition with_derived (f : DerivedFields -> DerivedFields) (o : object) :=
  match cls o with
  | DerivedClass d sub => with_cls (DerivedClass (f d) sub) o
  | _ => o
  end.
Definition with_dependencies (ds : list IDependency.t) (d : DerivedFields) :=
  {| compute := compute d; dependencies := ds;
     computationID := computationID d; initialized := initialized d |}.
Definition with_computationID (n : nat) (d : DerivedFields) :=
  {| compute := compute d; dependencies := dependencies d;
     computationID := n; initialized := initialized d |}.
Definition with_initialized (b : bool) (d : DerivedFields) :=
  {| compute := compute d; dependencies := dependencies d;
     computationID := computationID d; initialized := b |}.

Definition with_throttle (th : option Throttle.t) (o : object) :=
  match cls o with
  | DerivedClass d (ThrottledClass t) =>
      with_cls (DerivedClass d (ThrottledClass
        {| source := source t; period := period t;
           throttleEndSignal := throttleEndSignal t;
           throttleStartSignal := throttleStartSignal t;
           throttle := th; activeIndicator := activeIndicator t;
           throttling := throttling t |})) o
  | _ => o
  end.

(** *** Heap access *)

Definition getObject (w : nat) : M heap object := fun h =>
  match objects h !! w with
  | Some o => (h, Ok o)
  | None => (h, Throw BadReference)
  end.

Definition update (w : nat) (f : object -> object) : M heap unit :=
  modify (with_objects (fun os =>
    match os !! w with Some o => <[w := f o]> os | None => os end)).

Definition getDerived (w : nat) : M heap DerivedFields :=
  o ← getObject w;
  match cls o with
  | DerivedClass d _ => mret d
  | _ => throw BadReference
  end.

Definition getThrottled (w : nat) : M heap ThrottledFields :=
  o ← getObject w;
  match cls o with
  | DerivedClass _ (ThrottledClass t) => mret t
  | _ => throw BadReference
  end.

Definition record (e : event) : M heap unit := modify (with_log (fun l => l ++ [e])).

(** [new C(...)]: the object gets the next identity. *)
Definition allocate (o : object) : M heap nat := fun h =>
  (with_objects (fun os => os ++ [o]) h, Ok (length (objects h))).

(** The state a [ListenerManager] constructor leaves, for a class whose
    [value] starts as [v]. *)
Definition newObject (v : jsval) (c : classData) : object :=
  {| dirtyListeners := IterableWeakSet.empty;
     changeListeners := IterableWeakSet.empty;
     callingDirtyListeners := false;
     callingChangeListeners := false;
     dirty := true;
     signaled := false;
     value := v;
     cls := c |}.

(** The calls that can re-enter the graph. *)
Inductive call : Type :=
| CallGet (w : nat)                 (* [w.get()] *)
| CallListener (l : listener)       (* [listener()] *)
| LoopDirty (w : nat) (i : nat)     (* the rest of the loop over [w.dirtyListeners], from entry [i] *)
| LoopChange (w : nat) (i : nat).   (* the rest of the loop over [w.changeListeners], from entry [i] *)

Definition recursion : Type := call -> M heap jsval.

(** ** ListenerManager (utils/ListenerManager.ts) *)

Module ListenerManager.

(** [onDirty(listener)]; the closure it returns is [removeDirty]. *)
Definition onDirty (w : nat) (l : listener) : M heap unit :=
  update w (with_dirtyListeners (IterableWeakSet.add l)).

Definition removeDirty (w : nat) (l : listener) : M heap unit :=
  update w (with_dirtyListeners (IterableWeakSet.delete l)).

(** [onChange(listener)]; the closure it returns is [removeChange]. *)
Definition onChange (w : nat) (l : listener) : M heap unit :=
  update w (with_changeListeners (IterableWeakSet.add l)).

Definition removeChange (w : nat) (l : listener) : M heap unit :=
  update w (with_changeListeners (IterableWeakSet.delete l)).

(** One turn of [for (const listener of this.dirtyListeners) listener()],
    the iterator standing at entry [i] of [refs]. *)
Definition loopDirty (rec : recursion) (w i : nat) : M heap jsval :=
  o ← getObject w;
  match dirtyListeners o !! i with
  | None => mret VUndefined
  | Some None => rec (LoopDirty w (S i))
  | Some (Some l) => rec (CallListener l);; rec (LoopDirty w (S i))
  end.

Definition loopChange (rec : recursion) (w i : nat) : M heap jsval :=
  o ← getObject w;
  match changeListeners o !! i with
  | None => mret VUndefined
  | Some None => rec (LoopChange w (S i))
  | Some (Some l) => rec (CallListener l);; rec (LoopChange w (S i))
  end.

Definition callDirtyListeners (rec : recursion) (w : nat) : M heap unit :=
  o ← getObject w;
  if dirty o then mret tt else
  update w (with_dirty true);;
  update w (with_signaled false);;
  update w (with_callingDirtyListeners true);;
  rec (LoopDirty w 0);;
  update w (with_callingDirtyListeners false).

Definition callChangeListeners (rec : recursion) (w : nat) : M heap unit :=
  o ← getObject w;
  if signaled o then mret tt else
  update w (with_signaled true);;
  update w (with_callingChangeListeners true);;
  rec (LoopChange w 0);;
  update w (with_callingChangeListeners false).

Definition checkNotDispatchingDirty (w : nat) : M heap unit :=
  o ← getObject w;
  when (callingDirtyListeners o) (throw DirtyDispatchAccess).

End ListenerManager.

(** ** PlainField (PlainField.ts) *)

Module PlainField.

Definition new (init : jsval) (equalsCheck : jsval -> jsval -> bool) : M heap nat :=
  allocate (newObject init (PlainFieldClass equalsCheck)).

(** The default [equalsCheck]: [(oldVal, newVal) => oldVal == newVal]. *)
Definition defaultEquals : jsval -> jsval -> bool := looseEq.

Definition get (w : nat) : M heap jsval :=
  ListenerManager.checkNotDispatchingDirty w;;
  update w (with_dirty false);;
  o ← getObject w;
  mret (value o).

(** The perform callback of [set(value)]. *)
Definition set_perform (rec : recursion) (w : nat) (v : jsval) : M heap unit :=
  o ← getObject w;
  match cls o with
  | PlainFieldClass equals =>
      if equals (value o) v then mret tt else
      ListenerManager.callDirtyListeners rec w;;
      update w (with_value v)
  | _ => throw BadReference
  end.

(** The signal callback of [set(value)]. *)
Definition set_signal (rec : recursion) (w : nat) : M heap unit :=
  ListenerManager.callChangeListeners rec w.

Definition set (rec : recursion) (w : nat) (v : jsval)
  : Mutator.callbacks heap unit unit :=
  Mutator.plain (set_perform rec w v) (set_signal rec w).

End PlainField.

(** ** Signal (utils/Signal.ts) *)

Module Signal.

(** [value] is declared without an initialiser: it reads [undefined]
    until [markDirty] first stores to it. *)
Definition new : M heap nat := allocate (newObject VUndefined SignalClass).

Definition get (w : nat) : M heap jsval :=
  ListenerManager.checkNotDispatchingDirty w;;
  update w (with_dirty false);;
  o ← getObject w;
  mret (value o).

Definition markDirty (rec : recursion) (w : nat) : M heap unit :=
  o ← getObject w;
  if dirty o then mret tt else
  update w (with_value (increment (value o)));;
  ListenerManager.callDirtyListeners rec w.

Definition markChanged (rec : recursion) (w : nat) : M heap unit :=
  ListenerManager.callChangeListeners rec w.

Definition signal (rec : recursion) (w : nat) : M heap unit :=
  markDirty rec w;;
  markChanged rec w.

Definition isDirty (w : nat) : M heap bool :=
  o ← getObject w;
  mret (dirty o).

End Signal.

(** ** Derived (Derived.ts) *)

Module Derived.

Definition new (c : jsval -> comp) : M heap nat :=
  allocate (newObject VUndefined
    (DerivedClass {| compute := c; dependencies := []; computationID := 0;
                     initialized := false |} JustDerived)).

Definition setDependencies (w : nat) (ds : list IDependency.t) : M heap unit :=
  update w (with_derived (with_dependencies ds)).

Definition createDependency (w watchable : nat) (v : jsval) : M heap IDependency.t :=
  ListenerManager.onDirty watchable (DirtyListenerOf w);;
  ListenerManager.onChange watchable (ChangeListenerOf w);;
  mret {| IDependency.watchable := watchable; IDependency.value := v;
          IDependency.unsubDirty := true; IDependency.unsubChange := true |}.

(** The loop of [requiresRecompute]; the pure compute functions of
    the model cannot change [this.dependencies] while it runs. *)
Fixpoint anyChanged (rec : recursion) (ds : list IDependency.t) : M heap bool :=
  match ds with
  | [] => mret false
  | d :: ds' =>
      v ← rec (CallGet (IDependency.watchable d));
      if looseNeq v (IDependency.value d) then mret true
      else anyChanged rec ds'
  end.

Definition requiresRecompute (rec : recursion) (w : nat) : M heap bool :=
  d ← getDerived w;
  if negb (initialized d) then mret true else
  anyChanged rec (dependencies d).

(** [this.dependencies.map(({watchable, value}) => this.createDependency(watchable, value))] *)
Fixpoint resubscribe (w : nat) (ds : list IDependency.t) : M heap (list IDependency.t) :=
  match ds with
  | [] => mret []
  | d :: ds' =>
      d' ← createDependency w (IDependency.watchable d) (IDependency.value d);
      rest ← resubscribe w ds';
      mret (d' :: rest)
  end.

(** [this.compute(watch, this.value)], with [watch] as defined in
    [updateValueIfNecessary]; [found] is [foundDependencies]. *)
Fixpoint runCompute (rec : recursion) (w id : nat)
    (found : list nat) (c : comp) : M heap jsval :=
  match c with
  | Return v => mret v
  | Watch dependency k =>
      v ← rec (CallGet dependency);
      d ← getDerived w;
      let outdated := negb (id =? computationID d) in
      if outdated then runCompute rec w id found (k v) else
      let alreadyRegistered := bool_decide (dependency ∈ found) in
      if alreadyRegistered then runCompute rec w id found (k v) else
      dep ← createDependency w dependency v;
      d ← getDerived w;
      setDependencies w (dependencies d ++ [dep]);;
      runCompute rec w id (dependency :: found) (k v)
  | IsThrottling t k =>
      th ← getThrottled t;
      let throttled :=
        match throttle th with
        | Some e => bool_decide (is_Some (Throttle.signal e))
        | None => false
        end in
      runCompute rec w id found (k throttled)
  end.

Definition unsubChangeOf (w : nat) (d : IDependency.t) : M heap unit :=
  when (IDependency.unsubChange d)
    (ListenerManager.removeChange (IDependency.watchable d) (ChangeListenerOf w)).

Definition unsubDirtyOf (w : nat) (d : IDependency.t) : M heap unit :=
  when (IDependency.unsubDirty d)
    (ListenerManager.removeDirty (IDependency.watchable d) (DirtyListenerOf w)).

Definition updateValueIfNecessary (rec : recursion) (w : nat) : M heap unit :=
  o ← getObject w;
  if negb (dirty o) then mret tt else
  update w (with_dirty false);;
  recompute ← requiresRecompute rec w;
  if negb recompute then
    d ← getDerived w;
    ds ← resubscribe w (dependencies d);
    setDependencies w ds
  else
    d ← getDerived w;
    let id := S (computationID d) in
    update w (with_derived (with_computationID id));;
    forEach (dependencies d) (unsubChangeOf w);;
    setDependencies w [];;
    o ← getObject w;
    v ← runCompute rec w id [] (compute d (value o));
    update w (with_value v);;
    update w (with_derived (with_initialized true)).

Definition get (rec : recursion) (w : nat) : M heap jsval :=
  ListenerManager.checkNotDispatchingDirty w;;
  updateValueIfNecessary rec w;;
  o ← getObject w;
  mret (value o).

Definition clearUnsubDirty (d : IDependency.t) : IDependency.t :=
  {| IDependency.watchable := IDependency.watchable d;
     IDependency.value := IDependency.value d;
     IDependency.unsubDirty := false;
     IDependency.unsubChange := IDependency.unsubChange d |}.

Definition clearUnsubChange (d : IDependency.t) : IDependency.t :=
  {| IDependency.watchable := IDependency.watchable d;
     IDependency.value := IDependency.value d;
     IDependency.unsubDirty := IDependency.unsubDirty d;
     IDependency.unsubChange := false |}.

Definition unsubDirtyDependencies (w : nat) : M heap unit :=
  o ← getObject w;
  if dirty o then mret tt else
  d ← getDerived w;
  forEach (dependencies d) (unsubDirtyOf w);;
  setDependencies w (clearUnsubDirty <$> dependencies d).

Definition unsubChangeDependencies (w : nat) : M heap unit :=
  o ← getObject w;
  if signaled o then mret tt else
  d ← getDerived w;
  forEach (dependencies d) (unsubChangeOf w);;
  setDependencies w (clearUnsubChange <$> dependencies d).

Definition whenDirty (rec : recursion) (w : nat) : M heap unit :=
  unsubDirtyDependencies w;;
  ListenerManager.callDirtyListeners rec w.

Definition whenChange (rec : recursion) (w : nat) : M heap unit :=
  o ← getObject w;
  when (dirty o) (unsubChangeDependencies w);;
  ListenerManager.callChangeListeners rec w.

End Derived.

(** ** Throttled (Throttled.ts) *)

Module Throttled.

(** [setTimeout(this.throttleEnd, this.period)] *)
Definition setTimeout (target delay : nat) : M heap nat := fun h =>
  let id := nextTimeoutID h in
  (with_nextTimeoutID (S id)
     (with_timers (fun ts => ts ++ [{| timer_id := id; timer_target := target;
                                       timer_delay := delay |}]) h),
   Ok id).

Definition clearTimeout (id : nat) : M heap unit :=
  modify (with_timers (filter (fun t => timer_id t ≠ id))).

Definition startEpoch (w : nat) (ty : ISignal) : M heap unit :=
  t ← getThrottled w;
  id ← setTimeout w (period t);
  update w (with_throttle
    (Some {| Throttle.type := ty; Throttle.signal := None; Throttle.timeoutID := id |})).

Definition setPending (w : nat) (e : Throttle.t) (s : ISignal) : M heap unit :=
  update w (with_throttle
    (Some {| Throttle.type := Throttle.type e; Throttle.signal := Some s;
             Throttle.timeoutID := Throttle.timeoutID e |})).

Definition whenDirty (rec : recursion) (w : nat) : M heap unit :=
  update w (with_signaled false);;
  t ← getThrottled w;
  match throttle t with
  | Some e =>
      Derived.unsubDirtyDependencies w;;
      match Throttle.signal e with
      | None =>
          setPending w e SigDirty;;
          Signal.markDirty rec (throttleStartSignal t)
      | Some _ => mret tt
      end
  | None =>
      when (negb (activeIndicator t)) (Derived.unsubDirtyDependencies w);;
      startEpoch w SigDirty;;
      ListenerManager.callDirtyListeners rec w
  end.

Definition callChangeListeners (rec : recursion) (w : nat) : M heap unit :=
  t ← getThrottled w;
  (if activeIndicator t then
     startDirty ← Signal.isDirty (throttleStartSignal t);
     let throttleIsObserved := negb startDirty in
     if throttleIsObserved then rec (CallGet (source t));; mret tt else mret tt
   else mret tt);;
  ListenerManager.callChangeListeners rec w.

Definition whenChange (rec : recursion) (w : nat) : M heap unit :=
  o ← getObject w;
  if signaled o then mret tt else
  t ← getThrottled w;
  match throttle t with
  | Some e =>
      if decide (Throttle.type e = SigChange) then
        update w (with_signaled true);;
        Derived.unsubChangeDependencies w;;
        setPending w e SigChange;;
        Signal.markChanged rec (throttleStartSignal t)
      else
        when (negb (activeIndicator t)) (Derived.unsubChangeDependencies w);;
        clearTimeout (Throttle.timeoutID e);;
        startEpoch w SigChange;;
        callChangeListeners rec w
  | None =>
      when (negb (activeIndicator t)) (Derived.unsubChangeDependencies w);;
      startEpoch w SigChange;;
      callChangeListeners rec w
  end.

Definition throttleEnd (rec : recursion) (w : nat) : M heap unit :=
  t ← getThrottled w;
  match throttle t with
  | None => mret tt
  | Some e =>
      match Throttle.signal e with
      | Some s =>
          startEpoch w s;;
          ListenerManager.callDirtyListeners rec w;;
          Signal.markDirty rec (throttleEndSignal t);;
          if decide (s = SigChange) then
            callChangeListeners rec w;;
            Signal.markChanged rec (throttleEndSignal t)
          else mret tt
      | None => update w (with_throttle None)
      end
  end.

(** The compute function of [throttling]. *)
Definition throttlingCompute (w startSignal endSignal : nat) : jsval -> comp :=
  fun _ => IsThrottling w (fun throttled =>
    if negb throttled then Watch startSignal (fun _ => Return (VBool false))
    else Watch endSignal (fun _ => Return (VBool true))).

(** [new Throttled(source, period)]: the object itself, then its field
    initialisers in declaration order. *)
Definition new (src delay : nat) : M heap nat :=
  w ← gets (fun h => length (objects h));
  let endSignal := w + 1 in
  let startSignal := w + 2 in
  let indicator := w + 3 in
  allocate (newObject VUndefined
    (DerivedClass
       {| compute := fun _ => Watch src Return; dependencies := [];
          computationID := 0; initialized := false |}
       (ThrottledClass
          {| source := src; period := delay;
             throttleEndSignal := endSignal; throttleStartSignal := startSignal;
             throttle := None; activeIndicator := true;
             throttling := indicator |})));;
  Signal.new;;
  Signal.new;;
  Derived.new (throttlingCompute w startSignal endSignal);;
  mret w.

End Throttled.

(** ** Field (Field.ts) *)

Module Field.

(** Member access on the records the inner field holds:
    [val.watchable], ["plain" in val] and [val.plain]. *)
Definition member_watchable (val : jsval) : jsval :=
  match val with
  | VSourceObj _ s => VWatchable s
  | _ => VUndefined
  end.

Definition has_plain (val : jsval) : bool :=
  match val with
  | VPlainObj _ _ => true
  | _ => false
  end.

Definition member_plain (val : jsval) : jsval :=
  match val with
  | VPlainObj _ p => p
  | _ => VUndefined
  end.

(** The equality handed to the inner [PlainField]:
    [(oldVal.watchable && oldVal.watchable == newVal.watchable) ||
     ("plain" in oldVal && "plain" in newVal &&
      equalsCheck(oldVal.plain, newVal.plain))]. *)
Definition innerEquals (equalsCheck : jsval -> jsval -> bool)
    (oldVal newVal : jsval) : bool :=
  (truthy (member_watchable oldVal)
     && looseEq (member_watchable oldVal) (member_watchable newVal))
  || (has_plain oldVal && has_plain newVal
        && equalsCheck (member_plain oldVal) (member_plain newVal)).

(** The compute function handed to [super]. *)
Definition fieldCompute (val : nat) : jsval -> comp :=
  fun _ => Watch val (fun v =>
    match v with
    | VSourceObj _ s => Watch s Return
    | _ => Return (member_plain v)
    end).

(** An object literal [{...}]: a fresh address. *)
Definition freshAddr : M heap nat := fun h =>
  (with_nextAddr (S (nextAddr h)) h, Ok (nextAddr h)).

(** [new Field(value, equalsCheck)] and [new Field(value, true, equalsCheck)]:
    the derived part first, then the inner field [val]. *)
Definition create (init : nat -> jsval) (equalsCheck : jsval -> jsval -> bool)
  : M heap nat :=
  w ← gets (fun h => length (objects h));
  allocate (newObject VUndefined
    (DerivedClass {| compute := fieldCompute (S w); dependencies := [];
                     computationID := 0; initialized := false |}
                  (FieldClass (S w))));;
  a ← freshAddr;
  PlainField.new (init a) (innerEquals equalsCheck);;
  mret w.

Definition new (v : jsval) (equalsCheck : jsval -> jsval -> bool) : M heap nat :=
  create (fun a => VPlainObj a v) equalsCheck.

Definition newSource (s : nat) (equalsCheck : jsval -> jsval -> bool) : M heap nat :=
  create (fun a => VSourceObj a s) equalsCheck.

Definition getVal (w : nat) : M heap nat :=
  o ← getObject w;
  match cls o with
  | DerivedClass _ (FieldClass val) => mret val
  | _ => throw BadReference
  end.

(** [set(value)]: [this.val.set({plain: value})]. *)
Definition set (rec : recursion) (w : nat) (v : jsval)
  : M heap (Mutator.callbacks heap unit unit) :=
  val ← getVal w;
  a ← freshAddr;
  mret (PlainField.set rec val (VPlainObj a v)).

(** [setSource(value)]: [this.val.set({watchable: value})]. *)
Definition setSource (rec : recursion) (w : nat) (s : nat)
  : M heap (Mutator.callbacks heap unit unit) :=
  val ← getVal w;
  a ← freshAddr;
  mret (PlainField.set rec val (VSourceObj a s)).

End Field.

(** ** The interpreter *)

(** [w.get()], by the class of [w]. *)
Definition get (rec : recursion) (w : nat) : M heap jsval :=
  o ← getObject w;
  match cls o with
  | PlainFieldClass _ => PlainField.get w
  | SignalClass => Signal.get w
  | DerivedClass _ _ => Derived.get rec w
  end.

(** [d.whenDirty()] and [d.whenChange()], which [Throttled] overrides. *)
Definition whenDirty (rec : recursion) (d : nat) : M heap unit :=
  o ← getObject d;
  match cls o with
  | DerivedClass _ (ThrottledClass _) => Throttled.whenDirty rec d
  | DerivedClass _ _ => Derived.whenDirty rec d
  | _ => throw BadReference
  end.

Definition whenChange (rec : recursion) (d : nat) : M heap unit :=
  o ← getObject d;
  match cls o with
  | DerivedClass _ (ThrottledClass _) => Throttled.whenChange rec d
  | DerivedClass _ _ => Derived.whenChange rec d
  | _ => throw BadReference
  end.

Definition invokeListener (rec : recursion) (l : listener) : M heap unit :=
  match l with
  | DirtyListenerOf d => whenDirty rec d
  | ChangeListenerOf d => whenChange rec d
  | UserListener l reads =>
      record (Called l);;
      forEach reads (fun w => v ← rec (CallGet w); record (ReadValue l w v))
  end.

Definition step (rec : recursion) (c : call) : M heap jsval :=
  match c with
  | CallGet w => get rec w
  | CallListener l => invokeListener rec l;; mret VUndefined
  | LoopDirty w i => ListenerManager.loopDirty rec w i
  | LoopChange w i => ListenerManager.loopChange rec w i
  end.

(** [fuel] bounds the depth of nested calls. *)
Fixpoint run (fuel : nat) (c : call) : M heap jsval :=
  match fuel with
  | 0 => throw OutOfFuel
  | S n => step (run n) c
  end.

(** *** Client operations *)

Section Client.
Variable fuel : nat.

Definition read (w : nat) : M heap jsval := run fuel (CallGet w).

(** [m.commit()] for a mutator that was just built from [cb]. *)
Definition commit (cb : Mutator.callbacks heap unit unit) : M heap unit := fun h =>
  let '(s, r) := Mutator.commit cb (Mutator.new h) in
  (Mutator.world s, r).

(** [w.set(v).commit()] on a [PlainField]. *)
Definition setPlain (w : nat) (v : jsval) : M heap unit :=
  commit (PlainField.set (run fuel) w v).

(** [w.set(v).commit()] and [w.setSource(s).commit()] on a [Field]. *)
Definition setField (w : nat) (v : jsval) : M heap unit :=
  cb ← Field.set (run fuel) w v;
  commit cb.

Definition setFieldSource (w s : nat) : M heap unit :=
  cb ← Field.setSource (run fuel) w s;
  commit cb.

(** The timer [id] expires: the runtime drops it and calls its callback. *)
Definition fireTimeout (id : nat) : M heap unit := fun h =>
  match filter (fun t => timer_id t = id) (timers h) with
  | t :: _ =>
      (Throttled.clearTimeout id;; Throttled.throttleEnd (run fuel) (timer_target t)) h
  | [] => (h, Ok tt)
  end.
End Client.

(** The events recorded by the listener [l]. *)
Definition callsOf (l : nat) (h : heap) : nat :=
  length (filter (fun e => e = Called l) (log h)).

(** * Definitions used by the statements *)

(** ** Invariants of method bodies *)

(** [m] keeps the heap invariant [I], and throws only errors in [Eok]. *)
Definition keeps (I : heap -> Prop) (Eok : error -> Prop) {A} (m : M heap A) : Prop :=
  forall h, I h ->
    match m h with
    | (h', Ok _) => I h'
    | (h', Throw e) => I h' /\ Eok e
    end.

(** No watchable is inside its [callDirtyListeners] loop. *)
Definition NoDispatch (h : heap) : Prop :=
  forall w o, objects h !! w = Some o -> callingDirtyListeners o = false.

Definition notDirtyDispatch (e : error) : Prop := ReadDuringDirtyDispatch e = false.

(** ** Heaps written out *)

(** The heap with object [w] replaced by [o]. *)
Definition store (w : nat) (o : object) (h : heap) : heap :=
  with_objects (fun os => <[w := o]> os) h.

(** The heap after [setTimeout(target.throttleEnd, delay)]. *)
Definition schedule (target delay : nat) (h : heap) : heap :=
  with_nextTimeoutID (S (nextTimeoutID h))
    (with_timers (fun ts => ts ++ [{| timer_id := nextTimeoutID h; timer_target := target;
                                      timer_delay := delay |}]) h).

(** [{timeoutID: id, type: "dirty"}] *)
Definition dirtyEpoch (id : nat) : Throttle.t :=
  {| Throttle.type := SigDirty; Throttle.signal := None; Throttle.timeoutID := id |}.

(** The epoch [e] after [e.signal = "dirty"]. *)
Definition pendingDirty (e : Throttle.t) : Throttle.t :=
  {| Throttle.type := Throttle.type e; Throttle.signal := Some SigDirty;
     Throttle.timeoutID := Throttle.timeoutID e |}.

(** The watchables of the dependencies whose [unsubDirty] closure is
    still held. *)
Definition dirtyTargets (ds : list IDependency.t) : list nat :=
  IDependency.watchable <$> filter (fun d => IDependency.unsubDirty d = true) ds.

(** Object [x] once [w]'s dirty listener is deleted from the [targets]. *)
Definition unsubscribedFrom (w : nat) (targets : list nat) (x : nat) (o : object) : object :=
  if bool_decide (x ∈ targets)
  then with_dirtyListeners (IterableWeakSet.delete (DirtyListenerOf w)) o
  else o.

Definition withoutDirtySubscriptions (w : nat) (targets : list nat) (h : heap) : heap :=
  with_objects (imap (unsubscribedFrom w targets)) h.

(** The heap in which a [Throttled] object [w] (in state [o], with
    derived fields [d] and epoch [e]) hands over to
    [throttleStartSignal.markDirty()] when it receives a dirty event
    during an epoch that has no pending signal. *)
Definition epochDirtyHeap (w : nat) (o : object) (d : DerivedFields) (e : Throttle.t)
    (h : heap) : heap :=
  if dirty o then
    store w (with_throttle (Some (pendingDirty e)) (with_signaled false o)) h
  else
    let T := dirtyTargets (dependencies d) in
    store w
      (with_throttle (Some (pendingDirty e))
         (with_derived (with_dependencies (Derived.clearUnsubDirty <$> dependencies d))
            (unsubscribedFrom w T w (with_signaled false o))))
      (withoutDirtySubscriptions w T h).

(** ** Recording listeners *)

(** A listener that only records its calls, as [jest.fn()]. *)
Definition isMock (l : listener) : Prop := exists n, l = UserListener n [].

(** What one call of a recording listener appends to the log. *)
Definition recordedBy (l : listener) : list event :=
  match l with
  | UserListener n [] => [Called n]
  | _ => []
  end.

(** An object with its listener sets replaced, as after the
    [onDirty]/[onChange] registrations that produced [dl] and [cl]. *)
Definition withListeners (dl cl : IterableWeakSet.t) (o : object) : object :=
  with_changeListeners (fun _ => cl) (with_dirtyListeners (fun _ => dl) o).

(** What one broadcast over the set [s] of recording listeners appends
    to the log. *)
Definition calls (s : IterableWeakSet.t) : list event :=
  IterableWeakSet.values s ≫= recordedBy.

(** The object after a completed [callDirtyListeners] that found
    [dirty] clear, and after a completed [callChangeListeners] that found
    [signaled] clear. *)
Definition afterDirtyBroadcast (o : object) : object :=
  with_callingDirtyListeners false (with_signaled false (with_dirty true o)).

Definition afterChangeBroadcast (o : object) : object :=
  with_callingChangeListeners false (with_signaled true o).

Definition mockListeners (o : object) : Prop :=
  Forall isMock (IterableWeakSet.values (dirtyListeners o))
  /\ Forall isMock (IterableWeakSet.values (changeListeners o)).

(** ** A plain field with recording listeners, as a state machine

    The object after the two stages of [set(v).commit()], and what the
    listeners recorded. *)
Definition performPlain (eq : jsval -> jsval -> bool) (v : jsval) (o : object)
  : object * list event :=
  if eq (value o) v then (o, [])
  else if dirty o then (with_value v o, [])
  else (with_value v (afterDirtyBroadcast o), calls (dirtyListeners o)).

Definition signalPlain (o : object) : object * list event :=
  if signaled o then (o, [])
  else (afterChangeBroadcast o, calls (changeListeners o)).

Definition commitPlain (eq : jsval -> jsval -> bool) (v : jsval) (o : object)
  : object * list event :=
  let '(o1, es1) := performPlain eq v o in
  let '(o2, es2) := signalPlain o1 in
  (o2, es1 ++ es2).

(** A run of commits [f.set(v1).commit(); ...; f.set(vn).commit()]. *)
Fixpoint commitsPlain (eq : jsval -> jsval -> bool) (vs : list jsval) (o : object)
  : object * list event :=
  match vs with
  | [] => (o, [])
  | v :: vs' =>
      let '(o1, es1) := commitPlain eq v o in
      let '(o2, es2) := commitsPlain eq vs' o1 in
      (o2, es1 ++ es2)
  end.

(** How often the events [es] have the recording listener [l] called. *)
Definition countCalls (l : nat) (es : list event) : nat :=
  length (filter (fun e => e = Called l) es).

(** ** Clients of a signal *)

Inductive signalOp : Type := SignalGet | SignalMarkDirty | SignalMarkChanged.

(** A run of [s.get()], [s.markDirty()] and [s.markChanged()] calls;
    it returns what the [get] calls returned, in order. *)
Fixpoint runSignalOps (fuel s : nat) (ops : list signalOp) : M heap (list jsval) :=
  match ops with
  | [] => mret []
  | SignalGet :: ops' =>
      v ← read fuel s;
      vs ← runSignalOps fuel s ops';
      mret (v :: vs)
  | SignalMarkDirty :: ops' =>
      Signal.markDirty (run fuel) s;;
      runSignalOps fuel s ops'
  | SignalMarkChanged :: ops' =>
      Signal.markChanged (run fuel) s;;
      runSignalOps fuel s ops'
  end.

(** [typeof v !== "number" || isNaN(v)], for the two values in play. *)
Definition notACount (v : jsval) : Prop := v = VUndefined \/ v = VNaN.

(** ** The specification's equality on a field's inner states

    Modelled on the specification's words: direct against direct uses
    the caller's value equality, source against source is identity of
    the source watchable, and a direct and a source state are never
    equal. *)
Definition sameState (equalsCheck : jsval -> jsval -> bool) (oldVal newVal : jsval) : Prop :=
  match oldVal, newVal with
  | VPlainObj _ v, VPlainObj _ v' => equalsCheck v v' = true
  | VSourceObj _ s, VSourceObj _ s' => s = s'
  | _, _ => False
  end.

(** The address a record value was allocated at. *)
Definition recordAddr (v : jsval) : option nat :=
  match v with
  | VPlainObj a _ | VSourceObj a _ => Some a
  | _ => None
  end.

(** ** Direct evaluation of a compute function

    [compute(w => w.get())], the right-hand side of the transparency
    equation in the README: every [watch(d)] is [d.get()], and nothing is
    cached or registered. *)
Fixpoint evalWith (rec : recursion) (c : comp) : M heap jsval :=
  match c with
  | Return v => mret v
  | Watch d k => v ← rec (CallGet d); evalWith rec (k v)
  | IsThrottling t k =>
      th ← getThrottled t;
      evalWith rec (k (match throttle th with
                       | Some e => bool_decide (is_Some (Throttle.signal e))
                       | None => false
                       end))
  end.

Definition directCompute (fuel w : nat) : M heap jsval :=
  d ← getDerived w;
  evalWith (run fuel) (compute d VUndefined).

(** ** Transparency of derived values *)

(** A compute function evaluated on an assignment of values to the
    watchables. *)
Fixpoint evalPure (rho : nat -> jsval) (c : comp) : jsval :=
  match c with
  | Return v => v
  | Watch x k => evalPure rho (k (rho x))
  | IsThrottling _ k => evalPure rho (k false)
  end.

(** The value every watchable should read as: a field's stored value,
    and for a derived value its compute function evaluated on what its
    dependencies should read as. *)
Fixpoint truthN (n : nat) (h : heap) (w : nat) : jsval :=
  match n with
  | 0 => VUndefined
  | S n' =>
      match objects h !! w with
      | Some o =>
          match cls o with
          | DerivedClass d _ => evalPure (truthN n' h) (compute d VUndefined)
          | _ => value o
          end
      | None => VUndefined
      end
  end.

Definition truth (h : heap) (w : nat) : jsval := truthN (S w) h w.

(** The recorded dependencies, as an association list. *)
Definition recorded (ds : list IDependency.t) : list (nat * jsval) :=
  (fun dep => (IDependency.watchable dep, IDependency.value dep)) <$> ds.

(** The first value recorded for [x]. *)
Fixpoint assoc (x : nat) (ds : list (nat * jsval)) : option jsval :=
  match ds with
  | [] => None
  | (y, v) :: ds' => if x =? y then Some v else assoc x ds'
  end.

(** The compute function run against the recorded values alone. *)
Fixpoint replay (ds : list (nat * jsval)) (c : comp) : option jsval :=
  match c with
  | Return v => Some v
  | Watch x k =>
      match assoc x ds with
      | Some v => replay ds (k v)
      | None => None
      end
  | IsThrottling _ _ => None
  end.

Section Values.
(** The values in play: fields hold them and compute functions map
    them to them. *)
Variable V : jsval -> Prop.

(** A compute function that watches only watchables created before
    [n], and stays within [V]. *)
Inductive goodComp (n : nat) : comp -> Prop :=
| good_return v : V v -> goodComp n (Return v)
| good_watch x k :
    x < n -> (forall v, V v -> goodComp n (k v)) -> goodComp n (Watch x k).

(** [z] is a [Derived] that is neither a [Field] nor a [Throttled]. *)
Definition isDerivedAt (h : heap) (z : nat) : Prop :=
  exists o d, objects h !! z = Some o /\ cls o = DerivedClass d JustDerived.

(** A listener found in a set of watchable [x]: a recording listener,
    or the listener of a derived value created after [x]. *)
Definition listenerOk (h : heap) (x : nat) (ofDerived : nat -> listener) (l : listener) : Prop :=
  isMock l \/ exists z, l = ofDerived z /\ x < z /\ isDerivedAt h z.

(** The class of object [w]: a field holding a value of [V], or a
    plain derived value with a good compute function that ignores the
    previous value. *)
Definition computeOk (w : nat) (o : object) : Prop :=
  match cls o with
  | PlainFieldClass _ => V (value o)
  | DerivedClass d JustDerived =>
      exists c, (forall old, compute d old = c) /\ goodComp w c
  | _ => False
  end.

(** The recorded dependencies were created earlier and hold values of [V]. *)
Definition depsOk (w : nat) (o : object) : Prop :=
  match cls o with
  | DerivedClass d _ =>
      forall dep, dep ∈ dependencies d ->
        IDependency.watchable dep < w /\ V (IDependency.value dep)
  | _ => True
  end.

(** The cache is the compute function's result on the recorded values. *)
Definition cacheOk (o : object) : Prop :=
  match cls o with
  | DerivedClass d _ =>
      initialized d = true ->
      replay (recorded (dependencies d)) (compute d VUndefined) = Some (value o)
  | _ => True
  end.

(** A derived value that is not dirty is subscribed to each recorded
    dependency, which is not dirty either and still has the recorded
    value. *)
Definition subscribedOk (h : heap) (w : nat) (o : object) : Prop :=
  match cls o with
  | DerivedClass d _ =>
      dirty o = false ->
      initialized d = true
      /\ forall dep, dep ∈ dependencies d ->
           exists ox,
             objects h !! IDependency.watchable dep = Some ox
             /\ dirty ox = false
             /\ Some (DirtyListenerOf w) ∈ dirtyListeners ox
             /\ IDependency.value dep = truth h (IDependency.watchable dep)
  | _ => True
  end.

(** No dirty dispatch of [w] is running, and its listeners are in order. *)
Definition listenersOk (h : heap) (w : nat) (o : object) : Prop :=
  callingDirtyListeners o = false
  /\ (forall l, Some l ∈ dirtyListeners o -> listenerOk h w DirtyListenerOf l)
  /\ (forall l, Some l ∈ changeListeners o -> listenerOk h w ChangeListenerOf l).

(** The object [o] of watchable [w] is in order. *)
Definition nodeOk (h : heap) (w : nat) (o : object) : Prop :=
  computeOk w o /\ depsOk w o /\ listenersOk h w o /\ cacheOk o /\ subscribedOk h w o.

(** The part of it that no method changes. *)
Definition staticOk (h : heap) : Prop :=
  forall w o, objects h !! w = Some o -> computeOk w o.

(** The watchables created before [n] are in order. *)
Definition belowOk (n : nat) (h : heap) : Prop :=
  forall y o, y < n -> objects h !! y = Some o -> nodeOk h y o.

(** The graph is in order: every watchable is. *)
Definition wellFormed (h : heap) : Prop :=
  forall w o, objects h !! w = Some o -> nodeOk h w o.
End Values.

(** What [get] and the dispatches leave alone: the classes, the compute
    functions and the values of the fields. *)
Definition sameStatic (o o' : object) : Prop :=
  match cls o, cls o' with
  | PlainFieldClass e, PlainFieldClass e' => e = e' /\ value o = value o'
  | DerivedClass d s, DerivedClass d' s' => compute d = compute d' /\ s = s'
  | SignalClass, SignalClass => value o = value o'
  | _, _ => False
  end.

(** The same watchables, object by object the same up to [sameStatic]. *)
Definition skeleton (h h' : heap) : Prop :=
  length (objects h') = length (objects h)
  /\ forall w o, objects h !! w = Some o ->
       exists o', objects h' !! w = Some o' /\ sameStatic o o'.

(** What [get] may do to the heap: besides the above, it clears
    [dirty] bits and adds dirty listeners, and never the converse. *)
Definition mono (h h' : heap) : Prop :=
  skeleton h h'
  /\ forall y o, objects h !! y = Some o ->
       exists o', objects h' !! y = Some o'
         /\ (dirty o = false -> dirty o' = false)
         /\ (forall l, Some l ∈ dirtyListeners o -> Some l ∈ dirtyListeners o').

(** The objects created from [n] on are untouched. *)
Definition aboveSame (n : nat) (h h' : heap) : Prop :=
  forall z, n <= z -> objects h' !! z = objects h !! z.

(** The dependency record [createDependency] returns. *)
Definition dependencyOn (x : nat) (v : jsval) : IDependency.t :=
  {| IDependency.watchable := x; IDependency.value := v;
     IDependency.unsubDirty := true; IDependency.unsubChange := true |}.

Definition notDirtyAt (h : heap) (x : nat) : Prop :=
  exists ox, objects h !! x = Some ox /\ dirty ox = false.

(** A recorded dependency that is up to date, and one that the derived
    value [w] listens to. *)
Definition depFresh (h : heap) (dep : IDependency.t) : Prop :=
  exists ox, objects h !! IDependency.watchable dep = Some ox
    /\ dirty ox = false
    /\ IDependency.value dep = truth h (IDependency.watchable dep).

Definition depSub (w : nat) (h : heap) (dep : IDependency.t) : Prop :=
  exists ox, objects h !! IDependency.watchable dep = Some ox
    /\ Some (DirtyListenerOf w) ∈ dirtyListeners ox.

Section Reads.
Variable V : jsval -> Prop.

(** The dependencies [w] has registered so far while it recomputes. *)
Definition allLive (w : nat) (h : heap) (ds : list IDependency.t) : Prop :=
  forall dep, dep ∈ ds ->
    IDependency.watchable dep < w /\ V (IDependency.value dep)
    /\ depFresh h dep /\ depSub w h dep.

(** While [w] recomputes: the watchables created before it are in order. *)
Definition mid (w : nat) (h : heap) : Prop :=
  w < length (objects h) /\ staticOk V h /\ belowOk V w h.

(** What [x.get()] does with [n] nested calls allowed. *)
Definition getSpec (n x : nat) : Prop :=
  forall h, x < length (objects h) -> staticOk V h -> belowOk V (S x) h ->
    exists h', run n (CallGet x) h = (h', Ok (truth h x))
      /\ belowOk V (S x) h' /\ mono h h' /\ aboveSame (S x) h h' /\ notDirtyAt h' x.
End Reads.

(** The object of a derived value during computation [id], with the
    dependencies found so far. *)
Definition recomputing (ow : object) (d : DerivedFields) (id : nat)
    (ds : list IDependency.t) : object :=
  with_cls (DerivedClass (with_dependencies ds (with_computationID id d)) JustDerived) ow.

(** *** What a dispatch does to the graph *)

(** The class of an object up to the unsubscribe closures kept in the
    dependency records. *)
Definition sameClass (c c' : classData) : Prop :=
  match c, c' with
  | PlainFieldClass e, PlainFieldClass e' => e = e'
  | DerivedClass d s, DerivedClass d' s' =>
      s = s' /\ compute d = compute d' /\ initialized d = initialized d'
      /\ recorded (dependencies d) = recorded (dependencies d')
  | SignalClass, SignalClass => True
  | _, _ => False
  end.

Definition dirtyAt (h : heap) (z : nat) : Prop :=
  exists o, objects h !! z = Some o /\ dirty o = true.

(** A listener set in which some dirty listeners of derived values,
    all dirty in [h'], were deleted. *)
Definition tombstoned (h' : heap) (s s' : IterableWeakSet.t) : Prop :=
  length s' = length s
  /\ forall i e, s !! i = Some e ->
       s' !! i = Some e
       \/ (s' !! i = Some None /\ exists z, e = Some (DirtyListenerOf z) /\ dirtyAt h' z).

(** The effect of dirty dispatches: values become dirty and leave the
    dirty listener sets of their dependencies; a value that became
    dirty and is not dispatching has no dirty listener of a value that
    is not dirty. *)
Definition dirtied (h h' : heap) : Prop :=
  length (objects h') = length (objects h)
  /\ forall y o, objects h !! y = Some o ->
       exists o', objects h' !! y = Some o'
         /\ sameClass (cls o) (cls o') /\ value o' = value o
         /\ changeListeners o' = changeListeners o
         /\ callingDirtyListeners o' = callingDirtyListeners o
         /\ (dirty o = true -> dirty o' = true)
         /\ tombstoned h' (dirtyListeners o) (dirtyListeners o')
         /\ (dirty o = false -> dirty o' = true -> callingDirtyListeners o' = false ->
               forall z, Some (DirtyListenerOf z) ∈ dirtyListeners o' -> dirtyAt h' z).

(** The effect of change dispatches: change listeners are deleted. *)
Definition signalled (h h' : heap) : Prop :=
  length (objects h') = length (objects h)
  /\ forall y o, objects h !! y = Some o ->
       exists o', objects h' !! y = Some o'
         /\ sameClass (cls o) (cls o') /\ value o' = value o
         /\ dirtyListeners o' = dirtyListeners o
         /\ callingDirtyListeners o' = callingDirtyListeners o
         /\ dirty o' = dirty o
         /\ length (changeListeners o') = length (changeListeners o)
         /\ forall l, Some l ∈ changeListeners o' -> Some l ∈ changeListeners o.

Section Shape.
Variable V : jsval -> Prop.

(** The listeners of [w] are in order, whether or not it is dispatching. *)
Definition entriesOk (h : heap) (w : nat) (o : object) : Prop :=
  (forall l, Some l ∈ dirtyListeners o -> listenerOk h w DirtyListenerOf l)
  /\ (forall l, Some l ∈ changeListeners o -> listenerOk h w ChangeListenerOf l).

(** What the dispatches rely on, with [E] bounding the listener sets. *)
Definition shapeOk (E : nat) (h : heap) : Prop :=
  forall y o, objects h !! y = Some o ->
    computeOk V y o /\ depsOk V y o /\ entriesOk h y o
    /\ (callingDirtyListeners o = true -> dirty o = true)
    /\ length (dirtyListeners o) <= E /\ length (changeListeners o) <= E.

(** No listener set has more than [E] entries, deleted ones included. *)
Definition listenerBound (E : nat) (h : heap) : Prop :=
  forall y o, objects h !! y = Some o ->
    length (dirtyListeners o) <= E /\ length (changeListeners o) <= E.
End Shape.

(** A listener set in which dirty listeners of [z] were deleted. *)
Definition unsubbed (z : nat) (s s' : IterableWeakSet.t) : Prop :=
  length s' = length s
  /\ forall i e, s !! i = Some e ->
       s' !! i = Some e \/ (s' !! i = Some None /\ e = Some (DirtyListenerOf z)).

(** The effect of [z.unsubDirtyDependencies()]. *)
Definition unsubscribed (z : nat) (h h' : heap) : Prop :=
  length (objects h') = length (objects h)
  /\ forall y o, objects h !! y = Some o ->
       exists o', objects h' !! y = Some o'
         /\ sameClass (cls o) (cls o') /\ value o' = value o
         /\ changeListeners o' = changeListeners o
         /\ callingDirtyListeners o' = callingDirtyListeners o
         /\ dirty o' = dirty o
         /\ unsubbed z (dirtyListeners o) (dirtyListeners o').

(** What every step of a dispatch keeps. *)
Definition pruned (h h' : heap) : Prop :=
  length (objects h') = length (objects h)
  /\ forall y o, objects h !! y = Some o ->
       exists o', objects h' !! y = Some o'
         /\ sameClass (cls o) (cls o') /\ value o' = value o
         /\ length (changeListeners o') = length (changeListeners o)
         /\ (forall l, Some l ∈ changeListeners o' -> Some l ∈ changeListeners o)
         /\ length (dirtyListeners o') = length (dirtyListeners o)
         /\ (forall l, Some l ∈ dirtyListeners o' -> Some l ∈ dirtyListeners o)
         /\ (callingDirtyListeners o' = true -> dirty o' = true).

Section DispatchSpecs.
Variable V : jsval -> Prop.
Variables (E N : nat).

(** What calling the change listener of the derived value [z] does,
    with [fuel] nested calls allowed. *)
Definition changeListenerSpec (fuel z : nat) : Prop :=
  forall h, length (objects h) = N -> shapeOk V E h -> isDerivedAt h z ->
    exists h', run fuel (CallListener (ChangeListenerOf z)) h = (h', Ok VUndefined)
      /\ signalled h h'.

(** The same for its dirty listener, which leaves [z] dirty. *)
Definition dirtyListenerSpec (fuel z : nat) : Prop :=
  forall h, length (objects h) = N -> shapeOk V E h -> isDerivedAt h z ->
    exists h', run fuel (CallListener (DirtyListenerOf z)) h = (h', Ok VUndefined)
      /\ dirtied h h' /\ dirtyAt h' z.
End DispatchSpecs.

(** *** Client programs over fields and derived values *)

(** [typeof v === "number"]: on numbers [!=] is the negation of [===]. *)
Definition isNumber (v : jsval) : Prop :=
  match v with
  | VNum _ | VNaN => True
  | _ => False
  end.

Module ClientProgram.

(** One statement of a client: a constructor call, [w.get()],
    [f.set(v).commit()], or the registration of a recording listener. *)
Inductive op : Type :=
| NewField (init : jsval) (equalsCheck : jsval -> jsval -> bool)
| NewDerived (c : comp)
| Get (w : nat)
| SetCommit (f : nat) (v : jsval)
| OnDirty (w listenerID : nat)
| OnChange (w listenerID : nat).

(** The statement as a call into the library. *)
Definition runOp (fuel : nat) (o : op) : M heap unit :=
  match o with
  | NewField init equalsCheck => PlainField.new init equalsCheck;; mret tt
  | NewDerived c => Derived.new (fun _ => c);; mret tt
  | Get w => read fuel w;; mret tt
  | SetCommit f v => setPlain fuel f v
  | OnDirty w l => ListenerManager.onDirty w (UserListener l [])
  | OnChange w l => ListenerManager.onChange w (UserListener l [])
  end.

(** The largest listener set of the heap, deleted entries included. *)
Definition maxListeners (h : heap) : nat :=
  max_list ((fun o => length (dirtyListeners o) `max` length (changeListeners o))
              <$> objects h).

(** Nested calls that suffice for any statement run on [h]. *)
Definition fuelFor (h : heap) : nat :=
  (maxListeners h + 2) * S (length (objects h)).

Section Programs.
Variable V : jsval -> Prop.

(** The statement refers to existing objects of the right class and
    stays within the values [V]. *)
Definition okOp (h : heap) (o : op) : Prop :=
  match o with
  | NewField init _ => V init
  | NewDerived c => goodComp V (length (objects h)) c
  | Get w => w < length (objects h)
  | SetCommit f v =>
      V v /\ exists o e, objects h !! f = Some o /\ cls o = PlainFieldClass e
  | OnDirty w _ | OnChange w _ => w < length (objects h)
  end.

(** The heaps a client can reach with [fuel] nested calls per statement. *)
Inductive reachable (fuel : nat) : heap -> Prop :=
| reachable_empty : reachable fuel emptyHeap
| reachable_step h o h' :
    reachable fuel h -> okOp h o -> fuelFor h <= fuel ->
    runOp fuel o h = (h', Ok tt) ->
    reachable fuel h'.

(** Every statement of the program is in order when its turn comes,
    the call budget suffices for it, and it returns. *)
Fixpoint stepsOk (fuel : nat) (h : heap) (p : list op) : Prop :=
  match p with
  | [] => True
  | o :: p' =>
      okOp h o /\ fuelFor h <= fuel /\ snd (runOp fuel o h) = Ok tt
      /\ stepsOk fuel (fst (runOp fuel o h)) p'
  end.
End Programs.

(** The heap a program leaves. *)
Definition runProgram (fuel : nat) (p : list op) (h : heap) : heap :=
  foldl (fun h o => fst (runOp fuel o h)) h p.
End ClientProgram.

(** * Scenario definitions

    Concrete programs against the library, used to evaluate the model
    on explicit inputs. *)

Module Scenario.

(** A call budget that is ample for every scenario below. *)
Definition fuel : nat := 60.

(** The heap a program leaves when started on the empty heap. *)
Definition after {A} (p : M heap A) : heap := fst (p emptyHeap).

(** A mutator over a journal: perform writes [1] and returns [10],
    signal writes [2]. *)
Definition journalling : Mutator.callbacks (list nat) nat unit :=
  Mutator.plain (fun w => (w ++ [1], Ok 10)) (fun w => (w ++ [2], Ok tt)).

(** A mutator whose perform callback writes [1] and then throws. *)
Definition failing : Mutator.callbacks (list nat) nat unit :=
  Mutator.plain (fun w => (w ++ [1], Throw (UserError 0)))
                (fun w => (w ++ [2], Ok tt)).

(** A mutator built on the mutator [b] whose state is its world:
    [new Mutator(() => b.perform(), () => b.signal())], which is what
    [b.map(x => x)] builds, for [b] the journalling mutator. *)
Definition wrapping : Mutator.callbacks (Mutator.state (list nat) unit) nat unit :=
  Mutator.plain (Mutator.perform journalling) (Mutator.signal journalling).

(** The recording listeners of the scenarios. *)
Definition onDirtyMock : listener := UserListener 1 [].
Definition onChangeMock : listener := UserListener 2 [].

(** [const f = new PlainField(0); f.get(); f.onDirty(mock1); f.onChange(mock2)] *)
Definition readField : M heap nat :=
  f ← PlainField.new (VNum 0) PlainField.defaultEquals;
  read fuel f;;
  ListenerManager.onDirty f onDirtyMock;;
  ListenerManager.onChange f onChangeMock;;
  mret f.

(** [readField], then [f.set(0).commit(); f.set(1).commit(); f.get()]. *)
Definition twoCommitsBetweenReads : M heap jsval :=
  f ← readField;
  setPlain fuel f (VNum 0);;
  setPlain fuel f (VNum 1);;
  read fuel f.

(** [const f = new PlainField(0); f.onDirty(mock1); f.onChange(mock2);
     f.set(1).commit()], with no [get] before the commit. *)
Definition unreadPlainField : M heap nat :=
  f ← PlainField.new (VNum 0) PlainField.defaultEquals;
  ListenerManager.onDirty f onDirtyMock;;
  ListenerManager.onChange f onChangeMock;;
  mret f.

(** The same with [new Field(0)]. *)
Definition unreadField : M heap nat :=
  f ← Field.new (VNum 0) looseEq;
  ListenerManager.onDirty f onDirtyMock;;
  ListenerManager.onChange f onChangeMock;;
  mret f.

(** [const f = new PlainField(0);
     const d1 = new Derived(watch => watch(f) == 0 ? null : undefined);
     const d2 = new Derived(watch => watch(d1) === undefined ? 1 : 0);
     d2.get(); f.set(1).commit()] *)
Definition isZero (v : jsval) : jsval :=
  if looseEq v (VNum 0) then VNull else VUndefined.
Definition isUndefined (v : jsval) : jsval :=
  match v with VUndefined => VNum 1 | _ => VNum 0 end.
Definition nullable : M heap (nat * nat * nat) :=
  f ← PlainField.new (VNum 0) PlainField.defaultEquals;
  d1 ← Derived.new (fun _ => Watch f (fun v => Return (isZero v)));
  d2 ← Derived.new (fun _ => Watch d1 (fun v => Return (isUndefined v)));
  read fuel d2;;
  setPlain fuel f (VNum 1);;
  mret (f, d1, d2).

(** The same program over numbers:
    [const f = new PlainField(0);
     const d1 = new Derived(watch => watch(f) == 0 ? 10 : 20);
     const d2 = new Derived(watch => watch(d1) == 20 ? 1 : 0);
     d2.get(); d2.onDirty(mock1); d2.onChange(mock2); f.set(1).commit()] *)
Definition tens (v : jsval) : jsval :=
  if looseEq v (VNum 0) then VNum 10 else VNum 20.
Definition isTwenty (v : jsval) : jsval :=
  if looseEq v (VNum 20) then VNum 1 else VNum 0.
Definition numbered : list ClientProgram.op :=
  [ ClientProgram.NewField (VNum 0) PlainField.defaultEquals;
    ClientProgram.NewDerived (Watch 0 (fun v => Return (tens v)));
    ClientProgram.NewDerived (Watch 1 (fun v => Return (isTwenty v)));
    ClientProgram.Get 2;
    ClientProgram.OnDirty 2 1;
    ClientProgram.OnChange 2 2;
    ClientProgram.SetCommit 0 (VNum 1) ].

(** [const s = new Signal(); const a = s.get(); s.markDirty();
     const b = s.get()] *)
Definition freshSignal : M heap (jsval * jsval) :=
  s ← Signal.new;
  a ← read fuel s;
  Signal.markDirty (run fuel) s;;
  b ← read fuel s;
  mret (a, b).

(** Two fields [f] and [g] under one derived value [d]; a dirty
    listener of [f] reads [g]:
    [const d = new Derived(watch => { watch(f); return watch(g); });
     f.onDirty(() => g.get()); d.get()] *)
Definition readsSibling : M heap (nat * nat * nat) :=
  f ← PlainField.new (VNum 0) PlainField.defaultEquals;
  g ← PlainField.new (VNum 5) PlainField.defaultEquals;
  d ← Derived.new (fun _ => Watch f (fun _ => Watch g Return));
  ListenerManager.onDirty f (UserListener 1 [g]);;
  read fuel d;;
  mret (f, g, d).

(** The heap while [w] is calling its dirty listeners:
    [this.callingDirtyListeners = true]. *)
Definition dispatching (w : nat) (h : heap) : heap :=
  fst (update w (with_callingDirtyListeners true) h).

(** A field with a dirty listener that reads the field itself:
    [const f = new PlainField(0); f.get(); f.onDirty(() => f.get())] *)
Definition readsItself : M heap nat :=
  f ← PlainField.new (VNum 0) PlainField.defaultEquals;
  read fuel f;;
  ListenerManager.onDirty f (UserListener 1 [f]);;
  mret f.

(** [const f = new PlainField(0); const t = new Throttled(f, 50);
     t.onDirty(mock1); t.get()] *)
Definition throttledField : M heap (nat * nat) :=
  f ← PlainField.new (VNum 0) PlainField.defaultEquals;
  t ← Throttled.new f 50;
  ListenerManager.onDirty t onDirtyMock;;
  read fuel t;;
  mret (f, t).

(** Whether [t]'s dirty listener is subscribed to [f]. *)
Definition subscribedDirty (t f : nat) (h : heap) : bool :=
  match objects h !! f with
  | Some o => IterableWeakSet.has (dirtyListeners o) (DirtyListenerOf t)
  | None => false
  end.

(** The epoch of the throttled object [t]. *)
Definition epochOf (t : nat) (h : heap) : option Throttle.t :=
  match getThrottled t h with
  | (_, Ok th) => throttle th
  | _ => None
  end.

End Scenario.

(** * More of the library: definitions *)

(** ** IterableWeakSet: clear (utils/IterableWeakSet.ts)

    [clear()] is [for (const val of this) this.delete(val)]: the set is
    iterated while its elements are deleted.  The iterator stands at
    entry [i] of [refs]; [n] bounds the entries left to visit. *)
Module IterableWeakSetClear.
Fixpoint clearFrom (n i : nat) (s : IterableWeakSet.t) : IterableWeakSet.t :=
  match n with
  | 0 => s
  | S n' =>
      match (s !! i : option (option listener)) with
      | None => s
      | Some None => clearFrom n' (S i) s
      | Some (Some v) => clearFrom n' (S i) (IterableWeakSet.delete v s)
      end
  end.

Definition clear (s : IterableWeakSet.t) : IterableWeakSet.t :=
  clearFrom (length s) 0 s.

(** A client's calls on a set. *)
Inductive op : Type := Add (v : listener) | Delete (v : listener) | Clear.

Definition runOp (o : op) (s : IterableWeakSet.t) : IterableWeakSet.t :=
  match o with
  | Add v => IterableWeakSet.add v s
  | Delete v => IterableWeakSet.delete v s
  | Clear => clear s
  end.

(** The sets a client can build, starting from [new IterableWeakSet()]. *)
Definition built (ops : list op) : IterableWeakSet.t :=
  foldl (fun s o => runOp o s) IterableWeakSet.empty ops.
End IterableWeakSetClear.

(** ** arraysEqual (utils/arraysEqual.ts)

    [a.length == b.length && a.every((v, i) => v == b[i])], on arrays
    without holes; [b[i]] past the end of [b] is [undefined]. *)
Definition arrayIndex (b : list jsval) (i : nat) : jsval :=
  default VUndefined (b !! i).

Definition every (a : list jsval) (p : jsval -> nat -> bool) : bool :=
  forallb (fun b => b) (imap (fun i v => p v i) a).

Definition arraysEqual (a b : list jsval) : bool :=
  (length a =? length b) && every a (fun v i => looseEq v (arrayIndex b i)).

(** ** Mutators built from mutators (mutator/Mutator.ts, mutator/chain.ts,
    mutator/all.ts)

    [chain], [map], [all] and [chain(obtain)] build mutators whose
    callbacks call [perform] and [signal] of other mutators.  Mutators
    are objects in a store, indexed by their identity; user callbacks
    act on a world [W] and return results of type [R]. *)
Module MutatorGraph.
Section MutatorGraph.
Context {W R : Type}.
(** The result [undefined] of a callback that returns nothing. *)
Variable undefinedR : R.

(** The data [perform] hands to [signal]: nothing, the next mutator
    ([Mutator.chain]), or the performed mutators ([chain(obtain)]). *)
Inductive pass : Type :=
| PassUndefined
| PassMutator (m : nat)
| PassMutators (ms : list nat).

(** What a [next] function returns: a mutator that exists already, or
    one it makes from two callbacks. *)
Inductive made : Type :=
| Existing (m : nat)
| Created (perform : M W R) (signal : M W unit).

(** The argument of [chain(next)]: [next instanceof Function] or not. *)
Inductive next : Type :=
| NextMutator (m : nat)
| NextFunction (f : R -> made).

(** The [obtain] callback of [chain(obtain)]: it returns, or calls
    [add] on a mutator and goes on with the result it gets. *)
Inductive script : Type :=
| Done (r : R)
| Add (m : nat) (k : R -> script).

(** The callbacks a mutator was constructed with. *)
Inductive code : Type :=
| UserCode (perform : M W R) (signal : M W unit)  (* [new Mutator(perform, signal)] *)
| ChainCode (this : nat) (nxt : next)             (* [this.chain(next)] *)
| MapCode (this : nat) (map : R -> R)             (* [this.map(map)] *)
| ScriptCode (obtain : script).                   (* [chain(obtain)] *)

Record mutator : Type := {
  performed : bool;
  signaled : bool;
  passed : pass;
  callbacks : code;
}.

(** [calls] is a ghost log of the user callbacks invoked. *)
Record state : Type := {
  mutators : list mutator;
  world : W;
  calls : list (nat * Mutator.invoked);
}.

Definition with_mutators (f : list mutator -> list mutator) (s : state) : state :=
  {| mutators := f (mutators s); world := world s; calls := calls s |}.

Definition with_performed (b : bool) (o : mutator) : mutator :=
  {| performed := b; signaled := signaled o; passed := passed o; callbacks := callbacks o |}.
Definition with_signaled (b : bool) (o : mutator) : mutator :=
  {| performed := performed o; signaled := b; passed := passed o; callbacks := callbacks o |}.
Definition with_passed (p : pass) (o : mutator) : mutator :=
  {| performed := performed o; signaled := signaled o; passed := p; callbacks := callbacks o |}.

Definition getMutator (m : nat) : M state mutator := fun s =>
  match mutators s !! m with
  | Some o => (s, Ok o)
  | None => (s, Throw BadReference)
  end.

Definition setMutator (m : nat) (f : mutator -> mutator) (s : state) : state :=
  with_mutators (fun ms =>
    match ms !! m with Some o => <[m := f o]> ms | None => ms end) s.

Definition updateMutator (m : nat) (f : mutator -> mutator) : M state unit :=
  modify (setMutator m f).

(** A user callback: it is logged, then runs on the world. *)
Definition invoke {A} (m : nat) (which : Mutator.invoked) (cb : M W A) : M state A := fun s =>
  let '(w', r) := cb (world s) in
  ({| mutators := mutators s; world := w'; calls := calls s ++ [(m, which)] |}, r).

(** [new Mutator(...)]: [performed] and [signaled] start falsy,
    [passed] undefined. *)
Definition newMutator (c : code) : M state nat := fun s =>
  (with_mutators (fun ms => ms ++ [{| performed := false; signaled := false;
                                      passed := PassUndefined; callbacks := c |}]) s,
   Ok (length (mutators s))).

(** [next instanceof Function ? next(result) : next] *)
Definition resolve (nxt : next) (result : R) : M state nat :=
  match nxt with
  | NextMutator m => mret m
  | NextFunction f =>
      match f result with
      | Existing m => mret m
      | Created p s => newMutator (UserCode p s)
      end
  end.

Section Calls.
(** [x.perform()] and [x.signal()] as called from a callback. *)
Variable performOf : nat -> M state R.
Variable signalOf : nat -> M state unit.

(** [obtain(mutator => { const res = mutator.perform(); muts.push(mutator);
    return res; })] *)
Fixpoint runScript (obtain : script) (muts : list nat) : M state (R * pass) :=
  match obtain with
  | Done r => mret (r, PassMutators muts)
  | Add m k =>
      res ← performOf m;
      runScript (k res) (muts ++ [m])
  end.

(** [this.performCB()] *)
Definition performCB (m : nat) (c : code) : M state (R * pass) :=
  match c with
  | UserCode p _ =>
      r ← invoke m Mutator.PerformCB p;
      mret (r, PassUndefined)
  | ChainCode this nxt =>
      result ← performOf this;
      nextMut ← resolve nxt result;
      r ← performOf nextMut;
      mret (r, PassMutator nextMut)
  | MapCode this map =>
      res ← performOf this;
      mret (map res, PassUndefined)
  | ScriptCode obtain => runScript obtain []
  end.

(** [this.signalCB(pass)]; a [pass] of the wrong shape is a
    [TypeError]. *)
Definition signalCB (m : nat) (c : code) (p : pass) : M state unit :=
  match c with
  | UserCode _ s => invoke m Mutator.SignalCB s
  | ChainCode this _ =>
      signalOf this;;
      match p with
      | PassMutator nextMut => signalOf nextMut
      | PassUndefined => mret tt
      | PassMutators _ => throw BadReference
      end
  | MapCode this _ => signalOf this
  | ScriptCode _ =>
      match p with
      | PassMutators muts => forEach muts signalOf
      | _ => throw BadReference
      end
  end.

Definition performBody (m : nat) : M state R :=
  o ← getMutator m;
  when (performed o) (throw PerformedOnce);;
  updateMutator m (with_performed true);;
  rp ← performCB m (callbacks o);
  updateMutator m (with_passed (snd rp));;
  mret (fst rp).

Definition signalBody (m : nat) : M state unit :=
  o ← getMutator m;
  when (negb (performed o)) (throw SignalBeforePerform);;
  when (signaled o) (throw SignaledOnce);;
  updateMutator m (with_signaled true);;
  o' ← getMutator m;
  signalCB m (callbacks o') (passed o').

Definition commitBody (m : nat) : M state R :=
  o ← getMutator m;
  when (performed o) (throw PerformedOnce);;
  when (signaled o) (throw SignaledOnce);;
  updateMutator m (with_performed true);;
  rp ← performCB m (callbacks o);
  updateMutator m (with_signaled true);;
  signalCB m (callbacks o) (snd rp);;
  mret (fst rp).
End Calls.

(** [fuel] bounds the depth of nested calls. *)
Fixpoint perform (fuel : nat) (m : nat) : M state R :=
  match fuel with
  | 0 => throw OutOfFuel
  | S n => performBody (perform n) m
  end.

Fixpoint signal (fuel : nat) (m : nat) : M state unit :=
  match fuel with
  | 0 => throw OutOfFuel
  | S n => signalBody (signal n) m
  end.

Definition commit (fuel : nat) (m : nat) : M state R :=
  commitBody (perform fuel) (signal fuel) m.

(** [this.chain(next)], [this.map(map)], [dummyMutator()] and
    [chain(obtain)]. *)
Definition chainMethod (this : nat) (nxt : next) : M state nat :=
  newMutator (ChainCode this nxt).

Definition mapMethod (this : nat) (map : R -> R) : M state nat :=
  newMutator (MapCode this map).

Definition dummyMutator : M state nat :=
  newMutator (UserCode (mret undefinedR) (mret tt)).

Definition chain (obtain : script) : M state nat :=
  newMutator (ScriptCode obtain).

(** [mutators.reduce((a, b) => a.chain(b))] from the second element on. *)
Fixpoint reduceChain (a : nat) (rest : list nat) : M state nat :=
  match rest with
  | [] => mret a
  | b :: rest' =>
      a' ← chainMethod a (NextMutator b);
      reduceChain a' rest'
  end.

(** [all(mutators)] *)
Definition all (ms : list nat) : M state nat :=
  match ms with
  | [] => dummyMutator
  | m :: rest => reduceChain m rest
  end.

(** *** What the theorems speak of *)

(** A user callback that returns whatever the world is. *)
Definition total {A} (cb : M W A) : Prop :=
  forall w, exists w' r, cb w = (w', Ok r).

(** [m] came from [new Mutator(perform, signal)] with callbacks that
    return, and nothing was done with it yet. *)
Definition freshUser (s : state) (m : nat) : Prop :=
  exists p sg,
    mutators s !! m
    = Some {| performed := false; signaled := false; passed := PassUndefined;
              callbacks := UserCode p sg |}
    /\ total p /\ total sg.

(** [m] was performed and signalled. *)
Definition consumed (s : state) (m : nat) : Prop :=
  exists o, mutators s !! m = Some o /\ performed o = true /\ signaled o = true.

(** How far a mutator has come. *)
Inductive phase : Type := Fresh | Performed | Signaled.

Definition isPerformed (ph : phase) : bool :=
  match ph with Fresh => false | _ => true end.
Definition isSignaled (ph : phase) : bool :=
  match ph with Signaled => true | _ => false end.

Definition userAt (ph : phase) (s : state) (m : nat) : Prop :=
  exists p sg,
    mutators s !! m
    = Some {| performed := isPerformed ph; signaled := isSignaled ph;
              passed := PassUndefined; callbacks := UserCode p sg |}
    /\ total p /\ total sg.

(** [a] is the mutator [all] makes of the user mutators [L]: the first
    of them, or a chain of such a mutator and the last of them; [N] are
    the chains. *)
Inductive tower (ph : phase) (s : state) : nat -> list nat -> list nat -> Prop :=
| tower_user m : userAt ph s m -> tower ph s m [m] []
| tower_chain a a' b L N :
    tower ph s a' L N ->
    userAt ph s b ->
    b ∉ L -> b ∉ N -> a ∉ L -> a ∉ N -> a <> b ->
    mutators s !! a
    = Some {| performed := isPerformed ph; signaled := isSignaled ph;
              passed := match ph with Fresh => PassUndefined | _ => PassMutator b end;
              callbacks := ChainCode a' (NextMutator b) |} ->
    tower ph s a (L ++ [b]) (N ++ [a]).

(** [obtain] calls [add] on fresh user mutators only, on none of
    [seen] and on none twice, whatever results it gets. *)
Inductive adds (s : state) : list nat -> script -> Prop :=
| adds_done seen r : adds s seen (Done r)
| adds_add seen m k :
    freshUser s m -> m ∉ seen ->
    (forall r, adds s (seen ++ [m]) (k r)) ->
    adds s seen (Add m k).

(** What [obtain] asks for when it is run on the world [w], every
    [add(m)] being answered with what the perform callback of the user
    mutator [m] returns on the world as it then is: the mutators handed
    to [add], in that order, the result of [obtain], and the world the
    perform callbacks leave.  [None] when [m] is not a user mutator or
    its callback throws. *)
Fixpoint asked (s : state) (obtain : script) (w : W) : option (list nat * R * W) :=
  match obtain with
  | Done r => Some ([], r, w)
  | Add m k =>
      match callbacks <$> mutators s !! m with
      | Some (UserCode p _) =>
          match p w with
          | (w', Ok res) =>
              match asked s (k res) w' with
              | Some (L, r, w'') => Some (m :: L, r, w'')
              | None => None
              end
          | (_, Throw _) => None
          end
      | _ => None
      end
  end.

(** The log of performing, or signalling, the user mutators [ms] in order. *)
Definition performs (ms : list nat) : list (nat * Mutator.invoked) :=
  (fun m => (m, Mutator.PerformCB)) <$> ms.
Definition signals (ms : list nat) : list (nat * Mutator.invoked) :=
  (fun m => (m, Mutator.SignalCB)) <$> ms.
End MutatorGraph.

Arguments pass : clear implicits.
Arguments made : clear implicits.
Arguments next : clear implicits.
Arguments script : clear implicits.
Arguments code : clear implicits.
Arguments mutator : clear implicits.
Arguments state : clear implicits.
End MutatorGraph.

(** Two fresh mutators on a counter: performing one increments the
    counter and returns its old value, signalling adds ten. *)
Module MutatorScenario.
Definition bump : M nat nat := fun w => (S w, Ok w).
Definition note : M nat unit := fun w => (w + 10, Ok tt).
Definition user : MutatorGraph.mutator nat nat :=
  {| MutatorGraph.performed := false; MutatorGraph.signaled := false;
     MutatorGraph.passed := MutatorGraph.PassUndefined;
     MutatorGraph.callbacks := MutatorGraph.UserCode bump note |}.
Definition two : MutatorGraph.state nat nat :=
  {| MutatorGraph.mutators := [user; user]; MutatorGraph.world := 0;
     MutatorGraph.calls := [] |}.
(** [obtain = add => add(second) + add(first)] *)
Definition both : MutatorGraph.script nat :=
  MutatorGraph.Add 1 (fun r => MutatorGraph.Add 0 (fun r' => MutatorGraph.Done (r + r'))).
End MutatorScenario.

(** ** Registrations (utils/ListenerManager.ts)

    [w.onDirty(l)], [w.onChange(l)] and calls of the closures they
    return, for recording listeners [l]; [n] is the listener's name. *)
Inductive registration : Type :=
| OnDirty (n : nat)
| RemoveDirty (n : nat)
| OnChange (n : nat)
| RemoveChange (n : nat).

Definition register (w : nat) (r : registration) : M heap unit :=
  match r with
  | OnDirty n => ListenerManager.onDirty w (UserListener n [])
  | RemoveDirty n => ListenerManager.removeDirty w (UserListener n [])
  | OnChange n => ListenerManager.onChange w (UserListener n [])
  | RemoveChange n => ListenerManager.removeChange w (UserListener n [])
  end.

(** Whether the listener [n] is registered for dirty events after
    [rs], when [b] says whether it was before: its last registration
    or removal counts. *)
Definition listensDirty (n : nat) (b : bool) (rs : list registration) : bool :=
  foldl (fun b r =>
           match r with
           | OnDirty m => if decide (m = n) then true else b
           | RemoveDirty m => if decide (m = n) then false else b
           | _ => b
           end) b rs.

Definition listensChange (n : nat) (b : bool) (rs : list registration) : bool :=
  foldl (fun b r =>
           match r with
           | OnChange m => if decide (m = n) then true else b
           | RemoveChange m => if decide (m = n) then false else b
           | _ => b
           end) b rs.

(** The object after the registrations [rs]. *)
Definition registered (rs : list registration) (o : object) : object :=
  foldl (fun o r =>
           match r with
           | OnDirty n => with_dirtyListeners (IterableWeakSet.add (UserListener n [])) o
           | RemoveDirty n => with_dirtyListeners (IterableWeakSet.delete (UserListener n [])) o
           | OnChange n => with_changeListeners (IterableWeakSet.add (UserListener n [])) o
           | RemoveChange n => with_changeListeners (IterableWeakSet.delete (UserListener n [])) o
           end) o rs.

(** ** Client programs over a [Field] (Field.ts) *)
Module FieldPrograms.
Section FieldPrograms.
Variable fuel : nat.

(** [const f = new Field(v, eq); const x = f.get();
     f.onDirty(mock1); f.onChange(mock2);
     f.set(v2).commit(); return [x, f.get()]] *)
Definition roundTrip (v v2 : jsval) (eq : jsval -> jsval -> bool) : M heap (jsval * jsval) :=
  f ← Field.new v eq;
  x ← read fuel f;
  ListenerManager.onDirty f (UserListener 1 []);;
  ListenerManager.onChange f (UserListener 2 []);;
  setField fuel f v2;;
  y ← read fuel f;
  mret (x, y).
End FieldPrograms.

(** The field [f] and its inner field [val] after the first read and
    the two registrations of [roundTrip]; [a] is the address of the
    record [{plain: v}]. *)
Definition fieldAfterRead (val a : nat) (v : jsval) : object :=
  {| dirtyListeners := [Some (UserListener 1 [])];
     changeListeners := [Some (UserListener 2 [])];
     callingDirtyListeners := false; callingChangeListeners := false;
     dirty := false; signaled := false; value := v;
     cls := DerivedClass
              {| compute := Field.fieldCompute val;
                 dependencies :=
                   [{| IDependency.watchable := val; IDependency.value := VPlainObj a v;
                       IDependency.unsubDirty := true; IDependency.unsubChange := true |}];
                 computationID := 1; initialized := true |} (FieldClass val) |}.

Definition innerAfterRead (f a : nat) (v : jsval) (eq : jsval -> jsval -> bool) : object :=
  {| dirtyListeners := [Some (DirtyListenerOf f)];
     changeListeners := [Some (ChangeListenerOf f)];
     callingDirtyListeners := false; callingChangeListeners := false;
     dirty := false; signaled := false; value := VPlainObj a v;
     cls := PlainFieldClass (Field.innerEquals eq) |}.

(** The same two after a commit of a value that the equality tells
    from [v]. *)
Definition fieldAfterCommit (val a : nat) (v : jsval) : object :=
  {| dirtyListeners := [Some (UserListener 1 [])];
     changeListeners := [Some (UserListener 2 [])];
     callingDirtyListeners := false; callingChangeListeners := false;
     dirty := true; signaled := true; value := v;
     cls := DerivedClass
              {| compute := Field.fieldCompute val;
                 dependencies :=
                   [{| IDependency.watchable := val; IDependency.value := VPlainObj a v;
                       IDependency.unsubDirty := false; IDependency.unsubChange := false |}];
                 computationID := 1; initialized := true |} (FieldClass val) |}.

Definition innerAfterCommit (a2 : nat) (v2 : jsval) (eq : jsval -> jsval -> bool) : object :=
  {| dirtyListeners := [None];
     changeListeners := [None];
     callingDirtyListeners := false; callingChangeListeners := false;
     dirty := true; signaled := true; value := VPlainObj a2 v2;
     cls := PlainFieldClass (Field.innerEquals eq) |}.
End FieldPrograms.

(** ** Observer (Observer.ts)

    The observer registers its [change] closure as a change listener
    of the source.  To the source that closure is a listener that
    reads the source, [UserListener self [source]]; what the closure
    then does with the value it read is [change].  The observer's own
    listeners are opaque: a call [listener(value, previous)] is
    recorded. *)
Module Observer.

Record t : Type := {
  source : nat;
  self : nat;
  previous : jsval;
  listeners : list nat;
  innerDestroy : bool;   (* whether [innerDestroy] is still defined *)
}.

(** [listener(value, prev)]; [add] with [initCall] passes no [prev]. *)
Inductive notification : Type :=
| Notified (listener : nat) (value : jsval) (prev : option jsval).

Definition changeListener (o : t) : listener := UserListener (self o) [source o].

Section Observer.
Variable fuel : nat.

(** The constructor. *)
Definition new (self source : nat) : M heap t :=
  v ← read fuel source;
  ListenerManager.onChange source (UserListener self [source]);;
  mret {| source := source; self := self; previous := v; listeners := [];
          innerDestroy := true |}.

(** [change], from [val = this.source.get()] on. *)
Definition change (val : jsval) (o : t) : t * list notification :=
  if looseEq (previous o) val then (o, [])
  else ({| source := source o; self := self o; previous := val;
           listeners := listeners o; innerDestroy := innerDestroy o |},
        (fun l => Notified l val (Some (previous o))) <$> listeners o).

Definition add (listener : nat) (initCall : bool) (o : t) : t * list notification :=
  ({| source := source o; self := self o; previous := previous o;
      listeners := listeners o ++ [listener]; innerDestroy := innerDestroy o |},
   if initCall then [Notified listener (previous o) None] else []).

Definition destroy (o : t) : M heap t :=
  if innerDestroy o then
    ListenerManager.removeChange (source o) (changeListener o);;
    mret {| source := source o; self := self o; previous := previous o;
            listeners := listeners o; innerDestroy := false |}
  else mret o.

(** The runs of [change] that the events [es] stand for: one for each
    read of the source by the observer's closure. *)
Fixpoint replay (es : list event) (o : t) : t * list notification :=
  match es with
  | [] => (o, [])
  | ReadValue l w v :: es' =>
      if (l =? self o) && (w =? source o) then
        let '(o1, ns1) := change v o in
        let '(o2, ns2) := replay es' o1 in
        (o2, ns1 ++ ns2)
      else replay es' o
  | Called _ :: es' => replay es' o
  end.

(** [source.set(v).commit()] on a plain field under observation: the
    commit, and what the observer's closure did while it ran. *)
Definition commitObserved (v : jsval) (st : t * list notification)
  : M heap (t * list notification) := fun h =>
  match setPlain fuel (source (fst st)) v h with
  | (h', Ok _) =>
      let '(o', ns) := replay (drop (length (log h)) (log h')) (fst st) in
      (h', Ok (o', snd st ++ ns))
  | (h', Throw e) => (h', Throw e)
  end.

Fixpoint commitsObserved (vs : list jsval) (st : t * list notification)
  : M heap (t * list notification) :=
  match vs with
  | [] => mret st
  | v :: vs' =>
      st' ← commitObserved v st;
      commitsObserved vs' st'
  end.

(** [const ob = new Observer(f).add(l); f.set(v1).commit(); ...;
     ob.destroy(); f.set(u1).commit(); ...] *)
Definition observe (self f l : nat) (vs us : list jsval) : M heap (t * list notification) :=
  ob ← new self f;
  st ← commitsObserved vs (add l false ob);
  ob' ← destroy (fst st);
  commitsObserved us (ob', snd st).
End Observer.

(** The plain field [o] at [f] between commits, when the closure of
    the observer [n] was registered after the change listeners [CL]. *)
Definition observedBy (n f : nat) (CL : IterableWeakSet.t) (o : object) : Prop :=
  cls o = PlainFieldClass PlainField.defaultEquals
  /\ Forall isMock (IterableWeakSet.values (dirtyListeners o))
  /\ changeListeners o = CL ++ [Some (UserListener n [f])]
  /\ Forall isMock (IterableWeakSet.values CL)
  /\ dirty o = false
  /\ callingDirtyListeners o = false.

(** The notifications a listener [l] is due while a value goes from
    [cur] through [vs]: one for each step to a value that is not [==]
    to the one before. *)
Fixpoint changes (l : nat) (cur : jsval) (vs : list jsval) : list notification :=
  match vs with
  | [] => []
  | v :: vs' =>
      if looseEq cur v then changes l cur vs'
      else Notified l v (Some cur) :: changes l v vs'
  end.
End Observer.

(** ** PassiveDerived (PassiveDerived.ts)

    A [Derived] with one more field, [isPassive], kept beside the
    object of the derived value. *)
Module PassiveDerived.

Record t : Type := {
  self : nat;
  isPassive : bool;
}.

Definition new (c : jsval -> comp) : M heap t :=
  w ← Derived.new c;
  mret {| self := w; isPassive := true |}.

(** [{watchable, value}], without the unsubscribe functions. *)
Definition forget (d : IDependency.t) : IDependency.t :=
  {| IDependency.watchable := IDependency.watchable d;
     IDependency.value := IDependency.value d;
     IDependency.unsubDirty := false;
     IDependency.unsubChange := false |}.

(** [this.dependencies.map(({watchable, value, unsubDirty, unsubChange}) =>
      { unsubDirty?.(); unsubChange?.(); return {watchable, value}; })] *)
Fixpoint unsubscribe (w : nat) (ds : list IDependency.t) : M heap (list IDependency.t) :=
  match ds with
  | [] => mret []
  | d :: ds' =>
      Derived.unsubDirtyOf w d;;
      Derived.unsubChangeOf w d;;
      rest ← unsubscribe w ds';
      mret (forget d :: rest)
  end.

Definition updatePassive (p : t) : M heap t :=
  o ← getObject (self p);
  let passive := (IterableWeakSet.size (dirtyListeners o) =? 0)
                 && (IterableWeakSet.size (changeListeners o) =? 0) in
  if Bool.eqb passive (isPassive p) then mret p else
  d ← getDerived (self p);
  ds ← (if passive then unsubscribe (self p) (dependencies d)
        else Derived.resubscribe (self p) (dependencies d));
  Derived.setDependencies (self p) ds;;
  mret {| self := self p; isPassive := passive |}.

(** [onDirty(listener)] and the closure it returns; the same for
    [onChange]. *)
Definition onDirty (p : t) (l : listener) : M heap t :=
  ListenerManager.onDirty (self p) l;;
  updatePassive p.

Definition removeDirty (p : t) (l : listener) : M heap t :=
  ListenerManager.removeDirty (self p) l;;
  updatePassive p.

Definition onChange (p : t) (l : listener) : M heap t :=
  ListenerManager.onChange (self p) l;;
  updatePassive p.

Definition removeChange (p : t) (l : listener) : M heap t :=
  ListenerManager.removeChange (self p) l;;
  updatePassive p.

Section Programs.
Variable fuel : nat.

(** [const p = new PassiveDerived(watch => watch(s)); const a = p.get();
     const remove = p.onDirty(l); remove();
     s.set(x).commit();
     return [a, p.get(), s.get()]] *)
Definition listenedOnce (s l : nat) (x : jsval) : M heap (jsval * jsval * jsval) :=
  p ← new (fun _ => Watch s Return);
  a ← read fuel (self p);
  p1 ← onDirty p (UserListener l []);
  p2 ← removeDirty p1 (UserListener l []);
  setPlain fuel s x;;
  b ← read fuel (self p2);
  c ← read fuel s;
  mret (a, b, c).
End Programs.
End PassiveDerived.

(** ** A [Field] that mirrors a source (Field.ts) *)
Module FieldSource.
Section FieldSource.
Variable fuel : nat.

(** [const s = new PlainField(x0); const f = new Field(v, eq);
     f.setSource(s).commit(); const a = f.get();
     s.set(x1).commit(); return [a, f.get()]] *)
Definition mirror (v x0 x1 : jsval) (eq : jsval -> jsval -> bool) : M heap (jsval * jsval) :=
  s ← PlainField.new x0 PlainField.defaultEquals;
  f ← Field.new v eq;
  setFieldSource fuel f s;;
  a ← read fuel f;
  setPlain fuel s x1;;
  b ← read fuel f;
  mret (a, b).
End FieldSource.

(** The three objects of [mirror] after the first read of the field:
    the field, its inner field [val] and the source [s]; [a2] is the
    address of the record [{watchable: s}], [b] whether the
    unsubscribe functions of the dependencies are still there, [d]
    whether the field is dirty. *)
Definition field (val s a2 : nat) (x0 : jsval) (b d : bool) : object :=
  {| dirtyListeners := []; changeListeners := [];
     callingDirtyListeners := false; callingChangeListeners := false;
     dirty := d; signaled := d; value := x0;
     cls := DerivedClass
              {| compute := Field.fieldCompute val;
                 dependencies :=
                   [{| IDependency.watchable := val; IDependency.value := VSourceObj a2 s;
                       IDependency.unsubDirty := b; IDependency.unsubChange := b |};
                    {| IDependency.watchable := s; IDependency.value := x0;
                       IDependency.unsubDirty := b; IDependency.unsubChange := b |}];
                 computationID := 1; initialized := true |} (FieldClass val) |}.

Definition inner (s a2 : nat) (eq : jsval -> jsval -> bool)
    (dl cl : IterableWeakSet.t) : object :=
  {| dirtyListeners := dl; changeListeners := cl;
     callingDirtyListeners := false; callingChangeListeners := false;
     dirty := false; signaled := true; value := VSourceObj a2 s;
     cls := PlainFieldClass (Field.innerEquals eq) |}.

Definition source (x : jsval) (dl cl : IterableWeakSet.t) (d sg : bool) : object :=
  {| dirtyListeners := dl; changeListeners := cl;
     callingDirtyListeners := false; callingChangeListeners := false;
     dirty := d; signaled := sg; value := x;
     cls := PlainFieldClass PlainField.defaultEquals |}.
End FieldSource.

(** ** A throttle period (Throttled.ts) *)
Module ThrottledCycle.
Section ThrottledCycle.
Variable fuel : nat.

(** [t.get(); t.onDirty(l1); t.onChange(l2)] *)
Definition listen (t : nat) : M heap unit :=
  read fuel t;;
  ListenerManager.onDirty t (UserListener 1 []);;
  ListenerManager.onChange t (UserListener 2 []).

(** [const s = new PlainField(x0); const t = new Throttled(s, period);
     t.get(); t.onDirty(l1); t.onChange(l2);
     s.set(x1).commit(); return [s, t, t.get()]] *)
Definition passed (x0 x1 : jsval) (period : nat) : M heap (nat * nat * jsval) :=
  s ← PlainField.new x0 PlainField.defaultEquals;
  t ← Throttled.new s period;
  listen t;;
  setPlain fuel s x1;;
  b ← read fuel t;
  mret (s, t, b).

(** [s.set(x2).commit(); return t.get()] *)
Definition changed (s t : nat) (x2 : jsval) : M heap jsval :=
  setPlain fuel s x2;;
  read fuel t.

(** The timer [id] expires, and then [t.get()]. *)
Definition delivered (t id : nat) : M heap jsval :=
  fireTimeout fuel id;;
  read fuel t.

(** The timer [id] expires, and then [s.set(x2).commit(); t.get()]. *)
Definition released (s t id : nat) (x2 : jsval) : M heap jsval :=
  fireTimeout fuel id;;
  changed s t x2.
End ThrottledCycle.

(** The throttled value [t] of [passed] once it was read and is
    listened to: [e], [b] and [i] are its end signal, its start signal
    and its indicator, [dv] the value it saw of [s], [ud] and [uc]
    whether it still holds the unsubscribe functions. *)
Definition throttled (s p e b i : nat) (d sg : bool) (v dv : jsval) (ud uc : bool)
    (id : nat) (th : option Throttle.t) : object :=
  {| dirtyListeners := [Some (UserListener 1 [])];
     changeListeners := [Some (UserListener 2 [])];
     callingDirtyListeners := false; callingChangeListeners := false;
     dirty := d; signaled := sg; value := v;
     cls := DerivedClass
              {| compute := fun _ => Watch s Return;
                 dependencies :=
                   [{| IDependency.watchable := s; IDependency.value := dv;
                       IDependency.unsubDirty := ud; IDependency.unsubChange := uc |}];
                 computationID := id; initialized := true |}
              (ThrottledClass
                 {| source := s; period := p;
                    throttleEndSignal := e; throttleStartSignal := b;
                    throttle := th; activeIndicator := true; throttling := i |}) |}.

(** A running period of the given type, with what it withholds. *)
Definition epoch (ty : ISignal) (pending : option ISignal) (id : nat) : option Throttle.t :=
  Some {| Throttle.type := ty; Throttle.signal := pending; Throttle.timeoutID := id |}.

Definition timeout (id t p : nat) : timer :=
  {| timer_id := id; timer_target := t; timer_delay := p |}.
End ThrottledCycle.

(** * Theorems *)

(** ** Running method bodies *)

Lemma bind_Ok {S A B} (m : M S A) (f : A -> M S B) s s' a :
  m s = (s', Ok a) -> (m ≫= f) s = f a s'.
Proof. intros H. unfold mbind, M_bind. rewrite H. reflexivity. Qed.

Lemma bind_Throw {S A B} (m : M S A) (f : A -> M S B) s s' e :
  m s = (s', Throw e) -> (m ≫= f) s = (s', Throw e).
Proof. intros H. unfold mbind, M_bind. rewrite H. reflexivity. Qed.

Lemma exec_bind {S A B} (m : M S A) (f : A -> M S B) s s1 a X :
  m s = (s1, Ok a) -> f a s1 = X -> (m ≫= f) s = X.
Proof. intros H <-. apply bind_Ok, H. Qed.

Lemma getObject_lookup h w o : objects h !! w = Some o -> getObject w h = (h, Ok o).
Proof. intros H. unfold getObject. rewrite H. reflexivity. Qed.

Lemma update_lookup h w o f :
  objects h !! w = Some o -> update w f h = (store w (f o) h, Ok tt).
Proof. intros H. unfold update, modify, store, with_objects. rewrite H. reflexivity. Qed.

Lemma getDerived_lookup h w o d sub :
  objects h !! w = Some o -> cls o = DerivedClass d sub ->
  getDerived w h = (h, Ok d).
Proof.
  intros Ho Hc. unfold getDerived. rewrite (bind_Ok _ _ _ _ _ (getObject_lookup _ _ _ Ho)).
  rewrite Hc. reflexivity.
Qed.

Lemma getThrottled_lookup h w o d t :
  objects h !! w = Some o -> cls o = DerivedClass d (ThrottledClass t) ->
  getThrottled w h = (h, Ok t).
Proof.
  intros Ho Hc. unfold getThrottled. rewrite (bind_Ok _ _ _ _ _ (getObject_lookup _ _ _ Ho)).
  rewrite Hc. reflexivity.
Qed.

Lemma lookup_store_same h w o' :
  w < length (objects h) -> objects (store w o' h) !! w = Some o'.
Proof. intros H. simpl. apply list_lookup_insert_eq, H. Qed.

Lemma lookup_store_eq h w o o' :
  objects h !! w = Some o -> objects (store w o' h) !! w = Some o'.
Proof. intros H. apply lookup_store_same. eapply lookup_lt_Some, H. Qed.

Lemma lookup_store_ne h w w' o' :
  w <> w' -> objects (store w o' h) !! w' = objects h !! w'.
Proof. intros H. simpl. apply list_lookup_insert_ne, H. Qed.

Lemma store_store h w o1 o2 : store w o2 (store w o1 h) = store w o2 h.
Proof. unfold store, with_objects. simpl. f_equal. apply list_insert_insert_eq. Qed.

(** Symbolic execution of a method body on a heap whose relevant
    objects are known. *)
Ltac solve_lookup :=
  cbn [objects with_timers with_nextTimeoutID with_log with_nextAddr];
  lazymatch goal with
  | |- objects (store ?w _ _) !! ?w = Some _ =>
      apply lookup_store_same; simpl; rewrite ?length_insert; eapply lookup_lt_Some; eassumption
  | |- objects (store ?w _ _) !! ?w' = Some _ =>
      rewrite (lookup_store_ne _ w w') by congruence; solve_lookup
  | |- _ => first [eassumption | simpl; eassumption]
  end.

Ltac solve_run :=
  lazymatch goal with
  | |- getObject _ _ = _ => eapply getObject_lookup; solve_lookup
  | |- update _ _ _ = _ => eapply update_lookup; solve_lookup
  | |- getThrottled _ _ = _ => eapply getThrottled_lookup; [solve_lookup | simpl; eassumption]
  | |- getDerived _ _ = _ => eapply getDerived_lookup; [solve_lookup | simpl; eassumption]
  | |- (_ ≫= _) _ = _ => eapply exec_bind; [solve_run | cbv beta; solve_run]
  | |- _ => reflexivity
  end.

Ltac exec := eapply exec_bind; [solve_run | cbv beta].

(** ** Mutator *)

Section MutatorFacts.
Context {W R I : Type} (cb : Mutator.callbacks W R I).
Implicit Types s : Mutator.state W I.

#[local] Ltac unfold_mutator :=
  unfold Mutator.commit, Mutator.perform, Mutator.signal, Mutator.invoke,
    Mutator.set_performed, Mutator.set_signaled, Mutator.set_passed,
    mbind, M_bind, gets, when, throw, modify, mret, M_ret.

Lemma in_snoc_invoked (x y : Mutator.invoked) l : In x (l ++ [y]) <-> In x l \/ x = y.
Proof. rewrite in_app_iff. simpl. intuition congruence. Qed.

Lemma commit_tracks s :
  Mutator.flags_track_invocations s -> Mutator.flags_track_invocations (fst (Mutator.commit cb s)).
Proof.
  intros [Hp Hs]. unfold Mutator.flags_track_invocations, Mutator.perform_ran, Mutator.signal_ran in *.
  unfold_mutator.
  destruct (Mutator.performed s) eqn:Ep; simpl; [rewrite Ep; split; assumption|].
  destruct (Mutator.signaled s) eqn:Es; simpl; [rewrite Ep, Es; split; assumption|].
  destruct (Mutator.performCB cb (Mutator.world s)) as [w1 [[res pass]|e]]; simpl.
  - destruct (Mutator.signalCB cb pass w1) as [w2 [[]|e]]; simpl;
      rewrite !in_snoc_invoked; intuition congruence.
  - rewrite Es, !in_snoc_invoked. intuition congruence.
Qed.

Lemma perform_tracks s :
  Mutator.flags_track_invocations s -> Mutator.flags_track_invocations (fst (Mutator.perform cb s)).
Proof.
  intros [Hp Hs]. unfold Mutator.flags_track_invocations, Mutator.perform_ran, Mutator.signal_ran in *.
  unfold_mutator.
  destruct (Mutator.performed s) eqn:Ep; simpl; [rewrite Ep; split; assumption|].
  destruct (Mutator.performCB cb (Mutator.world s)) as [w1 [[res pass]|e]]; simpl;
    rewrite !in_snoc_invoked; intuition congruence.
Qed.

Lemma signal_tracks s :
  Mutator.flags_track_invocations s -> Mutator.flags_track_invocations (fst (Mutator.signal cb s)).
Proof.
  intros [Hp Hs]. unfold Mutator.flags_track_invocations, Mutator.perform_ran, Mutator.signal_ran in *.
  unfold_mutator.
  destruct (Mutator.performed s) eqn:Ep; simpl; [|rewrite Ep; split; assumption].
  destruct (Mutator.signaled s) eqn:Es; simpl; [rewrite Ep, Es; split; assumption|].
  destruct (Mutator.signalCB cb (Mutator.passed s) (Mutator.world s)) as [w2 [[]|e]]; simpl;
    rewrite !in_snoc_invoked; intuition congruence.
Qed.

Lemma reachable_tracks s : Mutator.reachable cb s -> Mutator.flags_track_invocations s.
Proof.
  induction 1 as [w|o s _ IH].
  - unfold Mutator.flags_track_invocations, Mutator.perform_ran, Mutator.signal_ran; simpl.
    intuition congruence.
  - destruct o; unfold Mutator.run_op.
    + pose proof (commit_tracks s IH) as H.
      unfold mbind, M_bind. destruct (Mutator.commit cb s) as [s1 [r|e]]; exact H.
    + pose proof (perform_tracks s IH) as H.
      unfold mbind, M_bind. destruct (Mutator.perform cb s) as [s1 [r|e]]; exact H.
    + exact (signal_tracks s IH).
Qed.

(** An operation that gets past its guard invokes a callback, so it
    cannot leave the state as it was. *)
Lemma longer_invocations_neq s s' l :
  Mutator.invocations s' = Mutator.invocations s ++ l -> l <> [] -> s' <> s.
Proof.
  intros H Hl ->. apply Hl. apply (f_equal length) in H.
  rewrite length_app in H. destruct l; [reflexivity|simpl in H; lia].
Qed.

#[local] Ltac changed_state H :=
  exfalso; revert H; eapply longer_invocations_neq; simpl;
  [rewrite <- ?app_assoc; reflexivity | discriminate].

Lemma commit_rejected_iff s :
  Mutator.rejected (Mutator.commit cb) s
  <-> Mutator.performed s = true \/ Mutator.signaled s = true.
Proof.
  split.
  - intros (e & He & _). revert He. unfold_mutator.
    destruct (Mutator.performed s) eqn:Ep; simpl; [auto|].
    destruct (Mutator.signaled s) eqn:Es; simpl; [auto|].
    destruct (Mutator.performCB cb (Mutator.world s)) as [w1 [[res pass]|e']]; simpl.
    + destruct (Mutator.signalCB cb pass w1) as [w2 [[]|e']]; simpl; intros [= H _];
        changed_state H.
    + intros [= H _]. changed_state H.
  - intros H. unfold Mutator.rejected. unfold_mutator.
    destruct (Mutator.performed s) eqn:Ep; simpl.
    + exists PerformedOnce. split; reflexivity.
    + destruct H as [H|H]; [discriminate|]. rewrite H. simpl.
      exists SignaledOnce. split; reflexivity.
Qed.

Lemma perform_rejected_iff s :
  Mutator.rejected (Mutator.perform cb) s <-> Mutator.performed s = true.
Proof.
  split.
  - intros (e & He & _). revert He. unfold_mutator.
    destruct (Mutator.performed s) eqn:Ep; simpl; [auto|].
    destruct (Mutator.performCB cb (Mutator.world s)) as [w1 [[res pass]|e']]; simpl;
      intros [= H _]; changed_state H.
  - intros H. unfold Mutator.rejected. unfold_mutator. rewrite H. simpl.
    exists PerformedOnce. split; reflexivity.
Qed.

Lemma signal_rejected_iff s :
  Mutator.rejected (Mutator.signal cb) s
  <-> Mutator.performed s = false \/ Mutator.signaled s = true.
Proof.
  split.
  - intros (e & He & _). revert He. unfold_mutator.
    destruct (Mutator.performed s) eqn:Ep; simpl; [|auto].
    destruct (Mutator.signaled s) eqn:Es; simpl; [auto|].
    destruct (Mutator.signalCB cb (Mutator.passed s) (Mutator.world s)) as [w2 [[]|e']];
      simpl; intros [= H _]; changed_state H.
  - intros H. unfold Mutator.rejected. unfold_mutator.
    destruct (Mutator.performed s) eqn:Ep; simpl.
    + destruct H as [H|H]; [discriminate|]. rewrite H. simpl.
      exists SignaledOnce. split; reflexivity.
    + exists SignalBeforePerform. split; reflexivity.
Qed.

Lemma commit_sets_performed s s1 r :
  Mutator.commit cb s = (s1, r) ->
  Mutator.performed s1 = true \/ Mutator.signaled s1 = true.
Proof.
  unfold_mutator.
  destruct (Mutator.performed s) eqn:Ep; simpl; [intros [= <- _]; auto|].
  destruct (Mutator.signaled s) eqn:Es; simpl; [intros [= <- _]; auto|].
  destruct (Mutator.performCB cb (Mutator.world s)) as [w1 [[res pass]|e']]; simpl.
  - destruct (Mutator.signalCB cb pass w1) as [w2 [[]|e']]; simpl;
      intros [= <- _]; auto.
  - intros [= <- _]; auto.
Qed.

Lemma commit_success s s1 r :
  Mutator.commit cb s = (s1, Ok r) ->
  Mutator.invocations s1
    = Mutator.invocations s ++ [Mutator.PerformCB; Mutator.SignalCB]
  /\ exists w1 pass,
       Mutator.performCB cb (Mutator.world s) = (w1, Ok (r, pass))
       /\ Mutator.signalCB cb pass w1 = (Mutator.world s1, Ok tt).
Proof.
  unfold_mutator.
  destruct (Mutator.performed s) eqn:Ep; simpl; [discriminate|].
  destruct (Mutator.signaled s) eqn:Es; simpl; [discriminate|].
  destruct (Mutator.performCB cb (Mutator.world s)) as [w1 [[res pass]|e']]; simpl;
    [|discriminate].
  destruct (Mutator.signalCB cb pass w1) as [w2 [[]|e']] eqn:Esig; simpl; [|discriminate].
  intros [= <- <-]. simpl. rewrite <- app_assoc. split; [reflexivity|].
  exists w1, pass. split; [reflexivity|exact Esig].
Qed.

(** C5, as the code has it.  Single consumption of a mutator.  In any
    state a mutator can reach after its construction: [commit] is
    rejected by the mutator's own guard (it throws one of the mutator's
    own errors, invokes no callback and leaves the state as it was)
    exactly when the perform or the signal callback has already been
    invoked; [perform] is rejected exactly when the perform callback has
    already been invoked; [signal] is rejected exactly when the perform
    callback has not been invoked or the signal callback has; whatever a
    [commit] did, the next [commit] is rejected; a [commit] that returns
    invoked the perform callback and then the signal callback, the
    latter on the world and with the data the former left; and a
    [commit] or [perform] that the guard lets through ends with
    whatever error its perform callback throws. *)
Theorem mutator_single_consumption s :
  Mutator.reachable cb s ->
  (Mutator.rejected (Mutator.commit cb) s
     <-> Mutator.perform_ran s \/ Mutator.signal_ran s)
  /\ (Mutator.rejected (Mutator.perform cb) s <-> Mutator.perform_ran s)
  /\ (Mutator.rejected (Mutator.signal cb) s
        <-> ~ Mutator.perform_ran s \/ Mutator.signal_ran s)
  /\ (forall s1 r, Mutator.commit cb s = (s1, r) ->
        Mutator.rejected (Mutator.commit cb) s1)
  /\ (forall s1 r, Mutator.commit cb s = (s1, Ok r) ->
        Mutator.invocations s1
          = Mutator.invocations s ++ [Mutator.PerformCB; Mutator.SignalCB]
        /\ exists w1 pass,
             Mutator.performCB cb (Mutator.world s) = (w1, Ok (r, pass))
             /\ Mutator.signalCB cb pass w1 = (Mutator.world s1, Ok tt))
  /\ (forall w1 e,
        ~ Mutator.perform_ran s -> ~ Mutator.signal_ran s ->
        Mutator.performCB cb (Mutator.world s) = (w1, Throw e) ->
        snd (Mutator.commit cb s) = Throw e /\ snd (Mutator.perform cb s) = Throw e).
Proof.
  intros Hreach. destruct (reachable_tracks s Hreach) as [Hp Hs].
  assert (Hthrows : forall w1 e,
            ~ Mutator.perform_ran s -> ~ Mutator.signal_ran s ->
            Mutator.performCB cb (Mutator.world s) = (w1, Throw e) ->
            snd (Mutator.commit cb s) = Throw e /\ snd (Mutator.perform cb s) = Throw e).
  { intros w1 e Hnp Hns Hcb.
    assert (Hpf : Mutator.performed s = false)
      by (destruct (Mutator.performed s); [exfalso; tauto|reflexivity]).
    assert (Hsf : Mutator.signaled s = false)
      by (destruct (Mutator.signaled s); [exfalso; tauto|reflexivity]).
    split; unfold_mutator; rewrite ?Hpf, ?Hsf; simpl; rewrite Hcb; reflexivity. }
  split; [|split; [|split; [|split; [|split; [|exact Hthrows]]]]]; clear Hthrows.
  all: repeat split.
  - intros H. apply commit_rejected_iff in H. tauto.
  - intros H. apply commit_rejected_iff. tauto.
  - intros H. apply perform_rejected_iff in H. tauto.
  - intros H. apply perform_rejected_iff. tauto.
  - intros H. apply signal_rejected_iff in H.
    destruct H as [H|H]; [left|right; tauto].
    intros Hran. apply Hp in Hran. congruence.
  - intros H. apply signal_rejected_iff.
    destruct H as [H|H]; [left|right; tauto].
    destruct (Mutator.performed s); [|reflexivity]. exfalso. tauto.
  - intros s1 r H. apply commit_rejected_iff. eapply commit_sets_performed, H.
  - eapply commit_success; eassumption.
  - eapply commit_success; eassumption.
Qed.

Lemma run_ops_rejected s os :
  Mutator.performed s = true ->
  Forall (fun o => o = Mutator.Commit \/ o = Mutator.Perform) os ->
  exists rs,
    Mutator.run_ops cb os s = (s, rs)
    /\ length rs = length os
    /\ Forall (fun r => exists e, r = Throw e /\ MutationAlreadyConsumed e = true) rs.
Proof.
  intros Hp. induction 1 as [|o os Ho _ IH]; simpl.
  - exists []. repeat split; constructor.
  - destruct IH as (rs & Hrs & Hlen & Hall).
    assert (Mutator.run_op cb o s = (s, Throw PerformedOnce)) as ->.
    { destruct Ho as [-> | ->]; unfold Mutator.run_op; unfold_mutator;
        rewrite Hp; reflexivity. }
    rewrite Hrs. exists (Throw PerformedOnce :: rs).
    repeat split; simpl; [congruence|].
    constructor; [|assumption]. exists PerformedOnce. split; reflexivity.
Qed.

(** C10. A mutator whose perform callback throws is consumed.  When the
    perform callback throws [e] from a mutator on which nothing ran yet,
    [commit] and [perform] both end with [e], having set [performed] and
    invoked the perform callback only; after that every [commit] and
    every [perform] is rejected with the mutator's own error and changes
    nothing, so the signal callback is not invoked and the perform
    callback is not retried. *)
Theorem mutator_consumed_on_failing_perform s w1 e :
  Mutator.performed s = false ->
  Mutator.signaled s = false ->
  Mutator.performCB cb (Mutator.world s) = (w1, Throw e) ->
  let s' := {| Mutator.performed := true; Mutator.signaled := false;
               Mutator.passed := Mutator.passed s; Mutator.world := w1;
               Mutator.invocations := Mutator.invocations s ++ [Mutator.PerformCB] |} in
  Mutator.commit cb s = (s', Throw e)
  /\ Mutator.perform cb s = (s', Throw e)
  /\ forall os,
       Forall (fun o => o = Mutator.Commit \/ o = Mutator.Perform) os ->
       exists rs,
         Mutator.run_ops cb os s' = (s', rs)
         /\ length rs = length os
         /\ Forall (fun r => exists e', r = Throw e' /\ MutationAlreadyConsumed e' = true) rs.
Proof.
  intros Hp Hs Hcb s'. repeat split.
  - unfold_mutator. rewrite Hp, Hs. simpl. rewrite Hcb. simpl. subst s'.
    rewrite Hs. reflexivity.
  - unfold_mutator. rewrite Hp. simpl. rewrite Hcb. simpl. subst s'.
    rewrite Hs. reflexivity.
  - intros os Hos. apply run_ops_rejected; [reflexivity|assumption].
Qed.

End MutatorFacts.

Lemma mutator_single_consumption_witness :
  (Mutator.rejected (Mutator.perform Scenario.journalling)
     (fst (Mutator.run_op Scenario.journalling Mutator.Commit (Mutator.new [])))
   <-> Mutator.perform_ran
         (fst (Mutator.run_op Scenario.journalling Mutator.Commit (Mutator.new []))))
  /\ snd (Mutator.commit Scenario.failing (Mutator.new [])) = Throw (UserError 0)
  /\ snd (Mutator.perform Scenario.failing (Mutator.new [])) = Throw (UserError 0).
Proof.
  split.
  - apply (mutator_single_consumption Scenario.journalling).
    apply Mutator.reachable_step, Mutator.reachable_new.
  - destruct (mutator_single_consumption Scenario.failing (Mutator.new [])
                (Mutator.reachable_new _ _)) as (_ & _ & _ & _ & _ & Hthrows).
    apply (Hthrows [1] (UserError 0)).
    + intros H. exact H.
    + intros H. exact H.
    + reflexivity.
Defined.

(** C5 as stated fails.  [b] is a mutator that was committed, and [m]
    a new mutator whose callbacks call [b.perform()] and [b.signal()].
    No callback of [m] was invoked yet, and [m.commit()] passes [m]'s
    guard and invokes its perform callback, but it ends in the
    already-consumed error all the same: the one [b.perform()] throws. *)
Lemma fresh_commit_ends_in_already_consumed :
  Mutator.invocations
    (Mutator.new (I := unit)
       (fst (Mutator.commit Scenario.journalling (Mutator.new [])))) = []
  /\ Mutator.commit Scenario.wrapping
       (Mutator.new (fst (Mutator.commit Scenario.journalling (Mutator.new []))))
     = ({| Mutator.performed := true; Mutator.signaled := false;
           Mutator.passed := None;
           Mutator.world := fst (Mutator.commit Scenario.journalling (Mutator.new []));
           Mutator.invocations := [Mutator.PerformCB] |},
        Throw PerformedOnce)
  /\ MutationAlreadyConsumed PerformedOnce = true.
Proof. vm_compute. repeat split; reflexivity. Qed.

Lemma mutator_consumed_on_failing_perform_witness :
  Mutator.commit Scenario.failing (Mutator.new [])
  = ({| Mutator.performed := true; Mutator.signaled := false;
        Mutator.passed := None; Mutator.world := [1];
        Mutator.invocations := [Mutator.PerformCB] |}, Throw (UserError 0)).
Proof.
  apply (mutator_consumed_on_failing_perform Scenario.failing (Mutator.new []) [1] (UserError 0));
    reflexivity.
Defined.

(** ** Recording listeners *)

Lemma log_append_nil h : with_log (fun l => l ++ []) h = h.
Proof. destruct h. unfold with_log. simpl. rewrite app_nil_r. reflexivity. Qed.

Lemma log_append_append es es' h :
  with_log (fun l => l ++ es') (with_log (fun l => l ++ es) h)
  = with_log (fun l => l ++ es ++ es') h.
Proof. destruct h. unfold with_log. simpl. rewrite app_assoc. reflexivity. Qed.

Lemma run_mock fuel n h :
  run (S fuel) (CallListener (UserListener n [])) h
  = (with_log (fun l => l ++ [Called n]) h, Ok VUndefined).
Proof. reflexivity. Qed.

(** The loop over a set of recording listeners calls each live one, in
    insertion order, and touches nothing but the log. *)
Lemma loopChange_mocks w o : forall k i fuel h,
  objects h !! w = Some o ->
  length (changeListeners o) - i <= k ->
  k + 2 <= fuel ->
  Forall isMock (IterableWeakSet.values (drop i (changeListeners o))) ->
  run fuel (LoopChange w i) h
  = (with_log (fun l => l ++ (IterableWeakSet.values (drop i (changeListeners o)) ≫= recordedBy)) h,
     Ok VUndefined).
Proof.
  unfold IterableWeakSet.values.
  induction k as [|k IH]; intros i fuel h Ho Hlen Hfuel Hm.
  - destruct fuel as [|fuel]; [lia|]. simpl. unfold ListenerManager.loopChange.
    rewrite (bind_Ok _ _ _ _ _ (getObject_lookup _ _ _ Ho)).
    rewrite lookup_ge_None_2 by lia. rewrite drop_ge by lia. simpl.
    rewrite log_append_nil. reflexivity.
  - destruct fuel as [|fuel]; [lia|]. simpl. unfold ListenerManager.loopChange.
    rewrite (bind_Ok _ _ _ _ _ (getObject_lookup _ _ _ Ho)).
    destruct (changeListeners o !! i) as [e|] eqn:Hi.
    + rewrite (drop_S _ _ _ Hi) in *.
      destruct e as [l|].
      * simpl in Hm. apply Forall_cons in Hm as [[n ->] Hm].
        destruct fuel as [|fuel]; [lia|].
        rewrite (bind_Ok _ _ _ _ _ (run_mock _ _ _)).
        rewrite (IH (S i) (S fuel)); [|exact Ho|lia|lia|exact Hm].
        rewrite log_append_append. reflexivity.
      * rewrite (IH (S i) fuel); [|exact Ho|lia|lia|exact Hm].
        reflexivity.
    + rewrite drop_ge by (apply lookup_ge_None_1, Hi). simpl.
      rewrite log_append_nil. reflexivity.
Qed.

Lemma loopDirty_mocks w o : forall k i fuel h,
  objects h !! w = Some o ->
  length (dirtyListeners o) - i <= k ->
  k + 2 <= fuel ->
  Forall isMock (IterableWeakSet.values (drop i (dirtyListeners o))) ->
  run fuel (LoopDirty w i) h
  = (with_log (fun l => l ++ (IterableWeakSet.values (drop i (dirtyListeners o)) ≫= recordedBy)) h,
     Ok VUndefined).
Proof.
  unfold IterableWeakSet.values.
  induction k as [|k IH]; intros i fuel h Ho Hlen Hfuel Hm.
  - destruct fuel as [|fuel]; [lia|]. simpl. unfold ListenerManager.loopDirty.
    rewrite (bind_Ok _ _ _ _ _ (getObject_lookup _ _ _ Ho)).
    rewrite lookup_ge_None_2 by lia. rewrite drop_ge by lia. simpl.
    rewrite log_append_nil. reflexivity.
  - destruct fuel as [|fuel]; [lia|]. simpl. unfold ListenerManager.loopDirty.
    rewrite (bind_Ok _ _ _ _ _ (getObject_lookup _ _ _ Ho)).
    destruct (dirtyListeners o !! i) as [e|] eqn:Hi.
    + rewrite (drop_S _ _ _ Hi) in *.
      destruct e as [l|].
      * simpl in Hm. apply Forall_cons in Hm as [[n ->] Hm].
        destruct fuel as [|fuel]; [lia|].
        rewrite (bind_Ok _ _ _ _ _ (run_mock _ _ _)).
        rewrite (IH (S i) (S fuel)); [|exact Ho|lia|lia|exact Hm].
        rewrite log_append_append. reflexivity.
      * rewrite (IH (S i) fuel); [|exact Ho|lia|lia|exact Hm].
        reflexivity.
    + rewrite drop_ge by (apply lookup_ge_None_1, Hi). simpl.
      rewrite log_append_nil. reflexivity.
Qed.

Lemma commit_new (cb : Mutator.callbacks heap unit unit) h h1 h2 r p :
  Mutator.performCB cb h = (h1, Ok (r, p)) ->
  Mutator.signalCB cb p h1 = (h2, Ok tt) ->
  commit cb h = (h2, Ok r).
Proof.
  intros Hp Hs. unfold commit, Mutator.commit, Mutator.invoke, Mutator.new.
  unfold mbind, M_bind, gets, when, modify, mret, M_ret. simpl.
  rewrite Hp. simpl. rewrite Hs. destruct r. reflexivity.
Qed.

Lemma store_log w o es h :
  store w o (with_log es h) = with_log es (store w o h).
Proof. reflexivity. Qed.

Lemma callDirtyListeners_mocks fuel h w o :
  objects h !! w = Some o ->
  Forall isMock (IterableWeakSet.values (dirtyListeners o)) ->
  length (dirtyListeners o) + 2 <= fuel ->
  ListenerManager.callDirtyListeners (run fuel) w h
  = (if dirty o then h
     else with_log (fun l => l ++ calls (dirtyListeners o)) (store w (afterDirtyBroadcast o) h),
     Ok tt).
Proof.
  intros Ho Hm Hfuel. unfold ListenerManager.callDirtyListeners.
  exec. destruct (dirty o) eqn:Hd; [reflexivity|].
  exec. exec. exec.
  eapply exec_bind.
  { eapply (loopDirty_mocks w _ (length (dirtyListeners o)) 0 fuel).
    - solve_lookup.
    - simpl. lia.
    - simpl. lia.
    - simpl. exact Hm. }
  cbv beta. simpl dirtyListeners. rewrite drop_0.
  erewrite update_lookup by solve_lookup.
  f_equal. unfold store, with_objects, with_log. simpl. f_equal.
  rewrite !list_insert_insert_eq. reflexivity.
Qed.

Lemma callChangeListeners_mocks fuel h w o :
  objects h !! w = Some o ->
  Forall isMock (IterableWeakSet.values (changeListeners o)) ->
  length (changeListeners o) + 2 <= fuel ->
  ListenerManager.callChangeListeners (run fuel) w h
  = (if signaled o then h
     else with_log (fun l => l ++ calls (changeListeners o)) (store w (afterChangeBroadcast o) h),
     Ok tt).
Proof.
  intros Ho Hm Hfuel. unfold ListenerManager.callChangeListeners.
  exec. destruct (signaled o) eqn:Hd; [reflexivity|].
  exec. exec.
  eapply exec_bind.
  { eapply (loopChange_mocks w _ (length (changeListeners o)) 0 fuel).
    - solve_lookup.
    - simpl. lia.
    - simpl. lia.
    - simpl. exact Hm. }
  cbv beta. simpl changeListeners. rewrite drop_0.
  erewrite update_lookup by solve_lookup.
  f_equal. unfold store, with_objects, with_log. simpl. f_equal.
  rewrite !list_insert_insert_eq. reflexivity.
Qed.

Lemma store_same h w o : objects h !! w = Some o -> store w o h = h.
Proof.
  intros H. destruct h. unfold store, with_objects. simpl in *. f_equal.
  apply list_insert_id, H.
Qed.

Lemma setPlain_mocks fuel h w o eq v :
  objects h !! w = Some o ->
  cls o = PlainFieldClass eq ->
  mockListeners o ->
  length (dirtyListeners o) + length (changeListeners o) + 2 <= fuel ->
  setPlain fuel w v h
  = (with_log (fun l => l ++ snd (commitPlain eq v o)) (store w (fst (commitPlain eq v o)) h),
     Ok tt).
Proof.
  intros Ho Hc [Hmd Hmc] Hfuel. unfold setPlain.
  unfold commitPlain, performPlain.
  destruct (eq (value o) v) eqn:Heq.
  - (* equal: perform does nothing *)
    eapply commit_new.
    + simpl. unfold PlainField.set_perform.
      eapply exec_bind; [exec; rewrite Hc, Heq; reflexivity|reflexivity].
    + simpl. unfold PlainField.set_signal.
      rewrite (callChangeListeners_mocks fuel h w o Ho Hmc) by lia.
      unfold signalPlain. destruct (signaled o); simpl.
      * rewrite log_append_nil, store_same by exact Ho. reflexivity.
      * reflexivity.
  - destruct (dirty o) eqn:Hd.
    + eapply commit_new.
      * simpl. unfold PlainField.set_perform.
        eapply exec_bind; [|reflexivity].
        exec. rewrite Hc, Heq.
        rewrite (bind_Ok _ _ _ _ _ (callDirtyListeners_mocks fuel h w o Ho Hmd ltac:(lia))).
        rewrite Hd. solve_run.
      * simpl. unfold PlainField.set_signal.
        erewrite (callChangeListeners_mocks fuel _ w (with_value v o)); 
          [|solve_lookup|exact Hmc|simpl; lia].
        unfold signalPlain. simpl. destruct (signaled o); simpl.
        -- rewrite log_append_nil. reflexivity.
        -- rewrite store_store. reflexivity.
    + eapply commit_new.
      * simpl. unfold PlainField.set_perform.
        eapply exec_bind; [|reflexivity].
        exec. rewrite Hc, Heq.
        rewrite (bind_Ok _ _ _ _ _ (callDirtyListeners_mocks fuel h w o Ho Hmd ltac:(lia))).
        rewrite Hd. eapply update_lookup. solve_lookup.
      * simpl. unfold PlainField.set_signal.
        erewrite (callChangeListeners_mocks fuel _ w (with_value v (afterDirtyBroadcast o)));
          [|solve_lookup|exact Hmc|simpl; lia].
        unfold signalPlain. simpl.
        rewrite !store_log, !store_store, log_append_append. reflexivity.
Qed.

(** First commit on a fresh PlainField *)
Lemma fresh_plain_commit fuel h w init eq dl cl v :
  objects h !! w = Some (withListeners dl cl (newObject init (PlainFieldClass eq))) ->
  eq init v = false ->
  Forall isMock (IterableWeakSet.values cl) ->
  length cl + 3 <= fuel ->
  setPlain fuel w v h
  = (with_log (fun l => l ++ (IterableWeakSet.values cl ≫= recordedBy))
       (store w (with_signaled true (with_value v
                  (withListeners dl cl (newObject init (PlainFieldClass eq))))) h),
     Ok tt).
Proof.
  intros Ho Heq Hm Hfuel. unfold setPlain.
  set (o := withListeners dl cl (newObject init (PlainFieldClass eq))) in *.
  eapply commit_new.
  - simpl. unfold PlainField.set_perform.
    eapply exec_bind.
    { exec. simpl. rewrite Heq. unfold ListenerManager.callDirtyListeners.
      eapply exec_bind; [exec; reflexivity|cbv beta]. solve_run. }
    reflexivity.
  - simpl. unfold PlainField.set_signal, ListenerManager.callChangeListeners.
    exec. simpl. exec. exec.
    eapply exec_bind.
    { eapply (loopChange_mocks w _ (length cl) 0 fuel).
      - solve_lookup.
      - simpl. lia.
      - lia.
      - simpl. exact Hm. }
    cbv beta. simpl changeListeners. rewrite drop_0.
    erewrite update_lookup by solve_lookup.
    f_equal. unfold store, with_objects, with_log. simpl. f_equal.
    rewrite !list_insert_insert_eq. reflexivity.
Qed.

Lemma fresh_field_commit fuel h w ow d val init eq v :
  objects h !! w = Some ow ->
  cls ow = DerivedClass d (FieldClass val) ->
  objects h !! val = Some (newObject init (PlainFieldClass (Field.innerEquals eq))) ->
  Field.innerEquals eq init (VPlainObj (nextAddr h) v) = false ->
  2 <= fuel ->
  setField fuel w v h
  = (with_nextAddr (S (nextAddr h))
       (store val (with_signaled true (with_value (VPlainObj (nextAddr h) v)
                     (newObject init (PlainFieldClass (Field.innerEquals eq))))) h),
     Ok tt).
Proof.
  intros How Hc Hval Heq Hfuel. unfold setField, Field.set, Field.getVal.
  eapply exec_bind.
  { eapply exec_bind; [exec; rewrite Hc; reflexivity|cbv beta].
    eapply exec_bind; [reflexivity|cbv beta]. reflexivity. }
  cbv beta.
  set (nv := VPlainObj (nextAddr h) v) in *.
  set (o := newObject init (PlainFieldClass (Field.innerEquals eq))) in *.
  assert (Hval1 : objects (with_nextAddr (S (nextAddr h)) h) !! val = Some o) by exact Hval.
  eapply commit_new.
  - simpl. unfold PlainField.set_perform.
    eapply exec_bind.
    { exec. simpl. rewrite Heq. unfold ListenerManager.callDirtyListeners.
      eapply exec_bind; [exec; reflexivity|cbv beta]. solve_run. }
    reflexivity.
  - simpl. unfold PlainField.set_signal, ListenerManager.callChangeListeners.
    exec. simpl. exec. exec.
    eapply exec_bind.
    { eapply (loopChange_mocks val _ 0 0 fuel).
      - solve_lookup.
      - simpl. lia.
      - lia.
      - simpl. constructor. }
    cbv beta. simpl. rewrite log_append_nil.
    erewrite update_lookup by solve_lookup.
    f_equal. unfold store, with_objects, with_nextAddr. simpl. f_equal.
    rewrite !list_insert_insert_eq. reflexivity.
Qed.

(** ** Field: inner equality *)

Lemma innerEquals_sameState eq oldVal newVal :
  Field.innerEquals eq oldVal newVal = true <-> sameState eq oldVal newVal.
Proof.
  unfold Field.innerEquals.
  destruct oldVal, newVal; simpl;
    rewrite ?orb_false_r, ?andb_false_r, ?Nat.eqb_eq;
    first [tauto | split; [discriminate|tauto]].
Qed.

Lemma update_value_visible w f h h' o :
  update w f h = (h', Ok tt) -> objects h' !! w = Some o -> exists o', o = f o'.
Proof.
  unfold update, modify, with_objects. intros [= <-]. simpl.
  destruct (objects h !! w) as [o'|] eqn:Hw.
  - rewrite list_lookup_insert_eq by (eapply lookup_lt_Some, Hw). intros [= <-]. eauto.
  - congruence.
Qed.

Lemma set_perform_noop_iff eq rec h val o newVal :
  objects h !! val = Some o ->
  cls o = PlainFieldClass (Field.innerEquals eq) ->
  (forall a, recordAddr (value o) = Some a -> recordAddr newVal <> Some a) ->
  is_Some (recordAddr newVal) ->
  Mutator.performCB (PlainField.set rec val newVal) h = (h, Ok (tt, None))
  <-> sameState eq (value o) newVal.
Proof.
  intros Ho Hc Hfresh Hrec. rewrite <- innerEquals_sameState.
  unfold PlainField.set, Mutator.plain. cbn [Mutator.performCB].
  unfold PlainField.set_perform.
  unfold mbind at 1. unfold M_bind at 1.
  rewrite (bind_Ok _ _ _ _ _ (getObject_lookup _ _ _ Ho)).
  rewrite Hc. destruct (Field.innerEquals eq (value o) newVal) eqn:He.
  - split; [reflexivity|]. intros _. reflexivity.
  - split; [|discriminate]. intros H. exfalso.
    unfold mbind, M_bind in H.
    destruct (ListenerManager.callDirtyListeners rec val h) as [h1 [[]|e]]; [|discriminate].
    destruct (update val (with_value newVal) h1) as [h2 [[]|e]] eqn:Hu; [|discriminate].
    injection H as ->.
    destruct (update_value_visible _ _ _ _ _ Hu Ho) as [o' ->].
    simpl in Hfresh. destruct Hrec as [a Ha]. exact (Hfresh a Ha Ha).
Qed.

(** ** Reads outside any dirty dispatch *)

Section Keeps.
Variable I : heap -> Prop.
Variable Eok : error -> Prop.

Lemma keeps_ret {A} (a : A) : keeps I Eok (mret a).
Proof. intros h H. exact H. Qed.

Lemma keeps_bind {A B} (m : M heap A) (f : A -> M heap B) :
  keeps I Eok m -> (forall a, keeps I Eok (f a)) -> keeps I Eok (m ≫= f).
Proof.
  intros Hm Hf h H. unfold mbind, M_bind. specialize (Hm h H).
  destruct (m h) as [h1 [a|e]]; [apply Hf, Hm|exact Hm].
Qed.

Lemma keeps_throw {A} e : Eok e -> keeps I Eok (@throw heap A e).
Proof. intros He h H. split; assumption. Qed.

Lemma keeps_gets {A} (f : heap -> A) : keeps I Eok (gets f).
Proof. intros h H. exact H. Qed.

Lemma keeps_when b (m : M heap unit) : keeps I Eok m -> keeps I Eok (when b m).
Proof. destruct b; [auto|intros _; apply keeps_ret]. Qed.

Lemma keeps_forEach {A} (xs : list A) (body : A -> M heap unit) :
  (forall x, keeps I Eok (body x)) -> keeps I Eok (forEach xs body).
Proof.
  intros Hb. induction xs as [|x xs IH]; simpl.
  - apply keeps_ret.
  - apply keeps_bind; [apply Hb|intros _; exact IH].
Qed.

Hypothesis Eok_BadReference : Eok BadReference.

Lemma keeps_getObject w : keeps I Eok (getObject w).
Proof.
  intros h H. unfold getObject. destruct (objects h !! w); [exact H|split; assumption].
Qed.

Lemma keeps_getDerived w : keeps I Eok (getDerived w).
Proof.
  apply keeps_bind; [apply keeps_getObject|]. intros o.
  destruct (cls o); first [apply keeps_ret|apply keeps_throw; assumption].
Qed.

Lemma keeps_getThrottled w : keeps I Eok (getThrottled w).
Proof.
  apply keeps_bind; [apply keeps_getObject|]. intros o.
  destruct (cls o) as [| d [| |]|]; first [apply keeps_ret|apply keeps_throw; assumption].
Qed.
End Keeps.

Lemma NoDispatch_update w f :
  (forall o, callingDirtyListeners (f o) = callingDirtyListeners o) ->
  forall Eok, keeps NoDispatch Eok (update w f).
Proof.
  intros Hf Eok h H. simpl.
  intros w' o'. simpl. destruct (objects h !! w) as [o|] eqn:Ho; [|apply H].
  destruct (decide (w = w')) as [<-|Hne].
  - rewrite list_lookup_insert_eq by (eapply lookup_lt_Some; eauto).
    intros [= <-]. rewrite Hf. eapply H; eauto.
  - rewrite list_lookup_insert_ne by assumption. apply H.
Qed.

Section Quiet.
Variable rec : recursion.
Hypothesis rec_get : forall w, keeps NoDispatch notDirtyDispatch (rec (CallGet w)).

#[local] Abbreviation quiet := (keeps NoDispatch notDirtyDispatch).

#[local] Ltac quiet_step :=
  first
    [ apply keeps_ret
    | apply keeps_gets
    | apply keeps_getObject; reflexivity
    | apply keeps_getDerived; reflexivity
    | apply keeps_getThrottled; reflexivity
    | apply keeps_throw; reflexivity
    | apply NoDispatch_update; intros []; try reflexivity
    | apply rec_get
    | apply keeps_when
    | apply keeps_forEach; intros ?
    | apply keeps_bind; [|intros ?] ].

Lemma with_derived_calling f o :
  callingDirtyListeners (with_derived f o) = callingDirtyListeners o.
Proof. unfold with_derived. destruct (cls o); reflexivity. Qed.

Lemma quiet_update_derived w f : quiet (update w (with_derived f)).
Proof. apply NoDispatch_update. intros o. apply with_derived_calling. Qed.

Lemma quiet_check w : quiet (ListenerManager.checkNotDispatchingDirty w).
Proof.
  intros h H. unfold ListenerManager.checkNotDispatchingDirty, mbind, M_bind, getObject.
  destruct (objects h !! w) as [o|] eqn:Ho; [|split; [exact H|reflexivity]].
  rewrite (H _ _ Ho). exact H.
Qed.

Lemma quiet_createDependency w d v : quiet (Derived.createDependency w d v).
Proof. unfold Derived.createDependency, ListenerManager.onDirty, ListenerManager.onChange. repeat quiet_step. Qed.

Lemma quiet_resubscribe w ds : quiet (Derived.resubscribe w ds).
Proof.
  induction ds as [|d ds IH]; simpl; [apply keeps_ret|].
  apply keeps_bind; [apply quiet_createDependency|intros ?].
  apply keeps_bind; [exact IH|intros ?]. apply keeps_ret.
Qed.

Lemma quiet_anyChanged ds : quiet (Derived.anyChanged rec ds).
Proof.
  induction ds as [|d ds IH]; simpl; [apply keeps_ret|].
  apply keeps_bind; [apply rec_get|intros v].
  destruct (looseNeq _ _); [apply keeps_ret|exact IH].
Qed.

Lemma quiet_runCompute w id c : forall found, quiet (Derived.runCompute rec w id found c).
Proof.
  induction c as [v|dep k IH|t k IH]; intros found; simpl.
  - apply keeps_ret.
  - apply keeps_bind; [apply rec_get|intros v].
    apply keeps_bind; [apply keeps_getDerived; reflexivity|intros d].
    destruct (negb _); [apply IH|].
    destruct (bool_decide _); [apply IH|].
    apply keeps_bind; [apply quiet_createDependency|intros ?].
    apply keeps_bind; [apply keeps_getDerived; reflexivity|intros ?].
    apply keeps_bind; [apply quiet_update_derived|intros ?]. apply IH.
  - apply keeps_bind; [apply keeps_getThrottled; reflexivity|intros ?]. apply IH.
Qed.

Lemma quiet_updateValueIfNecessary w : quiet (Derived.updateValueIfNecessary rec w).
Proof.
  unfold Derived.updateValueIfNecessary.
  quiet_step; [quiet_step|]. destruct (negb _); [quiet_step|].
  quiet_step; [quiet_step|]. quiet_step.
  { unfold Derived.requiresRecompute. quiet_step; [quiet_step|].
    destruct (negb _); [quiet_step|apply quiet_anyChanged]. }
  destruct (negb _).
  - quiet_step; [quiet_step|]. quiet_step; [apply quiet_resubscribe|]. apply quiet_update_derived.
  - quiet_step; [quiet_step|]. quiet_step; [apply quiet_update_derived|].
    quiet_step. { quiet_step. unfold Derived.unsubChangeOf, ListenerManager.removeChange. repeat quiet_step. }
    quiet_step; [apply quiet_update_derived|]. quiet_step; [quiet_step|].
    quiet_step; [apply quiet_runCompute|]. quiet_step; [quiet_step|]. apply quiet_update_derived.
Qed.

Lemma quiet_get w : quiet (get rec w).
Proof.
  unfold get. quiet_step; [quiet_step|]. destruct (cls _).
  - unfold PlainField.get. quiet_step; [apply quiet_check|]. repeat quiet_step.
  - unfold Derived.get. quiet_step; [apply quiet_check|]. quiet_step; [apply quiet_updateValueIfNecessary|].
    repeat quiet_step.
  - unfold Signal.get. quiet_step; [apply quiet_check|]. repeat quiet_step.
Qed.
End Quiet.

Lemma quiet_run fuel : forall w, keeps NoDispatch notDirtyDispatch (run fuel (CallGet w)).
Proof.
  induction fuel as [|n IH]; intros w; simpl.
  - apply keeps_throw. reflexivity.
  - apply quiet_get. exact IH.
Qed.

(** ** Throttled: receiving a dirty event *)

Lemma whenDirty_no_epoch rec h w o d t :
  objects h !! w = Some o ->
  cls o = DerivedClass d (ThrottledClass t) ->
  activeIndicator t = true ->
  throttle t = None ->
  Throttled.whenDirty rec w h
  = ListenerManager.callDirtyListeners rec w
      (store w (with_throttle (Some (dirtyEpoch (nextTimeoutID h))) (with_signaled false o))
         (schedule w (period t) h)).
Proof.
  intros Ho Hc Ha Ht.
  unfold Throttled.whenDirty. exec. exec. rewrite Ht, Ha. simpl negb. 
  exec. unfold Throttled.startEpoch. 
  eapply exec_bind.
  { exec. eapply exec_bind; [reflexivity|]. cbv beta.
    eapply update_lookup. solve_lookup. }
  f_equal. unfold store, schedule, with_objects, with_timers, with_nextTimeoutID. simpl.
  rewrite list_insert_insert_eq. reflexivity.
Qed.

Lemma delete_idem l (s : IterableWeakSet.t) :
  IterableWeakSet.delete l (IterableWeakSet.delete l s) = IterableWeakSet.delete l s.
Proof.
  unfold IterableWeakSet.delete. rewrite <- list_fmap_compose. apply list_fmap_ext.
  intros i e _. simpl. destruct (decide (e = Some l)) as [->|Hne].
  - rewrite decide_False by discriminate. reflexivity.
  - rewrite decide_False by assumption. reflexivity.
Qed.

Lemma insert_as_imap {A} (l : list A) (w : nat) (f : A -> A) :
  match l !! w with Some o => <[w := f o]> l | None => l end
  = imap (fun x o => if bool_decide (x = w) then f o else o) l.
Proof.
  apply list_eq. intros i. rewrite list_lookup_imap.
  destruct (l !! w) as [o|] eqn:Hw.
  - destruct (decide (i = w)) as [->|Hne].
    + rewrite list_lookup_insert_eq by (eapply lookup_lt_Some, Hw). rewrite Hw. simpl.
      rewrite bool_decide_eq_true_2 by reflexivity. reflexivity.
    + rewrite list_lookup_insert_ne by congruence. destruct (l !! i); simpl; [|reflexivity].
      rewrite bool_decide_eq_false_2 by assumption. reflexivity.
  - destruct (l !! i) eqn:Hi; simpl; [|reflexivity].
    rewrite bool_decide_eq_false_2; [reflexivity|]. intros ->. congruence.
Qed.

Lemma imap_unchanged {A} (f : nat -> A -> A) (l : list A) :
  (forall i x, l !! i = Some x -> f i x = x) -> imap f l = l.
Proof.
  intros H. apply list_eq. intros i. rewrite list_lookup_imap.
  destruct (l !! i) as [x|] eqn:Hi; simpl; [|reflexivity]. f_equal. apply H, Hi.
Qed.

Lemma imap_compose {A} (f g : nat -> A -> A) (l : list A) :
  imap f (imap g l) = imap (fun i x => f i (g i x)) l.
Proof.
  apply list_eq. intros i. rewrite !list_lookup_imap.
  destruct (l !! i); reflexivity.
Qed.

Lemma dirtyTargets_cons d ds :
  dirtyTargets (d :: ds)
  = if IDependency.unsubDirty d then IDependency.watchable d :: dirtyTargets ds
    else dirtyTargets ds.
Proof.
  unfold dirtyTargets. rewrite filter_cons.
  destruct (IDependency.unsubDirty d); reflexivity.
Qed.

Lemma unsubDirtyOf_run w d h :
  Derived.unsubDirtyOf w d h
  = (if IDependency.unsubDirty d
     then with_objects (fun os =>
            match os !! IDependency.watchable d with
            | Some o => <[IDependency.watchable d :=
                           with_dirtyListeners (IterableWeakSet.delete (DirtyListenerOf w)) o]> os
            | None => os
            end) h
     else h, Ok tt).
Proof. unfold Derived.unsubDirtyOf. destruct (IDependency.unsubDirty d); reflexivity. Qed.

Lemma forEach_unsubDirty w ds : forall h,
  forEach ds (Derived.unsubDirtyOf w) h
  = (withoutDirtySubscriptions w (dirtyTargets ds) h, Ok tt).
Proof.
  induction ds as [|d ds IH]; intros h; simpl.
  - unfold mret, M_ret. f_equal. unfold withoutDirtySubscriptions, with_objects. destruct h; simpl. f_equal.
    symmetry. apply imap_unchanged. reflexivity.
  - rewrite dirtyTargets_cons.
    rewrite (bind_Ok _ _ _ _ _ (unsubDirtyOf_run w d h)), IH.
    destruct (IDependency.unsubDirty d) eqn:Hu; [|reflexivity].
    f_equal. unfold withoutDirtySubscriptions, with_objects. simpl. f_equal.
    rewrite insert_as_imap, imap_compose. apply imap_ext. intros i o _. simpl.
    unfold unsubscribedFrom.
    destruct (decide (i = IDependency.watchable d)) as [->|Hne].
    + rewrite (bool_decide_eq_true_2 (_ = _)) by reflexivity.
      rewrite (bool_decide_eq_true_2 (_ ∈ _ :: _)) by (left).
      destruct (bool_decide _); [|reflexivity].
      unfold with_dirtyListeners; simpl. f_equal. apply delete_idem.
    + rewrite (bool_decide_eq_false_2 (_ = _)) by assumption.
      apply (f_equal (fun b : bool => if b then _ else _)).
      apply bool_decide_ext. rewrite elem_of_cons. tauto.
Qed.

Lemma lookup_without w T h x :
  objects (withoutDirtySubscriptions w T h) !! x = unsubscribedFrom w T x <$> objects h !! x.
Proof. simpl. apply list_lookup_imap. Qed.

Lemma cls_unsubscribedFrom w T x o : cls (unsubscribedFrom w T x o) = cls o.
Proof. unfold unsubscribedFrom. destruct (bool_decide _); reflexivity. Qed.

Lemma store_without_store w T o1 o2 h :
  store w o2 (withoutDirtySubscriptions w T (store w o1 h))
  = store w o2 (withoutDirtySubscriptions w T h).
Proof.
  unfold store, withoutDirtySubscriptions, with_objects. simpl. f_equal.
  apply list_eq. intros i. destruct (decide (i = w)) as [->|Hne].
  - destruct (decide (w < length (objects h))) as [Hlt|Hge].
    + rewrite !list_lookup_insert_eq by (rewrite length_imap, ?length_insert; exact Hlt).
      reflexivity.
    + rewrite !list_insert_ge by (rewrite ?length_imap, ?length_insert; lia).
      reflexivity.
  - rewrite !list_lookup_insert_ne by congruence. rewrite !list_lookup_imap.
    rewrite list_lookup_insert_ne by congruence. reflexivity.
Qed.

Lemma whenDirty_epoch rec h w o d t e :
  objects h !! w = Some o ->
  cls o = DerivedClass d (ThrottledClass t) ->
  throttle t = Some e ->
  Throttle.signal e = None ->
  Throttled.whenDirty rec w h
  = Signal.markDirty rec (throttleStartSignal t) (epochDirtyHeap w o d e h).
Proof.
  intros Ho Hc Ht He.
  assert (Hlt : w < length (objects h)) by (eapply lookup_lt_Some, Ho).
  unfold Throttled.whenDirty. exec. exec. rewrite Ht, He.
  unfold epochDirtyHeap, Derived.unsubDirtyDependencies.
  destruct (dirty o) eqn:Hd.
  - eapply exec_bind; [exec; cbn [dirty with_signaled]; rewrite Hd; reflexivity|cbv beta].
    eapply exec_bind; [eapply update_lookup; solve_lookup|cbv beta].
    rewrite store_store. reflexivity.
  - eapply exec_bind.
    { exec. cbn [dirty with_signaled]. rewrite Hd. exec.
      rewrite (bind_Ok _ _ _ _ _ (forEach_unsubDirty _ _ _)).
      unfold Derived.setDependencies. eapply update_lookup.
      rewrite lookup_without, lookup_store_same by exact Hlt. reflexivity. }
    cbv beta.
    eapply exec_bind.
    { eapply update_lookup. apply lookup_store_same.
      cbn [objects withoutDirtySubscriptions with_objects store].
      rewrite length_imap, length_insert. exact Hlt. }
    rewrite store_store, store_without_store. reflexivity.
Qed.

(** ** The claims about reads, fields, signals and throttling *)

Lemma read_own_dispatch fuel h w o :
  objects h !! w = Some o ->
  callingDirtyListeners o = true ->
  read (S fuel) w h = (h, Throw DirtyDispatchAccess).
Proof.
  intros Ho Hc. unfold read. simpl. unfold get.
  rewrite (bind_Ok _ _ _ _ _ (getObject_lookup _ _ _ Ho)).
  assert (Hcheck : forall B (k : unit -> M heap B),
            (ListenerManager.checkNotDispatchingDirty w ≫= k) h = (h, Throw DirtyDispatchAccess)).
  { intros B k. unfold ListenerManager.checkNotDispatchingDirty.
    eapply bind_Throw. rewrite (bind_Ok _ _ _ _ _ (getObject_lookup _ _ _ Ho)), Hc.
    reflexivity. }
  destruct (cls o); [unfold PlainField.get|unfold Derived.get|unfold Signal.get];
    apply Hcheck.
Qed.

Lemma read_plain_own_flag fuel h w o :
  objects h !! w = Some o ->
  (cls o = SignalClass \/ exists eq, cls o = PlainFieldClass eq) ->
  callingDirtyListeners o = false ->
  read (S fuel) w h = (store w (with_dirty false o) h, Ok (value o)).
Proof.
  intros Ho Hcls Hc. unfold read. simpl. unfold get.
  rewrite (bind_Ok _ _ _ _ _ (getObject_lookup _ _ _ Ho)).
  assert (Hcheck : ListenerManager.checkNotDispatchingDirty w h = (h, Ok tt)).
  { unfold ListenerManager.checkNotDispatchingDirty.
    rewrite (bind_Ok _ _ _ _ _ (getObject_lookup _ _ _ Ho)), Hc. reflexivity. }
  destruct Hcls as [-> | [eq ->]]; [unfold Signal.get|unfold PlainField.get];
    (eapply exec_bind; [exact Hcheck|cbv beta]); exec; exec; reflexivity.
Qed.



(** The narrower reading is the code's own (the error message speaks of
    "their dirty dispatch event"): [f] and [g] feed the same derived
    value, and a dirty listener of [f] reads [g].  While [f] dispatches
    dirty, the listener's [g.get()] returns [5] and the commit
    completes. *)
Lemma get_succeeds_during_dispatch_of_sibling :
  setPlain Scenario.fuel 0 (VNum 1) (Scenario.after Scenario.readsSibling)
  = (fst (setPlain Scenario.fuel 0 (VNum 1) (Scenario.after Scenario.readsSibling)), Ok tt)
  /\ log (fst (setPlain Scenario.fuel 0 (VNum 1) (Scenario.after Scenario.readsSibling)))
     = [Called 1; ReadValue 1 1 (VNum 5)].
Proof. split; vm_compute; reflexivity. Qed.



Lemma not_in_values_delete l (s : IterableWeakSet.t) :
  l ∉ IterableWeakSet.values (IterableWeakSet.delete l s).
Proof.
  unfold IterableWeakSet.values, IterableWeakSet.delete.
  rewrite list_elem_of_omap. intros (e & He & Hid).
  apply list_elem_of_fmap in He as (e' & -> & _).
  destruct (decide (e' = Some l)) as [->|Hne]; simpl in Hid; [discriminate|].
  destruct e'; simpl in Hid; congruence.
Qed.

Lemma dirtyTargets_elem dep ds :
  dep ∈ ds -> IDependency.unsubDirty dep = true ->
  IDependency.watchable dep ∈ dirtyTargets ds.
Proof.
  intros Hin Hu. unfold dirtyTargets. apply list_elem_of_fmap.
  exists dep. split; [reflexivity|]. apply list_elem_of_filter. split; assumption.
Qed.

Lemma with_throttle_fields th o :
  dirty (with_throttle th o) = dirty o
  /\ dirtyListeners (with_throttle th o) = dirtyListeners o
  /\ signaled (with_throttle th o) = signaled o
  /\ value (with_throttle th o) = value o.
Proof. unfold with_throttle. destruct (cls o) as [|? [| |]|]; repeat split. Qed.

Lemma whenDirty_no_epoch_mocks fuel h w o d t :
  objects h !! w = Some o ->
  cls o = DerivedClass d (ThrottledClass t) ->
  activeIndicator t = true ->
  throttle t = None ->
  Forall isMock (IterableWeakSet.values (dirtyListeners o)) ->
  length (dirtyListeners o) + 2 <= fuel ->
  let oA := with_throttle (Some (dirtyEpoch (nextTimeoutID h))) (with_signaled false o) in
  Throttled.whenDirty (run fuel) w h
  = (if dirty o then store w oA (schedule w (period t) h)
     else with_log (fun l => l ++ calls (dirtyListeners o))
            (store w (afterDirtyBroadcast oA) (schedule w (period t) h)),
     Ok tt).
Proof.
  intros Ho Hc Ha Ht Hm Hfuel oA.
  rewrite (whenDirty_no_epoch _ _ _ _ _ _ Ho Hc Ha Ht). fold oA.
  destruct (with_throttle_fields (Some (dirtyEpoch (nextTimeoutID h))) (with_signaled false o))
    as (Hd & Hl & _). fold oA in Hd, Hl. simpl in Hd, Hl.
  rewrite (callDirtyListeners_mocks fuel _ w oA).
  - rewrite Hd, Hl, store_store. reflexivity.
  - apply lookup_store_same. simpl. eapply lookup_lt_Some, Ho.
  - rewrite Hl. exact Hm.
  - rewrite Hl. exact Hfuel.
Qed.

Lemma lookup_epochDirtyHeap w o d e h s os :
  objects h !! w = Some o ->
  objects h !! s = Some os ->
  s <> w ->
  exists os', objects (epochDirtyHeap w o d e h) !! s = Some os' /\ dirty os' = dirty os.
Proof.
  intros Ho Hs Hne. unfold epochDirtyHeap. destruct (dirty o).
  - rewrite lookup_store_ne by congruence. eauto.
  - rewrite lookup_store_ne by congruence. rewrite lookup_without, Hs. simpl.
    eexists. split; [reflexivity|]. unfold unsubscribedFrom.
    destruct (bool_decide _); reflexivity.
Qed.

Lemma whenDirty_epoch_start_signal_dirty rec h w o d t e os :
  objects h !! w = Some o ->
  cls o = DerivedClass d (ThrottledClass t) ->
  throttle t = Some e ->
  Throttle.signal e = None ->
  objects h !! throttleStartSignal t = Some os ->
  throttleStartSignal t <> w ->
  dirty os = true ->
  Throttled.whenDirty rec w h = (epochDirtyHeap w o d e h, Ok tt).
Proof.
  intros Ho Hc Ht He Hs Hne Hd.
  rewrite (whenDirty_epoch _ _ _ _ _ _ _ Ho Hc Ht He).
  destruct (lookup_epochDirtyHeap w o d e h _ os Ho Hs Hne) as (os' & Hs' & Hd').
  unfold Signal.markDirty.
  rewrite (bind_Ok _ _ _ _ _ (getObject_lookup _ _ _ Hs')), Hd', Hd. reflexivity.
Qed.

(** C8 as the code has it.  A [Throttled] object [w] whose
    [activeIndicator] is set (as its constructor leaves it) receives a
    dirty event.

    With no epoch active, it clears [signaled], starts a dirty-typed
    epoch whose timer runs for [period] and calls back [w], and then
    broadcasts dirty to its own listeners, from a heap in which no other
    object has changed: it keeps its subscriptions.  With recording
    listeners the broadcast calls each live dirty listener once, unless
    [w] was dirty already, in which case none is called.

    With an epoch active that has no pending signal, it clears
    [signaled], records the pending dirty signal and hands over to
    [throttleStartSignal.markDirty()] without broadcasting to its own
    listeners; timers and log are as before; if its own [dirty] bit is
    set no other object has changed, and if it is clear then [w]'s dirty
    listener is gone from every dependency whose unsubscribe closure was
    held.  When the start signal is itself dirty nothing more happens:
    no listener is called. *)
Theorem throttled_dirty_receipt rec h w o d t :
  objects h !! w = Some o ->
  cls o = DerivedClass d (ThrottledClass t) ->
  activeIndicator t = true ->
  (throttle t = None ->
     let oA := with_throttle (Some (dirtyEpoch (nextTimeoutID h))) (with_signaled false o) in
     let hA := store w oA (schedule w (period t) h) in
     Throttled.whenDirty rec w h = ListenerManager.callDirtyListeners rec w hA
     /\ (forall x, x <> w -> objects hA !! x = objects h !! x)
     /\ (forall fuel,
           Forall isMock (IterableWeakSet.values (dirtyListeners o)) ->
           length (dirtyListeners o) + 2 <= fuel ->
           Throttled.whenDirty (run fuel) w h
           = (if dirty o then hA
              else with_log (fun l => l ++ calls (dirtyListeners o))
                     (store w (afterDirtyBroadcast oA) (schedule w (period t) h)),
              Ok tt)))
  /\ (forall e, throttle t = Some e -> Throttle.signal e = None ->
        let hB := epochDirtyHeap w o d e h in
        Throttled.whenDirty rec w h = Signal.markDirty rec (throttleStartSignal t) hB
        /\ log hB = log h
        /\ timers hB = timers h
        /\ (dirty o = true -> forall x, x <> w -> objects hB !! x = objects h !! x)
        /\ (dirty o = false ->
              forall dep od,
                dep ∈ dependencies d ->
                IDependency.unsubDirty dep = true ->
                objects hB !! IDependency.watchable dep = Some od ->
                DirtyListenerOf w ∉ IterableWeakSet.values (dirtyListeners od))
        /\ (forall os,
              objects h !! throttleStartSignal t = Some os ->
              throttleStartSignal t <> w ->
              dirty os = true ->
              Throttled.whenDirty rec w h = (hB, Ok tt))).
Proof.
  intros Ho Hc Ha. split.
  - intros Ht oA hA. split; [|split].
    + eapply whenDirty_no_epoch; eassumption.
    + intros x Hx. subst hA. rewrite lookup_store_ne by congruence. reflexivity.
    + intros fuel Hm Hfuel. eapply whenDirty_no_epoch_mocks; eassumption.
  - intros e Ht He hB. split; [|split; [|split; [|split; [|split]]]].
    + eapply whenDirty_epoch; eassumption.
    + subst hB. unfold epochDirtyHeap. destruct (dirty o); reflexivity.
    + subst hB. unfold epochDirtyHeap. destruct (dirty o); reflexivity.
    + intros Hd x Hx. subst hB. unfold epochDirtyHeap. rewrite Hd.
      rewrite lookup_store_ne by congruence. reflexivity.
    + intros Hd dep od Hin Hu. subst hB. unfold epochDirtyHeap. rewrite Hd.
      pose proof (dirtyTargets_elem _ _ Hin Hu) as HT.
      destruct (decide (IDependency.watchable dep = w)) as [Hw|Hw].
      * rewrite Hw in *. rewrite (lookup_store_eq _ _ (unsubscribedFrom w
          (dirtyTargets (dependencies d)) w o)).
        2:{ rewrite lookup_without, Ho. reflexivity. }
        intros [= <-]. unfold with_throttle, with_derived, unsubscribedFrom.
        rewrite bool_decide_eq_true_2 by exact HT. simpl. rewrite Hc. simpl.
        apply not_in_values_delete.
      * rewrite lookup_store_ne by congruence. rewrite lookup_without.
        destruct (objects h !! IDependency.watchable dep) as [od'|]; [|discriminate].
        simpl. intros [= <-]. unfold unsubscribedFrom.
        rewrite bool_decide_eq_true_2 by exact HT. simpl.
        apply not_in_values_delete.
    + intros os Hs Hne Hd. eapply whenDirty_epoch_start_signal_dirty; eassumption.
Qed.

Lemma throttled_dirty_receipt_witness :
  exists hA,
    Throttled.whenDirty (run Scenario.fuel) 1 (Scenario.after Scenario.throttledField)
    = ListenerManager.callDirtyListeners (run Scenario.fuel) 1 hA.
Proof.
  eexists.
  refine (proj1 (proj1 (throttled_dirty_receipt (run Scenario.fuel)
            (Scenario.after Scenario.throttledField) 1 _ _ _ _ _ _) _)).
  - vm_compute. reflexivity.
  - reflexivity.
  - reflexivity.
  - reflexivity.
Defined.

(** C8 as stated fails in its first half: [t] throttles the field [f]
    and has been read.  When [f] turns dirty and no epoch is active, [t]
    starts its dirty epoch and calls its dirty listener (once), but its
    own dirty listener is still subscribed to [f] afterwards. *)
Lemma throttled_stays_subscribed_at_epoch_start :
  let h0 := Scenario.after Scenario.throttledField in
  let h1 := fst (Throttled.whenDirty (run Scenario.fuel) 1 h0) in
  Scenario.epochOf 1 h0 = None
  /\ Scenario.subscribedDirty 1 0 h0 = true
  /\ Scenario.epochOf 1 h1 = Some (dirtyEpoch 1)
  /\ log h1 = [Called 1]
  /\ Scenario.subscribedDirty 1 0 h1 = true.
Proof. vm_compute. repeat split; reflexivity. Qed.

(** C9 as the code has it.  A [PlainField] in the state its constructor
    left it in, with recording listeners registered for change (and any
    listeners for dirty), is set to a value its equality deems different:
    the commit returns, stores the value, sets [signaled] and calls every
    live change listener once, in registration order, and nothing else
    happens: no dirty listener runs and [dirty] stays set.  For a [Field]
    whose inner field is in the state its constructor left it in, the same
    commit stores the new record in the inner field and sets its
    [signaled] bit, and nothing else happens: the field object and the log
    are untouched, so none of the listeners registered on the field is
    called. *)
Theorem first_commit_before_any_read fuel h :
  (forall w init eq dl cl v,
     objects h !! w = Some (withListeners dl cl (newObject init (PlainFieldClass eq))) ->
     eq init v = false ->
     Forall isMock (IterableWeakSet.values cl) ->
     length cl + 3 <= fuel ->
     setPlain fuel w v h
     = (with_log (fun l => l ++ (IterableWeakSet.values cl ≫= recordedBy))
          (store w (with_signaled true (with_value v
                     (withListeners dl cl (newObject init (PlainFieldClass eq))))) h),
        Ok tt))
  /\ (forall w ow d val init eq v,
        objects h !! w = Some ow ->
        cls ow = DerivedClass d (FieldClass val) ->
        objects h !! val = Some (newObject init (PlainFieldClass (Field.innerEquals eq))) ->
        Field.innerEquals eq init (VPlainObj (nextAddr h) v) = false ->
        2 <= fuel ->
        setField fuel w v h
        = (with_nextAddr (S (nextAddr h))
             (store val (with_signaled true (with_value (VPlainObj (nextAddr h) v)
                           (newObject init (PlainFieldClass (Field.innerEquals eq))))) h),
           Ok tt)).
Proof.
  split.
  - intros. apply fresh_plain_commit; assumption.
  - intros. eapply fresh_field_commit; eassumption.
Qed.

Lemma first_commit_before_any_read_witness :
  setPlain Scenario.fuel 0 (VNum 1) (Scenario.after Scenario.unreadPlainField)
  = (with_log (fun l => l ++ [Called 2])
       (store 0 (with_signaled true (with_value (VNum 1)
                  (withListeners [Some Scenario.onDirtyMock] [Some Scenario.onChangeMock]
                     (newObject (VNum 0) (PlainFieldClass PlainField.defaultEquals)))))
          (Scenario.after Scenario.unreadPlainField)),
     Ok tt).
Proof.
  apply (proj1 (first_commit_before_any_read Scenario.fuel
                  (Scenario.after Scenario.unreadPlainField))
           0 (VNum 0) PlainField.defaultEquals
           [Some Scenario.onDirtyMock] [Some Scenario.onChangeMock] (VNum 1)).
  - reflexivity.
  - reflexivity.
  - repeat constructor. exists 2. reflexivity.
  - vm_compute. lia.
Defined.

(** C9 as stated fails for [Field]: on a [Field] that was never read,
    with a recording listener on each channel, committing [set(1)] calls
    neither listener, although the value the field reads as has changed
    from [0] to [1]. *)
Lemma unread_field_commit_calls_no_listener :
  let h0 := Scenario.after Scenario.unreadField in
  let h1 := fst (setField Scenario.fuel 0 (VNum 1) h0) in
  snd (setField Scenario.fuel 0 (VNum 1) h0) = Ok tt
  /\ log h1 = []
  /\ snd (read Scenario.fuel 0 h0) = Ok (VNum 0)
  /\ snd (read Scenario.fuel 0 h1) = Ok (VNum 1).
Proof. vm_compute. repeat split; reflexivity. Qed.

(** ** The code at the inputs where it leaves the specification *)

(** C1 at a failing input.  [d1] is [null] while the field [f] is [0]
    and [undefined] otherwise; [d2] tells the two apart.  After [d2] was
    read and [f] committed to [1], [d1.get()] is [undefined] and computing
    [d2]'s function directly on it gives [1], but [d2.get()] returns the
    cached [0]: [requiresRecompute] compares with [!=], and
    [undefined != null] is false. *)
Theorem derived_read_stale_when_dependency_loosely_equal :
  let h := Scenario.after Scenario.nullable in
  snd (Scenario.nullable emptyHeap) = Ok (0, 1, 2)
  /\ snd (read Scenario.fuel 1 h) = Ok VUndefined
  /\ snd (directCompute Scenario.fuel 2 h) = Ok (VNum 1)
  /\ snd (read Scenario.fuel 2 h) = Ok (VNum 0)
  /\ looseNeq VUndefined VNull = false.
Proof. vm_compute. repeat split; reflexivity. Qed.

(** C2 at a failing input.  A field holding [0] has been read and has a
    recording listener on each channel.  Committing [set(0)], which the
    field's equality deems equal, leaves the value and calls no dirty
    listener, but it calls the change listener. *)
Theorem equal_set_still_calls_change_listeners :
  let h0 := Scenario.after Scenario.readField in
  let r := setPlain Scenario.fuel 0 (VNum 0) h0 in
  PlainField.defaultEquals (VNum 0) (VNum 0) = true
  /\ snd r = Ok tt
  /\ snd (read Scenario.fuel 0 (fst r)) = Ok (VNum 0)
  /\ log h0 = []
  /\ log (fst r) = [Called 2].
Proof. vm_compute. repeat split; reflexivity. Qed.

(** C3 at a failing input.  Between the [get] that precedes the
    registrations and the final [get], the two commits [set(0)] and
    [set(1)] call the dirty listener once and the change listener twice. *)
Theorem two_change_dispatches_between_reads :
  let h := Scenario.after Scenario.twoCommitsBetweenReads in
  snd (Scenario.twoCommitsBetweenReads emptyHeap) = Ok (VNum 1)
  /\ log h = [Called 2; Called 1; Called 2]
  /\ callsOf 1 h = 1
  /\ callsOf 2 h = 2.
Proof. vm_compute. repeat split; reflexivity. Qed.

(** C4 at a failing input.  A dirty listener of the field [f] reads
    [f].  The commit of [set(1)] calls it, its [f.get()] throws the
    dirty-dispatch error as it should, and the error leaves
    [callDirtyListeners] before [callingDirtyListeners] is reset.  The
    commit has ended and no dirty dispatch is in progress any more, but
    every later [f.get()] throws the error, also after a further commit
    that calls no listener and returns. *)
Theorem get_throws_after_aborted_dirty_dispatch :
  let h0 := Scenario.after Scenario.readsItself in
  let r1 := setPlain Scenario.fuel 0 (VNum 1) h0 in
  let r2 := setPlain Scenario.fuel 0 (VNum 2) (fst r1) in
  snd (Scenario.readsItself emptyHeap) = Ok 0
  /\ callingDirtyListeners <$> objects h0 = [false]
  /\ snd (read Scenario.fuel 0 h0) = Ok (VNum 0)
  /\ snd r1 = Throw DirtyDispatchAccess
  /\ log (fst r1) = [Called 1]
  /\ callingDirtyListeners <$> objects (fst r1) = [true]
  /\ snd (read Scenario.fuel 0 (fst r1)) = Throw DirtyDispatchAccess
  /\ snd r2 = Ok tt
  /\ log (fst r2) = [Called 1]
  /\ snd (read Scenario.fuel 0 (fst r2)) = Throw DirtyDispatchAccess
  /\ ReadDuringDirtyDispatch DirtyDispatchAccess = true.
Proof. vm_compute. repeat split; reflexivity. Qed.

(** C7 at a failing input.  A fresh signal reads [undefined], and after
    its first effective [markDirty] it reads [NaN]: [value] has no
    initialiser, and [undefined++] stores [NaN]. *)
Theorem fresh_signal_reads_undefined_then_NaN :
  snd (Scenario.freshSignal emptyHeap) = Ok (VUndefined, VNaN)
  /\ increment VUndefined = VNaN
  /\ increment VNaN = VNaN.
Proof. vm_compute. repeat split; reflexivity. Qed.
(** * Transparency of derived values over fields

    Graphs of plain fields and derived values, with recording listeners,
    whose values the source's [!=] tells apart. *)

Lemma evalPure_ext rho rho' c :
  (forall x, rho x = rho' x) -> evalPure rho c = evalPure rho' c.
Proof.
  intros H. induction c as [v|x k IH|t k IH]; simpl; [reflexivity| |apply IH].
  rewrite H. apply IH.
Qed.

Lemma assoc_app x ds ds' v :
  assoc x ds = Some v -> assoc x (ds ++ ds') = Some v.
Proof.
  induction ds as [|[y vy] ds IH]; simpl; [discriminate|].
  destruct (x =? y); auto.
Qed.

Lemma assoc_app_None x ds ds' :
  assoc x ds = None -> assoc x (ds ++ ds') = assoc x ds'.
Proof.
  induction ds as [|[y vy] ds IH]; simpl; [reflexivity|].
  destruct (x =? y); [discriminate|auto].
Qed.

Lemma assoc_Some_elem x ds v : assoc x ds = Some v -> (x, v) ∈ ds.
Proof.
  induction ds as [|[y vy] ds IH]; simpl; [discriminate|].
  destruct (x =? y) eqn:E.
  - apply Nat.eqb_eq in E as ->. intros [= ->]. left.
  - intros H. right. auto.
Qed.

Lemma assoc_None_notin x ds : assoc x ds = None <-> x ∉ ds.*1.
Proof.
  induction ds as [|[y vy] ds IH]; simpl.
  - split; [intros _; apply not_elem_of_nil|reflexivity].
  - rewrite not_elem_of_cons. destruct (x =? y) eqn:E.
    + apply Nat.eqb_eq in E. split; [discriminate|]. intros [H _]. contradiction.
    + apply Nat.eqb_neq in E. rewrite IH. tauto.
Qed.

Lemma replay_evalPure rho ds c v :
  replay ds c = Some v ->
  (forall x vx, (x, vx) ∈ ds -> rho x = vx) ->
  evalPure rho c = v.
Proof.
  intros Hr Hds. revert v Hr.
  induction c as [v0|x k IH|t k IH]; simpl; intros v; [congruence| |discriminate].
  destruct (assoc x ds) as [vx|] eqn:E; [|discriminate].
  rewrite (Hds _ _ (assoc_Some_elem _ _ _ E)). apply IH.
Qed.

Lemma elem_of_recorded x v ds :
  (x, v) ∈ recorded ds <->
  exists dep, dep ∈ ds /\ IDependency.watchable dep = x /\ IDependency.value dep = v.
Proof.
  unfold recorded. rewrite list_elem_of_fmap. split.
  - intros (dep & [= -> ->] & Hin). eauto.
  - intros (dep & Hin & <- & <-). eauto.
Qed.

Lemma truthN_skeleton h h' :
  skeleton h h' -> forall n w, truthN n h' w = truthN n h w.
Proof.
  intros [Hlen Hs] n. induction n as [|n IH]; intros w; simpl; [reflexivity|].
  destruct (objects h !! w) as [o|] eqn:Ho.
  - destruct (Hs _ _ Ho) as (o' & -> & Hst). unfold sameStatic in Hst.
    destruct (cls o) as [e|d s|], (cls o') as [e'|d' s'|]; try contradiction.
    + symmetry. apply Hst.
    + destruct Hst as [-> _]. apply evalPure_ext, IH.
    + symmetry. apply Hst.
  - rewrite (proj2 (lookup_ge_None _ _)); [reflexivity|].
    rewrite Hlen. apply lookup_ge_None, Ho.
Qed.

Lemma truth_skeleton h h' w : skeleton h h' -> truth h' w = truth h w.
Proof. intros H. apply truthN_skeleton, H. Qed.

Section Values.
Variable V : jsval -> Prop.

Lemma evalPure_good n rho rho' c :
  goodComp V n c ->
  (forall x, x < n -> V (rho x)) ->
  (forall x, x < n -> rho x = rho' x) ->
  evalPure rho c = evalPure rho' c /\ V (evalPure rho c).
Proof.
  intros Hc HV Heq. induction Hc as [v Hv|x k Hx Hk IH]; simpl.
  - split; [reflexivity|exact Hv].
  - rewrite <- (Heq x Hx). apply IH. apply HV, Hx.
Qed.

Lemma truthN_stable h :
  staticOk V h ->
  forall w, w < length (objects h) ->
    V (truth h w) /\ forall n, S w <= n -> truthN n h w = truth h w.
Proof.
  intros Hst w. induction w as [w IH] using lt_wf_ind. intros Hw.
  destruct (lookup_lt_is_Some_2 _ _ Hw) as [o Ho].
  pose proof (Hst _ _ Ho) as Hc. unfold computeOk in Hc.
  assert (Hbelow : forall x, x < w -> V (truthN w h x) /\
            forall n, w <= n -> truthN n h x = truthN w h x).
  { intros x Hx. destruct (IH x Hx ltac:(lia)) as [HV Hn]. split.
    - rewrite (Hn w) by lia. exact HV.
    - intros n Hn'. rewrite (Hn n), (Hn w) by lia. reflexivity. }
  unfold truth. simpl. rewrite Ho.
  destruct (cls o) as [e|d [| |]|] eqn:Hcls; try contradiction.
  - split; [exact Hc|]. intros [|n] Hn; [lia|]. simpl. rewrite Ho, Hcls. reflexivity.
  - destruct Hc as (c & Hcomp & Hgood). rewrite Hcomp. split.
    + eapply (evalPure_good w _ (truthN w h)); eauto. intros; apply Hbelow; assumption.
    + intros [|n] Hn; [lia|]. simpl. rewrite Ho, Hcls, Hcomp.
      eapply (evalPure_good w); eauto.
      * intros x Hx. rewrite (proj2 (Hbelow x Hx)) by lia. apply Hbelow, Hx.
      * intros x Hx. apply Hbelow; [exact Hx|lia].
Qed.

Lemma truth_V h w : staticOk V h -> w < length (objects h) -> V (truth h w).
Proof. intros Hst Hw. apply truthN_stable; assumption. Qed.

Lemma truth_field h w o e :
  objects h !! w = Some o -> cls o = PlainFieldClass e -> truth h w = value o.
Proof. intros Ho Hc. unfold truth. simpl. rewrite Ho, Hc. reflexivity. Qed.

Lemma truth_derived h w o d :
  staticOk V h ->
  objects h !! w = Some o ->
  cls o = DerivedClass d JustDerived ->
  truth h w = evalPure (truth h) (compute d VUndefined).
Proof.
  intros Hst Ho Hc. pose proof (Hst _ _ Ho) as Hcl. unfold computeOk in Hcl.
  rewrite Hc in Hcl. destruct Hcl as (c & Hcomp & Hgood).
  unfold truth at 1. simpl. rewrite Ho, Hc, Hcomp.
  assert (Hw : w < length (objects h)) by (eapply lookup_lt_Some, Ho).
  eapply (evalPure_good w); eauto.
  - intros x Hx. destruct (truthN_stable h Hst x ltac:(lia)) as [HV Hn].
    rewrite (Hn w) by lia. exact HV.
  - intros x Hx. apply (truthN_stable h Hst x ltac:(lia)). lia.
Qed.
End Values.

(** ** What a read leaves alone *)

Lemma sameStatic_refl o : sameStatic o o.
Proof. unfold sameStatic. destruct (cls o); auto. Qed.

Lemma sameStatic_trans o1 o2 o3 :
  sameStatic o1 o2 -> sameStatic o2 o3 -> sameStatic o1 o3.
Proof.
  unfold sameStatic.
  destruct (cls o1), (cls o2), (cls o3); try tauto.
  - intros [-> ->] [-> ->]. auto.
  - intros [-> ->] [-> ->]. auto.
  - congruence.
Qed.

Lemma skeleton_refl h : skeleton h h.
Proof. split; [reflexivity|]. intros w o Ho. exists o. split; [exact Ho|apply sameStatic_refl]. Qed.

Lemma skeleton_trans h1 h2 h3 : skeleton h1 h2 -> skeleton h2 h3 -> skeleton h1 h3.
Proof.
  intros [L1 S1] [L2 S2]. split; [congruence|].
  intros w o Ho. destruct (S1 _ _ Ho) as (o2 & Ho2 & H12).
  destruct (S2 _ _ Ho2) as (o3 & Ho3 & H23).
  exists o3. split; [exact Ho3|]. eapply sameStatic_trans; eassumption.
Qed.

Lemma mono_refl h : mono h h.
Proof. split; [apply skeleton_refl|]. intros y o Ho. exists o. auto. Qed.

Lemma mono_trans h1 h2 h3 : mono h1 h2 -> mono h2 h3 -> mono h1 h3.
Proof.
  intros [K1 M1] [K2 M2]. split; [eapply skeleton_trans; eassumption|].
  intros y o Ho. destruct (M1 _ _ Ho) as (o2 & Ho2 & D12 & L12).
  destruct (M2 _ _ Ho2) as (o3 & Ho3 & D23 & L23).
  exists o3. split; [exact Ho3|]. split; auto.
Qed.

Lemma length_store x o h : length (objects (store x o h)) = length (objects h).
Proof. simpl. apply length_insert. Qed.

Lemma skeleton_store h x o o' :
  objects h !! x = Some o -> sameStatic o o' -> skeleton h (store x o' h).
Proof.
  intros Ho Hs. split; [apply length_store|].
  intros y oy Hy. destruct (decide (x = y)) as [<-|Hne].
  - exists o'. split; [eapply lookup_store_eq, Ho|]. congruence.
  - exists oy. rewrite lookup_store_ne by exact Hne. split; [exact Hy|apply sameStatic_refl].
Qed.

Lemma mono_store h x o o' :
  objects h !! x = Some o -> sameStatic o o' ->
  (dirty o = false -> dirty o' = false) ->
  (forall l, Some l ∈ dirtyListeners o -> Some l ∈ dirtyListeners o') ->
  mono h (store x o' h).
Proof.
  intros Ho Hs Hd Hl. split; [eapply skeleton_store; eassumption|].
  intros y oy Hy. destruct (decide (x = y)) as [<-|Hne].
  - exists o'. split; [eapply lookup_store_eq, Ho|].
    assert (oy = o) as -> by congruence. auto.
  - exists oy. rewrite lookup_store_ne by exact Hne. auto.
Qed.

Lemma skeleton_lookup_inv h h' w o' :
  skeleton h h' -> objects h' !! w = Some o' ->
  exists o, objects h !! w = Some o /\ sameStatic o o'.
Proof.
  intros [Hlen Hs] Ho'.
  assert (Hw : w < length (objects h)) by (rewrite <- Hlen; eapply lookup_lt_Some, Ho').
  destruct (lookup_lt_is_Some_2 _ _ Hw) as [o Ho]. exists o. split; [exact Ho|].
  destruct (Hs _ _ Ho) as (o2 & Ho2 & H2). congruence.
Qed.

Lemma isDerivedAt_skeleton h h' z :
  skeleton h h' -> isDerivedAt h z -> isDerivedAt h' z.
Proof.
  intros [_ Hs] (o & d & Ho & Hc). destruct (Hs _ _ Ho) as (o' & Ho' & Hst).
  unfold sameStatic in Hst. rewrite Hc in Hst.
  destruct (cls o') as [|d' s'|] eqn:Hc'; try contradiction.
  destruct Hst as [_ <-]. exists o', d'. auto.
Qed.

Section Values.
Variable V : jsval -> Prop.

Lemma computeOk_sameStatic w o o' :
  computeOk V w o -> sameStatic o o' -> computeOk V w o'.
Proof.
  unfold computeOk, sameStatic.
  destruct (cls o) as [e|d s|], (cls o') as [e'|d' s'|]; try tauto.
  - intros H [_ <-]. exact H.
  - intros H [Hc <-]. rewrite <- Hc. exact H.
Qed.

Lemma staticOk_skeleton h h' : staticOk V h -> skeleton h h' -> staticOk V h'.
Proof.
  intros Hst Hs w o' Ho'. destruct (skeleton_lookup_inv _ _ _ _ Hs Ho') as (o & Ho & Hss).
  eapply computeOk_sameStatic; [eapply Hst, Ho|exact Hss].
Qed.

Lemma listenerOk_skeleton h h' x f l :
  skeleton h h' -> listenerOk h x f l -> listenerOk h' x f l.
Proof.
  intros Hs [Hm|(z & -> & Hz & Hd)]; [left; exact Hm|right].
  exists z. repeat split; auto. eapply isDerivedAt_skeleton; eassumption.
Qed.

Lemma listenersOk_skeleton h h' w o :
  skeleton h h' -> listenersOk h w o -> listenersOk h' w o.
Proof.
  intros Hs (Hc & Hd & Hch). repeat split; [exact Hc| |];
    intros l Hl; eapply listenerOk_skeleton; eauto.
Qed.

Lemma subscribedOk_mono h h' w o :
  mono h h' -> subscribedOk h w o -> subscribedOk h' w o.
Proof.
  intros [Hs Hm]. unfold subscribedOk. destruct (cls o) as [|d s|]; auto.
  intros H Hd. destruct (H Hd) as [Hi Hdeps]. split; [exact Hi|].
  intros dep Hin. destruct (Hdeps dep Hin) as (ox & Hox & Hdx & Hlx & Hvx).
  destruct (Hm _ _ Hox) as (ox' & Hox' & Hd' & Hl').
  exists ox'. repeat split; auto.
  rewrite (truth_skeleton h h') by exact Hs. exact Hvx.
Qed.

Lemma nodeOk_mono h h' y o : mono h h' -> nodeOk V h y o -> nodeOk V h' y o.
Proof.
  intros Hm (H1 & H2 & H3 & H4 & H5). repeat split; auto.
  - apply H3.
  - intros l Hl. eapply listenerOk_skeleton; [apply Hm|]. apply H3, Hl.
  - intros l Hl. eapply listenerOk_skeleton; [apply Hm|]. apply H3, Hl.
  - eapply subscribedOk_mono; eassumption.
Qed.

(** An object whose listener sets alone were changed. *)
Lemma nodeOk_listeners h x o o' :
  nodeOk V h x o ->
  cls o' = cls o -> dirty o' = dirty o -> value o' = value o ->
  callingDirtyListeners o' = callingDirtyListeners o ->
  (forall l, Some l ∈ dirtyListeners o' -> listenerOk h x DirtyListenerOf l) ->
  (forall l, Some l ∈ changeListeners o' -> listenerOk h x ChangeListenerOf l) ->
  nodeOk V h x o'.
Proof.
  intros (H1 & H2 & H3 & H4 & H5) Hc Hd Hv Hcd Hdl Hcl.
  unfold nodeOk, computeOk, depsOk, listenersOk, cacheOk, subscribedOk in *.
  rewrite Hc, Hd, Hv, Hcd. repeat split; auto. apply H3.
Qed.

Lemma belowOk_store n h x o o' :
  belowOk V n h -> objects h !! x = Some o ->
  mono h (store x o' h) ->
  (x < n -> nodeOk V (store x o' h) x o') ->
  belowOk V n (store x o' h).
Proof.
  intros Hb Ho Hm Hx y oy Hy Hoy. destruct (decide (x = y)) as [<-|Hne].
  - rewrite (lookup_store_eq _ _ _ _ Ho) in Hoy. injection Hoy as <-. auto.
  - rewrite lookup_store_ne in Hoy by exact Hne.
    eapply nodeOk_mono; [exact Hm|]. apply Hb; assumption.
Qed.

(** The objects above [m] untouched, and those up to [m] in order
    again: everything below [n] still is. *)
Lemma belowOk_after m n h h' :
  belowOk V n h -> belowOk V (S m) h' -> mono h h' -> aboveSame (S m) h h' ->
  belowOk V n h'.
Proof.
  intros Hb Hb' Hm Ha y oy Hy Hoy. destruct (decide (y < S m)) as [Hlt|Hge].
  - apply Hb'; assumption.
  - rewrite Ha in Hoy by lia. eapply nodeOk_mono; [exact Hm|]. apply Hb; assumption.
Qed.

Lemma aboveSame_refl n h : aboveSame n h h.
Proof. intros z _. reflexivity. Qed.

Lemma aboveSame_trans n h1 h2 h3 :
  aboveSame n h1 h2 -> aboveSame n h2 h3 -> aboveSame n h1 h3.
Proof. intros H1 H2 z Hz. rewrite H2, H1 by exact Hz. reflexivity. Qed.

Lemma aboveSame_weaken m n h h' : m <= n -> aboveSame m h h' -> aboveSame n h h'.
Proof. intros Hmn H z Hz. apply H. lia. Qed.

Lemma aboveSame_store n x o h : x < n -> aboveSame n h (store x o h).
Proof. intros Hx z Hz. apply lookup_store_ne. lia. Qed.
End Values.

(** ** Reading a derived value *)

Lemma elem_of_add l l' (s : IterableWeakSet.t) :
  Some l' ∈ IterableWeakSet.add l s <-> l' = l \/ Some l' ∈ s.
Proof.
  unfold IterableWeakSet.add, IterableWeakSet.has. case_bool_decide as Hin.
  - split; [auto|]. intros [->|H]; assumption.
  - rewrite elem_of_app, list_elem_of_singleton. split.
    + intros [H|[= ->]]; auto.
    + intros [->|H]; auto.
Qed.

Lemma elem_of_delete l l' (s : IterableWeakSet.t) :
  Some l' ∈ IterableWeakSet.delete l s -> Some l' ∈ s.
Proof.
  unfold IterableWeakSet.delete. rewrite list_elem_of_fmap.
  intros (e & He & Hin). destruct (decide (e = Some l)); [discriminate|]. congruence.
Qed.

Lemma depFresh_mono h h' dep : mono h h' -> depFresh h dep -> depFresh h' dep.
Proof.
  intros [Hs Hm] (ox & Hox & Hd & Hv). destruct (Hm _ _ Hox) as (ox' & Hox' & Hd' & _).
  exists ox'. repeat split; auto. rewrite (truth_skeleton h h') by exact Hs. exact Hv.
Qed.

Lemma depSub_mono w h h' dep : mono h h' -> depSub w h dep -> depSub w h' dep.
Proof.
  intros [Hs Hm] (ox & Hox & Hl). destruct (Hm _ _ Hox) as (ox' & Hox' & _ & Hl').
  exists ox'. auto.
Qed.

Section Values.
Variable V : jsval -> Prop.
Hypothesis V_inj : forall a b, V a -> V b -> looseNeq a b = false -> a = b.

Lemma allLive_mono w h h' ds : mono h h' -> allLive V w h ds -> allLive V w h' ds.
Proof.
  intros Hm H dep Hin. destruct (H dep Hin) as (H1 & H2 & H3 & H4).
  repeat split; auto; [eapply depFresh_mono|eapply depSub_mono]; eassumption.
Qed.

Lemma belowOk_weaken m n h : m <= n -> belowOk V n h -> belowOk V m h.
Proof. intros Hmn H y o Hy. apply H. lia. Qed.

Lemma mid_mono w h h' :
  mid V w h -> mono h h' -> belowOk V w h' -> mid V w h'.
Proof.
  intros (Hw & Hst & _) Hm Hb. split; [|split].
  - destruct Hm as [[-> _] _]. exact Hw.
  - eapply staticOk_skeleton; [exact Hst|apply Hm].
  - exact Hb.
Qed.

(** Replacing the object of [w] itself. *)
Lemma mid_store_self w h o o' :
  mid V w h -> objects h !! w = Some o -> sameStatic o o' ->
  (dirty o = false -> dirty o' = false) ->
  (forall l, Some l ∈ dirtyListeners o -> Some l ∈ dirtyListeners o') ->
  mid V w (store w o' h) /\ mono h (store w o' h) /\ aboveSame (S w) h (store w o' h).
Proof.
  intros Hmid Ho Hs Hd Hl.
  assert (Hm : mono h (store w o' h)) by (eapply mono_store; eassumption).
  split; [|split; [exact Hm|apply aboveSame_store; lia]].
  eapply mid_mono; [exact Hmid|exact Hm|].
  eapply belowOk_store; [apply Hmid|exact Ho|exact Hm|lia].
Qed.

Section GetProof.
Variables (n w : nat).
Hypothesis IH : forall x, x < w -> getSpec V n x.

Lemma sub_get x h ow :
  x < w -> mid V w h -> objects h !! w = Some ow ->
  exists h', run n (CallGet x) h = (h', Ok (truth h x))
    /\ mid V w h' /\ mono h h' /\ aboveSame (S w) h h'
    /\ objects h' !! w = Some ow /\ notDirtyAt h' x.
Proof.
  intros Hx Hmid How. destruct Hmid as (Hw & Hst & Hb).
  destruct (IH x Hx h) as (h' & Hrun & Hb' & Hm & Ha & Hnd);
    [lia|exact Hst|eapply belowOk_weaken; [|exact Hb]; lia|].
  exists h'. split; [exact Hrun|]. split; [|split; [exact Hm|split; [|split; [|exact Hnd]]]].
  - eapply mid_mono; [split; [exact Hw|split; [exact Hst|exact Hb]]|exact Hm|].
    eapply belowOk_after; eassumption.
  - eapply aboveSame_weaken; [|exact Ha]. lia.
  - rewrite Ha by lia. exact How.
Qed.

Lemma createDependency_spec x v h ow d :
  x < w -> mid V w h -> objects h !! w = Some ow -> cls ow = DerivedClass d JustDerived ->
  exists h', Derived.createDependency w x v h = (h', Ok (dependencyOn x v))
    /\ mid V w h' /\ mono h h' /\ aboveSame (S w) h h'
    /\ objects h' !! w = Some ow /\ depSub w h' (dependencyOn x v).
Proof.
  intros Hx Hmid How Hcls.
  assert (Hxl : x < length (objects h)) by (destruct Hmid; lia).
  destruct (lookup_lt_is_Some_2 _ _ Hxl) as [ox Hox].
  set (o1 := with_dirtyListeners (IterableWeakSet.add (DirtyListenerOf w)) ox).
  set (o2 := with_changeListeners (IterableWeakSet.add (ChangeListenerOf w)) o1).
  assert (Hm : mono h (store x o2 h)).
  { eapply mono_store; [exact Hox| | |].
    - unfold sameStatic. simpl. destruct (cls ox); auto.
    - auto.
    - intros l Hl. simpl. apply elem_of_add. auto. }
  assert (How' : objects (store x o2 h) !! w = Some ow).
  { rewrite lookup_store_ne by lia. exact How. }
  exists (store x o2 h). split; [|split; [|split; [exact Hm|split; [|split; [exact How'|]]]]].
  - unfold Derived.createDependency, ListenerManager.onDirty, ListenerManager.onChange.
    eapply exec_bind; [eapply update_lookup, Hox|cbv beta].
    eapply exec_bind; [eapply update_lookup, lookup_store_eq, Hox|cbv beta].
    rewrite store_store. reflexivity.
  - eapply mid_mono; [exact Hmid|exact Hm|].
    eapply belowOk_store; [apply Hmid|exact Hox|exact Hm|]. intros _.
    assert (Hder : isDerivedAt (store x o2 h) w) by (exists ow, d; auto).
    eapply nodeOk_listeners;
      [eapply nodeOk_mono; [exact Hm|apply Hmid; [exact Hx|exact Hox]]
      |reflexivity|reflexivity|reflexivity|reflexivity| |].
    + intros l Hl. simpl in Hl. apply elem_of_add in Hl as [->|Hl].
      * right. exists w. auto.
      * eapply listenerOk_skeleton; [apply Hm|].
        destruct Hmid as (_ & _ & Hb). apply (Hb x ox Hx Hox), Hl.
    + intros l Hl. simpl in Hl. apply elem_of_add in Hl as [->|Hl].
      * right. exists w. auto.
      * eapply listenerOk_skeleton; [apply Hm|].
        destruct Hmid as (_ & _ & Hb). apply (Hb x ox Hx Hox), Hl.
  - apply aboveSame_store. lia.
  - exists o2. split; [eapply lookup_store_eq, Hox|].
    simpl. apply elem_of_add. auto.
Qed.

Lemma anyChanged_spec ds : forall h ow,
  mid V w h -> objects h !! w = Some ow ->
  (forall dep, dep ∈ ds -> IDependency.watchable dep < w /\ V (IDependency.value dep)) ->
  exists h' b, Derived.anyChanged (run n) ds h = (h', Ok b)
    /\ mid V w h' /\ mono h h' /\ aboveSame (S w) h h'
    /\ objects h' !! w = Some ow
    /\ (b = false -> forall dep, dep ∈ ds -> depFresh h' dep).
Proof.
  induction ds as [|dep ds IHds]; intros h ow Hmid How Hds.
  - exists h, false. split; [reflexivity|]. split; [exact Hmid|].
    split; [apply mono_refl|]. split; [apply aboveSame_refl|]. split; [exact How|].
    intros _ dep Hin. apply elem_of_nil in Hin. contradiction.
  - destruct (Hds dep ltac:(left)) as [Hx HV].
    destruct (sub_get _ h ow Hx Hmid How) as (h1 & Hrun & Hmid1 & Hm1 & Ha1 & How1 & Hnd).
    simpl. destruct (looseNeq (truth h (IDependency.watchable dep)) (IDependency.value dep)) eqn:Hneq.
    + exists h1, true. split.
      { eapply exec_bind; [exact Hrun|cbv beta]. rewrite Hneq. reflexivity. }
      split; [exact Hmid1|]. split; [exact Hm1|]. split; [exact Ha1|].
      split; [exact How1|discriminate].
    + destruct (IHds h1 ow Hmid1 How1) as (h2 & b & Hrun2 & Hmid2 & Hm2 & Ha2 & How2 & Hfresh).
      { intros dep' Hin. apply Hds. right. exact Hin. }
      exists h2, b. split.
      { eapply exec_bind; [exact Hrun|cbv beta]. rewrite Hneq. exact Hrun2. }
      split; [exact Hmid2|]. split; [eapply mono_trans; eassumption|].
      split; [eapply aboveSame_trans; eassumption|]. split; [exact How2|].
      intros Hb dep' Hin. apply elem_of_cons in Hin as [->|Hin]; [|apply Hfresh; assumption].
      eapply depFresh_mono; [exact Hm2|].
      destruct Hnd as (ox & Hox & Hd). exists ox. split; [exact Hox|]. split; [exact Hd|].
      rewrite (truth_skeleton h h1) by apply Hm1. symmetry.
      apply V_inj; [|exact HV|exact Hneq].
      apply truth_V; [apply Hmid|destruct Hmid; lia].
Qed.

Lemma resubscribe_spec d ds : forall h ow,
  mid V w h -> objects h !! w = Some ow -> cls ow = DerivedClass d JustDerived ->
  (forall dep, dep ∈ ds -> IDependency.watchable dep < w) ->
  exists h',
    Derived.resubscribe w ds h
      = (h', Ok ((fun dep => dependencyOn (IDependency.watchable dep) (IDependency.value dep)) <$> ds))
    /\ mid V w h' /\ mono h h' /\ aboveSame (S w) h h'
    /\ objects h' !! w = Some ow
    /\ forall dep, dep ∈ ds -> depSub w h' dep.
Proof.
  induction ds as [|dep ds IHds]; intros h ow Hmid How Hcls Hds.
  - exists h. split; [reflexivity|]. split; [exact Hmid|].
    split; [apply mono_refl|]. split; [apply aboveSame_refl|]. split; [exact How|].
    intros dep Hin. apply elem_of_nil in Hin. contradiction.
  - destruct (createDependency_spec (IDependency.watchable dep) (IDependency.value dep) h ow d)
      as (h1 & Hrun1 & Hmid1 & Hm1 & Ha1 & How1 & Hsub1); auto.
    { apply Hds. left. }
    destruct (IHds h1 ow Hmid1 How1 Hcls) as (h2 & Hrun2 & Hmid2 & Hm2 & Ha2 & How2 & Hsub2).
    { intros dep' Hin. apply Hds. right. exact Hin. }
    exists h2. split.
    { simpl. eapply exec_bind; [exact Hrun1|cbv beta].
      eapply exec_bind; [exact Hrun2|reflexivity]. }
    split; [exact Hmid2|]. split; [eapply mono_trans; eassumption|].
    split; [eapply aboveSame_trans; eassumption|]. split; [exact How2|].
    intros dep' Hin. apply elem_of_cons in Hin as [->|Hin]; [|apply Hsub2; assumption].
    eapply depSub_mono; [exact Hm2|]. exact Hsub1.
Qed.

Lemma unsubChange_spec ds : forall h ow,
  mid V w h -> objects h !! w = Some ow ->
  (forall dep, dep ∈ ds -> IDependency.watchable dep < w) ->
  exists h', forEach ds (Derived.unsubChangeOf w) h = (h', Ok tt)
    /\ mid V w h' /\ mono h h' /\ aboveSame (S w) h h'
    /\ objects h' !! w = Some ow.
Proof.
  induction ds as [|dep ds IHds]; intros h ow Hmid How Hds.
  - exists h. split; [reflexivity|]. split; [exact Hmid|].
    split; [apply mono_refl|]. split; [apply aboveSame_refl|exact How].
  - assert (Hx : IDependency.watchable dep < w) by (apply Hds; left).
    assert (Hstep : exists h1, Derived.unsubChangeOf w dep h = (h1, Ok tt)
              /\ mid V w h1 /\ mono h h1 /\ aboveSame (S w) h h1 /\ objects h1 !! w = Some ow).
    { unfold Derived.unsubChangeOf, when. destruct (IDependency.unsubChange dep).
      2:{ exists h. split; [reflexivity|]. split; [exact Hmid|].
          split; [apply mono_refl|]. split; [apply aboveSame_refl|exact How]. }
      assert (Hxl : IDependency.watchable dep < length (objects h)) by (destruct Hmid; lia).
      destruct (lookup_lt_is_Some_2 _ _ Hxl) as [ox Hox].
      set (o1 := with_changeListeners (IterableWeakSet.delete (ChangeListenerOf w)) ox).
      assert (Hm : mono h (store (IDependency.watchable dep) o1 h)).
      { eapply mono_store; [exact Hox| | |]; auto.
        unfold sameStatic. simpl. destruct (cls ox); auto. }
      exists (store (IDependency.watchable dep) o1 h).
      split; [eapply update_lookup, Hox|].
      split; [|split; [exact Hm|split; [apply aboveSame_store; lia|]]].
      - eapply mid_mono; [exact Hmid|exact Hm|].
        eapply belowOk_store; [apply Hmid|exact Hox|exact Hm|]. intros _.
        destruct Hmid as (_ & _ & Hb). pose proof (Hb _ ox Hx Hox) as Hnode.
        eapply nodeOk_listeners;
          [eapply nodeOk_mono; [exact Hm|exact Hnode]
          |reflexivity|reflexivity|reflexivity|reflexivity| |].
        + intros l Hl. eapply listenerOk_skeleton; [apply Hm|]. apply Hnode, Hl.
        + intros l Hl. simpl in Hl. apply elem_of_delete in Hl.
          eapply listenerOk_skeleton; [apply Hm|]. apply Hnode, Hl.
      - rewrite lookup_store_ne by lia. exact How. }
    destruct Hstep as (h1 & Hrun1 & Hmid1 & Hm1 & Ha1 & How1).
    destruct (IHds h1 ow Hmid1 How1) as (h2 & Hrun2 & Hmid2 & Hm2 & Ha2 & How2).
    { intros dep' Hin. apply Hds. right. exact Hin. }
    exists h2. split.
    { simpl. eapply exec_bind; [exact Hrun1|exact Hrun2]. }
    split; [exact Hmid2|]. split; [eapply mono_trans; eassumption|].
    split; [eapply aboveSame_trans; eassumption|exact How2].
Qed.

Lemma assoc_elem x (ds : list (nat * jsval)) :
  x ∈ ds.*1 -> exists v, assoc x ds = Some v.
Proof.
  intros Hin. destruct (assoc x ds) as [v|] eqn:E; [eauto|].
  apply assoc_None_notin in E. contradiction.
Qed.

Lemma recorded_app ds ds' : recorded (ds ++ ds') = recorded ds ++ recorded ds'.
Proof. apply fmap_app. Qed.

Lemma runCompute_spec ow d id c :
  goodComp V w c -> forall found ds h,
  mid V w h -> objects h !! w = Some (recomputing ow d id ds) ->
  (forall x, x ∈ found <-> x ∈ (recorded ds).*1) ->
  allLive V w h ds ->
  exists h' v ext,
    Derived.runCompute (run n) w id found c h = (h', Ok v)
    /\ mid V w h' /\ mono h h' /\ aboveSame (S w) h h'
    /\ objects h' !! w = Some (recomputing ow d id (ds ++ ext))
    /\ allLive V w h' (ds ++ ext)
    /\ replay (recorded (ds ++ ext)) c = Some v /\ V v.
Proof.
  induction 1 as [v Hv|x k Hx Hk IHk]; intros found ds h Hmid How Hfound Hlive.
  - exists h, v, []. rewrite app_nil_r. split; [reflexivity|]. split; [exact Hmid|].
    split; [apply mono_refl|]. split; [apply aboveSame_refl|]. auto.
  - destruct (sub_get x h _ Hx Hmid How) as (h1 & Hrun1 & Hmid1 & Hm1 & Ha1 & How1 & Hnd1).
    assert (HVx : V (truth h x)) by (apply truth_V; [apply Hmid|destruct Hmid; lia]).
    assert (Hstart : forall X,
      (if bool_decide (x ∈ found) then Derived.runCompute (run n) w id found (k (truth h x)) h1
       else (dep ← Derived.createDependency w x (truth h x);
             d' ← getDerived w;
             Derived.setDependencies w (dependencies d' ++ [dep]);;
             Derived.runCompute (run n) w id (x :: found) (k (truth h x))) h1) = X ->
      Derived.runCompute (run n) w id found (Watch x k) h = X).
    { intros X HX. simpl. eapply exec_bind; [exact Hrun1|cbv beta].
      eapply exec_bind; [eapply getDerived_lookup; [exact How1|reflexivity]|cbv beta].
      simpl. rewrite Nat.eqb_refl. simpl.
      destruct (bool_decide (x ∈ found)); exact HX. }
    case_bool_decide as Hin.
    + destruct (IHk _ HVx found ds h1 Hmid1 How1 Hfound)
        as (h2 & v & ext & Hrun2 & Hmid2 & Hm2 & Ha2 & How2 & Hlive2 & Hrep & HVv).
      { eapply allLive_mono; eassumption. }
      exists h2, v, ext. split; [apply Hstart, Hrun2|].
      split; [exact Hmid2|]. split; [eapply mono_trans; eassumption|].
      split; [eapply aboveSame_trans; eassumption|]. split; [exact How2|].
      split; [exact Hlive2|]. split; [|exact HVv].
      simpl. apply Hfound in Hin. destruct (assoc_elem _ _ Hin) as [v' Hv'].
      rewrite recorded_app, (assoc_app _ _ _ _ Hv').
      apply assoc_Some_elem, elem_of_recorded in Hv' as (dep & Hdep & Hdx & Hdv).
      destruct (Hlive dep Hdep) as (_ & _ & (ox & _ & _ & Hval) & _).
      rewrite <- Hdv, Hval, Hdx, <- recorded_app. exact Hrep.
    + destruct (createDependency_spec x (truth h x) h1 _
                  (with_dependencies ds (with_computationID id d)) Hx Hmid1 How1 eq_refl)
        as (h2 & Hrun2 & Hmid2 & Hm2 & Ha2 & How2 & Hsub2).
      set (dep := dependencyOn x (truth h x)) in *.
      destruct (mid_store_self w h2 _ (recomputing ow d id (ds ++ [dep])) Hmid2 How2)
        as (Hmid3 & Hm3 & Ha3); [split; reflexivity|auto|auto|].
      set (h3 := store w (recomputing ow d id (ds ++ [dep])) h2) in *.
      assert (How3 : objects h3 !! w = Some (recomputing ow d id (ds ++ [dep])))
        by (eapply lookup_store_eq, How2).
      assert (Hm13 : mono h1 h3) by (eapply mono_trans; eassumption).
      destruct (IHk _ HVx (x :: found) (ds ++ [dep]) h3 Hmid3 How3)
        as (h4 & v & ext & Hrun4 & Hmid4 & Hm4 & Ha4 & How4 & Hlive4 & Hrep & HVv).
      { intros y. rewrite recorded_app, fmap_app, elem_of_app, elem_of_cons, Hfound.
        simpl. rewrite list_elem_of_singleton. tauto. }
      { intros dep' Hin'. apply elem_of_app in Hin' as [Hin'|Hin'].
        - eapply allLive_mono; [|exact Hlive|exact Hin'].
          eapply mono_trans; eassumption.
        - apply list_elem_of_singleton in Hin' as ->. simpl.
          split; [exact Hx|]. split; [exact HVx|]. split.
          + eapply depFresh_mono; [exact Hm13|].
            destruct Hnd1 as (ox & Hox & Hd). exists ox. split; [exact Hox|].
            split; [exact Hd|]. simpl. symmetry. apply truth_skeleton, Hm1.
          + eapply depSub_mono; [exact Hm3|exact Hsub2]. }
      exists h4, v, ([dep] ++ ext). rewrite app_assoc. split.
      { apply Hstart. eapply exec_bind; [exact Hrun2|cbv beta].
        eapply exec_bind; [eapply getDerived_lookup; [exact How2|reflexivity]|cbv beta].
        eapply exec_bind; [eapply update_lookup, How2|cbv beta]. exact Hrun4. }
      split; [exact Hmid4|].
      split; [eapply mono_trans; [exact Hm1|eapply mono_trans; eassumption]|].
      split; [eapply aboveSame_trans; [exact Ha1|eapply aboveSame_trans; [exact Ha2|
              eapply aboveSame_trans; eassumption]]|].
      split; [exact How4|]. split; [exact Hlive4|]. split; [|exact HVv].
      simpl. rewrite recorded_app, recorded_app.
      assert (Hnone : assoc x (recorded ds) = None).
      { apply assoc_None_notin. rewrite <- Hfound. exact Hin. }
      rewrite <- app_assoc, (assoc_app_None _ _ _ Hnone). simpl. rewrite Nat.eqb_refl.
      rewrite !recorded_app, <- app_assoc in Hrep. exact Hrep.
Qed.

Lemma cache_truth h x ox d ds v :
  staticOk V h -> objects h !! x = Some ox -> cls ox = DerivedClass d JustDerived ->
  replay (recorded ds) (compute d VUndefined) = Some v ->
  (forall dep, dep ∈ ds -> IDependency.value dep = truth h (IDependency.watchable dep)) ->
  truth h x = v.
Proof.
  intros Hst How Hcls Hrep Hds. rewrite (truth_derived V h x ox d Hst How Hcls).
  eapply replay_evalPure; [exact Hrep|]. intros y vy Hin.
  apply elem_of_recorded in Hin as (dep & Hdep & <- & <-). symmetry. apply Hds, Hdep.
Qed.

Lemma recompute_path h ow d :
  mid V w h -> objects h !! w = Some ow -> cls ow = DerivedClass d JustDerived ->
  dirty ow = false -> computeOk V w ow -> depsOk V w ow -> listenersOk h w ow ->
  exists h' ow',
    (d ← getDerived w;
     let id := S (computationID d) in
     update w (with_derived (with_computationID id));;
     forEach (dependencies d) (Derived.unsubChangeOf w);;
     Derived.setDependencies w [];;
     o ← getObject w;
     v ← Derived.runCompute (run n) w id [] (compute d (value o));
     update w (with_value v);;
     update w (with_derived (with_initialized true))) h = (h', Ok tt)
    /\ mid V w h' /\ mono h h' /\ aboveSame (S w) h h'
    /\ objects h' !! w = Some ow' /\ nodeOk V h' w ow' /\ dirty ow' = false
    /\ value ow' = truth h w.
Proof.
  intros Hmid How Hcls Hdirty Hcomp Hdeps Hlis.
  destruct ow as [dl cl cd cc di si va c]. simpl in Hcls, Hdirty. subst c di.
  set (ow := {| dirtyListeners := dl; changeListeners := cl; callingDirtyListeners := cd;
                callingChangeListeners := cc; dirty := false; signaled := si; value := va;
                cls := DerivedClass d JustDerived |}) in *.
  unfold computeOk in Hcomp. simpl in Hcomp. destruct Hcomp as (c & Hc & Hgood).
  unfold depsOk in Hdeps. simpl in Hdeps.
  set (id := S (computationID d)).
  destruct (mid_store_self w h ow (recomputing ow d id (dependencies d)) Hmid How)
    as (Hmid1 & Hm1 & Ha1); [split; reflexivity|auto|auto|].
  set (h1 := store w (recomputing ow d id (dependencies d)) h) in *.
  assert (How1 : objects h1 !! w = Some (recomputing ow d id (dependencies d)))
    by (eapply lookup_store_eq, How).
  destruct (unsubChange_spec (dependencies d) h1 _ Hmid1 How1)
    as (h2 & Hrun2 & Hmid2 & Hm2 & Ha2 & How2); [intros dep Hin; apply Hdeps, Hin|].
  destruct (mid_store_self w h2 _ (recomputing ow d id []) Hmid2 How2)
    as (Hmid3 & Hm3 & Ha3); [split; reflexivity|auto|auto|].
  set (h3 := store w (recomputing ow d id []) h2) in *.
  assert (How3 : objects h3 !! w = Some (recomputing ow d id []))
    by (eapply lookup_store_eq, How2).
  destruct (runCompute_spec ow d id c Hgood [] [] h3 Hmid3 How3)
    as (h4 & v & ext & Hrun4 & Hmid4 & Hm4 & Ha4 & How4 & Hlive4 & Hrep & HVv).
  { intros x. simpl. rewrite !elem_of_nil. tauto. }
  { intros dep Hin. apply elem_of_nil in Hin. contradiction. }
  simpl in How4, Hlive4, Hrep.
  set (ow' := with_derived (with_initialized true) (with_value v (recomputing ow d id ext))).
  destruct (mid_store_self w h4 _ ow' Hmid4 How4)
    as (Hmid5 & Hm5 & Ha5); [split; reflexivity|auto|auto|].
  set (h5 := store w ow' h4) in *.
  assert (Hm05 : mono h h5).
  { eapply mono_trans; [exact Hm1|]. eapply mono_trans; [exact Hm2|].
    eapply mono_trans; [exact Hm3|]. eapply mono_trans; eassumption. }
  assert (Hlive5 : allLive V w h5 ext) by exact (allLive_mono w h4 h5 ext Hm5 Hlive4).
  exists h5, ow'. split.
  { eapply exec_bind; [eapply getDerived_lookup; [exact How|reflexivity]|cbv beta zeta].
    eapply exec_bind; [exact (update_lookup _ _ _ _ How)|cbv beta].
    eapply exec_bind; [exact Hrun2|cbv beta].
    eapply exec_bind; [exact (update_lookup _ _ _ _ How2)|cbv beta].
    eapply exec_bind; [eapply getObject_lookup; exact How3|cbv beta].
    simpl. rewrite Hc.
    eapply exec_bind; [exact Hrun4|cbv beta].
    eapply exec_bind; [exact (update_lookup _ _ _ _ How4)|cbv beta].
    rewrite (update_lookup _ _ _ _ (lookup_store_eq _ _ _ _ How4)).
    rewrite store_store. reflexivity. }
  split; [exact Hmid5|]. split; [exact Hm05|]. split.
  { eapply aboveSame_trans; [exact Ha1|]. eapply aboveSame_trans; [exact Ha2|].
    eapply aboveSame_trans; [exact Ha3|]. eapply aboveSame_trans; eassumption. }
  split; [eapply lookup_store_eq, How4|].
  assert (Hst5 : staticOk V h5) by apply Hmid5.
  split; [|split; [reflexivity|]].
  - split; [exists c; auto|]. split; [|split; [|split]].
    + intros dep Hin. simpl in Hin. destruct (Hlive5 dep Hin) as (? & ? & _). auto.
    + eapply listenersOk_skeleton; [apply Hm05|exact Hlis].
    + intros _. simpl. rewrite Hc. exact Hrep.
    + intros _. split; [reflexivity|]. intros dep Hin. simpl in Hin.
      destruct (Hlive5 dep Hin) as (_ & _ & (ox & Hox & Hd & Hv) & (ox' & Hox' & Hl)).
      exists ox. rewrite Hox in Hox'. injection Hox' as <-. auto.
  - simpl. rewrite <- (truth_skeleton h h5 w) by apply Hm05. symmetry.
    eapply cache_truth; [exact Hst5|eapply lookup_store_eq, How4|reflexivity| |].
    + simpl. rewrite Hc. exact Hrep.
    + intros dep Hin. destruct (Hlive5 dep Hin) as (_ & _ & (ox & Hox & Hd & Hv) & _). exact Hv.
Qed.

Lemma recorded_resubscribed ds :
  recorded ((fun dep => dependencyOn (IDependency.watchable dep) (IDependency.value dep)) <$> ds)
  = recorded ds.
Proof. unfold recorded. rewrite <- list_fmap_compose. reflexivity. Qed.

Lemma resubscribe_path h ow d :
  mid V w h -> objects h !! w = Some ow -> cls ow = DerivedClass d JustDerived ->
  dirty ow = false -> initialized d = true ->
  computeOk V w ow -> depsOk V w ow -> listenersOk h w ow -> cacheOk ow ->
  (forall dep, dep ∈ dependencies d -> depFresh h dep) ->
  exists h' ow',
    (d ← getDerived w;
     ds ← Derived.resubscribe w (dependencies d);
     Derived.setDependencies w ds) h = (h', Ok tt)
    /\ mid V w h' /\ mono h h' /\ aboveSame (S w) h h'
    /\ objects h' !! w = Some ow' /\ nodeOk V h' w ow' /\ dirty ow' = false
    /\ value ow' = truth h w.
Proof.
  intros Hmid How Hcls Hdirty Hinit Hcomp Hdeps Hlis Hcache Hfresh.
  destruct ow as [dl cl cd cc di si va c]. simpl in Hcls, Hdirty. subst c di.
  set (ow := {| dirtyListeners := dl; changeListeners := cl; callingDirtyListeners := cd;
                callingChangeListeners := cc; dirty := false; signaled := si; value := va;
                cls := DerivedClass d JustDerived |}) in *.
  unfold computeOk in Hcomp. simpl in Hcomp.
  unfold depsOk in Hdeps. simpl in Hdeps.
  unfold cacheOk in Hcache. simpl in Hcache. specialize (Hcache Hinit).
  destruct (resubscribe_spec d (dependencies d) h ow Hmid How eq_refl)
    as (h1 & Hrun1 & Hmid1 & Hm1 & Ha1 & How1 & Hsub1); [intros dep Hin; apply Hdeps, Hin|].
  set (ds' := (fun dep => dependencyOn (IDependency.watchable dep) (IDependency.value dep))
                <$> dependencies d) in *.
  set (ow' := with_derived (with_dependencies ds') ow).
  destruct (mid_store_self w h1 _ ow' Hmid1 How1)
    as (Hmid2 & Hm2 & Ha2); [split; reflexivity|auto|auto|].
  set (h2 := store w ow' h1) in *.
  assert (Hm02 : mono h h2) by (eapply mono_trans; eassumption).
  assert (Hlive : forall dep', dep' ∈ ds' ->
            exists dep, dep ∈ dependencies d
              /\ IDependency.watchable dep' = IDependency.watchable dep
              /\ IDependency.value dep' = IDependency.value dep).
  { intros dep' Hin. apply list_elem_of_fmap in Hin as (dep & -> & Hin). eauto. }
  exists h2, ow'. split.
  { eapply exec_bind; [eapply getDerived_lookup; [exact How|reflexivity]|cbv beta].
    eapply exec_bind; [exact Hrun1|cbv beta]. exact (update_lookup _ _ _ _ How1). }
  split; [exact Hmid2|]. split; [exact Hm02|].
  split; [eapply aboveSame_trans; eassumption|].
  split; [eapply lookup_store_eq, How1|].
  assert (Hst2 : staticOk V h2) by apply Hmid2.
  split; [|split; [reflexivity|]].
  - split; [exact Hcomp|]. split; [|split; [|split]].
    + intros dep' Hin. simpl in Hin. destruct (Hlive dep' Hin) as (dep & Hdep & -> & ->).
      apply Hdeps, Hdep.
    + eapply listenersOk_skeleton; [apply Hm02|exact Hlis].
    + intros _. simpl. fold ds'. subst ds'. rewrite recorded_resubscribed. exact Hcache.
    + intros _. split; [exact Hinit|]. intros dep' Hin. simpl in Hin.
      destruct (Hlive dep' Hin) as (dep & Hdep & -> & ->).
      destruct (depFresh_mono h h2 dep Hm02 (Hfresh dep Hdep)) as (ox & Hox & Hd & Hv).
      destruct (depSub_mono w h1 h2 dep Hm2 (Hsub1 dep Hdep)) as (ox' & Hox' & Hl).
      exists ox. rewrite Hox in Hox'. injection Hox' as <-. auto.
  - simpl. symmetry.
    eapply cache_truth; [apply Hmid|exact How|reflexivity|exact Hcache|].
    intros dep Hin. destruct (Hfresh dep Hin) as (ox & Hox & Hd & Hv). exact Hv.
Qed.

Lemma belowOk_S h :
  belowOk V w h -> (forall o, objects h !! w = Some o -> nodeOk V h w o) ->
  belowOk V (S w) h.
Proof.
  intros Hb Hw y o Hy Ho. destruct (decide (y = w)) as [->|Hne]; [auto|].
  apply Hb; [lia|exact Ho].
Qed.

Lemma get_derived h ow d :
  mid V w h -> objects h !! w = Some ow -> cls ow = DerivedClass d JustDerived ->
  nodeOk V h w ow ->
  exists h', get (run n) w h = (h', Ok (truth h w))
    /\ belowOk V (S w) h' /\ mono h h' /\ aboveSame (S w) h h' /\ notDirtyAt h' w.
Proof.
  intros Hmid How Hcls (Hcomp & Hdeps & Hlis & Hcache & Hsub).
  assert (Hstart : forall h' ow' (X : heap * outcome jsval),
    Derived.updateValueIfNecessary (run n) w h = (h', Ok tt) ->
    objects h' !! w = Some ow' -> X = (h', Ok (value ow')) ->
    get (run n) w h = X).
  { intros h' ow' X Hupd How' ->. unfold get.
    eapply exec_bind; [eapply getObject_lookup, How|cbv beta]. rewrite Hcls.
    unfold Derived.get, ListenerManager.checkNotDispatchingDirty.
    eapply exec_bind.
    { eapply exec_bind; [eapply getObject_lookup, How|cbv beta].
      destruct Hlis as [-> _]. reflexivity. }
    cbv beta. eapply exec_bind; [exact Hupd|cbv beta].
    eapply exec_bind; [eapply getObject_lookup, How'|reflexivity]. }
  destruct (dirty ow) eqn:Hdirty.
  2:{ (* the cached value is current *)
    exists h. split.
    { eapply (Hstart h ow); [|exact How|].
      - unfold Derived.updateValueIfNecessary.
        eapply exec_bind; [eapply getObject_lookup, How|cbv beta]. rewrite Hdirty. reflexivity.
      - f_equal. f_equal. unfold subscribedOk in Hsub. rewrite Hcls in Hsub.
        destruct (Hsub Hdirty) as [Hinit Hlive].
        unfold cacheOk in Hcache. rewrite Hcls in Hcache.
        eapply cache_truth; [apply Hmid|exact How|exact Hcls|exact (Hcache Hinit)|].
        intros dep Hin. destruct (Hlive dep Hin) as (ox & _ & _ & _ & Hv). exact Hv. }
    split; [|split; [apply mono_refl|split; [apply aboveSame_refl|exists ow; auto]]].
    apply belowOk_S; [apply Hmid|]. intros o Ho.
    assert (o = ow) as -> by congruence. repeat split; auto; apply Hlis. }
  (* the value is dirty *)
  destruct (mid_store_self w h ow (with_dirty false ow) Hmid How)
    as (Hmid1 & Hm1 & Ha1); [unfold sameStatic; simpl; destruct (cls ow); auto|auto|auto|].
  set (ow1 := with_dirty false ow) in *.
  set (h1 := store w ow1 h) in *.
  assert (How1 : objects h1 !! w = Some ow1) by (eapply lookup_store_eq, How).
  assert (Hcls1 : cls ow1 = DerivedClass d JustDerived) by exact Hcls.
  assert (Hlis1 : listenersOk h1 w ow1).
  { eapply listenersOk_skeleton; [apply Hm1|]. exact Hlis. }
  assert (Hfinish : forall h2 h' ow' b,
    mono h1 h2 -> aboveSame (S w) h1 h2 ->
    Derived.requiresRecompute (run n) w h1 = (h2, Ok b) ->
    (if negb b then
       d ← getDerived w;
       ds ← Derived.resubscribe w (dependencies d);
       Derived.setDependencies w ds
     else
       d ← getDerived w;
       let id := S (computationID d) in
       update w (with_derived (with_computationID id));;
       forEach (dependencies d) (Derived.unsubChangeOf w);;
       Derived.setDependencies w [];;
       o ← getObject w;
       v ← Derived.runCompute (run n) w id [] (compute d (value o));
       update w (with_value v);;
       update w (with_derived (with_initialized true))) h2 = (h', Ok tt) ->
    mid V w h' -> mono h2 h' -> aboveSame (S w) h2 h' ->
    objects h' !! w = Some ow' -> nodeOk V h' w ow' -> dirty ow' = false ->
    value ow' = truth h2 w ->
    exists h', get (run n) w h = (h', Ok (truth h w))
      /\ belowOk V (S w) h' /\ mono h h' /\ aboveSame (S w) h h' /\ notDirtyAt h' w).
  { intros h2 h' ow' b Hm2 Ha2 Hreq Hrun Hmid' Hm' Ha' How' Hnode' Hd' Hv'.
    exists h'. split.
    { eapply (Hstart h' ow'); [|exact How'|].
      - unfold Derived.updateValueIfNecessary.
        eapply exec_bind; [eapply getObject_lookup, How|cbv beta]. rewrite Hdirty. simpl.
        eapply exec_bind; [exact (update_lookup _ _ _ _ How)|cbv beta].
        eapply exec_bind; [exact Hreq|cbv beta]. exact Hrun.
      - rewrite Hv'. rewrite (truth_skeleton h1 h2) by apply Hm2.
        rewrite (truth_skeleton h h1) by apply Hm1. reflexivity. }
    split.
    { apply belowOk_S; [apply Hmid'|]. intros o Ho. assert (o = ow') as -> by congruence.
      exact Hnode'. }
    split; [eapply mono_trans; [exact Hm1|eapply mono_trans; eassumption]|].
    split; [eapply aboveSame_trans; [exact Ha1|eapply aboveSame_trans; eassumption]|].
    exists ow'. auto. }
  assert (Hdeps1 : forall dep, dep ∈ dependencies d ->
            IDependency.watchable dep < w /\ V (IDependency.value dep)).
  { unfold depsOk in Hdeps. rewrite Hcls in Hdeps. exact Hdeps. }
  destruct (initialized d) eqn:Hinit.
  - destruct (anyChanged_spec (dependencies d) h1 ow1 Hmid1 How1 Hdeps1)
      as (h2 & b & Hrun2 & Hmid2 & Hm2 & Ha2 & How2 & Hfresh).
    assert (Hreq : Derived.requiresRecompute (run n) w h1 = (h2, Ok b)).
    { unfold Derived.requiresRecompute.
      eapply exec_bind; [eapply getDerived_lookup; [exact How1|exact Hcls1]|cbv beta].
      rewrite Hinit. exact Hrun2. }
    assert (Hlis2 : listenersOk h2 w ow1).
    { eapply listenersOk_skeleton; [apply Hm2|]. exact Hlis1. }
    destruct b.
    + destruct (recompute_path h2 ow1 d Hmid2 How2 Hcls1 eq_refl Hcomp Hdeps Hlis2)
        as (h' & ow' & Hrun & Hmid' & Hm' & Ha' & How' & Hnode' & Hd' & Hv').
      exact (Hfinish h2 h' ow' true Hm2 Ha2 Hreq Hrun Hmid' Hm' Ha' How' Hnode' Hd' Hv').
    + destruct (resubscribe_path h2 ow1 d Hmid2 How2 Hcls1 eq_refl Hinit Hcomp Hdeps Hlis2 Hcache
                  (Hfresh eq_refl))
        as (h' & ow' & Hrun & Hmid' & Hm' & Ha' & How' & Hnode' & Hd' & Hv').
      exact (Hfinish h2 h' ow' false Hm2 Ha2 Hreq Hrun Hmid' Hm' Ha' How' Hnode' Hd' Hv').
  - assert (Hreq : Derived.requiresRecompute (run n) w h1 = (h1, Ok true)).
    { unfold Derived.requiresRecompute.
      eapply exec_bind; [eapply getDerived_lookup; [exact How1|exact Hcls1]|cbv beta].
      rewrite Hinit. reflexivity. }
    destruct (recompute_path h1 ow1 d Hmid1 How1 Hcls1 eq_refl Hcomp Hdeps Hlis1)
      as (h' & ow' & Hrun & Hmid' & Hm' & Ha' & How' & Hnode' & Hd' & Hv').
    exact (Hfinish h1 h' ow' true (mono_refl _) (aboveSame_refl _ _) Hreq Hrun Hmid' Hm' Ha' How' Hnode' Hd' Hv').
Qed.

Lemma get_plain h ow e :
  mid V w h -> objects h !! w = Some ow -> cls ow = PlainFieldClass e ->
  nodeOk V h w ow ->
  exists h', get (run n) w h = (h', Ok (truth h w))
    /\ belowOk V (S w) h' /\ mono h h' /\ aboveSame (S w) h h' /\ notDirtyAt h' w.
Proof.
  intros Hmid How Hcls (Hcomp & Hdeps & Hlis & Hcache & Hsub).
  destruct (mid_store_self w h ow (with_dirty false ow) Hmid How)
    as (Hmid1 & Hm1 & Ha1); [unfold sameStatic; simpl; destruct (cls ow); auto|auto|auto|].
  exists (store w (with_dirty false ow) h). split.
  { unfold get. eapply exec_bind; [eapply getObject_lookup, How|cbv beta]. rewrite Hcls.
    unfold PlainField.get, ListenerManager.checkNotDispatchingDirty.
    eapply exec_bind.
    { eapply exec_bind; [eapply getObject_lookup, How|cbv beta].
      destruct Hlis as [-> _]. reflexivity. }
    cbv beta. eapply exec_bind; [exact (update_lookup _ _ _ _ How)|cbv beta].
    eapply exec_bind; [eapply getObject_lookup, lookup_store_eq, How|cbv beta].
    rewrite (truth_field h w ow e How Hcls). reflexivity. }
  split; [|split; [exact Hm1|split; [exact Ha1|]]].
  - apply belowOk_S; [apply Hmid1|]. intros o Ho.
    rewrite (lookup_store_eq _ _ _ _ How) in Ho. injection Ho as <-.
    pose proof (listenersOk_skeleton _ _ w ow (proj1 Hm1) Hlis) as Hlis1.
    unfold nodeOk, computeOk, depsOk, cacheOk, subscribedOk in *. simpl. rewrite Hcls in *.
    split; [exact Hcomp|]. split; [exact I|]. split; [exact Hlis1|]. split; exact I.
  - exists (with_dirty false ow). split; [eapply lookup_store_eq, How|reflexivity].
Qed.

End GetProof.

(** Reading a watchable of a well-formed graph returns what it should
    read as, given [w + 1] nested calls, and keeps the graph well-formed. *)
Lemma get_spec : forall w n, S w <= n -> getSpec V n w.
Proof.
  intros w. induction w as [w IHw] using lt_wf_ind. intros [|n] Hn; [lia|].
  intros h Hw Hst Hb.
  destruct (lookup_lt_is_Some_2 _ _ Hw) as [ow How].
  assert (Hmid : mid V w h).
  { split; [exact Hw|]. split; [exact Hst|]. eapply belowOk_weaken; [|exact Hb]. lia. }
  assert (IH : forall x, x < w -> getSpec V n x) by (intros x Hx; apply IHw; lia).
  pose proof (Hb w ow ltac:(lia) How) as Hnode.
  pose proof (Hst w ow How) as Hc. unfold computeOk in Hc.
  destruct (cls ow) as [e|d [| |]|] eqn:Hcls; try contradiction.
  - exact (get_plain n w h ow e Hmid How Hcls Hnode).
  - exact (get_derived n w IH h ow d Hmid How Hcls Hnode).
Qed.
End Values.

(** ** Dispatches *)

Lemma sameClass_refl c : sameClass c c.
Proof. destruct c; simpl; auto. Qed.

Lemma sameClass_trans c1 c2 c3 : sameClass c1 c2 -> sameClass c2 c3 -> sameClass c1 c3.
Proof.
  destruct c1, c2, c3; simpl; try tauto; try congruence.
  intros (-> & -> & -> & ->) (-> & -> & -> & ->). auto.
Qed.

Lemma sameClass_sameStatic o o' :
  sameClass (cls o) (cls o') -> value o' = value o -> sameStatic o o'.
Proof.
  unfold sameStatic. destruct (cls o), (cls o'); simpl; intros H1 H2; intuition congruence.
Qed.

Lemma tombstoned_refl h s : tombstoned h s s.
Proof. split; [reflexivity|]. auto. Qed.

Lemma tombstoned_elem h s s' l : tombstoned h s s' -> Some l ∈ s' -> Some l ∈ s.
Proof.
  intros [Hlen H] Hin. apply list_elem_of_lookup in Hin as [i Hi].
  assert (Hlt : i < length s) by (rewrite <- Hlen; eapply lookup_lt_Some, Hi).
  destruct (lookup_lt_is_Some_2 _ _ Hlt) as [e He].
  destruct (H _ _ He) as [H'|[H' _]]; rewrite Hi in H'.
  - injection H' as <-. eapply list_elem_of_lookup_2, He.
  - discriminate.
Qed.

(** An entry of the old set is still there, or its owner is dirty. *)
Lemma tombstoned_kept h s s' z :
  tombstoned h s s' -> Some (DirtyListenerOf z) ∈ s ->
  Some (DirtyListenerOf z) ∈ s' \/ dirtyAt h z.
Proof.
  intros [Hlen H] Hin. apply list_elem_of_lookup in Hin as [i Hi].
  destruct (H _ _ Hi) as [H'|(_ & z' & [= <-] & Hd)]; [left|right; exact Hd].
  eapply list_elem_of_lookup_2, H'.
Qed.

Lemma dirtied_objects h h' : objects h' = objects h -> dirtied h h'.
Proof.
  intros E. split; [rewrite E; reflexivity|]. intros y o Ho. exists o. rewrite E.
  split; [exact Ho|]. split; [apply sameClass_refl|].
  split; [reflexivity|]. split; [reflexivity|]. split; [reflexivity|].
  split; [auto|]. split; [apply tombstoned_refl|congruence].
Qed.

Lemma dirtied_refl h : dirtied h h.
Proof. apply dirtied_objects. reflexivity. Qed.

Lemma dirtied_dirtyAt h h' z : dirtied h h' -> dirtyAt h z -> dirtyAt h' z.
Proof.
  intros [_ H] (o & Ho & Hd). destruct (H _ _ Ho) as (o' & Ho' & _ & _ & _ & _ & Hd' & _).
  exists o'. auto.
Qed.

Lemma dirtied_trans h1 h2 h3 : dirtied h1 h2 -> dirtied h2 h3 -> dirtied h1 h3.
Proof.
  intros H12 H23. pose proof H12 as [L12 D12]. pose proof H23 as [L23 D23].
  split; [congruence|]. intros y o1 Ho1.
  destruct (D12 _ _ Ho1) as (o2 & Ho2 & C12 & V12 & CL12 & F12 & M12 & T12 & K12).
  destruct (D23 _ _ Ho2) as (o3 & Ho3 & C23 & V23 & CL23 & F23 & M23 & T23 & K23).
  exists o3. split; [exact Ho3|]. split; [eapply sameClass_trans; eassumption|].
  split; [congruence|]. split; [congruence|]. split; [congruence|].
  split; [auto|]. split; [|].
  - destruct T12 as [Len12 T12], T23 as [Len23 T23]. split; [congruence|].
    intros i e He. destruct (T12 _ _ He) as [H2|(H2 & z & -> & Hz)].
    + destruct (T23 _ _ H2) as [H3|(H3 & z & -> & Hz)]; [left; exact H3|right].
      split; [exact H3|]. eauto.
    + right. destruct (T23 _ _ H2) as [H3|(H3 & z' & [=] & _)].
      split; [exact H3|]. exists z. split; [reflexivity|]. eapply dirtied_dirtyAt; eassumption.
  - intros Hd1 Hd3 Hc3 z Hz. destruct (dirty o2) eqn:Hd2.
    + eapply dirtied_dirtyAt; [exact H23|]. apply K12; [exact Hd1|reflexivity|congruence|].
      eapply tombstoned_elem; eassumption.
    + apply K23; auto.
Qed.

Lemma dirtied_skeleton h h' : dirtied h h' -> skeleton h h'.
Proof.
  intros [Hlen H]. split; [exact Hlen|]. intros y o Ho.
  destruct (H _ _ Ho) as (o' & Ho' & Hc & Hv & _). exists o'. split; [exact Ho'|].
  apply sameClass_sameStatic; assumption.
Qed.

Lemma signalled_objects h h' : objects h' = objects h -> signalled h h'.
Proof.
  intros E. split; [rewrite E; reflexivity|]. intros y o Ho. exists o. rewrite E.
  split; [exact Ho|]. split; [apply sameClass_refl|]. repeat split; auto.
Qed.

Lemma signalled_refl h : signalled h h.
Proof. apply signalled_objects. reflexivity. Qed.

Lemma signalled_trans h1 h2 h3 : signalled h1 h2 -> signalled h2 h3 -> signalled h1 h3.
Proof.
  intros [L12 D12] [L23 D23]. split; [congruence|]. intros y o1 Ho1.
  destruct (D12 _ _ Ho1) as (o2 & Ho2 & C12 & V12 & DL12 & F12 & M12 & Len12 & S12).
  destruct (D23 _ _ Ho2) as (o3 & Ho3 & C23 & V23 & DL23 & F23 & M23 & Len23 & S23).
  exists o3. split; [exact Ho3|]. split; [eapply sameClass_trans; eassumption|].
  repeat split; try congruence. auto.
Qed.

Lemma signalled_skeleton h h' : signalled h h' -> skeleton h h'.
Proof.
  intros [Hlen H]. split; [exact Hlen|]. intros y o Ho.
  destruct (H _ _ Ho) as (o' & Ho' & Hc & Hv & _). exists o'. split; [exact Ho'|].
  apply sameClass_sameStatic; assumption.
Qed.

(** ** The change dispatch *)

Lemma recorded_elem dep ds ds' :
  recorded ds = recorded ds' -> dep ∈ ds' ->
  exists dep0, dep0 ∈ ds
    /\ IDependency.watchable dep0 = IDependency.watchable dep
    /\ IDependency.value dep0 = IDependency.value dep.
Proof.
  intros E Hin. apply elem_of_recorded. rewrite E. apply elem_of_recorded. eauto.
Qed.

Lemma signalled_inv h h' y o' :
  signalled h h' -> objects h' !! y = Some o' ->
  exists o, objects h !! y = Some o
    /\ sameClass (cls o) (cls o') /\ value o' = value o
    /\ dirtyListeners o' = dirtyListeners o
    /\ callingDirtyListeners o' = callingDirtyListeners o
    /\ dirty o' = dirty o
    /\ length (changeListeners o') = length (changeListeners o)
    /\ forall l, Some l ∈ changeListeners o' -> Some l ∈ changeListeners o.
Proof.
  intros [Hlen H] Ho'.
  assert (Hy : y < length (objects h)) by (rewrite <- Hlen; eapply lookup_lt_Some, Ho').
  destruct (lookup_lt_is_Some_2 _ _ Hy) as [o Ho].
  destruct (H _ _ Ho) as (o2 & Ho2 & Hrest). exists o. split; [exact Ho|].
  assert (o2 = o') as <- by congruence. exact Hrest.
Qed.

Lemma signalled_store h x o o' :
  objects h !! x = Some o ->
  sameClass (cls o) (cls o') -> value o' = value o ->
  dirtyListeners o' = dirtyListeners o ->
  callingDirtyListeners o' = callingDirtyListeners o ->
  dirty o' = dirty o ->
  length (changeListeners o') = length (changeListeners o) ->
  (forall l, Some l ∈ changeListeners o' -> Some l ∈ changeListeners o) ->
  signalled h (store x o' h).
Proof.
  intros Ho H1 H2 H3 H4 H5 H6 H7. split; [apply length_store|].
  intros y oy Hy. destruct (decide (x = y)) as [<-|Hne].
  - exists o'. split; [eapply lookup_store_eq, Ho|].
    assert (oy = o) as -> by congruence. auto 10.
  - exists oy. rewrite lookup_store_ne by exact Hne. split; [exact Hy|].
    split; [apply sameClass_refl|]. auto 10.
Qed.

Section Values.
Variable V : jsval -> Prop.

Lemma depsOk_sameClass y o o' :
  depsOk V y o -> sameClass (cls o) (cls o') -> depsOk V y o'.
Proof.
  unfold depsOk. destruct (cls o) as [|d s|], (cls o') as [|d' s'|]; simpl; try tauto.
  intros H (_ & _ & _ & Hrec) dep Hin.
  destruct (recorded_elem dep _ _ Hrec Hin) as (dep0 & Hin0 & <- & <-). apply H, Hin0.
Qed.

Lemma pruned_skeleton h h' : pruned h h' -> skeleton h h'.
Proof.
  intros [Hlen H]. split; [exact Hlen|]. intros y o Ho.
  destruct (H _ _ Ho) as (o' & Ho' & Hc & Hv & _). exists o'. split; [exact Ho'|].
  apply sameClass_sameStatic; assumption.
Qed.

Lemma shapeOk_pruned E h h' : shapeOk V E h -> pruned h h' -> shapeOk V E h'.
Proof.
  intros Hs Hp y o' Ho'. pose proof Hp as [Hlen H].
  assert (Hy : y < length (objects h)) by (rewrite <- Hlen; eapply lookup_lt_Some, Ho').
  destruct (lookup_lt_is_Some_2 _ _ Hy) as [o Ho].
  destruct (H _ _ Ho) as (o2 & Ho2 & Hc & Hv & Hcl & Hcs & Hdl & Hds & Hf).
  assert (o2 = o') as -> by congruence.
  destruct (Hs _ _ Ho) as (H1 & H2 & [H3 H3'] & H4 & H5 & H6).
  split; [eapply computeOk_sameStatic; [exact H1|apply sameClass_sameStatic; assumption]|].
  split; [eapply depsOk_sameClass; eassumption|].
  split; [split|].
  - intros l Hl. eapply listenerOk_skeleton; [eapply pruned_skeleton, Hp|]. apply H3, Hds, Hl.
  - intros l Hl. eapply listenerOk_skeleton; [eapply pruned_skeleton, Hp|]. apply H3', Hcs, Hl.
  - rewrite Hdl, Hcl. auto.
Qed.

Lemma signalled_pruned E h h' : shapeOk V E h -> signalled h h' -> pruned h h'.
Proof.
  intros Hs [Hlen H]. split; [exact Hlen|]. intros y o Ho.
  destruct (H _ _ Ho) as (o' & Ho' & Hc & Hv & Hdl & Hcd & Hd & Hlen' & Hsub).
  exists o'. split; [exact Ho'|]. split; [exact Hc|]. split; [exact Hv|].
  split; [exact Hlen'|]. split; [exact Hsub|]. rewrite Hdl, Hcd, Hd.
  split; [reflexivity|]. split; [auto|]. apply (Hs _ _ Ho).
Qed.

Lemma shapeOk_signalled E h h' : shapeOk V E h -> signalled h h' -> shapeOk V E h'.
Proof. intros Hs Hsig. eapply shapeOk_pruned; [exact Hs|]. eapply signalled_pruned; eassumption. Qed.

Section Dispatch.
Variables (E N : nat).

Section Loop.
Variables (x F : nat).
Hypothesis Hchild : forall z fuel, x < z -> F <= fuel -> changeListenerSpec V E N fuel z.

Lemma loopChange_spec : forall m i h o fuel,
  length (objects h) = N -> shapeOk V E h ->
  objects h !! x = Some o -> length (changeListeners o) - i <= m ->
  m + 1 + F <= fuel ->
  exists h', run fuel (LoopChange x i) h = (h', Ok VUndefined) /\ signalled h h'.
Proof.
  induction m as [|m IHm]; intros i h o fuel HN Hs Ho Hm Hfuel;
    (destruct fuel as [|fuel]; [lia|]); simpl;
    unfold ListenerManager.loopChange;
    destruct (changeListeners o !! i) as [e|] eqn:He.
  - apply lookup_lt_Some in He. lia.
  - exists h. split; [|apply signalled_refl].
    eapply exec_bind; [eapply getObject_lookup, Ho|cbv beta]. rewrite He. reflexivity.
  - assert (Hnext : forall h1, signalled h h1 ->
        exists h', run fuel (LoopChange x (S i)) h1 = (h', Ok VUndefined) /\ signalled h h').
    { intros h1 Hsig. pose proof Hsig as [Hlen Hobj].
      destruct (Hobj _ _ Ho) as (o1 & Ho1 & _ & _ & _ & _ & _ & Hlen1 & _).
      destruct (IHm (S i) h1 o1 fuel) as (h' & Hrun & Hsig');
        [congruence|eapply shapeOk_signalled; eassumption|exact Ho1| |lia|].
      { apply lookup_lt_Some in He. lia. }
      exists h'. split; [exact Hrun|]. eapply signalled_trans; eassumption. }
    destruct e as [l|].
    + destruct (Hs _ _ Ho) as (_ & _ & [_ Hent] & _).
      destruct (Hent l (list_elem_of_lookup_2 _ _ _ He)) as [[k ->]|(z & -> & Hz & Hder)].
      * destruct fuel as [|fuel]; [lia|].
        destruct (Hnext (with_log (fun l => l ++ [Called k]) h)) as (h' & Hrun & Hsig);
          [apply signalled_objects; reflexivity|].
        exists h'. split; [|exact Hsig].
        eapply exec_bind; [eapply getObject_lookup, Ho|cbv beta]. rewrite He.
        eapply exec_bind; [apply run_mock|exact Hrun].
      * destruct (Hchild z fuel Hz ltac:(lia) h HN Hs Hder) as (h1 & Hrun1 & Hsig1).
        destruct (Hnext h1 Hsig1) as (h' & Hrun & Hsig).
        exists h'. split; [|exact Hsig].
        eapply exec_bind; [eapply getObject_lookup, Ho|cbv beta]. rewrite He.
        eapply exec_bind; [exact Hrun1|exact Hrun].
    + destruct (Hnext h (signalled_refl h)) as (h' & Hrun & Hsig).
      exists h'. split; [|exact Hsig].
      eapply exec_bind; [eapply getObject_lookup, Ho|cbv beta]. rewrite He. exact Hrun.
  - exists h. split; [|apply signalled_refl].
    eapply exec_bind; [eapply getObject_lookup, Ho|cbv beta]. rewrite He. reflexivity.
Qed.

Lemma callChangeListeners_spec h o fuel :
  length (objects h) = N -> shapeOk V E h ->
  objects h !! x = Some o -> E + 1 + F <= fuel ->
  exists h', ListenerManager.callChangeListeners (run fuel) x h = (h', Ok tt)
    /\ signalled h h'.
Proof.
  intros HN Hs Ho Hfuel. unfold ListenerManager.callChangeListeners.
  destruct (signaled o) eqn:Hsg.
  { exists h. split; [|apply signalled_refl].
    eapply exec_bind; [eapply getObject_lookup, Ho|cbv beta]. rewrite Hsg. reflexivity. }
  set (o1 := with_callingChangeListeners true (with_signaled true o)).
  assert (Hsig1 : signalled h (store x o1 h)).
  { eapply signalled_store; [exact Ho|apply sameClass_refl|..]; auto. }
  assert (Ho1 : objects (store x o1 h) !! x = Some o1) by (eapply lookup_store_eq, Ho).
  destruct (loopChange_spec E 0 (store x o1 h) o1 fuel) as (h2 & Hrun2 & Hsig2);
    [rewrite length_store; exact HN|eapply shapeOk_signalled; eassumption|exact Ho1| |lia|].
  { destruct (Hs _ _ Ho) as (_ & _ & _ & _ & _ & Hlen). simpl. lia. }
  pose proof Hsig2 as [_ Hobj2].
  destruct (Hobj2 _ _ Ho1) as (o2 & Ho2 & Hc2 & Hv2 & Hdl2 & Hcd2 & Hd2 & Hlen2 & Hsub2).
  exists (store x (with_callingChangeListeners false o2) h2). split.
  { eapply exec_bind; [eapply getObject_lookup, Ho|cbv beta]. rewrite Hsg.
    eapply exec_bind; [exact (update_lookup _ _ _ _ Ho)|cbv beta].
    eapply exec_bind; [exact (update_lookup _ _ _ _ (lookup_store_eq _ _ _ _ Ho))|cbv beta].
    rewrite store_store.
    eapply exec_bind; [exact Hrun2|cbv beta]. exact (update_lookup _ _ _ _ Ho2). }
  eapply signalled_trans; [exact Hsig1|]. eapply signalled_trans; [exact Hsig2|].
  eapply signalled_store; [exact Ho2|apply sameClass_refl|..]; auto.
Qed.

Lemma removeChange_signalled y l h :
  exists h', ListenerManager.removeChange y l h = (h', Ok tt) /\ signalled h h'.
Proof.
  unfold ListenerManager.removeChange.
  destruct (objects h !! y) as [o|] eqn:Ho.
  - eexists. split; [exact (update_lookup _ _ _ _ Ho)|].
    eapply signalled_store; [exact Ho|apply sameClass_refl|..]; auto.
    + simpl. unfold IterableWeakSet.delete. apply length_fmap.
    + intros l'. simpl. apply elem_of_delete.
  - eexists. split; [reflexivity|]. apply signalled_objects. simpl. rewrite Ho. reflexivity.
Qed.

Lemma unsubChange_signalled z ds : forall h,
  exists h', forEach ds (Derived.unsubChangeOf z) h = (h', Ok tt) /\ signalled h h'.
Proof.
  induction ds as [|dep ds IHds]; intros h.
  - exists h. split; [reflexivity|apply signalled_refl].
  - assert (Hstep : exists h1, Derived.unsubChangeOf z dep h = (h1, Ok tt) /\ signalled h h1).
    { unfold Derived.unsubChangeOf, when. destruct (IDependency.unsubChange dep).
      - apply removeChange_signalled.
      - exists h. split; [reflexivity|apply signalled_refl]. }
    destruct Hstep as (h1 & Hrun1 & Hsig1). destruct (IHds h1) as (h2 & Hrun2 & Hsig2).
    exists h2. split; [|eapply signalled_trans; eassumption].
    simpl. eapply exec_bind; [exact Hrun1|exact Hrun2].
Qed.

Lemma recorded_clearUnsubChange ds :
  recorded (Derived.clearUnsubChange <$> ds) = recorded ds.
Proof. unfold recorded. rewrite <- list_fmap_compose. reflexivity. Qed.

Lemma unsubChangeDependencies_signalled z h o d s :
  objects h !! z = Some o -> cls o = DerivedClass d s ->
  exists h', Derived.unsubChangeDependencies z h = (h', Ok tt) /\ signalled h h'.
Proof.
  intros Ho Hcls. unfold Derived.unsubChangeDependencies.
  destruct (signaled o) eqn:Hsg.
  { exists h. split; [|apply signalled_refl].
    eapply exec_bind; [eapply getObject_lookup, Ho|cbv beta]. rewrite Hsg. reflexivity. }
  destruct (unsubChange_signalled z (dependencies d) h) as (h1 & Hrun1 & Hsig1).
  pose proof Hsig1 as [_ Hobj1].
  destruct (Hobj1 _ _ Ho) as (o1 & Ho1 & Hc1 & Hv1 & Hdl1 & Hcd1 & Hd1 & Hlen1 & Hsub1).
  exists (store z (with_derived (with_dependencies (Derived.clearUnsubChange <$> dependencies d)) o1) h1).
  split.
  { eapply exec_bind; [eapply getObject_lookup, Ho|cbv beta]. rewrite Hsg.
    eapply exec_bind; [eapply getDerived_lookup; [exact Ho|exact Hcls]|cbv beta].
    eapply exec_bind; [exact Hrun1|cbv beta]. exact (update_lookup _ _ _ _ Ho1). }
  eapply signalled_trans; [exact Hsig1|].
  rewrite Hcls in Hc1. unfold with_derived.
  destruct (cls o1) as [|d1 s1|] eqn:Hcls1; simpl in Hc1; try contradiction.
  destruct Hc1 as (-> & Hcomp & Hinit & Hrec).
  eapply signalled_store; [exact Ho1|..]; auto.
  rewrite Hcls1. simpl. rewrite recorded_clearUnsubChange. auto.
Qed.

Lemma whenChange_spec z h fuel :
  length (objects h) = N -> shapeOk V E h -> isDerivedAt h z -> E + 1 + F <= fuel ->
  x = z ->
  exists h', whenChange (run fuel) z h = (h', Ok tt) /\ signalled h h'.
Proof.
  intros HN Hs (o & d & Ho & Hcls) Hfuel <-.
  assert (Hunsub : exists h1,
            when (dirty o) (Derived.unsubChangeDependencies x) h = (h1, Ok tt)
            /\ signalled h h1).
  { unfold when. destruct (dirty o).
    - eapply unsubChangeDependencies_signalled; eassumption.
    - exists h. split; [reflexivity|apply signalled_refl]. }
  destruct Hunsub as (h1 & Hrun1 & Hsig1).
  pose proof Hsig1 as [Hlen1 Hobj1].
  destruct (Hobj1 _ _ Ho) as (o1 & Ho1 & _).
  destruct (callChangeListeners_spec h1 o1 fuel) as (h2 & Hrun2 & Hsig2);
    [congruence|eapply shapeOk_signalled; eassumption|exact Ho1|exact Hfuel|].
  exists h2. split; [|eapply signalled_trans; eassumption].
  unfold whenChange. eapply exec_bind; [eapply getObject_lookup, Ho|cbv beta].
  rewrite Hcls. unfold Derived.whenChange.
  eapply exec_bind; [eapply getObject_lookup, Ho|cbv beta].
  eapply exec_bind; [exact Hrun1|exact Hrun2].
Qed.
End Loop.

Lemma changeListener_spec : forall k z fuel,
  N - z <= k -> (E + 2) * (N - z) <= fuel -> changeListenerSpec V E N fuel z.
Proof.
  induction k as [|k IHk]; intros z fuel Hk Hfuel h HN Hs Hder.
  - destruct Hder as (o & d & Ho & _). apply lookup_lt_Some in Ho. lia.
  - assert (Hz : z < N).
    { destruct Hder as (o & d & Ho & _). apply lookup_lt_Some in Ho. lia. }
    destruct fuel as [|fuel]; [nia|].
    destruct (whenChange_spec z ((E + 2) * (N - z - 1))) with (z := z) (h := h) (fuel := fuel)
      as (h' & Hrun & Hsig); auto.
    { intros z' fuel' Hz' Hfuel'. apply IHk; [lia|]. nia. }
    { nia. }
    exists h'. split; [|exact Hsig].
    simpl. eapply exec_bind; [exact Hrun|reflexivity].
Qed.

(** The signal stage of a commit: [callChangeListeners] on a field. *)
Lemma set_signal_spec f h o fuel :
  length (objects h) = N -> shapeOk V E h -> objects h !! f = Some o ->
  (E + 2) * N <= fuel ->
  exists h', PlainField.set_signal (run fuel) f h = (h', Ok tt) /\ signalled h h'.
Proof.
  intros HN Hs Ho Hfuel.
  assert (Hf : f < N) by (rewrite <- HN; eapply lookup_lt_Some, Ho).
  eapply (callChangeListeners_spec f ((E + 2) * (N - f - 1))); eauto.
  - intros z fuel' Hz Hfuel'. eapply changeListener_spec; [reflexivity|]. nia.
  - nia.
Qed.
End Dispatch.
End Values.

(** ** The dirty dispatch *)

Lemma unsubbed_refl z s : unsubbed z s s.
Proof. split; [reflexivity|]. auto. Qed.

Lemma unsubbed_trans z s1 s2 s3 : unsubbed z s1 s2 -> unsubbed z s2 s3 -> unsubbed z s1 s3.
Proof.
  intros [L12 H12] [L23 H23]. split; [congruence|]. intros i e He.
  destruct (H12 _ _ He) as [H2|[H2 ->]].
  - apply H23, H2.
  - right. destruct (H23 _ _ H2) as [H3|[H3 [=]]]. auto.
Qed.

Lemma unsubbed_elem z s s' l : unsubbed z s s' -> Some l ∈ s' -> Some l ∈ s.
Proof.
  intros [Hlen H] Hin. apply list_elem_of_lookup in Hin as [i Hi].
  assert (Hlt : i < length s) by (rewrite <- Hlen; eapply lookup_lt_Some, Hi).
  destruct (lookup_lt_is_Some_2 _ _ Hlt) as [e He].
  destruct (H _ _ He) as [H'|[H' _]]; rewrite Hi in H'.
  - injection H' as <-. eapply list_elem_of_lookup_2, He.
  - discriminate.
Qed.

Lemma unsubbed_delete z (s : IterableWeakSet.t) :
  unsubbed z s (IterableWeakSet.delete (DirtyListenerOf z) s).
Proof.
  unfold IterableWeakSet.delete. split; [apply length_fmap|]. intros i e He.
  rewrite list_lookup_fmap, He. simpl. destruct (decide (e = Some (DirtyListenerOf z))); auto.
Qed.

Lemma unsubscribed_objects z h h' : objects h' = objects h -> unsubscribed z h h'.
Proof.
  intros E. split; [rewrite E; reflexivity|]. intros y o Ho. exists o. rewrite E.
  split; [exact Ho|]. split; [apply sameClass_refl|].
  repeat (split; [reflexivity|]). apply unsubbed_refl.
Qed.

Lemma unsubscribed_refl z h : unsubscribed z h h.
Proof. apply unsubscribed_objects. reflexivity. Qed.

Lemma unsubscribed_trans z h1 h2 h3 :
  unsubscribed z h1 h2 -> unsubscribed z h2 h3 -> unsubscribed z h1 h3.
Proof.
  intros [L12 D12] [L23 D23]. split; [congruence|]. intros y o1 Ho1.
  destruct (D12 _ _ Ho1) as (o2 & Ho2 & C12 & V12 & CL12 & F12 & M12 & T12).
  destruct (D23 _ _ Ho2) as (o3 & Ho3 & C23 & V23 & CL23 & F23 & M23 & T23).
  exists o3. split; [exact Ho3|]. split; [eapply sameClass_trans; eassumption|].
  repeat (split; [congruence|]). eapply unsubbed_trans; eassumption.
Qed.

Lemma unsubscribed_store z h x o o' :
  objects h !! x = Some o ->
  sameClass (cls o) (cls o') -> value o' = value o ->
  changeListeners o' = changeListeners o ->
  callingDirtyListeners o' = callingDirtyListeners o ->
  dirty o' = dirty o ->
  unsubbed z (dirtyListeners o) (dirtyListeners o') ->
  unsubscribed z h (store x o' h).
Proof.
  intros Ho H1 H2 H3 H4 H5 H6. split; [apply length_store|].
  intros y oy Hy. destruct (decide (x = y)) as [<-|Hne].
  - exists o'. split; [eapply lookup_store_eq, Ho|].
    assert (oy = o) as -> by congruence. auto 10.
  - exists oy. rewrite lookup_store_ne by exact Hne. split; [exact Hy|].
    split; [apply sameClass_refl|]. repeat (split; [reflexivity|]). apply unsubbed_refl.
Qed.

Lemma dirtyAt_store h x o o' z :
  objects h !! x = Some o -> (dirty o = true -> dirty o' = true) ->
  dirtyAt h z -> dirtyAt (store x o' h) z.
Proof.
  intros Ho Hd (oz & Hoz & Hdz). destruct (decide (x = z)) as [<-|Hne].
  - exists o'. split; [eapply lookup_store_eq, Ho|]. apply Hd. congruence.
  - exists oz. rewrite lookup_store_ne by exact Hne. auto.
Qed.

Lemma tombstoned_weaken h h' s s' :
  (forall z, dirtyAt h z -> dirtyAt h' z) -> tombstoned h s s' -> tombstoned h' s s'.
Proof.
  intros Hd [Hlen H]. split; [exact Hlen|]. intros i e He.
  destruct (H _ _ He) as [H'|(H' & z & -> & Hz)]; [left; exact H'|right].
  split; [exact H'|]. eauto.
Qed.

(** Leaving dependencies, then a dispatch that makes [z] dirty. *)
Lemma unsubscribed_dirtied z h hu h' :
  unsubscribed z h hu -> dirtied hu h' -> dirtyAt h' z -> dirtied h h'.
Proof.
  intros [L1 D1] [L2 D2] Hz. split; [congruence|]. intros y o Ho.
  destruct (D1 _ _ Ho) as (ou & Hou & C1 & V1 & CL1 & F1 & M1 & [Len1 T1]).
  destruct (D2 _ _ Hou) as (o' & Ho' & C2 & V2 & CL2 & F2 & M2 & [Len2 T2] & K2).
  exists o'. split; [exact Ho'|]. split; [eapply sameClass_trans; eassumption|].
  split; [congruence|]. split; [congruence|]. split; [congruence|].
  split; [rewrite <- M1; exact M2|]. split; [|rewrite <- M1; exact K2].
  split; [congruence|]. intros i e He.
  destruct (T1 _ _ He) as [Hu|[Hu ->]].
  - apply T2, Hu.
  - right. destruct (T2 _ _ Hu) as [H3|(H3 & z' & [=] & _)]. eauto.
Qed.

(** The dispatch of [x] itself: the flag is raised at [o1], the loop
    runs, the flag is lowered. *)
Lemma dirtied_bracket h x o h2 o2 :
  objects h !! x = Some o -> dirty o = false -> callingDirtyListeners o = false ->
  dirtied (store x (with_callingDirtyListeners true (with_signaled false (with_dirty true o))) h) h2 ->
  objects h2 !! x = Some o2 ->
  (forall j z, dirtyListeners o2 !! j = Some (Some (DirtyListenerOf z)) -> dirtyAt h2 z) ->
  dirtied h (store x (with_callingDirtyListeners false o2) h2).
Proof.
  intros Ho Hd Hc [Hlen D] Ho2 Hent.
  set (o1 := with_callingDirtyListeners true (with_signaled false (with_dirty true o))) in *.
  set (o3 := with_callingDirtyListeners false o2).
  assert (Hup : forall z, dirtyAt h2 z -> dirtyAt (store x o3 h2) z).
  { intros z. eapply dirtyAt_store; [exact Ho2|auto]. }
  split; [rewrite length_store, Hlen, length_store; reflexivity|].
  intros y oy Hy. destruct (decide (x = y)) as [<-|Hne].
  - assert (oy = o) as -> by congruence.
    destruct (D x o1 (lookup_store_eq _ _ _ _ Ho)) as (o2' & Ho2' & C & Vv & CL & F & M & T & K).
    assert (o2' = o2) as -> by congruence.
    exists o3. split; [eapply lookup_store_eq, Ho2|]. split; [exact C|].
    split; [exact Vv|]. split; [exact CL|]. split; [simpl; congruence|].
    split; [intros _; apply M; reflexivity|].
    split; [eapply tombstoned_weaken; [exact Hup|exact T]|].
    intros _ _ _ z Hz. apply list_elem_of_lookup in Hz as [j Hj]. eapply Hup, Hent, Hj.
  - destruct (D y oy) as (oy2 & Hoy2 & C & Vv & CL & F & M & T & K).
    { rewrite lookup_store_ne by exact Hne. exact Hy. }
    exists oy2. rewrite lookup_store_ne by exact Hne. split; [exact Hoy2|].
    split; [exact C|]. split; [exact Vv|]. split; [exact CL|]. split; [exact F|].
    split; [exact M|]. split; [eapply tombstoned_weaken; [exact Hup|exact T]|].
    intros H1 H2 H3 z Hz. apply Hup. eapply K; eassumption.
Qed.

Lemma pruned_store h x o o' :
  objects h !! x = Some o ->
  sameClass (cls o) (cls o') -> value o' = value o ->
  changeListeners o' = changeListeners o ->
  dirtyListeners o' = dirtyListeners o ->
  (callingDirtyListeners o' = true -> dirty o' = true) ->
  (forall y oy, objects h !! y = Some oy -> callingDirtyListeners oy = true -> dirty oy = true) ->
  pruned h (store x o' h).
Proof.
  intros Ho H1 H2 H3 H4 H5 Hall. split; [apply length_store|].
  intros y oy Hy. destruct (decide (x = y)) as [<-|Hne].
  - exists o'. split; [eapply lookup_store_eq, Ho|].
    assert (oy = o) as -> by congruence. rewrite H3, H4. auto 10.
  - exists oy. rewrite lookup_store_ne by exact Hne. split; [exact Hy|].
    split; [apply sameClass_refl|]. repeat (split; [auto; fail|]). eapply Hall, Hy.
Qed.

Section Values.
Variable V : jsval -> Prop.

Lemma dirtied_pruned E h h' : shapeOk V E h -> dirtied h h' -> pruned h h'.
Proof.
  intros Hs [Hlen H]. split; [exact Hlen|]. intros y o Ho.
  destruct (H _ _ Ho) as (o' & Ho' & Hc & Hv & Hcl & Hcd & Hd & Ht & _).
  exists o'. split; [exact Ho'|]. split; [exact Hc|]. split; [exact Hv|].
  rewrite Hcl, Hcd. split; [reflexivity|]. split; [auto|].
  split; [apply Ht|]. split; [intros l; eapply tombstoned_elem, Ht|].
  intros Hf. apply Hd. apply (Hs _ _ Ho), Hf.
Qed.

Lemma shapeOk_dirtied E h h' : shapeOk V E h -> dirtied h h' -> shapeOk V E h'.
Proof. intros Hs Hd. eapply shapeOk_pruned; [exact Hs|]. eapply dirtied_pruned; eassumption. Qed.

Lemma unsubscribed_pruned E z h h' : shapeOk V E h -> unsubscribed z h h' -> pruned h h'.
Proof.
  intros Hs [Hlen H]. split; [exact Hlen|]. intros y o Ho.
  destruct (H _ _ Ho) as (o' & Ho' & Hc & Hv & Hcl & Hcd & Hd & Ht).
  exists o'. split; [exact Ho'|]. split; [exact Hc|]. split; [exact Hv|].
  rewrite Hcl, Hcd, Hd. split; [reflexivity|]. split; [auto|].
  split; [apply Ht|]. split; [intros l; eapply unsubbed_elem, Ht|].
  apply (Hs _ _ Ho).
Qed.

Section Dispatch.
Variables (E N : nat).

Section Loop.
Variables (x F : nat).
Hypothesis Hchild : forall z fuel, x < z -> F <= fuel -> dirtyListenerSpec V E N fuel z.

Lemma loopDirty_spec : forall m i h o fuel,
  length (objects h) = N -> shapeOk V E h ->
  objects h !! x = Some o -> length (dirtyListeners o) - i <= m ->
  m + 1 + F <= fuel ->
  exists h', run fuel (LoopDirty x i) h = (h', Ok VUndefined) /\ dirtied h h'
    /\ forall o', objects h' !! x = Some o' ->
         forall j z, i <= j -> dirtyListeners o' !! j = Some (Some (DirtyListenerOf z)) ->
           dirtyAt h' z.
Proof.
  induction m as [|m IHm]; intros i h o fuel HN Hs Ho Hm Hfuel;
    (destruct fuel as [|fuel]; [lia|]); simpl;
    unfold ListenerManager.loopDirty;
    destruct (dirtyListeners o !! i) as [e|] eqn:He.
  - apply lookup_lt_Some in He. lia.
  - exists h. split; [|split; [apply dirtied_refl|]].
    + eapply exec_bind; [eapply getObject_lookup, Ho|cbv beta]. rewrite He. reflexivity.
    + intros o' Ho' j z Hj Hz. assert (o' = o) as -> by congruence.
      apply lookup_lt_Some in Hz. apply lookup_ge_None in He. lia.
  - assert (Hnext : forall h1, dirtied h h1 ->
        (forall z, e = Some (DirtyListenerOf z) -> dirtyAt h1 z) ->
        exists h', run fuel (LoopDirty x (S i)) h1 = (h', Ok VUndefined) /\ dirtied h h'
          /\ forall o', objects h' !! x = Some o' ->
               forall j z, i <= j -> dirtyListeners o' !! j = Some (Some (DirtyListenerOf z)) ->
                 dirtyAt h' z).
    { intros h1 Hd1 Hez. pose proof Hd1 as [Hlen Hobj].
      destruct (Hobj _ _ Ho) as (o1 & Ho1 & _ & _ & _ & _ & _ & [Hlen1 _] & _).
      destruct (IHm (S i) h1 o1 fuel) as (h' & Hrun & Hd' & Hent');
        [congruence|eapply shapeOk_dirtied; eassumption|exact Ho1| |lia|].
      { apply lookup_lt_Some in He. lia. }
      assert (Hd : dirtied h h') by (eapply dirtied_trans; eassumption).
      exists h'. split; [exact Hrun|]. split; [exact Hd|].
      intros o' Ho' j z Hj Hz. destruct (decide (j = i)) as [->|Hne].
      - destruct Hd as [_ Hobj']. destruct (Hobj' _ _ Ho) as (o'' & Ho'' & _ & _ & _ & _ & _ & [_ T] & _).
        assert (o'' = o') as -> by congruence.
        destruct (T _ _ He) as [H'|[H' _]]; rewrite Hz in H'; [|discriminate].
        injection H' as <-. eapply dirtied_dirtyAt; [exact Hd'|]. apply Hez. reflexivity.
      - eapply Hent'; [exact Ho'| |exact Hz]. lia. }
    destruct e as [l|].
    + destruct (Hs _ _ Ho) as (_ & _ & [Hent _] & _).
      destruct (Hent l (list_elem_of_lookup_2 _ _ _ He)) as [[k ->]|(z & -> & Hz & Hder)].
      * destruct fuel as [|fuel]; [lia|].
        destruct (Hnext (with_log (fun l => l ++ [Called k]) h)) as (h' & Hrun & Hsig);
          [apply dirtied_objects; reflexivity|discriminate|].
        exists h'. split; [|exact Hsig].
        eapply exec_bind; [eapply getObject_lookup, Ho|cbv beta]. rewrite He.
        eapply exec_bind; [apply run_mock|exact Hrun].
      * destruct (Hchild z fuel Hz ltac:(lia) h HN Hs Hder) as (h1 & Hrun1 & Hd1 & Hz1).
        destruct (Hnext h1 Hd1) as (h' & Hrun & Hsig).
        { intros z' [= <-]. exact Hz1. }
        exists h'. split; [|exact Hsig].
        eapply exec_bind; [eapply getObject_lookup, Ho|cbv beta]. rewrite He.
        eapply exec_bind; [exact Hrun1|exact Hrun].
    + destruct (Hnext h (dirtied_refl h)) as (h' & Hrun & Hsig); [discriminate|].
      exists h'. split; [|exact Hsig].
      eapply exec_bind; [eapply getObject_lookup, Ho|cbv beta]. rewrite He. exact Hrun.
  - exists h. split; [|split; [apply dirtied_refl|]].
    + eapply exec_bind; [eapply getObject_lookup, Ho|cbv beta]. rewrite He. reflexivity.
    + intros o' Ho' j z Hj Hz. assert (o' = o) as -> by congruence.
      apply lookup_lt_Some in Hz. apply lookup_ge_None in He. lia.
Qed.

Lemma callDirtyListeners_spec h o fuel :
  length (objects h) = N -> shapeOk V E h ->
  objects h !! x = Some o -> E + 1 + F <= fuel ->
  exists h', ListenerManager.callDirtyListeners (run fuel) x h = (h', Ok tt)
    /\ dirtied h h' /\ dirtyAt h' x.
Proof.
  intros HN Hs Ho Hfuel. unfold ListenerManager.callDirtyListeners.
  destruct (dirty o) eqn:Hdirty.
  { exists h. split; [|split; [apply dirtied_refl|exists o; auto]].
    eapply exec_bind; [eapply getObject_lookup, Ho|cbv beta]. rewrite Hdirty. reflexivity. }
  destruct (Hs _ _ Ho) as (_ & _ & _ & Hflag & Hlen & _).
  assert (Hcalling : callingDirtyListeners o = false).
  { destruct (callingDirtyListeners o); [|reflexivity]. rewrite Hflag in Hdirty; congruence. }
  set (o1 := with_callingDirtyListeners true (with_signaled false (with_dirty true o))).
  assert (Hp1 : pruned h (store x o1 h)).
  { eapply pruned_store; [exact Ho|apply sameClass_refl|..]; auto.
    intros y oy Hy. apply (Hs _ _ Hy). }
  assert (Ho1 : objects (store x o1 h) !! x = Some o1) by (eapply lookup_store_eq, Ho).
  destruct (loopDirty_spec E 0 (store x o1 h) o1 fuel) as (h2 & Hrun2 & Hd2 & Hent2);
    [rewrite length_store; exact HN|eapply shapeOk_pruned; eassumption|exact Ho1
    |simpl; lia|lia|].
  pose proof Hd2 as [_ Hobj2].
  destruct (Hobj2 _ _ Ho1) as (o2 & Ho2 & _ & _ & _ & _ & Hdirty2 & _).
  exists (store x (with_callingDirtyListeners false o2) h2). split; [|split].
  - eapply exec_bind; [eapply getObject_lookup, Ho|cbv beta]. rewrite Hdirty.
    eapply exec_bind; [exact (update_lookup _ _ _ _ Ho)|cbv beta].
    eapply exec_bind; [exact (update_lookup _ _ _ _ (lookup_store_eq _ _ _ _ Ho))|cbv beta].
    rewrite store_store.
    eapply exec_bind;
      [exact (update_lookup _ _ _ _ (lookup_store_eq _ _ _ _ Ho))|cbv beta].
    rewrite store_store.
    eapply exec_bind; [exact Hrun2|cbv beta]. exact (update_lookup _ _ _ _ Ho2).
  - eapply dirtied_bracket; [exact Ho|exact Hdirty|exact Hcalling|exact Hd2|exact Ho2|].
    intros j z Hz. eapply (Hent2 o2 Ho2 j z); [lia|exact Hz].
  - exists (with_callingDirtyListeners false o2).
    split; [eapply lookup_store_eq, Ho2|]. simpl. apply Hdirty2. reflexivity.
Qed.

Lemma removeDirty_unsubscribed z y h :
  exists h', ListenerManager.removeDirty y (DirtyListenerOf z) h = (h', Ok tt)
    /\ unsubscribed z h h'.
Proof.
  unfold ListenerManager.removeDirty.
  destruct (objects h !! y) as [o|] eqn:Ho.
  - eexists. split; [exact (update_lookup _ _ _ _ Ho)|].
    eapply unsubscribed_store; [exact Ho|apply sameClass_refl|..]; auto.
    simpl. apply unsubbed_delete.
  - eexists. split; [reflexivity|]. apply unsubscribed_objects. simpl. rewrite Ho. reflexivity.
Qed.

Lemma unsubDirty_unsubscribed z ds : forall h,
  exists h', forEach ds (Derived.unsubDirtyOf z) h = (h', Ok tt) /\ unsubscribed z h h'.
Proof.
  induction ds as [|dep ds IHds]; intros h.
  - exists h. split; [reflexivity|apply unsubscribed_refl].
  - assert (Hstep : exists h1, Derived.unsubDirtyOf z dep h = (h1, Ok tt) /\ unsubscribed z h h1).
    { unfold Derived.unsubDirtyOf, when. destruct (IDependency.unsubDirty dep).
      - apply removeDirty_unsubscribed.
      - exists h. split; [reflexivity|apply unsubscribed_refl]. }
    destruct Hstep as (h1 & Hrun1 & Hsig1). destruct (IHds h1) as (h2 & Hrun2 & Hsig2).
    exists h2. split; [|eapply unsubscribed_trans; eassumption].
    simpl. eapply exec_bind; [exact Hrun1|exact Hrun2].
Qed.

Lemma recorded_clearUnsubDirty ds :
  recorded (Derived.clearUnsubDirty <$> ds) = recorded ds.
Proof. unfold recorded. rewrite <- list_fmap_compose. reflexivity. Qed.

Lemma unsubDirtyDependencies_spec z h o d s :
  objects h !! z = Some o -> cls o = DerivedClass d s ->
  exists h', Derived.unsubDirtyDependencies z h = (h', Ok tt) /\ unsubscribed z h h'.
Proof.
  intros Ho Hcls. unfold Derived.unsubDirtyDependencies.
  destruct (dirty o) eqn:Hdirty.
  { exists h. split; [|apply unsubscribed_refl].
    eapply exec_bind; [eapply getObject_lookup, Ho|cbv beta]. rewrite Hdirty. reflexivity. }
  destruct (unsubDirty_unsubscribed z (dependencies d) h) as (h1 & Hrun1 & Hsig1).
  pose proof Hsig1 as [_ Hobj1].
  destruct (Hobj1 _ _ Ho) as (o1 & Ho1 & Hc1 & Hv1 & Hcl1 & Hcd1 & Hd1 & Hlen1).
  exists (store z (with_derived (with_dependencies (Derived.clearUnsubDirty <$> dependencies d)) o1) h1).
  split.
  { eapply exec_bind; [eapply getObject_lookup, Ho|cbv beta]. rewrite Hdirty.
    eapply exec_bind; [eapply getDerived_lookup; [exact Ho|exact Hcls]|cbv beta].
    eapply exec_bind; [exact Hrun1|cbv beta]. exact (update_lookup _ _ _ _ Ho1). }
  eapply unsubscribed_trans; [exact Hsig1|].
  rewrite Hcls in Hc1. unfold with_derived.
  destruct (cls o1) as [|d1 s1|] eqn:Hcls1; simpl in Hc1; try contradiction.
  destruct Hc1 as (-> & Hcomp & Hinit & Hrec).
  eapply unsubscribed_store; [exact Ho1|..]; auto using unsubbed_refl.
  rewrite Hcls1. simpl. rewrite recorded_clearUnsubDirty. auto.
Qed.

Lemma whenDirty_spec z h fuel :
  length (objects h) = N -> shapeOk V E h -> isDerivedAt h z -> E + 1 + F <= fuel ->
  x = z ->
  exists h', whenDirty (run fuel) z h = (h', Ok tt) /\ dirtied h h' /\ dirtyAt h' z.
Proof.
  intros HN Hs (o & d & Ho & Hcls) Hfuel <-.
  destruct (unsubDirtyDependencies_spec x h o d _ Ho Hcls) as (h1 & Hrun1 & Hu1).
  pose proof Hu1 as [Hlen1 Hobj1].
  destruct (Hobj1 _ _ Ho) as (o1 & Ho1 & _).
  destruct (callDirtyListeners_spec h1 o1 fuel) as (h2 & Hrun2 & Hd2 & Hz2);
    [congruence|eapply shapeOk_pruned; [exact Hs|eapply unsubscribed_pruned; eassumption]
    |exact Ho1|exact Hfuel|].
  exists h2. split; [|split; [eapply unsubscribed_dirtied; eassumption|exact Hz2]].
  unfold whenDirty. eapply exec_bind; [eapply getObject_lookup, Ho|cbv beta].
  rewrite Hcls. unfold Derived.whenDirty.
  eapply exec_bind; [exact Hrun1|exact Hrun2].
Qed.
End Loop.

Lemma dirtyListener_spec : forall k z fuel,
  N - z <= k -> (E + 2) * (N - z) <= fuel -> dirtyListenerSpec V E N fuel z.
Proof.
  induction k as [|k IHk]; intros z fuel Hk Hfuel h HN Hs Hder.
  - destruct Hder as (o & d & Ho & _). apply lookup_lt_Some in Ho. lia.
  - assert (Hz : z < N).
    { destruct Hder as (o & d & Ho & _). apply lookup_lt_Some in Ho. lia. }
    destruct fuel as [|fuel]; [nia|].
    destruct (whenDirty_spec z ((E + 2) * (N - z - 1))) with (z := z) (h := h) (fuel := fuel)
      as (h' & Hrun & Hd & Hdz); auto.
    { intros z' fuel' Hz' Hfuel'. apply IHk; [lia|]. nia. }
    { nia. }
    exists h'. split; [|split; [exact Hd|exact Hdz]].
    simpl. eapply exec_bind; [exact Hrun|reflexivity].
Qed.

(** The dirty broadcast of the perform stage of a commit. *)
Lemma field_callDirtyListeners_spec f h o fuel :
  length (objects h) = N -> shapeOk V E h -> objects h !! f = Some o ->
  (E + 2) * N <= fuel ->
  exists h', ListenerManager.callDirtyListeners (run fuel) f h = (h', Ok tt)
    /\ dirtied h h' /\ dirtyAt h' f.
Proof.
  intros HN Hs Ho Hfuel.
  assert (Hf : f < N) by (rewrite <- HN; eapply lookup_lt_Some, Ho).
  eapply (callDirtyListeners_spec f ((E + 2) * (N - f - 1))); eauto.
  - intros z fuel' Hz Hfuel'. eapply dirtyListener_spec; [reflexivity|]. nia.
  - nia.
Qed.
End Dispatch.
End Values.

(** ** Commits keep the graph in order *)

Lemma dirtied_inv h h' y o' :
  dirtied h h' -> objects h' !! y = Some o' ->
  exists o, objects h !! y = Some o
    /\ sameClass (cls o) (cls o') /\ value o' = value o
    /\ changeListeners o' = changeListeners o
    /\ callingDirtyListeners o' = callingDirtyListeners o
    /\ (dirty o = true -> dirty o' = true)
    /\ tombstoned h' (dirtyListeners o) (dirtyListeners o')
    /\ (dirty o = false -> dirty o' = true -> callingDirtyListeners o' = false ->
          forall z, Some (DirtyListenerOf z) ∈ dirtyListeners o' -> dirtyAt h' z).
Proof.
  intros [Hlen H] Ho'.
  assert (Hy : y < length (objects h)) by (rewrite <- Hlen; eapply lookup_lt_Some, Ho').
  destruct (lookup_lt_is_Some_2 _ _ Hy) as [o Ho].
  destruct (H _ _ Ho) as (o2 & Ho2 & Hrest). exists o. split; [exact Ho|].
  assert (o2 = o') as <- by congruence. exact Hrest.
Qed.

Lemma cacheOk_sameClass o o' :
  cacheOk o -> sameClass (cls o) (cls o') -> value o' = value o -> cacheOk o'.
Proof.
  unfold cacheOk. destruct (cls o) as [|d s|], (cls o') as [|d' s'|]; simpl; try tauto.
  intros H (_ & Hc & Hi & Hr) Hv. rewrite <- Hc, <- Hi, <- Hr, Hv. exact H.
Qed.

Section Values.
Variable V : jsval -> Prop.

Lemma wellFormed_shape E h : wellFormed V h -> listenerBound E h -> shapeOk V E h.
Proof.
  intros Hwf Hb y o Ho. destruct (Hwf _ _ Ho) as (H1 & H2 & (H3 & H4 & H5) & _).
  split; [exact H1|]. split; [exact H2|]. split; [split; assumption|].
  split; [congruence|]. apply (Hb _ _ Ho).
Qed.

Lemma listenerBound_pruned E h h' : listenerBound E h -> pruned h h' -> listenerBound E h'.
Proof.
  intros Hb [Hlen H] y o' Ho'.
  assert (Hy : y < length (objects h)) by (rewrite <- Hlen; eapply lookup_lt_Some, Ho').
  destruct (lookup_lt_is_Some_2 _ _ Hy) as [o Ho].
  destruct (H _ _ Ho) as (o2 & Ho2 & _ & _ & Hcl & _ & Hdl & _).
  assert (o2 = o') as -> by congruence. rewrite Hcl, Hdl. apply (Hb _ _ Ho).
Qed.

Lemma wellFormed_dirtied h h' : wellFormed V h -> dirtied h h' -> wellFormed V h'.
Proof.
  intros Hwf Hd y o' Ho'.
  destruct (dirtied_inv _ _ _ _ Hd Ho') as (o & Ho & Hc & Hv & Hcl & Hcd & Hm & Ht & _).
  destruct (Hwf _ _ Ho) as (H1 & H2 & (H3 & H4 & H5) & H6 & H7).
  pose proof (dirtied_skeleton _ _ Hd) as Hsk.
  split; [eapply computeOk_sameStatic; [exact H1|apply sameClass_sameStatic; assumption]|].
  split; [eapply depsOk_sameClass; eassumption|].
  split; [|split; [eapply cacheOk_sameClass; eassumption|]].
  { split; [congruence|]. split.
    - intros l Hl. eapply listenerOk_skeleton; [exact Hsk|]. eapply H4, tombstoned_elem; eassumption.
    - intros l Hl. rewrite Hcl in Hl. eapply listenerOk_skeleton; [exact Hsk|]. apply H5, Hl. }
  unfold subscribedOk in *.
  destruct (cls o) as [|d s|] eqn:Hcls, (cls o') as [|d' s'|] eqn:Hcls'; simpl in Hc;
    try contradiction; try exact I.
  destruct Hc as (_ & _ & Hinit & Hrec). intros Hdirty'.
  assert (Hdirty : dirty o = false).
  { destruct (dirty o); [|reflexivity]. rewrite Hm in Hdirty'; congruence. }
  destruct (H7 Hdirty) as [Hi Hdeps]. split; [congruence|].
  intros dep' Hin'. destruct (recorded_elem dep' _ _ Hrec Hin') as (dep & Hin & <- & <-).
  destruct (Hdeps dep Hin) as (ox & Hox & Hdx & Hlx & Hvx).
  destruct Hd as [_ Hobj]. destruct (Hobj _ _ Hox) as (ox' & Hox' & _ & _ & _ & Hcdx & _ & Htx & Kx).
  assert (Hny : ~ dirtyAt h' y).
  { intros (o2 & Ho2 & Hd2). congruence. }
  assert (Hlx' : Some (DirtyListenerOf y) ∈ dirtyListeners ox').
  { destruct (tombstoned_kept _ _ _ _ Htx Hlx) as [H|H]; [exact H|contradiction]. }
  exists ox'. split; [exact Hox'|]. split; [|split; [exact Hlx'|]].
  - destruct (dirty ox') eqn:Hdx'; [|reflexivity]. exfalso. apply Hny.
    apply (Kx Hdx eq_refl); [|exact Hlx'].
    rewrite Hcdx. apply (Hwf _ _ Hox).
  - rewrite (truth_skeleton h h') by exact Hsk. exact Hvx.
Qed.

Lemma wellFormed_signalled h h' : wellFormed V h -> signalled h h' -> wellFormed V h'.
Proof.
  intros Hwf Hsig y o' Ho'.
  destruct (signalled_inv _ _ _ _ Hsig Ho') as (o & Ho & Hc & Hv & Hdl & Hcd & Hd & Hlen & Hsub).
  destruct (Hwf _ _ Ho) as (H1 & H2 & (H3 & H4 & H5) & H6 & H7).
  pose proof (signalled_skeleton _ _ Hsig) as Hsk.
  split; [eapply computeOk_sameStatic; [exact H1|apply sameClass_sameStatic; assumption]|].
  split; [eapply depsOk_sameClass; eassumption|].
  split; [|split; [eapply cacheOk_sameClass; eassumption|]].
  { split; [congruence|]. split.
    - intros l Hl. rewrite Hdl in Hl. eapply listenerOk_skeleton; [exact Hsk|]. apply H4, Hl.
    - intros l Hl. eapply listenerOk_skeleton; [exact Hsk|]. apply H5, Hsub, Hl. }
  unfold subscribedOk in *.
  destruct (cls o) as [|d s|] eqn:Hcls, (cls o') as [|d' s'|] eqn:Hcls'; simpl in Hc;
    try contradiction; try exact I.
  destruct Hc as (_ & _ & Hinit & Hrec). rewrite Hd. intros Hdirty.
  destruct (H7 Hdirty) as [Hi Hdeps]. split; [congruence|].
  intros dep' Hin'. destruct (recorded_elem dep' _ _ Hrec Hin') as (dep & Hin & <- & <-).
  destruct (Hdeps dep Hin) as (ox & Hox & Hdx & Hlx & Hvx).
  destruct Hsig as [_ Hobj].
  destruct (Hobj _ _ Hox) as (ox' & Hox' & _ & _ & Hdlx & _ & Hdx' & _).
  exists ox'. rewrite Hdlx, Hdx', (truth_skeleton h h') by exact Hsk. auto.
Qed.

(** A value that is not dirty does not depend on a dirty field: it
    reads the same whatever that field holds. *)
Lemma truth_clean h f o v :
  wellFormed V h -> V v ->
  objects h !! f = Some o -> (exists e, cls o = PlainFieldClass e) -> dirty o = true ->
  forall x, notDirtyAt h x -> truth (store f (with_value v o) h) x = truth h x.
Proof.
  intros Hwf HVv Ho [e Hcls] Hdirty.
  set (h' := store f (with_value v o) h).
  assert (Hst : staticOk V h) by (intros y oy Hy; apply (Hwf _ _ Hy)).
  assert (Hst' : staticOk V h').
  { intros y oy Hy. unfold h' in Hy. destruct (decide (f = y)) as [<-|Hne].
    - rewrite (lookup_store_eq _ _ _ _ Ho) in Hy. injection Hy as <-.
      unfold computeOk. simpl. rewrite Hcls. exact HVv.
    - rewrite lookup_store_ne in Hy by exact Hne. apply (Hwf _ _ Hy). }
  intros x. induction x as [x IH] using lt_wf_ind. intros (ox & Hox & Hdx).
  assert (Hne : f <> x) by (intros <-; congruence).
  assert (Hox' : objects h' !! x = Some ox).
  { unfold h'. rewrite lookup_store_ne by exact Hne. exact Hox. }
  destruct (Hwf _ _ Hox) as (H1 & H2 & _ & H6 & H7).
  unfold computeOk in H1. unfold depsOk in H2. unfold cacheOk in H6. unfold subscribedOk in H7.
  destruct (cls ox) as [ex|d [| |]|] eqn:Hclsx; try contradiction.
  - rewrite (truth_field h' x ox ex Hox' Hclsx), (truth_field h x ox ex Hox Hclsx). reflexivity.
  - destruct (H7 Hdx) as [Hinit Hdeps]. specialize (H6 Hinit).
    rewrite (cache_truth V h' x ox d (dependencies d) (value ox) Hst' Hox' Hclsx H6).
    + symmetry. eapply (cache_truth V h x ox d); eauto.
      intros dep Hin. destruct (Hdeps dep Hin) as (oy & _ & _ & _ & Hv). exact Hv.
    + intros dep Hin. destruct (Hdeps dep Hin) as (oy & Hoy & Hdy & _ & Hv).
      rewrite IH; [exact Hv|apply H2, Hin|exists oy; auto].
Qed.

Lemma wellFormed_set_value h f o e v :
  wellFormed V h -> V v ->
  objects h !! f = Some o -> cls o = PlainFieldClass e -> dirty o = true ->
  wellFormed V (store f (with_value v o) h).
Proof.
  intros Hwf HVv Ho Hcls Hdirty y oy Hy.
  set (h' := store f (with_value v o) h) in *.
  assert (Hsk : forall z, isDerivedAt h z -> isDerivedAt h' z).
  { intros z (oz & d & Hoz & Hcz). exists oz, d. split; [|exact Hcz].
    unfold h'. rewrite lookup_store_ne; [exact Hoz|]. intros <-. congruence. }
  assert (Hlis : forall z l g, listenerOk h z g l -> listenerOk h' z g l).
  { intros z l g [Hm|(z' & -> & Hz & Hd)]; [left; exact Hm|right]. exists z'. auto. }
  destruct (decide (f = y)) as [<-|Hne].
  - unfold h' in Hy. rewrite (lookup_store_eq _ _ _ _ Ho) in Hy. injection Hy as <-.
    destruct (Hwf _ _ Ho) as (H1 & H2 & (H3 & H4 & H5) & H6 & H7).
    unfold nodeOk, computeOk, depsOk, listenersOk, cacheOk, subscribedOk in *. simpl.
    rewrite Hcls in *. repeat split; auto.
  - unfold h' in Hy. rewrite lookup_store_ne in Hy by exact Hne.
    destruct (Hwf _ _ Hy) as (H1 & H2 & (H3 & H4 & H5) & H6 & H7).
    split; [exact H1|]. split; [exact H2|]. split; [repeat split; auto|]. split; [exact H6|].
    unfold subscribedOk in *. destruct (cls oy) as [|d s|]; auto.
    intros Hdy. destruct (H7 Hdy) as [Hinit Hdeps]. split; [exact Hinit|].
    intros dep Hin. destruct (Hdeps dep Hin) as (ox & Hox & Hdx & Hlx & Hvx).
    exists ox. split; [|split; [exact Hdx|split; [exact Hlx|]]].
    + unfold h'. rewrite lookup_store_ne; [exact Hox|].
      intros Heq. rewrite <- Heq in Hox. congruence.
    + rewrite Hvx. symmetry.
      apply (truth_clean h f o v Hwf HVv Ho (ex_intro _ e Hcls) Hdirty). exists ox; auto.
Qed.

Hypothesis V_inj : forall a b, V a -> V b -> looseNeq a b = false -> a = b.

Lemma wellFormed_static h : wellFormed V h -> staticOk V h.
Proof. intros Hwf y o Ho. apply (Hwf _ _ Ho). Qed.

(** Reading any watchable of a graph in order returns what it should
    read as, and leaves the graph in order. *)
Lemma read_wellFormed h w fuel :
  wellFormed V h -> w < length (objects h) -> S w <= fuel ->
  exists h', read fuel w h = (h', Ok (truth h w)) /\ wellFormed V h' /\ mono h h'.
Proof.
  intros Hwf Hw Hfuel.
  destruct (get_spec V V_inj w fuel Hfuel h Hw (wellFormed_static h Hwf))
    as (h' & Hrun & Hb & Hm & Ha & _).
  { intros y o _ Ho. apply (Hwf _ _ Ho). }
  exists h'. split; [exact Hrun|]. split; [|exact Hm].
  intros y o' Ho'. destruct (decide (y < S w)) as [Hlt|Hge].
  - apply Hb; assumption.
  - rewrite Ha in Ho' by lia. eapply nodeOk_mono; [exact Hm|]. apply (Hwf _ _ Ho').
Qed.

Lemma evalWith_spec w fuel c :
  goodComp V w c -> forall h,
  wellFormed V h -> w <= length (objects h) -> w <= fuel ->
  exists h', evalWith (run fuel) c h = (h', Ok (evalPure (truth h) c))
    /\ wellFormed V h' /\ mono h h'.
Proof.
  induction 1 as [v Hv|x k Hx Hk IHk]; intros h Hwf Hw Hfuel.
  - exists h. split; [reflexivity|]. split; [exact Hwf|apply mono_refl].
  - destruct (read_wellFormed h x fuel Hwf) as (h1 & Hrun1 & Hwf1 & Hm1); [lia|lia|].
    assert (HVx : V (truth h x)).
    { apply truth_V; [apply wellFormed_static, Hwf|lia]. }
    destruct (IHk _ HVx h1 Hwf1) as (h2 & Hrun2 & Hwf2 & Hm2);
      [destruct Hm1 as [[-> _] _]; exact Hw|exact Hfuel|].
    exists h2. split; [|split; [exact Hwf2|eapply mono_trans; eassumption]].
    simpl. eapply exec_bind; [exact Hrun1|cbv beta]. rewrite Hrun2. f_equal. f_equal.
    apply evalPure_ext. intros y. apply truth_skeleton, Hm1.
Qed.

(** Transparency: the value [w.get()] returns is the one computed by
    [compute(d => d.get())]. *)
Lemma derived_get_is_direct_compute h w fuel :
  wellFormed V h -> isDerivedAt h w -> S w <= fuel ->
  exists v, snd (read fuel w h) = Ok v /\ snd (directCompute fuel w h) = Ok v.
Proof.
  intros Hwf (o & d & Ho & Hcls) Hfuel.
  assert (Hw : w < length (objects h)) by (eapply lookup_lt_Some, Ho).
  destruct (read_wellFormed h w fuel Hwf Hw Hfuel) as (h1 & Hrun1 & _).
  exists (truth h w). split; [rewrite Hrun1; reflexivity|].
  pose proof (Hwf _ _ Ho) as (Hc & _). unfold computeOk in Hc. rewrite Hcls in Hc.
  destruct Hc as (c & Hcomp & Hgood).
  destruct (evalWith_spec w fuel c Hgood h Hwf) as (h2 & Hrun2 & _); [lia|lia|].
  unfold directCompute.
  rewrite (bind_Ok _ _ _ _ _ (getDerived_lookup _ _ _ _ _ Ho Hcls)), Hcomp, Hrun2. simpl.
  f_equal. rewrite (truth_derived V h w o d (wellFormed_static h Hwf) Ho Hcls), Hcomp.
  reflexivity.
Qed.

Lemma listenerBound_store E h x o o' :
  listenerBound E h -> objects h !! x = Some o ->
  dirtyListeners o' = dirtyListeners o -> changeListeners o' = changeListeners o ->
  listenerBound E (store x o' h).
Proof.
  intros Hb Ho Hd Hc y oy Hy. destruct (decide (x = y)) as [<-|Hne].
  - rewrite (lookup_store_eq _ _ _ _ Ho) in Hy. injection Hy as <-.
    rewrite Hd, Hc. apply (Hb _ _ Ho).
  - rewrite lookup_store_ne in Hy by exact Hne. apply (Hb _ _ Hy).
Qed.

(** Committing a new value to a field leaves the graph in order; the
    field then reads as the new value, or as the old one when the
    field's equality holds. *)
Lemma setPlain_wellFormed h f o e v E fuel :
  wellFormed V h -> listenerBound E h ->
  objects h !! f = Some o -> cls o = PlainFieldClass e -> V v ->
  (E + 2) * length (objects h) <= fuel ->
  exists h', setPlain fuel f v h = (h', Ok tt)
    /\ wellFormed V h' /\ listenerBound E h'
    /\ length (objects h') = length (objects h)
    /\ truth h' f = (if e (value o) v then value o else v).
Proof.
  intros Hwf Hb Ho Hcls HVv Hfuel.
  assert (Hperform : exists h1 o1,
            PlainField.set_perform (run fuel) f v h = (h1, Ok tt)
            /\ wellFormed V h1 /\ listenerBound E h1
            /\ length (objects h1) = length (objects h)
            /\ objects h1 !! f = Some o1 /\ cls o1 = PlainFieldClass e
            /\ value o1 = (if e (value o) v then value o else v)).
  { unfold PlainField.set_perform. destruct (e (value o) v) eqn:Heq.
    - exists h, o. split; [|auto 10].
      eapply exec_bind; [eapply getObject_lookup, Ho|cbv beta]. rewrite Hcls, Heq. reflexivity.
    - destruct (field_callDirtyListeners_spec V E (length (objects h)) f h o fuel eq_refl
                  (wellFormed_shape E h Hwf Hb) Ho Hfuel) as (hA & HrunA & HdA & (oA & HoA & HdirtyA)).
      pose proof (wellFormed_dirtied h hA Hwf HdA) as HwfA.
      pose proof HdA as [HlenA HobjA].
      destruct (HobjA _ _ Ho) as (oA' & HoA' & HcA & _).
      assert (oA' = oA) as -> by congruence.
      rewrite Hcls in HcA. destruct (cls oA) as [eA| |] eqn:HclsA; simpl in HcA; try contradiction.
      subst eA.
      exists (store f (with_value v oA) hA), (with_value v oA). split.
      { eapply exec_bind; [eapply getObject_lookup, Ho|cbv beta]. rewrite Hcls, Heq.
        eapply exec_bind; [exact HrunA|cbv beta]. exact (update_lookup _ _ _ _ HoA). }
      split; [eapply wellFormed_set_value; eassumption|].
      split.
      { eapply listenerBound_store; [|exact HoA|reflexivity|reflexivity].
        eapply listenerBound_pruned; [exact Hb|].
        eapply dirtied_pruned; [apply wellFormed_shape; eassumption|exact HdA]. }
      split; [rewrite length_store; exact HlenA|].
      split; [eapply lookup_store_eq, HoA|]. split; [exact HclsA|reflexivity]. }
  destruct Hperform as (h1 & o1 & Hrun1 & Hwf1 & Hb1 & Hlen1 & Ho1 & Hcls1 & Hv1).
  destruct (set_signal_spec V E (length (objects h1)) f h1 o1 fuel eq_refl
              (wellFormed_shape E h1 Hwf1 Hb1) Ho1) as (h2 & Hrun2 & Hsig2);
    [rewrite Hlen1; exact Hfuel|].
  exists h2. split; [|split; [eapply wellFormed_signalled; eassumption|split; [|split]]].
  - unfold setPlain. eapply commit_new.
    + simpl. eapply exec_bind; [exact Hrun1|reflexivity].
    + exact Hrun2.
  - eapply listenerBound_pruned; [exact Hb1|].
    eapply signalled_pruned; [apply wellFormed_shape; eassumption|exact Hsig2].
  - destruct Hsig2 as [-> _]. exact Hlen1.
  - rewrite (truth_skeleton h1 h2) by (eapply signalled_skeleton, Hsig2).
    rewrite (truth_field h1 f o1 e Ho1 Hcls1). exact Hv1.
Qed.
End Values.

(** ** Client programs *)

Lemma isNumber_strict a b : isNumber a -> isNumber b -> looseNeq a b = false -> a = b.
Proof.
  destruct a, b; simpl; try contradiction; try discriminate; intros _ _.
  unfold looseNeq. simpl. intros H. apply negb_false_iff, Z.eqb_eq in H. congruence.
Qed.

Lemma listenerBound_max h : listenerBound (ClientProgram.maxListeners h) h.
Proof.
  intros y o Ho. unfold ClientProgram.maxListeners.
  assert (Hin : length (dirtyListeners o) `max` length (changeListeners o)
                ∈ (fun o => length (dirtyListeners o) `max` length (changeListeners o))
                    <$> objects h).
  { apply list_elem_of_fmap. exists o. split; [reflexivity|]. eapply list_elem_of_lookup_2, Ho. }
  apply max_list_elem_of_le in Hin. lia.
Qed.

Section Values.
Variable V : jsval -> Prop.
Hypothesis V_inj : forall a b, V a -> V b -> looseNeq a b = false -> a = b.

Lemma wellFormed_empty : wellFormed V emptyHeap.
Proof. intros y o Ho. simpl in Ho. rewrite lookup_nil in Ho. discriminate. Qed.

(** Allocation. *)
Lemma truth_alloc h o :
  staticOk V h -> staticOk V (with_objects (fun os => os ++ [o]) h) ->
  forall w, w < length (objects h) ->
    truth (with_objects (fun os => os ++ [o]) h) w = truth h w.
Proof.
  intros Hst Hst'. set (h' := with_objects (fun os => os ++ [o]) h) in *.
  intros w. induction w as [w IH] using lt_wf_ind. intros Hw.
  destruct (lookup_lt_is_Some_2 _ _ Hw) as [ow How].
  assert (How' : objects h' !! w = Some ow).
  { simpl. rewrite lookup_app_l by exact Hw. exact How. }
  pose proof (Hst _ _ How) as Hc. unfold computeOk in Hc.
  destruct (cls ow) as [e|d [| |]|] eqn:Hcls; try contradiction.
  - rewrite (truth_field h' w ow e How' Hcls), (truth_field h w ow e How Hcls). reflexivity.
  - rewrite (truth_derived V h' w ow d Hst' How' Hcls), (truth_derived V h w ow d Hst How Hcls).
    destruct Hc as (c & Hcomp & Hgood). rewrite Hcomp. symmetry.
    eapply (evalPure_good V w); [exact Hgood| |].
    + intros x Hx. apply truth_V; [exact Hst|lia].
    + intros x Hx. symmetry. apply IH; [exact Hx|lia].
Qed.

Lemma wellFormed_alloc h o :
  wellFormed V h ->
  computeOk V (length (objects h)) o ->
  dirtyListeners o = [] -> changeListeners o = [] ->
  callingDirtyListeners o = false -> dirty o = true ->
  (forall d s, cls o = DerivedClass d s -> dependencies d = [] /\ initialized d = false) ->
  wellFormed V (with_objects (fun os => os ++ [o]) h).
Proof.
  intros Hwf Hc Hdl Hcl Hcd Hd Hder.
  set (h' := with_objects (fun os => os ++ [o]) h).
  assert (Hst : staticOk V h) by (apply wellFormed_static, Hwf).
  assert (Hold : forall y, y < length (objects h) -> objects h' !! y = objects h !! y).
  { intros y Hy. simpl. apply lookup_app_l, Hy. }
  assert (Hnew : objects h' !! length (objects h) = Some o).
  { simpl. rewrite lookup_app_r by lia. rewrite Nat.sub_diag. reflexivity. }
  assert (Hcases : forall y oy, objects h' !! y = Some oy ->
            (y < length (objects h) /\ objects h !! y = Some oy)
            \/ (y = length (objects h) /\ oy = o)).
  { intros y oy Hy. destruct (decide (y < length (objects h))) as [Hlt|Hge].
    - left. rewrite Hold in Hy by exact Hlt. auto.
    - right. assert (Hy' := Hy). apply lookup_lt_Some in Hy'. simpl in Hy'.
      rewrite length_app in Hy'. simpl in Hy'.
      assert (y = length (objects h)) as -> by lia. split; [reflexivity|congruence]. }
  assert (Hst' : staticOk V h').
  { intros y oy Hy. destruct (Hcases _ _ Hy) as [[Hlt Hy']|[-> ->]]; [apply (Hwf _ _ Hy')|exact Hc]. }
  assert (Hsk : forall z, isDerivedAt h z -> isDerivedAt h' z).
  { intros z (oz & d & Hoz & Hcz). exists oz, d. split; [|exact Hcz].
    rewrite Hold; [exact Hoz|eapply lookup_lt_Some, Hoz]. }
  assert (Hlis : forall z l g, listenerOk h z g l -> listenerOk h' z g l).
  { intros z l g [Hm|(z' & -> & Hz & Hdz)]; [left; exact Hm|right]. exists z'. auto. }
  intros y oy Hy. destruct (Hcases _ _ Hy) as [[Hlt Hy']|[-> ->]].
  - destruct (Hwf _ _ Hy') as (H1 & H2 & (H3 & H4 & H5) & H6 & H7).
    split; [exact H1|]. split; [exact H2|]. split; [repeat split; auto|]. split; [exact H6|].
    unfold subscribedOk in *. unfold depsOk in H2. destruct (cls oy) as [|d s|]; auto.
    intros Hdy. destruct (H7 Hdy) as [Hinit Hdeps]. split; [exact Hinit|].
    intros dep Hin. destruct (Hdeps dep Hin) as (ox & Hox & Hdx & Hlx & Hvx).
    assert (Hx : IDependency.watchable dep < length (objects h)) by (eapply lookup_lt_Some, Hox).
    exists ox. rewrite Hold by exact Hx. split; [exact Hox|]. split; [exact Hdx|].
    split; [exact Hlx|]. rewrite Hvx. symmetry. apply truth_alloc; assumption.
  - assert (Hl : listenersOk h' (length (objects h)) o).
    { unfold listenersOk. rewrite Hdl, Hcl. split; [exact Hcd|].
      split; intros l Hl; apply elem_of_nil in Hl; contradiction. }
    split; [exact Hc|]. unfold depsOk, cacheOk, subscribedOk.
    rewrite Hd. destruct (cls o) as [|d s|] eqn:Hcls.
    + split; [exact I|]. split; [exact Hl|]. split; exact I.
    + destruct (Hder d s eq_refl) as [Hdeps Hinit]. rewrite Hdeps, Hinit.
      split; [intros dep Hin; apply elem_of_nil in Hin; contradiction|].
      split; [exact Hl|]. split; discriminate.
    + split; [exact I|]. split; [exact Hl|]. split; exact I.
Qed.

(** Registering a recording listener. *)
Lemma wellFormed_listener h w o o' :
  wellFormed V h -> objects h !! w = Some o ->
  cls o' = cls o -> dirty o' = dirty o -> value o' = value o ->
  callingDirtyListeners o' = callingDirtyListeners o ->
  (forall l, Some l ∈ dirtyListeners o -> Some l ∈ dirtyListeners o') ->
  (forall l, Some l ∈ dirtyListeners o' -> Some l ∈ dirtyListeners o \/ isMock l) ->
  (forall l, Some l ∈ changeListeners o' -> Some l ∈ changeListeners o \/ isMock l) ->
  wellFormed V (store w o' h).
Proof.
  intros Hwf Ho Hc Hd Hv Hcd Hgrow Hdl Hcl.
  assert (Hm : mono h (store w o' h)).
  { eapply mono_store; [exact Ho| |congruence|exact Hgrow].
    unfold sameStatic. rewrite Hc, Hv. destruct (cls o); auto. }
  assert (Hb : belowOk V (length (objects h)) (store w o' h)).
  { eapply belowOk_store; [|exact Ho|exact Hm|].
    - intros y oy _ Hy. apply (Hwf _ _ Hy).
    - intros _. pose proof (nodeOk_mono V _ _ w o Hm (Hwf _ _ Ho)) as Hnode.
      eapply nodeOk_listeners; [exact Hnode|exact Hc|exact Hd|exact Hv|exact Hcd| |].
      + intros l Hl. destruct (Hdl l Hl) as [H|H]; [apply Hnode, H|left; exact H].
      + intros l Hl. destruct (Hcl l Hl) as [H|H]; [apply Hnode, H|left; exact H]. }
  intros y oy Hy. apply Hb; [|exact Hy].
  apply lookup_lt_Some in Hy. rewrite length_store in Hy. exact Hy.
Qed.

(** Every statement that is in order for the heap runs to completion
    and leaves the graph in order. *)
Lemma runOp_wellFormed fuel h o :
  wellFormed V h -> ClientProgram.okOp V h o -> ClientProgram.fuelFor h <= fuel ->
  exists h', ClientProgram.runOp fuel o h = (h', Ok tt) /\ wellFormed V h'.
Proof.
  intros Hwf Hok Hfuel. unfold ClientProgram.fuelFor in Hfuel.
  destruct o as [init e|c|w|f v|w l|w l]; simpl in Hok; simpl.
  - eexists. split; [reflexivity|].
    apply wellFormed_alloc; auto; try reflexivity. discriminate.
  - eexists. split; [reflexivity|].
    apply wellFormed_alloc; auto; try reflexivity.
    + exists c. auto.
    + intros d s [= <- _]. auto.
  - destruct (read_wellFormed V V_inj h w fuel Hwf Hok) as (h' & Hrun & Hwf' & _); [nia|].
    exists h'. split; [|exact Hwf']. eapply exec_bind; [exact Hrun|reflexivity].
  - destruct Hok as (HVv & ofield & e & Hof & Hcls).
    destruct (setPlain_wellFormed V h f ofield e v (ClientProgram.maxListeners h) fuel Hwf
                (listenerBound_max h) Hof Hcls HVv) as (h' & Hrun & Hwf' & _); [nia|].
    exists h'. auto.
  - destruct (lookup_lt_is_Some_2 _ _ Hok) as [ow How].
    eexists. split; [exact (update_lookup _ _ _ _ How)|].
    eapply wellFormed_listener; [exact Hwf|exact How|reflexivity..| | |].
    + intros l' Hl. simpl. apply elem_of_add. auto.
    + intros l' Hl. simpl in Hl. apply elem_of_add in Hl as [->|Hl]; [right; eexists; reflexivity|auto].
    + auto.
  - destruct (lookup_lt_is_Some_2 _ _ Hok) as [ow How].
    eexists. split; [exact (update_lookup _ _ _ _ How)|].
    eapply wellFormed_listener; [exact Hwf|exact How|reflexivity..| | |].
    + auto.
    + auto.
    + intros l' Hl. simpl in Hl. apply elem_of_add in Hl as [->|Hl]; [right; eexists; reflexivity|auto].
Qed.

Lemma reachable_wellFormed fuel h : ClientProgram.reachable V fuel h -> wellFormed V h.
Proof.
  induction 1 as [|h o h' _ IH Hok Hfuel Hrun]; [apply wellFormed_empty|].
  destruct (runOp_wellFormed fuel h o IH Hok Hfuel) as (h2 & Hrun2 & Hwf2).
  rewrite Hrun in Hrun2. injection Hrun2 as ->. exact Hwf2.
Qed.

(** Transparency, for the graphs a client can build from fields and
    derived values whose values [!=] tells apart: at every point of the
    program, [w.get()] returns what [compute(d => d.get())] returns. *)
Lemma reachable_transparent fuel h w :
  ClientProgram.reachable V fuel h -> isDerivedAt h w -> ClientProgram.fuelFor h <= fuel ->
  exists v, snd (read fuel w h) = Ok v /\ snd (directCompute fuel w h) = Ok v.
Proof.
  intros Hr Hder Hfuel. apply (derived_get_is_direct_compute V V_inj).
  - eapply reachable_wellFormed, Hr.
  - exact Hder.
  - destruct Hder as (o & d & Ho & _). apply lookup_lt_Some in Ho.
    unfold ClientProgram.fuelFor in Hfuel. nia.
Qed.

Lemma reachable_runProgram fuel p : forall h,
  ClientProgram.reachable V fuel h -> ClientProgram.stepsOk V fuel h p ->
  ClientProgram.reachable V fuel (ClientProgram.runProgram fuel p h).
Proof.
  induction p as [|o p IHp]; intros h Hr Hok; [exact Hr|].
  destruct Hok as (Hop & Hfuel & Hrun & Hrest). apply IHp; [|exact Hrest].
  eapply ClientProgram.reachable_step; [exact Hr|exact Hop|exact Hfuel|].
  destruct (ClientProgram.runOp fuel o h) as [h' r]. simpl in Hrun |- *. rewrite Hrun.
  reflexivity.
Qed.

(** X1.  Transparency of derived values, where it holds: in every heap
    that a client reaches by creating plain fields and derived values,
    reading, committing field values and registering recording
    listeners, with all values drawn from a set on which the source's
    [!=] is the negation of identity, [w.get()] on a derived value
    returns, and it returns the value of [compute(d => d.get())]. *)
Theorem derived_get_transparent_on_strict_values fuel h w :
  ClientProgram.reachable V fuel h -> isDerivedAt h w ->
  ClientProgram.fuelFor h <= fuel ->
  exists v, snd (read fuel w h) = Ok v /\ snd (directCompute fuel w h) = Ok v.
Proof. apply reachable_transparent. Qed.

(** X2.  Round trip of a commit, in the same graphs: after
    [f.set(v).commit()] on a plain field, [f.get()] returns [v], or the
    old value when the field's equality holds between the two. *)
Theorem set_commit_then_get fuel h f o e v :
  ClientProgram.reachable V fuel h -> ClientProgram.fuelFor h <= fuel ->
  objects h !! f = Some o -> cls o = PlainFieldClass e -> V v ->
  exists h1 h2,
    setPlain fuel f v h = (h1, Ok tt)
    /\ read fuel f h1 = (h2, Ok (if e (value o) v then value o else v)).
Proof.
  intros Hr Hfuel Ho Hcls HVv. unfold ClientProgram.fuelFor in Hfuel.
  pose proof (reachable_wellFormed fuel h Hr) as Hwf.
  destruct (setPlain_wellFormed V h f o e v (ClientProgram.maxListeners h) fuel Hwf
              (listenerBound_max h) Ho Hcls HVv) as (h1 & Hrun1 & Hwf1 & _ & Hlen1 & Hv1); [nia|].
  assert (Hf : f < length (objects h)) by (eapply lookup_lt_Some, Ho).
  destruct (read_wellFormed V V_inj h1 f fuel Hwf1) as (h2 & Hrun2 & _); [lia|nia|].
  exists h1, h2. split; [exact Hrun1|]. rewrite Hrun2, Hv1. reflexivity.
Qed.

(** X3.  In the same graphs, reading twice in a row returns the same
    value twice. *)
Theorem get_twice_same_value fuel h w :
  ClientProgram.reachable V fuel h -> w < length (objects h) -> S w <= fuel ->
  exists h1 h2 v,
    read fuel w h = (h1, Ok v) /\ read fuel w h1 = (h2, Ok v).
Proof.
  intros Hr Hw Hfuel. pose proof (reachable_wellFormed fuel h Hr) as Hwf.
  destruct (read_wellFormed V V_inj h w fuel Hwf Hw Hfuel) as (h1 & Hrun1 & Hwf1 & Hm1).
  destruct (read_wellFormed V V_inj h1 w fuel Hwf1) as (h2 & Hrun2 & _);
    [destruct Hm1 as [[-> _] _]; exact Hw|exact Hfuel|].
  exists h1, h2, (truth h w). split; [exact Hrun1|].
  rewrite Hrun2, (truth_skeleton h h1) by apply Hm1. reflexivity.
Qed.
End Values.

Lemma numbered_reachable :
  ClientProgram.reachable isNumber Scenario.fuel
    (ClientProgram.runProgram Scenario.fuel Scenario.numbered emptyHeap).
Proof.
  apply reachable_runProgram; [apply ClientProgram.reachable_empty|].
  assert (Ht : forall v, isNumber (Scenario.tens v)).
  { intros v. unfold Scenario.tens. destruct (looseEq v (VNum 0)); exact I. }
  assert (Hi : forall v, isNumber (Scenario.isTwenty v)).
  { intros v. unfold Scenario.isTwenty. destruct (looseEq v (VNum 20)); exact I. }
  repeat split; try (vm_compute; lia); try exact I.
  - apply good_watch; [simpl; lia|]. intros v _. apply good_return, Ht.
  - apply good_watch; [simpl; lia|]. intros v _. apply good_return, Hi.
  - vm_compute. eexists _, _. split; reflexivity.
Qed.

Lemma derived_get_transparent_on_strict_values_witness :
  exists v,
    snd (read Scenario.fuel 2
           (ClientProgram.runProgram Scenario.fuel Scenario.numbered emptyHeap)) = Ok v
    /\ snd (directCompute Scenario.fuel 2
              (ClientProgram.runProgram Scenario.fuel Scenario.numbered emptyHeap)) = Ok v.
Proof.
  apply (derived_get_transparent_on_strict_values isNumber isNumber_strict).
  - exact numbered_reachable.
  - vm_compute. eexists _, _. split; reflexivity.
  - vm_compute. lia.
Defined.

Lemma set_commit_then_get_witness :
  exists h1 h2,
    setPlain Scenario.fuel 0 (VNum 5)
      (ClientProgram.runProgram Scenario.fuel Scenario.numbered emptyHeap) = (h1, Ok tt)
    /\ read Scenario.fuel 0 h1 = (h2, Ok (VNum 5)).
Proof.
  refine (set_commit_then_get isNumber isNumber_strict Scenario.fuel _ 0
            {| dirtyListeners := [None]; changeListeners := [None];
               callingDirtyListeners := false; callingChangeListeners := false;
               dirty := true; signaled := true; value := VNum 1;
               cls := PlainFieldClass PlainField.defaultEquals |}
            PlainField.defaultEquals (VNum 5) numbered_reachable _ _ eq_refl I).
  - vm_compute. lia.
  - vm_compute. reflexivity.
Defined.

Lemma get_twice_same_value_witness :
  exists h1 h2 v,
    read Scenario.fuel 2
      (ClientProgram.runProgram Scenario.fuel Scenario.numbered emptyHeap) = (h1, Ok v)
    /\ read Scenario.fuel 2 h1 = (h2, Ok v).
Proof.
  apply (get_twice_same_value isNumber isNumber_strict).
  - exact numbered_reachable.
  - vm_compute. lia.
  - vm_compute. lia.
Defined.
(** * Further properties of the library *)

(** ** Statements of a client return *)

(** X4.  In the graphs of fields and derived values a client builds
    with values that [!=] tells apart, every statement that refers to
    existing objects returns: no [get] throws, no dispatch loops, and
    the heap it leaves is again one a client built. *)
Theorem client_statement_returns (V : jsval -> Prop) fuel h o :
  (forall a b, V a -> V b -> looseNeq a b = false -> a = b) ->
  ClientProgram.reachable V fuel h -> ClientProgram.okOp V h o ->
  ClientProgram.fuelFor h <= fuel ->
  exists h', ClientProgram.runOp fuel o h = (h', Ok tt)
    /\ ClientProgram.reachable V fuel h'.
Proof.
  intros V_inj Hr Hok Hfuel.
  destruct (runOp_wellFormed V V_inj fuel h o (reachable_wellFormed V V_inj fuel h Hr) Hok Hfuel)
    as (h' & Hrun & _).
  exists h'. split; [exact Hrun|]. eapply ClientProgram.reachable_step; eassumption.
Qed.

Lemma client_statement_returns_witness :
  exists h',
    ClientProgram.runOp Scenario.fuel (ClientProgram.SetCommit 0 (VNum 7))
      (ClientProgram.runProgram Scenario.fuel Scenario.numbered emptyHeap) = (h', Ok tt)
    /\ ClientProgram.reachable isNumber Scenario.fuel h'.
Proof.
  apply (client_statement_returns isNumber).
  - exact isNumber_strict.
  - exact numbered_reachable.
  - split; [exact I|]. vm_compute. eexists _, _. split; reflexivity.
  - vm_compute. lia.
Defined.

(** ** Events of a plain field between reads *)

Lemma countCalls_app l es es' :
  countCalls l (es ++ es') = countCalls l es + countCalls l es'.
Proof. unfold countCalls. rewrite filter_app, length_app. reflexivity. Qed.

Lemma commitPlain_listeners eq v o :
  dirtyListeners (fst (commitPlain eq v o)) = dirtyListeners o
  /\ changeListeners (fst (commitPlain eq v o)) = changeListeners o
  /\ cls (fst (commitPlain eq v o)) = cls o.
Proof.
  unfold commitPlain, performPlain, signalPlain.
  destruct (eq (value o) v); [|destruct (dirty o)]; simpl;
    try destruct (signaled o); simpl; auto.
Qed.

(** The broadcasts still possible before the next read: one dirty
    broadcast unless dirty, and a change broadcast for it and for a
    cleared [signaled] flag. *)
Lemma commitPlain_budget eq v o l :
  let D := countCalls l (calls (dirtyListeners o)) in
  let C := countCalls l (calls (changeListeners o)) in
  let pending (o : object) :=
    (if dirty o then 0 else D + C) + (if signaled o then 0 else C) in
  countCalls l (snd (commitPlain eq v o)) + pending (fst (commitPlain eq v o)) <= pending o.
Proof.
  unfold commitPlain, performPlain, signalPlain.
  destruct (eq (value o) v); [|destruct (dirty o) eqn:Hd]; simpl;
    try destruct (signaled o) eqn:Hs; simpl;
    rewrite ?Hd, ?Hs, ?countCalls_app; simpl; unfold countCalls; simpl; lia.
Qed.

Lemma commitsPlain_budget eq l vs : forall o,
  countCalls l (snd (commitsPlain eq vs o))
  <= (if dirty o then 0
      else countCalls l (calls (dirtyListeners o)) + countCalls l (calls (changeListeners o)))
     + (if signaled o then 0 else countCalls l (calls (changeListeners o))).
Proof.
  induction vs as [|v vs IH]; intros o; simpl; [unfold countCalls; simpl; lia|].
  pose proof (commitPlain_budget eq v o l) as Hstep.
  pose proof (commitPlain_listeners eq v o) as (Hdl & Hcl & _).
  destruct (commitPlain eq v o) as [o1 es1]. simpl in *.
  specialize (IH o1). destruct (commitsPlain eq vs o1) as [o2 es2]. simpl in *.
  rewrite countCalls_app, Hdl, Hcl in *. lia.
Qed.

Lemma commitsPlain_run fuel w eq vs : forall h o,
  objects h !! w = Some o -> cls o = PlainFieldClass eq -> mockListeners o ->
  length (dirtyListeners o) + length (changeListeners o) + 2 <= fuel ->
  forEach vs (setPlain fuel w) h
  = (with_log (fun l => l ++ snd (commitsPlain eq vs o))
       (store w (fst (commitsPlain eq vs o)) h), Ok tt).
Proof.
  induction vs as [|v vs IH]; intros h o Ho Hcls Hm Hfuel; simpl.
  - rewrite log_append_nil, store_same by exact Ho. reflexivity.
  - pose proof (commitPlain_listeners eq v o) as (Hdl & Hcl & Hc).
    eapply exec_bind; [apply (setPlain_mocks fuel h w o eq v Ho Hcls Hm Hfuel)|cbv beta].
    destruct (commitPlain eq v o) as [o1 es1]. simpl in *.
    rewrite (IH _ o1).
    + destruct (commitsPlain eq vs o1) as [o2 es2]. simpl.
      rewrite store_log, store_store, log_append_append. reflexivity.
    + apply lookup_store_eq with (o := o). exact Ho.
    + congruence.
    + unfold mockListeners. rewrite Hdl, Hcl. exact Hm.
    + rewrite Hdl, Hcl. exact Hfuel.
Qed.

(** X5.  NoRedundantEvents on a plain field with recording listeners,
    as far as it holds: whatever values are committed after a [get],
    every dirty listener is called at most once and every change
    listener at most twice before the next [get]; at most once when a
    change broadcast has happened since the last dirty broadcast. *)
Theorem plain_field_events_between_reads fuel h w o eq vs l :
  objects h !! w = Some o -> cls o = PlainFieldClass eq -> mockListeners o ->
  length (dirtyListeners o) + length (changeListeners o) + 2 <= fuel ->
  dirty o = false ->
  exists h', forEach vs (setPlain fuel w) h = (h', Ok tt)
    /\ callsOf l h' <= callsOf l h + countCalls l (calls (dirtyListeners o))
                       + 2 * countCalls l (calls (changeListeners o))
    /\ (signaled o = true ->
        callsOf l h' <= callsOf l h + countCalls l (calls (dirtyListeners o))
                        + countCalls l (calls (changeListeners o))).
Proof.
  intros Ho Hcls Hm Hfuel Hd.
  eexists. split; [apply (commitsPlain_run fuel w eq vs h o Ho Hcls Hm Hfuel)|].
  pose proof (commitsPlain_budget eq l vs o) as Hb. rewrite Hd in Hb.
  unfold callsOf. simpl. fold (countCalls l (log h ++ snd (commitsPlain eq vs o))).
  rewrite countCalls_app. fold (countCalls l (log h)).
  split; [destruct (signaled o); lia|]. intros Hs. rewrite Hs in Hb. lia.
Qed.

Lemma plain_field_events_between_reads_witness :
  exists h',
    forEach [VNum 0; VNum 1; VNum 2; VNum 1] (setPlain Scenario.fuel 0)
      (Scenario.after Scenario.readField) = (h', Ok tt)
    /\ callsOf 1 h' <= 0 + 1 + 2 * 0
    /\ (false = true -> callsOf 1 h' <= 0 + 1 + 0).
Proof.
  refine (plain_field_events_between_reads Scenario.fuel (Scenario.after Scenario.readField) 0
            {| dirtyListeners := [Some Scenario.onDirtyMock];
               changeListeners := [Some Scenario.onChangeMock];
               callingDirtyListeners := false; callingChangeListeners := false;
               dirty := false; signaled := false; value := VNum 0;
               cls := PlainFieldClass PlainField.defaultEquals |}
            PlainField.defaultEquals [VNum 0; VNum 1; VNum 2; VNum 1] 1
            eq_refl eq_refl _ _ eq_refl).
  - split; repeat constructor; eexists; reflexivity.
  - vm_compute. lia.
Defined.

(** X7.  Equality damping, where it holds: once a change broadcast has
    happened since the last dirty broadcast ([signaled] is set),
    committing a value that the field's equality deems equal to the
    current one calls no listener and changes nothing at all. *)
Theorem equal_commit_is_silent_once_signaled fuel h w o eq v :
  objects h !! w = Some o -> cls o = PlainFieldClass eq -> mockListeners o ->
  length (dirtyListeners o) + length (changeListeners o) + 2 <= fuel ->
  eq (value o) v = true -> signaled o = true ->
  setPlain fuel w v h = (h, Ok tt).
Proof.
  intros Ho Hcls Hm Hfuel Heq Hs.
  rewrite (setPlain_mocks fuel h w o eq v Ho Hcls Hm Hfuel).
  unfold commitPlain, performPlain, signalPlain. rewrite Heq, Hs. simpl.
  rewrite log_append_nil, store_same by exact Ho. reflexivity.
Qed.

Lemma equal_commit_is_silent_once_signaled_witness :
  setPlain Scenario.fuel 0 (VNum 1)
    (fst (setPlain Scenario.fuel 0 (VNum 1) (Scenario.after Scenario.readField)))
  = (fst (setPlain Scenario.fuel 0 (VNum 1) (Scenario.after Scenario.readField)), Ok tt).
Proof.
  refine (equal_commit_is_silent_once_signaled Scenario.fuel
            (fst (setPlain Scenario.fuel 0 (VNum 1) (Scenario.after Scenario.readField))) 0
            {| dirtyListeners := [Some Scenario.onDirtyMock];
               changeListeners := [Some Scenario.onChangeMock];
               callingDirtyListeners := false; callingChangeListeners := false;
               dirty := true; signaled := true; value := VNum 1;
               cls := PlainFieldClass PlainField.defaultEquals |}
            PlainField.defaultEquals (VNum 1) eq_refl eq_refl _ _ eq_refl eq_refl).
  - split; repeat constructor; eexists; reflexivity.
  - vm_compute. lia.
Defined.

(** ** A signal never holds a count *)

Lemma increment_notACount v : notACount v -> notACount (increment v).
Proof. intros [->| ->]; right; reflexivity. Qed.

(** X6.  A signal whose [value] is [undefined], as the constructor
    leaves it, never reads as a number: whatever [get], [markDirty] and
    [markChanged] calls follow, each [get] returns [undefined] or [NaN]. *)
Theorem signal_never_reads_a_count fuel s ops : forall h o,
  objects h !! s = Some o -> cls o = SignalClass -> mockListeners o ->
  callingDirtyListeners o = false -> notACount (value o) ->
  length (dirtyListeners o) + length (changeListeners o) + 2 <= fuel ->
  exists h' vs, runSignalOps fuel s ops h = (h', Ok vs) /\ Forall notACount vs.
Proof.
  induction ops as [|[| |] ops IH]; intros h o Ho Hcls [Hmd Hmc] Hcd Hv Hfuel; simpl.
  - exists h, []. split; [reflexivity|constructor].
  - destruct fuel as [|fuel]; [lia|].
    destruct (IH (store s (with_dirty false o) h) (with_dirty false o))
      as (h' & vs & Hrun & Hvs); auto.
    { eapply lookup_store_eq, Ho. }
    { split; assumption. }
    exists h', (value o :: vs). split; [|constructor; assumption].
    assert (Hread : read (S fuel) s h = (store s (with_dirty false o) h, Ok (value o))).
    { unfold read. simpl. unfold get.
      eapply exec_bind; [eapply getObject_lookup, Ho|cbv beta]. rewrite Hcls.
      unfold Signal.get, ListenerManager.checkNotDispatchingDirty.
      eapply exec_bind.
      { eapply exec_bind; [eapply getObject_lookup, Ho|cbv beta]. rewrite Hcd. reflexivity. }
      cbv beta. eapply exec_bind; [exact (update_lookup _ _ _ _ Ho)|cbv beta].
      eapply exec_bind; [eapply getObject_lookup, lookup_store_eq, Ho|reflexivity]. }
    eapply exec_bind; [exact Hread|cbv beta].
    eapply exec_bind; [exact Hrun|reflexivity].
  - destruct (dirty o) eqn:Hd.
    + destruct (IH h o) as (h' & vs & Hrun & Hvs); auto. { split; assumption. }
      exists h', vs. split; [|exact Hvs].
      eapply exec_bind; [|exact Hrun]. unfold Signal.markDirty.
      eapply exec_bind; [eapply getObject_lookup, Ho|cbv beta]. rewrite Hd. reflexivity.
    + set (o1 := with_value (increment (value o)) o).
      set (h1 := with_log (fun l => l ++ calls (dirtyListeners o1))
                   (store s (afterDirtyBroadcast o1) (store s o1 h))).
      destruct (IH h1 (afterDirtyBroadcast o1)) as (h' & vs & Hrun & Hvs); auto.
      { unfold h1. simpl. rewrite list_insert_insert_eq. apply list_lookup_insert_eq.
        eapply lookup_lt_Some, Ho. }
      { split; assumption. }
      { simpl. apply increment_notACount, Hv. }
      exists h', vs. split; [|exact Hvs].
      eapply exec_bind; [|exact Hrun]. unfold Signal.markDirty.
      eapply exec_bind; [eapply getObject_lookup, Ho|cbv beta]. rewrite Hd.
      eapply exec_bind; [exact (update_lookup _ _ _ _ Ho)|cbv beta].
      etransitivity;
        [apply (callDirtyListeners_mocks fuel (store s o1 h) s o1);
           [eapply lookup_store_eq, Ho|exact Hmd|simpl; lia]|].
      simpl. rewrite Hd. reflexivity.
  - set (h1 := if signaled o then h
               else with_log (fun l => l ++ calls (changeListeners o))
                      (store s (afterChangeBroadcast o) h)).
    set (o1 := if signaled o then o else afterChangeBroadcast o).
    destruct (IH h1 o1) as (h' & vs & Hrun & Hvs).
    { unfold h1, o1. destruct (signaled o); [exact Ho|]. eapply lookup_store_eq, Ho. }
    { unfold o1. destruct (signaled o); exact Hcls. }
    { unfold o1. destruct (signaled o); split; assumption. }
    { unfold o1. destruct (signaled o); exact Hcd. }
    { unfold o1. destruct (signaled o); exact Hv. }
    { unfold o1. destruct (signaled o); exact Hfuel. }
    exists h', vs. split; [|exact Hvs].
    eapply exec_bind; [|exact Hrun]. unfold Signal.markChanged.
    rewrite (callChangeListeners_mocks fuel h s o Ho Hmc) by lia. reflexivity.
Qed.

Lemma signal_never_reads_a_count_witness :
  exists h' vs,
    runSignalOps Scenario.fuel 0
      [SignalGet; SignalMarkDirty; SignalGet; SignalMarkDirty; SignalMarkChanged; SignalGet]
      (Scenario.after Signal.new) = (h', Ok vs)
    /\ Forall notACount vs.
Proof.
  refine (signal_never_reads_a_count Scenario.fuel 0 _ (Scenario.after Signal.new)
            (newObject VUndefined SignalClass) eq_refl eq_refl _ eq_refl _ _).
  - split; constructor.
  - left. reflexivity.
  - vm_compute. lia.
Defined.

(** * More of the library: theorems *)

(** ** IterableWeakSet *)

Section IterableWeakSetFacts.
Import IterableWeakSetClear.

Lemma has_true (s : IterableWeakSet.t) v : IterableWeakSet.has s v = true <-> Some v ∈ s.
Proof. unfold IterableWeakSet.has. apply bool_decide_eq_true. Qed.

Lemma elem_of_delete_iff l l' (s : IterableWeakSet.t) :
  Some l' ∈ IterableWeakSet.delete l s <-> l' <> l /\ Some l' ∈ s.
Proof.
  unfold IterableWeakSet.delete. rewrite list_elem_of_fmap. split.
  - intros (e & He & Hin). destruct (decide (e = Some l)) as [->|Hne]; [discriminate|].
    subst e. split; [congruence|exact Hin].
  - intros [Hne Hin]. exists (Some l'). split; [|exact Hin].
    destruct (decide (Some l' = Some l)); [congruence|reflexivity].
Qed.

Lemma values_elem (s : IterableWeakSet.t) v : v ∈ IterableWeakSet.values s <-> Some v ∈ s.
Proof.
  unfold IterableWeakSet.values. rewrite list_elem_of_omap. split.
  - intros (e & Hin & He). destruct e; simpl in He; [|discriminate]. congruence.
  - intros Hin. exists (Some v). auto.
Qed.

Lemma values_app (s s' : IterableWeakSet.t) :
  IterableWeakSet.values (s ++ s') = IterableWeakSet.values s ++ IterableWeakSet.values s'.
Proof. unfold IterableWeakSet.values. apply omap_app. Qed.

Lemma values_delete v (s : IterableWeakSet.t) :
  IterableWeakSet.values (IterableWeakSet.delete v s)
  = filter (fun u => u <> v) (IterableWeakSet.values s).
Proof.
  unfold IterableWeakSet.values, IterableWeakSet.delete.
  induction s as [|e s IH]; [reflexivity|].
  rewrite fmap_cons. destruct (decide (e = Some v)) as [->|Hne].
  - cbn [omap list_omap id]. rewrite IH.
    rewrite filter_cons_False by (intros H; apply H; reflexivity). reflexivity.
  - destruct e as [u|]; cbn [omap list_omap id]; rewrite IH; [|reflexivity].
    rewrite filter_cons_True by congruence. reflexivity.
Qed.

Lemma values_add v (s : IterableWeakSet.t) :
  IterableWeakSet.values (IterableWeakSet.add v s)
  = if IterableWeakSet.has s v then IterableWeakSet.values s
    else IterableWeakSet.values s ++ [v].
Proof.
  unfold IterableWeakSet.add. destruct (IterableWeakSet.has s v); [reflexivity|].
  apply values_app.
Qed.

Lemma length_delete v (s : IterableWeakSet.t) :
  length (IterableWeakSet.delete v s) = length s.
Proof. unfold IterableWeakSet.delete. apply length_fmap. Qed.

Lemma lookup_delete v (s : IterableWeakSet.t) i :
  IterableWeakSet.delete v s !! i
  = (fun e => if decide (e = Some v) then None else e) <$> s !! i.
Proof. unfold IterableWeakSet.delete. apply list_lookup_fmap. Qed.

(** The iterator has emptied every entry it passed. *)
Lemma clearFrom_emptied n : forall i (s : IterableWeakSet.t),
  length s <= i + n ->
  (forall j e, j < i -> s !! j = Some e -> e = None) ->
  forall j e, clearFrom n i s !! j = Some e -> e = None.
Proof.
  induction n as [|n IH]; intros i s Hlen Hdone j e Hj; simpl in Hj.
  - apply (Hdone j e); [|exact Hj]. apply lookup_lt_Some in Hj. lia.
  - destruct (s !! i) as [[v|]|] eqn:Hi.
    + revert Hj. apply IH; [rewrite length_delete; lia|].
      intros k ek Hk Hek. rewrite lookup_delete in Hek.
      destruct (s !! k) as [e0|] eqn:Hs; [|discriminate]. simpl in Hek.
      destruct (decide (e0 = Some v)) as [->|Hne]; [congruence|].
      injection Hek as <-. destruct (decide (k = i)) as [->|Hki]; [congruence|].
      apply (Hdone k e0); [lia|exact Hs].
    + revert Hj. apply IH; [lia|]. intros k ek Hk Hek.
      destruct (decide (k = i)) as [->|Hki]; [congruence|].
      apply (Hdone k ek); [lia|exact Hek].
    + apply lookup_ge_None in Hi. apply (Hdone j e); [|exact Hj].
      apply lookup_lt_Some in Hj. lia.
Qed.

Lemma built_snoc ops o : built (ops ++ [o]) = runOp o (built ops).
Proof. unfold built. rewrite foldl_app. reflexivity. Qed.

Lemma clear_not_elem (s : IterableWeakSet.t) v : Some v ∉ clear s.
Proof.
  intros Hin. apply list_elem_of_lookup in Hin as [j Hj].
  apply (clearFrom_emptied (length s) 0 s) in Hj; [discriminate|lia|]. intros k e Hk. lia.
Qed.

Lemma values_clear (s : IterableWeakSet.t) : IterableWeakSet.values (clear s) = [].
Proof.
  destruct (IterableWeakSet.values (clear s)) as [|v vs] eqn:E; [reflexivity|].
  exfalso. apply (clear_not_elem s v), values_elem. rewrite E. left.
Qed.

Lemma built_NoDup ops : NoDup (IterableWeakSet.values (built ops)).
Proof.
  induction ops as [|o ops IH] using rev_ind; [constructor|].
  rewrite built_snoc. destruct o as [v|v|]; simpl.
  - rewrite values_add. destruct (IterableWeakSet.has (built ops) v) eqn:Hh; [exact IH|].
    apply NoDup_app. split; [exact IH|]. split; [|apply NoDup_singleton].
    intros u Hu Hv. apply list_elem_of_singleton in Hv as ->.
    apply values_elem, has_true in Hu. congruence.
  - rewrite values_delete. apply NoDup_filter, IH.
  - rewrite values_clear. constructor.
Qed.

Lemma filter_ne_notin (v : listener) (l : list listener) :
  v ∉ l -> filter (fun u => u <> v) l = l.
Proof.
  induction l as [|x l IH]; intros Hn; [reflexivity|].
  apply not_elem_of_cons in Hn as [Hx Hl].
  rewrite filter_cons_True by congruence. rewrite IH by exact Hl. reflexivity.
Qed.

Lemma length_filter_ne (v : listener) (l : list listener) :
  NoDup l -> v ∈ l -> S (length (filter (fun u => u <> v) l)) = length l.
Proof.
  induction 1 as [|x l Hx Hnd IH]; intros Hin; [apply elem_of_nil in Hin; contradiction|].
  destruct (decide (x = v)) as [->|Hne].
  - rewrite filter_cons_False by (intros H; apply H; reflexivity).
    rewrite filter_ne_notin by exact Hx. reflexivity.
  - rewrite filter_cons_True by exact Hne. simpl. f_equal. apply IH.
    apply elem_of_cons in Hin as [->|Hin]; [congruence|exact Hin].
Qed.

(** X8.  Membership in an [IterableWeakSet]: after [add(v)] the set has
    [v] and whatever it had; after [delete(v)] it has what it had
    except [v]; after [clear()] it has nothing and its size is [0].
    [add] of a member leaves the set as it was, and [delete] of a
    non-member leaves the iteration as it was. *)
Theorem weak_set_membership (s : IterableWeakSet.t) (v u : listener) :
  (IterableWeakSet.has (IterableWeakSet.add v s) u = true
     <-> u = v \/ IterableWeakSet.has s u = true)
  /\ (IterableWeakSet.has (IterableWeakSet.delete v s) u = true
     <-> u <> v /\ IterableWeakSet.has s u = true)
  /\ IterableWeakSet.has (clear s) u = false
  /\ IterableWeakSet.size (clear s) = 0
  /\ (IterableWeakSet.has s v = true -> IterableWeakSet.add v s = s)
  /\ (IterableWeakSet.has s v = false ->
      IterableWeakSet.values (IterableWeakSet.delete v s) = IterableWeakSet.values s).
Proof.
  rewrite !has_true. split; [apply elem_of_add|]. split; [apply elem_of_delete_iff|].
  split; [|split; [|split]].
  - apply not_true_is_false. rewrite has_true. apply clear_not_elem.
  - unfold IterableWeakSet.size. rewrite values_clear. reflexivity.
  - intros Hin. unfold IterableWeakSet.add.
    rewrite (proj2 (has_true s v) Hin). reflexivity.
  - intros Hn. rewrite values_delete. apply filter_ne_notin.
    rewrite values_elem, <- has_true. congruence.
Qed.

(** X9.  Iteration of an [IterableWeakSet] built by any sequence of
    [add], [delete] and [clear] calls: no element is yielded twice;
    [add] appends a new element at the end and [size] grows by one, or
    changes nothing for a member; [delete] removes the element and
    keeps the order of the others; an element deleted and added again
    is yielded last. *)
Theorem weak_set_iteration (ops : list op) (v : listener) :
  let s := built ops in
  NoDup (IterableWeakSet.values s)
  /\ IterableWeakSet.values (IterableWeakSet.add v s)
     = (if IterableWeakSet.has s v then IterableWeakSet.values s
        else IterableWeakSet.values s ++ [v])
  /\ IterableWeakSet.size (IterableWeakSet.add v s)
     = (if IterableWeakSet.has s v then IterableWeakSet.size s
        else S (IterableWeakSet.size s))
  /\ IterableWeakSet.values (IterableWeakSet.delete v s)
     = filter (fun u => u <> v) (IterableWeakSet.values s)
  /\ (if IterableWeakSet.has s v
      then S (IterableWeakSet.size (IterableWeakSet.delete v s)) = IterableWeakSet.size s
      else IterableWeakSet.size (IterableWeakSet.delete v s) = IterableWeakSet.size s)
  /\ IterableWeakSet.values (IterableWeakSet.add v (IterableWeakSet.delete v s))
     = filter (fun u => u <> v) (IterableWeakSet.values s) ++ [v].
Proof.
  intros s. pose proof (built_NoDup ops) as Hnd. fold s in Hnd.
  split; [exact Hnd|]. split; [apply values_add|]. split.
  { unfold IterableWeakSet.size. rewrite values_add.
    destruct (IterableWeakSet.has s v); [reflexivity|]. rewrite length_app. simpl. lia. }
  split; [apply values_delete|]. split.
  { unfold IterableWeakSet.size. rewrite values_delete.
    destruct (IterableWeakSet.has s v) eqn:Hh.
    - apply length_filter_ne; [exact Hnd|]. apply values_elem, has_true, Hh.
    - rewrite filter_ne_notin; [reflexivity|]. rewrite values_elem, <- has_true. congruence. }
  rewrite values_add, values_delete.
  assert (Hh : IterableWeakSet.has (IterableWeakSet.delete v s) v = false).
  { apply not_true_is_false. rewrite has_true, elem_of_delete_iff. tauto. }
  rewrite Hh. reflexivity.
Qed.

End IterableWeakSetFacts.

(** ** arraysEqual *)

Lemma every_forall a p :
  every a p = true <-> forall i v, a !! i = Some v -> p v i = true.
Proof.
  unfold every. rewrite forallb_forall. split.
  - intros H i v Hi. apply H. apply list_elem_of_In, list_elem_of_lookup.
    exists i. rewrite list_lookup_imap, Hi. reflexivity.
  - intros H b Hb. apply list_elem_of_In, list_elem_of_lookup in Hb as [i Hi].
    rewrite list_lookup_imap in Hi. destruct (a !! i) as [v|] eqn:Hv; [|discriminate].
    injection Hi as <-. apply (H i v Hv).
Qed.

Lemma looseEq_sym a b : looseEq a b = looseEq b a.
Proof.
  destruct a, b; simpl; try reflexivity;
    try (destruct b, b0; reflexivity);
    try apply Z.eqb_sym; try apply Nat.eqb_sym.
Qed.

Lemma looseEq_refl v : looseEq v v = true <-> v <> VNaN.
Proof.
  destruct v; simpl; split; try congruence; intros _;
    try reflexivity; try apply Z.eqb_refl; try apply Nat.eqb_refl.
  destruct b; reflexivity.
Qed.

Lemma arraysEqual_Forall2 a b :
  arraysEqual a b = true <-> Forall2 (fun x y => looseEq x y = true) a b.
Proof.
  unfold arraysEqual. rewrite andb_true_iff, Nat.eqb_eq, every_forall.
  rewrite Forall2_same_length_lookup. split; intros [Hlen H]; (split; [exact Hlen|]).
  - intros i x y Hx Hy. specialize (H i x Hx). unfold arrayIndex in H.
    rewrite Hy in H. exact H.
  - intros i x Hx. unfold arrayIndex.
    destruct (b !! i) as [y|] eqn:Hy; [exact (H i x y Hx Hy)|].
    apply lookup_lt_Some in Hx. apply lookup_ge_None in Hy. lia.
Qed.

(** X10.  [arraysEqual(a, b)] holds exactly when the arrays have the
    same length and their members are pairwise [==]; it is symmetric,
    and arrays of different lengths are never equal. *)
Theorem arraysEqual_pairwise (a b : list jsval) :
  (arraysEqual a b = true <-> Forall2 (fun x y => looseEq x y = true) a b)
  /\ arraysEqual a b = arraysEqual b a
  /\ (length a <> length b -> arraysEqual a b = false).
Proof.
  split; [apply arraysEqual_Forall2|]. split.
  - apply eq_true_iff_eq. rewrite !arraysEqual_Forall2. split; intros H.
    + apply Forall2_flip. eapply Forall2_impl; [exact H|].
      intros x y Hxy. simpl. rewrite looseEq_sym. exact Hxy.
    + apply Forall2_flip. eapply Forall2_impl; [exact H|].
      intros x y Hxy. simpl. rewrite looseEq_sym. exact Hxy.
  - intros Hne. unfold arraysEqual. apply Nat.eqb_neq in Hne. rewrite Hne. reflexivity.
Qed.

(** X11.  [arraysEqual] is not reflexive: an array equals itself
    exactly when it holds no [NaN]. *)
Theorem arraysEqual_self (a : list jsval) :
  arraysEqual a a = true <-> VNaN ∉ a.
Proof.
  rewrite arraysEqual_Forall2, Forall2_same_length_lookup. split.
  - intros [_ H] Hin. apply list_elem_of_lookup in Hin as [i Hi].
    specialize (H i _ _ Hi Hi). apply looseEq_refl in H. congruence.
  - intros Hn. split; [reflexivity|]. intros i x y Hx Hy.
    assert (y = x) as -> by congruence. apply looseEq_refl. intros ->.
    apply Hn. eapply list_elem_of_lookup_2, Hx.
Qed.

(** ** Mutators built from mutators *)

Ltac elems :=
  rewrite ?elem_of_app, ?elem_of_cons, ?list_elem_of_singleton, ?elem_of_nil in *;
  intuition congruence.

Section MutatorGraphFacts.
Context {W R : Type}.
Implicit Types s : MutatorGraph.state W R.
Implicit Types o : MutatorGraph.mutator W R.

Import MutatorGraph.

Lemma getMutator_lookup s m o : mutators s !! m = Some o -> getMutator m s = (s, Ok o).
Proof. intros H. unfold getMutator. rewrite H. reflexivity. Qed.

Lemma lookup_setMutator_eq s m f o :
  mutators s !! m = Some o -> mutators (setMutator m f s) !! m = Some (f o).
Proof.
  intros H. unfold setMutator. simpl. rewrite H.
  apply list_lookup_insert_eq. eapply lookup_lt_Some, H.
Qed.

Lemma lookup_setMutator_is s m f o o' :
  mutators s !! m = Some o -> f o = o' -> mutators (setMutator m f s) !! m = Some o'.
Proof. intros H <-. apply lookup_setMutator_eq, H. Qed.

Lemma lookup_setMutator_ne s m f x :
  x <> m -> mutators (setMutator m f s) !! x = mutators s !! x.
Proof.
  intros H. unfold setMutator. simpl. destruct (mutators s !! m); [|reflexivity].
  apply list_lookup_insert_ne. congruence.
Qed.

Ltac mut_lookup :=
  cbn [mutators];
  first [ eassumption
        | rewrite lookup_setMutator_ne by congruence; mut_lookup
        | eapply lookup_setMutator_is; [mut_lookup | reflexivity] ].

Lemma invoke_run {A} m which (cb : M W A) s w' r :
  cb (world s) = (w', Ok r) ->
  invoke m which cb s
  = ({| mutators := mutators s; world := w'; calls := calls s ++ [(m, which)] |}, Ok r).
Proof. intros H. unfold invoke. rewrite H. reflexivity. Qed.

Lemma perform_S fuel m :
  perform (W:=W) (R:=R) (S fuel) m = performBody (perform fuel) m.
Proof. reflexivity. Qed.

Lemma signal_S fuel m :
  signal (W:=W) (R:=R) (S fuel) m = signalBody (signal fuel) m.
Proof. reflexivity. Qed.

Lemma perform_user fuel s m :
  userAt Fresh s m ->
  exists s' r,
    perform (S fuel) m s = (s', Ok r)
    /\ calls s' = calls s ++ [(m, Mutator.PerformCB)]
    /\ userAt Performed s' m
    /\ forall x, x <> m -> mutators s' !! x = mutators s !! x.
Proof.
  intros (p & sg & Hm & Hp & Hsg).
  destruct (Hp (world s)) as (w' & r & Hrun).
  eexists _, r. split.
  - simpl. unfold performBody.
    eapply exec_bind; [apply getMutator_lookup, Hm|]. cbn [performed when].
    eapply exec_bind; [reflexivity|].
    eapply exec_bind; [reflexivity|]. cbn [callbacks performCB].
    eapply exec_bind.
    { eapply exec_bind; [|reflexivity].
      apply invoke_run. exact Hrun. }
    cbn [fst snd].
    eapply exec_bind; [reflexivity|]. reflexivity.
  - split; [reflexivity|]. split.
    + exists p, sg. split; [|auto].
      mut_lookup.
    + intros x Hx. rewrite lookup_setMutator_ne by exact Hx. cbn [mutators].
      apply lookup_setMutator_ne, Hx.
Qed.

Lemma signal_user fuel s m :
  userAt Performed s m ->
  exists s',
    signal (S fuel) m s = (s', Ok tt)
    /\ calls s' = calls s ++ [(m, Mutator.SignalCB)]
    /\ userAt Signaled s' m
    /\ forall x, x <> m -> mutators s' !! x = mutators s !! x.
Proof.
  intros (p & sg & Hm & Hp & Hsg).
  destruct (Hsg (world s)) as (w' & [] & Hrun).
  eexists. split.
  - simpl. unfold signalBody.
    eapply exec_bind; [apply getMutator_lookup, Hm|]. cbn [performed signaled negb when].
    eapply exec_bind; [reflexivity|].
    eapply exec_bind; [reflexivity|].
    eapply exec_bind; [reflexivity|].
    eapply exec_bind; [apply getMutator_lookup; mut_lookup|].
    cbn [callbacks with_signaled signalCB passed].
    apply invoke_run. exact Hrun.
  - split; [reflexivity|]. split.
    + exists p, sg. split; [|auto]. mut_lookup.
    + intros x Hx. cbn [mutators]. apply lookup_setMutator_ne, Hx.
Qed.

Lemma userAt_agree ph s s2 m :
  mutators s2 !! m = mutators s !! m -> userAt ph s m -> userAt ph s2 m.
Proof. intros E (p & sg & H & Hp). exists p, sg. rewrite E. auto. Qed.

Lemma tower_agree ph s s2 a L N :
  tower ph s a L N ->
  (forall x, x ∈ L \/ x ∈ N -> mutators s2 !! x = mutators s !! x) ->
  tower ph s2 a L N.
Proof.
  induction 1 as [m Hm|a a' b L N Ht IH Hb HbL HbN HaL HaN Hab Ha]; intros E.
  - constructor. eapply userAt_agree; [|exact Hm]. apply E. left. elems.
  - apply (tower_chain _ _ a a' b L N); auto.
    + apply IH. intros x Hx. apply E. elems.
    + eapply userAt_agree; [|exact Hb]. apply E. elems.
    + rewrite E by elems. exact Ha.
Qed.

Lemma tower_length ph s a L N : tower ph s a L N -> 1 <= length L.
Proof. induction 1; [simpl; lia|]. rewrite length_app. simpl. lia. Qed.

Lemma tower_lookup ph s a L N x :
  tower ph s a L N -> x ∈ L \/ x ∈ N -> is_Some (mutators s !! x).
Proof.
  induction 1 as [m (p & sg & Hm & _)|a a' b L N Ht IH (p & sg & Hb & _) HbL HbN HaL HaN Hab Ha].
  - intros [Hx|Hx]; [|elems]. assert (x = m) as -> by elems. eauto.
  - rewrite !elem_of_app, !list_elem_of_singleton. intros [[Hx| ->]|[Hx| ->]]; eauto.
Qed.

Lemma tower_chains ph s a L N x :
  tower ph s a L N -> x ∈ N ->
  exists o this nxt, mutators s !! x = Some o /\ callbacks o = ChainCode this nxt.
Proof.
  induction 1 as [m Hm|a a' b L N Ht IH Hb HbL HbN HaL HaN Hab Ha].
  - elems.
  - rewrite elem_of_app, list_elem_of_singleton. intros [Hx| ->]; [auto|].
    eexists _, _, _. split; [exact Ha|reflexivity].
Qed.

Lemma tower_consumed s a L N x : tower Signaled s a L N -> x ∈ L -> consumed s x.
Proof.
  induction 1 as [m (p & sg & Hm & _)|a a' b L N Ht IH (p & sg & Hb & _) HbL HbN HaL HaN Hab Ha].
  - intros Hx. assert (x = m) as -> by elems. eexists. split; [exact Hm|]. auto.
  - rewrite elem_of_app, list_elem_of_singleton. intros [Hx| ->]; [auto|].
    eexists. split; [exact Hb|]. auto.
Qed.

Lemma tower_perform s a L N :
  tower Fresh s a L N ->
  forall fuel s2,
    (forall x, x ∈ L \/ x ∈ N -> mutators s2 !! x = mutators s !! x) ->
    length L <= fuel ->
    exists s' r,
      perform fuel a s2 = (s', Ok r)
      /\ calls s' = calls s2 ++ performs L
      /\ tower Performed s' a L N
      /\ forall x, x ∉ L -> x ∉ N -> mutators s' !! x = mutators s2 !! x.
Proof.
  induction 1 as [m Hm|a a' b L N Ht IH Hb HbL HbN HaL HaN Hab Ha]; intros fuel s2 E Hfuel.
  - destruct fuel as [|fuel]; [simpl in Hfuel; lia|].
    assert (Hm2 : userAt Fresh s2 m) by (eapply userAt_agree; [|exact Hm]; apply E; elems).
    destruct (perform_user fuel _ _ Hm2) as (s' & r & Hrun & Hcalls & Hu & Hframe).
    exists s', r. split; [exact Hrun|]. split; [exact Hcalls|]. split; [constructor; exact Hu|].
    intros x Hx _. apply Hframe. elems.
  - rewrite length_app in Hfuel. simpl in Hfuel.
    destruct fuel as [|fuel]; [lia|].
    pose proof (tower_length _ _ _ _ _ Ht) as HL.
    assert (Ha2 : mutators s2 !! a = mutators s !! a) by (apply E; elems).
    rewrite Ha in Ha2.
    set (sA := setMutator a (with_performed true) s2).
    destruct (IH fuel sA) as (s1 & r1 & Hrun1 & Hcalls1 & Ht1 & Hframe1); [|lia|].
    { intros x Hx. unfold sA. rewrite lookup_setMutator_ne by (intros ->; tauto).
      apply E. elems. }
    assert (Hb1 : userAt Fresh s1 b).
    { eapply userAt_agree; [|exact Hb]. rewrite Hframe1 by assumption.
      unfold sA. rewrite lookup_setMutator_ne by congruence. apply E. elems. }
    destruct fuel as [|fuel']; [lia|].
    destruct (perform_user fuel' _ _ Hb1) as (s3 & r & Hrun3 & Hcalls3 & Hb3 & Hframe3).
    exists (setMutator a (with_passed (PassMutator b)) s3), r. split.
    { rewrite perform_S. unfold performBody.
      eapply exec_bind; [apply getMutator_lookup, Ha2|]. cbn [performed isPerformed when].
      eapply exec_bind; [reflexivity|].
      eapply exec_bind; [reflexivity|]. cbn [callbacks performCB].
      eapply exec_bind.
      { eapply exec_bind; [exact Hrun1|]. cbn [resolve].
        eapply exec_bind; [reflexivity|].
        eapply exec_bind; [exact Hrun3|]. reflexivity. }
      cbn [fst snd]. eapply exec_bind; [reflexivity|]. reflexivity. }
    assert (Ha3 : mutators s3 !! a = Some (with_performed true
              {| performed := false; signaled := false; passed := PassUndefined;
                 callbacks := ChainCode a' (NextMutator b) |})).
    { rewrite Hframe3 by congruence. rewrite Hframe1 by assumption.
      unfold sA. apply lookup_setMutator_eq, Ha2. }
    split.
    { cbn [calls setMutator with_mutators]. rewrite Hcalls3, Hcalls1.
      unfold performs. rewrite fmap_app, <- app_assoc. reflexivity. }
    split.
    { apply (tower_chain _ _ a a' b L N); auto.
      - eapply tower_agree; [exact Ht1|]. intros x Hx.
        rewrite lookup_setMutator_ne by (intros ->; tauto).
        apply Hframe3. intros ->; tauto.
      - eapply userAt_agree; [|exact Hb3]. apply lookup_setMutator_ne. congruence.
      - eapply lookup_setMutator_is; [exact Ha3|reflexivity]. }
    intros x HxL HxN. rewrite elem_of_app, list_elem_of_singleton in HxL, HxN.
    rewrite lookup_setMutator_ne by tauto.
    rewrite Hframe3 by tauto. rewrite Hframe1 by tauto.
    unfold sA. apply lookup_setMutator_ne. tauto.
Qed.

Lemma tower_signal s a L N :
  tower Performed s a L N ->
  forall fuel s2,
    (forall x, x ∈ L \/ x ∈ N -> mutators s2 !! x = mutators s !! x) ->
    length L <= fuel ->
    exists s',
      signal fuel a s2 = (s', Ok tt)
      /\ calls s' = calls s2 ++ signals L
      /\ tower Signaled s' a L N
      /\ forall x, x ∉ L -> x ∉ N -> mutators s' !! x = mutators s2 !! x.
Proof.
  induction 1 as [m Hm|a a' b L N Ht IH Hb HbL HbN HaL HaN Hab Ha]; intros fuel s2 E Hfuel.
  - destruct fuel as [|fuel]; [simpl in Hfuel; lia|].
    assert (Hm2 : userAt Performed s2 m) by (eapply userAt_agree; [|exact Hm]; apply E; elems).
    destruct (signal_user fuel _ _ Hm2) as (s' & Hrun & Hcalls & Hu & Hframe).
    exists s'. split; [exact Hrun|]. split; [exact Hcalls|]. split; [constructor; exact Hu|].
    intros x Hx _. apply Hframe. elems.
  - rewrite length_app in Hfuel. simpl in Hfuel.
    destruct fuel as [|fuel]; [lia|].
    pose proof (tower_length _ _ _ _ _ Ht) as HL.
    assert (Ha2 : mutators s2 !! a = mutators s !! a) by (apply E; elems).
    rewrite Ha in Ha2.
    set (sA := setMutator a (with_signaled true) s2).
    destruct (IH fuel sA) as (s1 & Hrun1 & Hcalls1 & Ht1 & Hframe1); [|lia|].
    { intros x Hx. unfold sA. rewrite lookup_setMutator_ne by (intros ->; tauto).
      apply E. elems. }
    assert (Hb1 : userAt Performed s1 b).
    { eapply userAt_agree; [|exact Hb]. rewrite Hframe1 by assumption.
      unfold sA. rewrite lookup_setMutator_ne by congruence. apply E. elems. }
    destruct fuel as [|fuel']; [lia|].
    destruct (signal_user fuel' _ _ Hb1) as (s3 & Hrun3 & Hcalls3 & Hb3 & Hframe3).
    exists s3. split.
    { rewrite signal_S. unfold signalBody.
      eapply exec_bind; [apply getMutator_lookup, Ha2|].
      cbn [performed signaled isPerformed isSignaled negb when].
      eapply exec_bind; [reflexivity|].
      eapply exec_bind; [reflexivity|].
      eapply exec_bind; [reflexivity|].
      eapply exec_bind; [apply getMutator_lookup; mut_lookup|].
      cbn [callbacks passed with_signaled signalCB].
      eapply exec_bind; [exact Hrun1|]. exact Hrun3. }
    split.
    { rewrite Hcalls3, Hcalls1.
      unfold signals. rewrite fmap_app, <- app_assoc. reflexivity. }
    split.
    { apply (tower_chain _ _ a a' b L N); auto.
      - eapply tower_agree; [exact Ht1|]. intros x Hx.
        apply Hframe3. intros ->; tauto.
      - rewrite Hframe3 by congruence. rewrite Hframe1 by assumption.
        unfold sA. eapply lookup_setMutator_is; [exact Ha2|reflexivity]. }
    intros x HxL HxN. rewrite elem_of_app, list_elem_of_singleton in HxL, HxN.
    rewrite Hframe3 by tauto. rewrite Hframe1 by tauto.
    unfold sA. apply lookup_setMutator_ne. tauto.
Qed.

Lemma consumed_agree s s2 m :
  mutators s2 !! m = mutators s !! m -> consumed s m -> consumed s2 m.
Proof. intros E (o & H & Hp). exists o. rewrite E. auto. Qed.

Lemma userAt_consumed s m : userAt Signaled s m -> consumed s m.
Proof. intros (p & sg & H & _). eexists. split; [exact H|]. auto. Qed.

Lemma commit_user fuel s m :
  userAt Fresh s m ->
  exists s' r,
    commit fuel m s = (s', Ok r)
    /\ calls s' = calls s ++ [(m, Mutator.PerformCB); (m, Mutator.SignalCB)]
    /\ userAt Signaled s' m
    /\ forall x, x <> m -> mutators s' !! x = mutators s !! x.
Proof.
  intros (p & sg & Hm & Hp & Hsg).
  destruct (Hp (world s)) as (w1 & r & Hrun1).
  destruct (Hsg w1) as (w2 & [] & Hrun2).
  eexists _, r. split.
  - unfold commit, commitBody.
    eapply exec_bind; [apply getMutator_lookup, Hm|]. cbn [performed signaled when].
    eapply exec_bind; [reflexivity|].
    eapply exec_bind; [reflexivity|].
    eapply exec_bind; [reflexivity|]. cbn [callbacks performCB].
    eapply exec_bind.
    { eapply exec_bind; [|reflexivity]. apply invoke_run. exact Hrun1. }
    cbn [fst snd].
    eapply exec_bind; [reflexivity|]. cbn [signalCB].
    eapply exec_bind; [|reflexivity].
    apply invoke_run. exact Hrun2.
  - split; [simpl; rewrite <- app_assoc; reflexivity|]. split.
    + exists p, sg. split; [|auto]. mut_lookup.
    + intros x Hx. cbn [mutators]. rewrite lookup_setMutator_ne by exact Hx.
      cbn [mutators]. apply lookup_setMutator_ne, Hx.
Qed.

Lemma commit_tower s a L N fuel :
  tower Fresh s a L N -> length L <= fuel ->
  exists s' r,
    commit fuel a s = (s', Ok r)
    /\ calls s' = calls s ++ performs L ++ signals L
    /\ forall x, x ∈ L -> consumed s' x.
Proof.
  intros Ht Hfuel. inversion Ht as [m Hm|a0 a' b L' N' Ht' Hb HbL HbN HaL HaN Hab Ha]; subst.
  - destruct (commit_user fuel _ _ Hm) as (s' & r & Hrun & Hcalls & Hu & _).
    exists s', r. split; [exact Hrun|]. split; [exact Hcalls|].
    intros x Hx. assert (x = a) as -> by elems. apply userAt_consumed, Hu.
  - rewrite length_app in Hfuel. simpl in Hfuel.
    pose proof (tower_length _ _ _ _ _ Ht') as HL.
    set (sA := setMutator a (with_performed true) s).
    destruct (tower_perform _ _ _ _ Ht' fuel sA) as (s1 & r1 & Hrun1 & Hcalls1 & Ht1 & Hframe1);
      [|lia|].
    { intros x Hx. unfold sA. apply lookup_setMutator_ne. intros ->; tauto. }
    assert (Hb1 : userAt Fresh s1 b).
    { eapply userAt_agree; [|exact Hb]. rewrite Hframe1 by assumption.
      unfold sA. apply lookup_setMutator_ne. congruence. }
    destruct fuel as [|fuel']; [lia|].
    destruct (perform_user fuel' _ _ Hb1) as (s3 & r & Hrun3 & Hcalls3 & Hb3 & Hframe3).
    set (s4 := setMutator a (with_signaled true) s3).
    destruct (tower_signal _ _ _ _ Ht1 (S fuel') s4) as (s5 & Hrun5 & Hcalls5 & Ht5 & Hframe5);
      [|lia|].
    { intros x Hx. unfold s4. rewrite lookup_setMutator_ne by (intros ->; tauto).
      apply Hframe3. intros ->; tauto. }
    assert (Hb5 : userAt Performed s5 b).
    { eapply userAt_agree; [|exact Hb3]. rewrite Hframe5 by assumption.
      unfold s4. apply lookup_setMutator_ne. congruence. }
    destruct (signal_user fuel' _ _ Hb5) as (s6 & Hrun6 & Hcalls6 & Hb6 & Hframe6).
    exists s6, r. split.
    { unfold commit, commitBody.
      eapply exec_bind; [apply getMutator_lookup, Ha|].
      cbn [performed signaled isPerformed isSignaled when].
      eapply exec_bind; [reflexivity|].
      eapply exec_bind; [reflexivity|].
      eapply exec_bind; [reflexivity|]. cbn [callbacks performCB].
      eapply exec_bind.
      { eapply exec_bind; [exact Hrun1|]. cbn [resolve].
        eapply exec_bind; [reflexivity|].
        eapply exec_bind; [exact Hrun3|]. reflexivity. }
      cbn [fst snd]. eapply exec_bind; [reflexivity|]. cbn [signalCB].
      eapply exec_bind; [|reflexivity].
      eapply exec_bind; [exact Hrun5|]. exact Hrun6. }
    split.
    { rewrite Hcalls6, Hcalls5. unfold s4. cbn [calls setMutator with_mutators].
      rewrite Hcalls3, Hcalls1. unfold sA. cbn [calls setMutator with_mutators].
      unfold performs, signals. rewrite !fmap_app, <- !app_assoc. reflexivity. }
    intros x. rewrite elem_of_app, list_elem_of_singleton. intros [Hx| ->].
    + eapply consumed_agree; [|eapply tower_consumed; [exact Ht5|exact Hx]].
      apply Hframe6. intros ->; tauto.
    + apply userAt_consumed, Hb6.
Qed.

Lemma lookup_newMutator s c x o :
  mutators s !! x = Some o ->
  mutators (with_mutators (fun ms => ms ++ [c]) s) !! x = Some o.
Proof. intros H. simpl. apply lookup_app_l_Some, H. Qed.

Lemma reduceChain_tower rest : forall a L N s,
  tower Fresh s a L N ->
  (forall x, x ∈ rest -> userAt Fresh s x) ->
  NoDup rest ->
  (forall x, x ∈ rest -> x ∉ L) ->
  exists s' top N',
    reduceChain a rest s = (s', Ok top)
    /\ tower Fresh s' top (L ++ rest) N'
    /\ calls s' = calls s /\ world s' = world s.
Proof.
  induction rest as [|b rest IH]; intros a L N s Ht Hrest Hnd Hdis.
  - exists s, a, N. rewrite app_nil_r. auto.
  - apply NoDup_cons in Hnd as [Hb Hnd].
    set (n := length (mutators s)).
    set (c := {| performed := false; signaled := false; passed := PassUndefined;
                 callbacks := ChainCode a (NextMutator b) |} : mutator W R).
    set (s1 := with_mutators (fun ms => ms ++ [c]) s).
    assert (Hold : forall x, is_Some (mutators s !! x) ->
                             mutators s1 !! x = mutators s !! x /\ x <> n).
    { intros x [o Ho]. split.
      - rewrite Ho. apply lookup_newMutator, Ho.
      - apply lookup_lt_Some in Ho. unfold n. lia. }
    assert (HbU : userAt Fresh s b) by (apply Hrest; elems).
    assert (HbS : is_Some (mutators s !! b)) by (destruct HbU as (? & ? & -> & _); eauto).
    assert (Ht1 : tower Fresh s1 n (L ++ [b]) (N ++ [n])).
    { apply (tower_chain _ _ n a b L N).
      - eapply tower_agree; [exact Ht|]. intros x Hx.
        apply Hold. eapply tower_lookup; eassumption.
      - eapply userAt_agree; [|exact HbU]. apply Hold, HbS.
      - apply Hdis. elems.
      - intros HbN. destruct (tower_chains _ _ _ _ _ _ Ht HbN) as (o & this & nxt & Ho & Hc).
        destruct HbU as (p & sg & HbU & _). rewrite HbU in Ho. injection Ho as <-.
        discriminate Hc.
      - intros HnL. eapply Hold; [eapply tower_lookup; [exact Ht|left; exact HnL]|reflexivity].
      - intros HnN. eapply Hold; [eapply tower_lookup; [exact Ht|right; exact HnN]|reflexivity].
      - intros ->. eapply Hold; [exact HbS|reflexivity].
      - unfold s1, n. simpl. apply list_lookup_middle. reflexivity. }
    destruct (IH n (L ++ [b]) (N ++ [n]) s1 Ht1) as (s' & top & N' & Hrun & Ht' & Hc & Hw).
    { intros x Hx. eapply userAt_agree; [|apply Hrest; elems]. apply Hold.
      destruct (Hrest x) as (? & ? & -> & _); [elems|eauto]. }
    { exact Hnd. }
    { intros x Hx. rewrite elem_of_app, list_elem_of_singleton. intros [HxL| ->].
      - eapply Hdis; [|exact HxL]. elems.
      - tauto. }
    exists s', top, N'. split.
    { simpl. eapply exec_bind; [reflexivity|]. exact Hrun. }
    rewrite <- app_assoc in Ht'. auto.
Qed.

Lemma forEach_signal fuel L : forall s,
  NoDup L -> (forall x, x ∈ L -> userAt Performed s x) ->
  exists s',
    forEach L (signal (S fuel)) s = (s', Ok tt)
    /\ calls s' = calls s ++ signals L
    /\ (forall x, x ∈ L -> userAt Signaled s' x)
    /\ forall x, x ∉ L -> mutators s' !! x = mutators s !! x.
Proof.
  induction L as [|m L IH]; intros s Hnd HL.
  - exists s. rewrite app_nil_r. split; [reflexivity|]. split; [reflexivity|].
    split; [intros x Hx; elems|auto].
  - apply NoDup_cons in Hnd as [Hm Hnd].
    destruct (signal_user fuel s m) as (s1 & Hrun1 & Hcalls1 & Hm1 & Hframe1); [apply HL; elems|].
    destruct (IH s1 Hnd) as (s2 & Hrun2 & Hcalls2 & HL2 & Hframe2).
    { intros x Hx. eapply userAt_agree; [|apply HL; elems]. apply Hframe1. congruence. }
    exists s2. split; [simpl; eapply exec_bind; [exact Hrun1|exact Hrun2]|].
    split; [rewrite Hcalls2, Hcalls1, <- app_assoc; reflexivity|]. split.
    + intros x. rewrite elem_of_cons. intros [->|Hx]; [|auto].
      eapply userAt_agree; [|exact Hm1]. apply Hframe2, Hm.
    + intros x Hx. rewrite not_elem_of_cons in Hx. destruct Hx.
      rewrite Hframe2 by assumption. apply Hframe1. assumption.
Qed.

Lemma length_setMutator s m f : length (mutators (setMutator m f s)) = length (mutators s).
Proof.
  unfold setMutator. simpl. destruct (mutators s !! m); [apply length_insert|reflexivity].
Qed.

Lemma perform_user_run fuel s m pa p sg w' r :
  mutators s !! m
  = Some {| performed := false; signaled := false; passed := pa; callbacks := UserCode p sg |} ->
  p (world s) = (w', Ok r) ->
  exists s',
    perform (S fuel) m s = (s', Ok r)
    /\ world s' = w'
    /\ calls s' = calls s ++ [(m, Mutator.PerformCB)]
    /\ mutators s' !! m
       = Some {| performed := true; signaled := false; passed := PassUndefined;
                 callbacks := UserCode p sg |}
    /\ length (mutators s') = length (mutators s)
    /\ forall x, x <> m -> mutators s' !! x = mutators s !! x.
Proof.
  intros Hm Hrun. eexists. split.
  - rewrite perform_S. unfold performBody.
    eapply exec_bind; [apply getMutator_lookup, Hm|]. cbn [performed when].
    eapply exec_bind; [reflexivity|].
    eapply exec_bind; [reflexivity|]. cbn [callbacks performCB].
    eapply exec_bind.
    { eapply exec_bind; [|reflexivity]. apply invoke_run. exact Hrun. }
    cbn [fst snd].
    eapply exec_bind; [reflexivity|]. reflexivity.
  - split; [reflexivity|]. split; [reflexivity|]. split; [mut_lookup|]. split.
    + rewrite length_setMutator. cbn [mutators]. apply length_setMutator.
    + intros x Hx. rewrite lookup_setMutator_ne by exact Hx. cbn [mutators].
      apply lookup_setMutator_ne, Hx.
Qed.

Lemma signal_user_run fuel s m pa p sg w' :
  mutators s !! m
  = Some {| performed := true; signaled := false; passed := pa; callbacks := UserCode p sg |} ->
  sg (world s) = (w', Ok tt) ->
  exists s',
    signal (S fuel) m s = (s', Ok tt)
    /\ world s' = w'
    /\ calls s' = calls s ++ [(m, Mutator.SignalCB)]
    /\ mutators s' !! m
       = Some {| performed := true; signaled := true; passed := pa;
                 callbacks := UserCode p sg |}
    /\ length (mutators s') = length (mutators s)
    /\ forall x, x <> m -> mutators s' !! x = mutators s !! x.
Proof.
  intros Hm Hrun. eexists. split.
  - rewrite signal_S. unfold signalBody.
    eapply exec_bind; [apply getMutator_lookup, Hm|]. cbn [performed signaled negb when].
    eapply exec_bind; [reflexivity|].
    eapply exec_bind; [reflexivity|].
    eapply exec_bind; [reflexivity|].
    eapply exec_bind; [apply getMutator_lookup; mut_lookup|].
    cbn [callbacks with_signaled signalCB passed].
    apply invoke_run. exact Hrun.
  - split; [reflexivity|]. split; [reflexivity|]. split; [mut_lookup|]. split.
    + cbn [mutators]. apply length_setMutator.
    + intros x Hx. cbn [mutators]. apply lookup_setMutator_ne, Hx.
Qed.

(** X15. [m.map(f)], committed, performs [m], signals it and returns
    [f] of its result; [m] is consumed with it, so that committing the
    mapped mutator a second time, or [m] itself afterwards, throws
    "Mutations can only be performed once". *)
Theorem map_commit_maps_the_result
    s (m : nat) (f : R -> R) (p : M W R) (sg : M W unit) (w1 w2 : W) (r : R) (fuel : nat) :
  mutators s !! m
  = Some {| performed := false; signaled := false; passed := PassUndefined;
            callbacks := UserCode p sg |} ->
  p (world s) = (w1, Ok r) ->
  sg w1 = (w2, Ok tt) ->
  let c := length (mutators s) in
  exists s1 s2,
    mapMethod m f s = (s1, Ok c)
    /\ commit (S fuel) c s1 = (s2, Ok (f r))
    /\ world s2 = w2
    /\ calls s2 = calls s ++ [(m, Mutator.PerformCB); (m, Mutator.SignalCB)]
    /\ commit (S fuel) c s2 = (s2, Throw PerformedOnce)
    /\ commit (S fuel) m s2 = (s2, Throw PerformedOnce).
Proof.
  intros Hm Hp Hsg c.
  set (s1 := with_mutators (fun ms => ms ++ [{| performed := false; signaled := false;
            passed := PassUndefined; callbacks := MapCode m f |}]) s).
  assert (Hc1 : mutators s1 !! c = Some {| performed := false; signaled := false;
            passed := PassUndefined; callbacks := MapCode m f |}).
  { unfold s1, c. simpl. apply list_lookup_middle. reflexivity. }
  assert (Hmc : m <> c) by (apply lookup_lt_Some in Hm; unfold c; lia).
  set (sA := setMutator c (with_performed true) s1).
  destruct (perform_user_run fuel sA m PassUndefined p sg w1 r)
    as (s3 & Hrun3 & Hw3 & Hcalls3 & Hm3 & Hlen3 & Hframe3).
  { unfold sA. rewrite lookup_setMutator_ne by exact Hmc. apply lookup_newMutator, Hm. }
  { exact Hp. }
  set (s4 := setMutator c (with_signaled true) s3).
  destruct (signal_user_run fuel s4 m PassUndefined p sg w2)
    as (s5 & Hrun5 & Hw5 & Hcalls5 & Hm5 & Hlen5 & Hframe5).
  { unfold s4. rewrite lookup_setMutator_ne by exact Hmc. exact Hm3. }
  { unfold s4. cbn [world setMutator with_mutators]. rewrite Hw3. exact Hsg. }
  assert (Hc5 : mutators s5 !! c = Some {| performed := true; signaled := true;
            passed := PassUndefined; callbacks := MapCode m f |}).
  { rewrite Hframe5 by congruence. unfold s4.
    eapply lookup_setMutator_is;
      [rewrite Hframe3 by congruence; unfold sA;
       eapply lookup_setMutator_is; [exact Hc1|reflexivity]|reflexivity]. }
  exists s1, s5. split; [reflexivity|]. split.
  { unfold commit, commitBody.
    eapply exec_bind; [apply getMutator_lookup, Hc1|]. cbn [performed signaled when].
    eapply exec_bind; [reflexivity|].
    eapply exec_bind; [reflexivity|].
    eapply exec_bind; [reflexivity|]. cbn [callbacks performCB].
    eapply exec_bind; [eapply exec_bind; [exact Hrun3|reflexivity]|].
    cbn [fst snd]. eapply exec_bind; [reflexivity|]. cbn [signalCB].
    eapply exec_bind; [exact Hrun5|]. reflexivity. }
  split; [exact Hw5|]. split.
  { rewrite Hcalls5. unfold s4. cbn [calls setMutator with_mutators]. rewrite Hcalls3.
    rewrite <- app_assoc. reflexivity. }
  split.
  - unfold commit, commitBody.
    eapply exec_bind; [apply getMutator_lookup, Hc5|]. reflexivity.
  - unfold commit, commitBody.
    eapply exec_bind; [apply getMutator_lookup, Hm5|]. reflexivity.
Qed.

(** X13. [m.chain(next)] with a [next] function, committed: [m] is
    performed, [next] gets its result and makes the second mutator,
    that one is performed, and only then are the two signalled, [m]
    first; the result is the second mutator's. *)
Theorem chain_performs_both_before_signalling
    s (m : nat) (f : R -> made W R) (p p2 : M W R) (sg sg2 : M W unit)
    (w1 w2 w3 w4 : W) (r1 r2 : R) (fuel : nat) :
  mutators s !! m
  = Some {| performed := false; signaled := false; passed := PassUndefined;
            callbacks := UserCode p sg |} ->
  p (world s) = (w1, Ok r1) ->
  f r1 = Created p2 sg2 ->
  p2 w1 = (w2, Ok r2) ->
  sg w2 = (w3, Ok tt) ->
  sg2 w3 = (w4, Ok tt) ->
  let c := length (mutators s) in
  let n := S c in
  exists s1 s2,
    chainMethod m (NextFunction f) s = (s1, Ok c)
    /\ commit (S fuel) c s1 = (s2, Ok r2)
    /\ world s2 = w4
    /\ calls s2 = calls s ++ [(m, Mutator.PerformCB); (n, Mutator.PerformCB);
                              (m, Mutator.SignalCB); (n, Mutator.SignalCB)]
    /\ consumed s2 m /\ consumed s2 n.
Proof.
  intros Hm Hp Hf Hp2 Hsg Hsg2 c n.
  set (oc := {| performed := false; signaled := false; passed := PassUndefined;
                callbacks := ChainCode m (NextFunction f) |} : mutator W R).
  set (s1 := with_mutators (fun ms => ms ++ [oc]) s).
  assert (Hc1 : mutators s1 !! c = Some oc).
  { unfold s1, c. simpl. apply list_lookup_middle. reflexivity. }
  assert (Hmc : m <> c) by (apply lookup_lt_Some in Hm; unfold c; lia).
  assert (Hmn : m <> n) by (apply lookup_lt_Some in Hm; unfold n, c; lia).
  set (sA := setMutator c (with_performed true) s1).
  destruct (perform_user_run fuel sA m PassUndefined p sg w1 r1)
    as (s3 & Hrun3 & Hw3 & Hcalls3 & Hm3 & Hlen3 & Hframe3).
  { unfold sA. rewrite lookup_setMutator_ne by exact Hmc. apply lookup_newMutator, Hm. }
  { exact Hp. }
  assert (Hn : length (mutators s3) = n).
  { rewrite Hlen3. unfold sA. rewrite length_setMutator. unfold s1. simpl.
    rewrite length_app. simpl. unfold n, c. lia. }
  set (on := {| performed := false; signaled := false; passed := PassUndefined;
                callbacks := UserCode p2 sg2 |} : mutator W R).
  set (s4 := with_mutators (fun ms => ms ++ [on]) s3).
  destruct (perform_user_run fuel s4 n PassUndefined p2 sg2 w2 r2)
    as (s5 & Hrun5 & Hw5 & Hcalls5 & Hn5 & Hlen5 & Hframe5).
  { unfold s4. simpl. apply list_lookup_middle. symmetry. exact Hn. }
  { unfold s4. cbn [world with_mutators]. rewrite Hw3. exact Hp2. }
  set (s6 := setMutator c (with_signaled true) s5).
  destruct (signal_user_run fuel s6 m PassUndefined p sg w3)
    as (s7 & Hrun7 & Hw7 & Hcalls7 & Hm7 & Hlen7 & Hframe7).
  { unfold s6. rewrite lookup_setMutator_ne by exact Hmc. rewrite Hframe5 by exact Hmn.
    unfold s4. apply lookup_newMutator, Hm3. }
  { unfold s6. cbn [world setMutator with_mutators]. rewrite Hw5. exact Hsg. }
  destruct (signal_user_run fuel s7 n PassUndefined p2 sg2 w4)
    as (s8 & Hrun8 & Hw8 & Hcalls8 & Hn8 & Hlen8 & Hframe8).
  { rewrite Hframe7 by congruence. unfold s6.
    rewrite lookup_setMutator_ne by (unfold n; lia). exact Hn5. }
  { rewrite Hw7. exact Hsg2. }
  exists s1, s8. split; [reflexivity|]. split.
  { unfold commit, commitBody.
    eapply exec_bind; [apply getMutator_lookup, Hc1|]. cbn [oc performed signaled when].
    eapply exec_bind; [reflexivity|].
    eapply exec_bind; [reflexivity|].
    eapply exec_bind; [reflexivity|]. cbn [callbacks performCB].
    eapply exec_bind.
    { eapply exec_bind; [exact Hrun3|]. cbn [resolve]. rewrite Hf.
      eapply exec_bind; [reflexivity|]. rewrite Hn.
      eapply exec_bind; [exact Hrun5|]. reflexivity. }
    cbn [fst snd]. eapply exec_bind; [reflexivity|]. cbn [signalCB].
    eapply exec_bind; [|reflexivity].
    eapply exec_bind; [exact Hrun7|]. exact Hrun8. }
  split; [exact Hw8|]. split.
  { rewrite Hcalls8, Hcalls7. unfold s6. cbn [calls setMutator with_mutators].
    rewrite Hcalls5. unfold s4. cbn [calls with_mutators]. rewrite Hcalls3.
    rewrite <- !app_assoc. reflexivity. }
  split.
  - eexists. split; [rewrite Hframe8 by exact Hmn; exact Hm7|]. auto.
  - eexists. split; [exact Hn8|]. auto.
Qed.

(** X14. Nothing is rolled back: when the second mutator of a chain
    cannot be performed, because it was performed before or is the
    first mutator itself, committing the chain throws after the first
    was performed; the first stays performed and is never signalled,
    and neither the chain nor the first can be committed afterwards. *)
Theorem chain_failure_leaves_first_unsignalled
    s (m b : nat) (p : M W R) (sg : M W unit) (w1 : W) (r1 : R) (fuel : nat) :
  mutators s !! m
  = Some {| performed := false; signaled := false; passed := PassUndefined;
            callbacks := UserCode p sg |} ->
  p (world s) = (w1, Ok r1) ->
  b = m \/ (exists ob, mutators s !! b = Some ob /\ performed ob = true) ->
  let c := length (mutators s) in
  exists s1 s2,
    chainMethod m (NextMutator b) s = (s1, Ok c)
    /\ commit (S fuel) c s1 = (s2, Throw PerformedOnce)
    /\ world s2 = w1
    /\ calls s2 = calls s ++ [(m, Mutator.PerformCB)]
    /\ mutators s2 !! m
       = Some {| performed := true; signaled := false; passed := PassUndefined;
                 callbacks := UserCode p sg |}
    /\ commit (S fuel) c s2 = (s2, Throw PerformedOnce)
    /\ commit (S fuel) m s2 = (s2, Throw PerformedOnce).
Proof.
  intros Hm Hp Hb c.
  set (oc := {| performed := false; signaled := false; passed := PassUndefined;
                callbacks := ChainCode m (NextMutator b) |} : mutator W R).
  set (s1 := with_mutators (fun ms => ms ++ [oc]) s).
  assert (Hc1 : mutators s1 !! c = Some oc).
  { unfold s1, c. simpl. apply list_lookup_middle. reflexivity. }
  assert (Hmc : m <> c) by (apply lookup_lt_Some in Hm; unfold c; lia).
  set (sA := setMutator c (with_performed true) s1).
  destruct (perform_user_run fuel sA m PassUndefined p sg w1 r1)
    as (s3 & Hrun3 & Hw3 & Hcalls3 & Hm3 & Hlen3 & Hframe3).
  { unfold sA. rewrite lookup_setMutator_ne by exact Hmc. apply lookup_newMutator, Hm. }
  { exact Hp. }
  assert (Hb3 : exists ob, mutators s3 !! b = Some ob /\ performed ob = true).
  { destruct Hb as [->|(ob & Hob & Hpb)]; [eexists; split; [exact Hm3|reflexivity]|].
    destruct (decide (b = m)) as [->|Hbm]; [eexists; split; [exact Hm3|reflexivity]|].
    exists ob. split; [|exact Hpb]. rewrite Hframe3 by exact Hbm.
    unfold sA. rewrite lookup_setMutator_ne by (apply lookup_lt_Some in Hob; unfold c; lia).
    apply lookup_newMutator, Hob. }
  destruct Hb3 as (ob & Hob & Hpb).
  assert (Hc3 : mutators s3 !! c = Some (with_performed true oc)).
  { rewrite Hframe3 by congruence. unfold sA. apply lookup_setMutator_eq, Hc1. }
  exists s1, s3. split; [reflexivity|]. split.
  { unfold commit, commitBody.
    eapply exec_bind; [apply getMutator_lookup, Hc1|]. cbn [oc performed signaled when].
    eapply exec_bind; [reflexivity|].
    eapply exec_bind; [reflexivity|].
    eapply exec_bind; [reflexivity|]. cbn [callbacks performCB].
    apply bind_Throw.
    eapply exec_bind; [exact Hrun3|]. cbn [resolve].
    eapply exec_bind; [reflexivity|].
    apply bind_Throw. rewrite perform_S. unfold performBody.
    eapply exec_bind; [apply getMutator_lookup, Hob|]. rewrite Hpb. reflexivity. }
  split; [exact Hw3|]. split; [exact Hcalls3|]. split; [exact Hm3|]. split.
  - unfold commit, commitBody.
    eapply exec_bind; [apply getMutator_lookup, Hc3|]. reflexivity.
  - unfold commit, commitBody.
    eapply exec_bind; [apply getMutator_lookup, Hm3|]. reflexivity.
Qed.

(** X12. [all(mutators)] of distinct fresh mutators, committed,
    performs every one of them in the order of the list and then
    signals every one of them in that order; afterwards each of them is
    consumed.  Building the combined mutator calls no callback. *)
Theorem all_performs_then_signals (undefinedR : R) (ms : list nat) s (fuel : nat) :
  ms <> [] ->
  NoDup ms ->
  (forall m, m ∈ ms -> freshUser s m) ->
  length ms <= fuel ->
  exists s1 top s2 r,
    all undefinedR ms s = (s1, Ok top)
    /\ world s1 = world s /\ calls s1 = calls s
    /\ commit fuel top s1 = (s2, Ok r)
    /\ calls s2 = calls s ++ performs ms ++ signals ms
    /\ forall m, m ∈ ms -> consumed s2 m.
Proof.
  intros Hne Hnd Hfresh Hfuel. destruct ms as [|m rest]; [congruence|].
  apply NoDup_cons in Hnd as [Hm Hnd].
  destruct (reduceChain_tower rest m [m] [] s) as (s1 & top & N' & Hrun & Ht & Hc & Hw).
  { constructor. apply Hfresh. elems. }
  { intros x Hx. apply Hfresh. elems. }
  { exact Hnd. }
  { intros x Hx. rewrite list_elem_of_singleton. intros ->. tauto. }
  destruct (commit_tower _ _ _ _ fuel Ht Hfuel) as (s2 & r & Hrun2 & Hcalls2 & Hcons).
  exists s1, top, s2, r. split; [exact Hrun|]. split; [exact Hw|]. split; [exact Hc|].
  split; [exact Hrun2|]. split; [rewrite Hcalls2, Hc; reflexivity|exact Hcons].
Qed.

Lemma runScript_asked fuel s obtain seen :
  adds s seen obtain ->
  forall st : state W R,
    NoDup seen ->
    (forall x, x ∈ seen -> userAt Performed st x) ->
    (forall x, x ∉ seen -> userAt Fresh s x -> mutators st !! x = mutators s !! x) ->
    exists st' r L,
      runScript (perform (S fuel)) obtain seen st = (st', Ok (r, PassMutators (seen ++ L)))
      /\ asked s obtain (world st) = Some (L, r, world st')
      /\ calls st' = calls st ++ performs L
      /\ NoDup (seen ++ L)
      /\ (forall x, x ∈ seen ++ L -> userAt Performed st' x)
      /\ (forall x, x ∈ L -> userAt Fresh s x)
      /\ forall x, x ∉ seen ++ L -> mutators st' !! x = mutators st !! x.
Proof.
  induction 1 as [seen r|seen m k Hm Hseen Hk IH]; intros st Hnd Hp Hf.
  - exists st, r, []. rewrite !app_nil_r. repeat split; auto. intros x Hx. elems.
  - assert (Hst : mutators st !! m = mutators s !! m) by (apply Hf; assumption).
    destruct Hm as (p & sg & Hlook & Htp & Htsg).
    destruct (Htp (world st)) as (w1 & r1 & Hcb).
    rewrite <- Hst in Hlook.
    destruct (perform_user_run fuel st m PassUndefined p sg w1 r1 Hlook Hcb)
      as (s1 & Hrun1 & Hw1 & Hcalls1 & Hm1 & _ & Hframe1).
    destruct (IH r1 s1) as (st' & r & L & Hrun & Hasked & Hcalls & HndL & HpL & HuL & HframeL).
    { apply NoDup_app. split; [exact Hnd|]. split; [|apply NoDup_singleton].
      intros x Hx. rewrite list_elem_of_singleton. congruence. }
    { intros x. rewrite elem_of_app, list_elem_of_singleton. intros [Hx| ->].
      - eapply userAt_agree; [|apply Hp, Hx]. apply Hframe1. congruence.
      - exists p, sg. auto. }
    { intros x Hx Hxs. rewrite elem_of_app, list_elem_of_singleton in Hx.
      rewrite Hframe1 by tauto. apply Hf; tauto. }
    exists st', r, (m :: L). rewrite <- app_assoc in *. simpl in HndL, HpL, HframeL, Hrun.
    split; [eapply exec_bind; [exact Hrun1|exact Hrun]|].
    split.
    { cbn [asked]. rewrite <- Hst, Hlook. cbn [fmap option_fmap option_map callbacks].
      rewrite Hcb, <- Hw1, Hasked. reflexivity. }
    split; [rewrite Hcalls, Hcalls1, <- app_assoc; reflexivity|].
    split; [exact HndL|]. split; [exact HpL|].
    split.
    { intros x. rewrite elem_of_cons. intros [->|Hx]; [|apply HuL, Hx].
      exists p, sg. rewrite <- Hst. auto. }
    intros x Hx. rewrite HframeL by exact Hx. apply Hframe1.
    intros ->. apply Hx. elems.
Qed.

(** X16. [chain(obtain)]: when [obtain] hands fresh user mutators to
    [add], none of them twice, committing the chain returns what
    [obtain] returns; the perform callbacks run as [obtain] asks for
    them, each [add(m)] being answered with what the perform callback
    of [m] returns ([L] and [r] are what [asked] computes from
    [obtain]); and once [obtain] has returned, the signal callbacks of
    exactly those mutators run, in the order in which they were
    performed. *)
Theorem chain_signals_what_it_performed s (obtain : script R) (fuel : nat) :
  adds s [] obtain ->
  let c := length (mutators s) in
  exists s1 s2 r L w,
    chain obtain s = (s1, Ok c)
    /\ asked s obtain (world s) = Some (L, r, w)
    /\ commit (S fuel) c s1 = (s2, Ok r)
    /\ calls s2 = calls s ++ performs L ++ signals L
    /\ NoDup L
    /\ forall m, m ∈ L -> consumed s2 m.
Proof.
  intros Hadds c.
  set (oc := {| performed := false; signaled := false; passed := PassUndefined;
                callbacks := ScriptCode obtain |} : mutator W R).
  set (s1 := with_mutators (fun ms => ms ++ [oc]) s).
  assert (Hc1 : mutators s1 !! c = Some oc).
  { unfold s1, c. simpl. apply list_lookup_middle. reflexivity. }
  set (sA := setMutator c (with_performed true) s1).
  destruct (runScript_asked fuel s obtain [] Hadds sA)
    as (s3 & r & L & Hrun3 & Hasked & Hcalls3 & Hnd & HL & HuL & Hframe3).
  { constructor. }
  { intros x Hx. elems. }
  { intros x _ Hx.
    destruct Hx as (p & sg & Hx & _).
    unfold sA. rewrite lookup_setMutator_ne by (apply lookup_lt_Some in Hx; unfold c; lia).
    rewrite Hx. apply lookup_newMutator, Hx. }
  simpl in Hrun3, Hnd, HL, Hframe3.
  set (s4 := setMutator c (with_signaled true) s3).
  destruct (forEach_signal fuel L s4 Hnd) as (s5 & Hrun5 & Hcalls5 & HL5 & Hframe5).
  { intros x Hx. eapply userAt_agree; [|apply HL, Hx].
    unfold s4. apply lookup_setMutator_ne. intros ->.
    destruct (HuL _ Hx) as (p & sg & Hxs & _).
    apply lookup_lt_Some in Hxs. unfold c in Hxs. lia. }
  exists s1, s5, r, L, (world s3). split; [reflexivity|]. split; [exact Hasked|]. split.
  { unfold commit, commitBody.
    eapply exec_bind; [apply getMutator_lookup, Hc1|]. cbn [oc performed signaled when].
    eapply exec_bind; [reflexivity|].
    eapply exec_bind; [reflexivity|].
    eapply exec_bind; [reflexivity|]. cbn [callbacks performCB].
    eapply exec_bind; [exact Hrun3|].
    cbn [fst snd]. eapply exec_bind; [reflexivity|]. cbn [signalCB].
    eapply exec_bind; [exact Hrun5|]. reflexivity. }
  split.
  { rewrite Hcalls5. unfold s4. cbn [calls setMutator with_mutators]. rewrite Hcalls3.
    unfold sA. cbn [calls setMutator with_mutators]. rewrite <- app_assoc. reflexivity. }
  split; [exact Hnd|]. intros m Hm. apply userAt_consumed, HL5, Hm.
Qed.
End MutatorGraphFacts.

Lemma scenario_fresh m : m ∈ [0; 1] -> MutatorGraph.freshUser MutatorScenario.two m.
Proof.
  intros Hm. exists MutatorScenario.bump, MutatorScenario.note.
  split; [|split; intros w; eexists _, _; reflexivity].
  apply elem_of_cons in Hm as [->|Hm]; [reflexivity|].
  apply list_elem_of_singleton in Hm as ->. reflexivity.
Qed.

Lemma all_performs_then_signals_witness :
  exists s1 top s2 r,
    MutatorGraph.all 0 [0; 1] MutatorScenario.two = (s1, Ok top)
    /\ MutatorGraph.world s1 = 0 /\ MutatorGraph.calls s1 = []
    /\ MutatorGraph.commit 2 top s1 = (s2, Ok r)
    /\ MutatorGraph.calls s2
       = [(0, Mutator.PerformCB); (1, Mutator.PerformCB);
          (0, Mutator.SignalCB); (1, Mutator.SignalCB)]
    /\ forall m, m ∈ [0; 1] -> MutatorGraph.consumed s2 m.
Proof.
  apply (all_performs_then_signals 0 [0; 1] MutatorScenario.two 2).
  - discriminate.
  - apply NoDup_cons. split; [intros H; elems|apply NoDup_singleton].
  - exact scenario_fresh.
  - simpl. lia.
Defined.

Lemma chain_performs_both_before_signalling_witness :
  exists s1 s2,
    MutatorGraph.chainMethod 0
      (MutatorGraph.NextFunction
         (fun _ => MutatorGraph.Created MutatorScenario.bump MutatorScenario.note))
      MutatorScenario.two = (s1, Ok 2)
    /\ MutatorGraph.commit 1 2 s1 = (s2, Ok 1)
    /\ MutatorGraph.world s2 = 22
    /\ MutatorGraph.calls s2
       = [(0, Mutator.PerformCB); (3, Mutator.PerformCB);
          (0, Mutator.SignalCB); (3, Mutator.SignalCB)]
    /\ MutatorGraph.consumed s2 0 /\ MutatorGraph.consumed s2 3.
Proof.
  exact (chain_performs_both_before_signalling MutatorScenario.two 0
           (fun _ => MutatorGraph.Created MutatorScenario.bump MutatorScenario.note)
           MutatorScenario.bump MutatorScenario.bump MutatorScenario.note MutatorScenario.note
           1 2 12 22 0 1 0 eq_refl eq_refl eq_refl eq_refl eq_refl eq_refl).
Defined.

Lemma chain_failure_leaves_first_unsignalled_witness :
  exists s1 s2,
    MutatorGraph.chainMethod 0 (MutatorGraph.NextMutator 0) MutatorScenario.two = (s1, Ok 2)
    /\ MutatorGraph.commit 1 2 s1 = (s2, Throw PerformedOnce)
    /\ MutatorGraph.world s2 = 1
    /\ MutatorGraph.calls s2 = [(0, Mutator.PerformCB)]
    /\ MutatorGraph.mutators s2 !! 0
       = Some {| MutatorGraph.performed := true; MutatorGraph.signaled := false;
                 MutatorGraph.passed := MutatorGraph.PassUndefined;
                 MutatorGraph.callbacks :=
                   MutatorGraph.UserCode MutatorScenario.bump MutatorScenario.note |}
    /\ MutatorGraph.commit 1 2 s2 = (s2, Throw PerformedOnce)
    /\ MutatorGraph.commit 1 0 s2 = (s2, Throw PerformedOnce).
Proof.
  exact (chain_failure_leaves_first_unsignalled MutatorScenario.two 0 0
           MutatorScenario.bump MutatorScenario.note 1 0 0 eq_refl eq_refl
           (or_introl eq_refl)).
Defined.

Lemma map_commit_maps_the_result_witness :
  exists s1 s2,
    MutatorGraph.mapMethod 0 (fun r => r + 5) MutatorScenario.two = (s1, Ok 2)
    /\ MutatorGraph.commit 1 2 s1 = (s2, Ok 5)
    /\ MutatorGraph.world s2 = 11
    /\ MutatorGraph.calls s2 = [(0, Mutator.PerformCB); (0, Mutator.SignalCB)]
    /\ MutatorGraph.commit 1 2 s2 = (s2, Throw PerformedOnce)
    /\ MutatorGraph.commit 1 0 s2 = (s2, Throw PerformedOnce).
Proof.
  exact (map_commit_maps_the_result MutatorScenario.two 0 (fun r => r + 5)
           MutatorScenario.bump MutatorScenario.note 1 11 0 0 eq_refl eq_refl eq_refl).
Defined.

Lemma chain_signals_what_it_performed_witness :
  exists s1 s2,
    MutatorGraph.chain MutatorScenario.both MutatorScenario.two = (s1, Ok 2)
    /\ MutatorGraph.asked MutatorScenario.two MutatorScenario.both 0 = Some ([1; 0], 1, 2)
    /\ MutatorGraph.commit 1 2 s1 = (s2, Ok 1)
    /\ MutatorGraph.calls s2
       = [(1, Mutator.PerformCB); (0, Mutator.PerformCB);
          (1, Mutator.SignalCB); (0, Mutator.SignalCB)]
    /\ forall m, m ∈ [1; 0] -> MutatorGraph.consumed s2 m.
Proof.
  destruct (chain_signals_what_it_performed MutatorScenario.two MutatorScenario.both 0)
    as (s1 & s2 & r & L & w & Hchain & Hasked & Hcommit & Hcalls & _ & Hconsumed).
  { apply MutatorGraph.adds_add; [apply scenario_fresh; elems|intros H; elems|intros r].
    apply MutatorGraph.adds_add; [apply scenario_fresh; elems|intros H; elems|intros r'].
    apply MutatorGraph.adds_done. }
  vm_compute in Hasked. injection Hasked as <- <- <-.
  exists s1, s2. split; [exact Hchain|]. split; [reflexivity|].
  split; [exact Hcommit|]. split; [exact Hcalls|exact Hconsumed].
Defined.

(** ** Registrations *)

Lemma forEach_register w rs : forall h o,
  objects h !! w = Some o ->
  forEach rs (register w) h = (store w (registered rs o) h, Ok tt).
Proof.
  induction rs as [|r rs IH]; intros h o Ho.
  - simpl. rewrite store_same by exact Ho. reflexivity.
  - assert (Hstep : exists f, register w r h = (store w (f o) h, Ok tt)
                              /\ registered (r :: rs) o = registered rs (f o)).
    { destruct r; eexists; (split; [apply update_lookup, Ho|reflexivity]). }
    destruct Hstep as (f & Hrun & ->).
    simpl. eapply exec_bind; [exact Hrun|].
    rewrite (IH (store w (f o) h) (f o)) by (eapply lookup_store_eq, Ho).
    rewrite store_store. reflexivity.
Qed.

Lemma has_add l l' (s : IterableWeakSet.t) :
  IterableWeakSet.has (IterableWeakSet.add l s) l'
  = if decide (l = l') then true else IterableWeakSet.has s l'.
Proof.
  apply eq_true_iff_eq. rewrite has_true, elem_of_add.
  destruct (decide (l = l')) as [->|Hne]; [tauto|].
  rewrite has_true. intuition congruence.
Qed.

Lemma has_delete l l' (s : IterableWeakSet.t) :
  IterableWeakSet.has (IterableWeakSet.delete l s) l'
  = if decide (l = l') then false else IterableWeakSet.has s l'.
Proof.
  apply eq_true_iff_eq. rewrite has_true, elem_of_delete_iff.
  destruct (decide (l = l')) as [->|Hne]; [intuition congruence|].
  rewrite has_true. intuition congruence.
Qed.

Lemma length_add l (s : IterableWeakSet.t) :
  length (IterableWeakSet.add l s) <= S (length s).
Proof.
  unfold IterableWeakSet.add. destruct (IterableWeakSet.has s l); [lia|].
  rewrite length_app. simpl. lia.
Qed.

Lemma mocks_add n (s : IterableWeakSet.t) :
  Forall isMock (IterableWeakSet.values s) ->
  Forall isMock (IterableWeakSet.values (IterableWeakSet.add (UserListener n []) s)).
Proof.
  intros H. rewrite values_add. destruct (IterableWeakSet.has s _); [exact H|].
  apply Forall_app. split; [exact H|]. constructor; [eexists; reflexivity|constructor].
Qed.

Lemma mocks_delete l (s : IterableWeakSet.t) :
  Forall isMock (IterableWeakSet.values s) ->
  Forall isMock (IterableWeakSet.values (IterableWeakSet.delete l s)).
Proof.
  intros H. rewrite values_delete. rewrite Forall_forall in *.
  intros x Hx. apply list_elem_of_filter in Hx. apply H. tauto.
Qed.

Lemma NoDup_add l (s : IterableWeakSet.t) :
  NoDup (IterableWeakSet.values s) -> NoDup (IterableWeakSet.values (IterableWeakSet.add l s)).
Proof.
  intros H. rewrite values_add. destruct (IterableWeakSet.has s l) eqn:Hh; [exact H|].
  apply NoDup_app. split; [exact H|]. split; [|apply NoDup_singleton].
  intros x Hx. rewrite list_elem_of_singleton. intros ->.
  apply values_elem, has_true in Hx. congruence.
Qed.

Lemma NoDup_delete l (s : IterableWeakSet.t) :
  NoDup (IterableWeakSet.values s) -> NoDup (IterableWeakSet.values (IterableWeakSet.delete l s)).
Proof. intros H. rewrite values_delete. apply NoDup_filter, H. Qed.

(** What the registrations leave of an object. *)
Lemma registered_spec rs : forall o,
  mockListeners o ->
  NoDup (IterableWeakSet.values (dirtyListeners o)) ->
  NoDup (IterableWeakSet.values (changeListeners o)) ->
  let o' := registered rs o in
  cls o' = cls o /\ dirty o' = dirty o /\ value o' = value o /\ signaled o' = signaled o
  /\ mockListeners o'
  /\ NoDup (IterableWeakSet.values (dirtyListeners o'))
  /\ NoDup (IterableWeakSet.values (changeListeners o'))
  /\ length (dirtyListeners o') + length (changeListeners o')
     <= length (dirtyListeners o) + length (changeListeners o) + length rs
  /\ forall n,
       IterableWeakSet.has (dirtyListeners o') (UserListener n [])
       = listensDirty n (IterableWeakSet.has (dirtyListeners o) (UserListener n [])) rs
       /\ IterableWeakSet.has (changeListeners o') (UserListener n [])
          = listensChange n (IterableWeakSet.has (changeListeners o) (UserListener n [])) rs.
Proof.
  induction rs as [|r rs IH]; intros o Hm Hd Hc.
  - simpl. repeat split; try tauto; try lia. apply Hm. apply Hm.
  - destruct Hm as [Hmd Hmc].
    set (f := fun o => match r with
           | OnDirty n => with_dirtyListeners (IterableWeakSet.add (UserListener n [])) o
           | RemoveDirty n => with_dirtyListeners (IterableWeakSet.delete (UserListener n [])) o
           | OnChange n => with_changeListeners (IterableWeakSet.add (UserListener n [])) o
           | RemoveChange n => with_changeListeners (IterableWeakSet.delete (UserListener n [])) o
           end).
    change (registered (r :: rs) o) with (registered rs (f o)).
    destruct (IH (f o)) as (H1 & H2 & H3 & H4 & H5 & H6 & H7 & H8 & H9).
    { unfold f. destruct r; split; simpl;
        auto using mocks_add, mocks_delete. }
    { unfold f. destruct r; simpl; auto using NoDup_add, NoDup_delete. }
    { unfold f. destruct r; simpl; auto using NoDup_add, NoDup_delete. }
    cbv zeta. rewrite H1, H2, H3, H4.
    split; [unfold f; destruct r; reflexivity|].
    split; [unfold f; destruct r; reflexivity|].
    split; [unfold f; destruct r; reflexivity|].
    split; [unfold f; destruct r; reflexivity|].
    split; [exact H5|]. split; [exact H6|]. split; [exact H7|]. split.
    + etransitivity; [exact H8|]. unfold f. destruct r; simpl;
        rewrite ?length_delete;
        try (pose proof (length_add (UserListener n []) (dirtyListeners o)));
        try (pose proof (length_add (UserListener n []) (changeListeners o))); lia.
    + intros n. destruct (H9 n) as [-> ->]. unfold f.
      destruct r as [m|m|m|m]; simpl; rewrite ?has_add, ?has_delete;
        split; try reflexivity;
        destruct (decide (m = n)) as [->|Hne];
        try (rewrite decide_True by reflexivity; reflexivity);
        rewrite decide_False by congruence; reflexivity.
Qed.

Lemma countCalls_mocks n ls :
  Forall isMock ls -> NoDup ls ->
  countCalls n (ls ≫= recordedBy) = Nat.b2n (bool_decide (UserListener n [] ∈ ls)).
Proof.
  induction 1 as [|l ls [k ->] Hls IH]; intros Hnd.
  - reflexivity.
  - apply NoDup_cons in Hnd as [Hk Hnd].
    change ((UserListener k [] :: ls) ≫= recordedBy)
      with ([Called k] ++ (ls ≫= recordedBy)).
    rewrite countCalls_app, (IH Hnd).
    destruct (decide (k = n)) as [->|Hne].
    + rewrite (bool_decide_eq_false_2 _ Hk).
      rewrite bool_decide_eq_true_2 by (apply elem_of_cons; left; reflexivity).
      unfold countCalls. rewrite filter_cons_True by reflexivity. reflexivity.
    + unfold countCalls at 1. rewrite filter_cons_False by congruence. simpl.
      f_equal. apply bool_decide_ext. rewrite elem_of_cons. intuition congruence.
Qed.

Lemma countCalls_calls n (s : IterableWeakSet.t) :
  Forall isMock (IterableWeakSet.values s) ->
  NoDup (IterableWeakSet.values s) ->
  countCalls n (calls s) = Nat.b2n (IterableWeakSet.has s (UserListener n [])).
Proof.
  intros Hm Hnd. unfold calls. rewrite countCalls_mocks by assumption.
  f_equal. apply bool_decide_ext, values_elem.
Qed.

(** X17. Who is called: after any registrations and removals of
    recording listeners on a plain field that is not dirty, committing
    a value its equality tells from the current one calls every
    listener once for each of the two events it is registered for at
    that moment, and calls no other listener; registering a listener
    twice does not have it called twice. *)
Theorem registrations_decide_who_is_called
    (fuel : nat) (h : heap) (w : nat) (o : object) (eq : jsval -> jsval -> bool)
    (v : jsval) (rs : list registration) :
  objects h !! w = Some o ->
  cls o = PlainFieldClass eq ->
  mockListeners o ->
  NoDup (IterableWeakSet.values (dirtyListeners o)) ->
  NoDup (IterableWeakSet.values (changeListeners o)) ->
  dirty o = false ->
  eq (value o) v = false ->
  length (dirtyListeners o) + length (changeListeners o) + length rs + 2 <= fuel ->
  exists h',
    (forEach rs (register w);; setPlain fuel w v) h = (h', Ok tt)
    /\ forall n,
         callsOf n h'
         = callsOf n h
           + Nat.b2n (listensDirty n (IterableWeakSet.has (dirtyListeners o) (UserListener n [])) rs)
           + Nat.b2n (listensChange n (IterableWeakSet.has (changeListeners o) (UserListener n [])) rs).
Proof.
  intros Ho Hcls Hm Hnd Hnc Hd Heq Hfuel.
  destruct (registered_spec rs o Hm Hnd Hnc) as (H1 & H2 & H3 & H4 & H5 & H6 & H7 & H8 & H9).
  set (o' := registered rs o) in *.
  eexists. split.
  - eapply exec_bind; [apply forEach_register, Ho|].
    apply (setPlain_mocks fuel _ w o' eq v).
    + eapply lookup_store_eq, Ho.
    + congruence.
    + exact H5.
    + lia.
  - intros n. destruct (H9 n) as [<- <-].
    unfold callsOf. simpl log.
    unfold commitPlain, performPlain. rewrite H3, Heq, H2, Hd. simpl.
    rewrite !filter_app, !length_app.
    fold (countCalls n (calls (dirtyListeners o'))).
    fold (countCalls n (calls (changeListeners o'))).
    rewrite !countCalls_calls by (apply H5 || assumption). lia.
Qed.

(** ** Caching *)

(** A watchable that is not dirty answers [get] from its cache. *)
Lemma get_clean n h w o :
  objects h !! w = Some o -> dirty o = false -> callingDirtyListeners o = false ->
  run (S n) (CallGet w) h = (h, Ok (value o)).
Proof.
  intros Ho Hd Hc. simpl. unfold get.
  eapply exec_bind; [apply getObject_lookup, Ho|].
  assert (Hcheck : ListenerManager.checkNotDispatchingDirty w h = (h, Ok tt)).
  { unfold ListenerManager.checkNotDispatchingDirty.
    eapply exec_bind; [apply getObject_lookup, Ho|]. rewrite Hc. reflexivity. }
  assert (Hsame : update w (with_dirty false) h = (h, Ok tt)).
  { rewrite (update_lookup _ _ _ _ Ho).
    assert (with_dirty false o = o) as ->.
    { clear Ho Hcheck. destruct o. simpl in Hd. subst. reflexivity. }
    rewrite store_same by exact Ho. reflexivity. }
  destruct (cls o).
  - unfold PlainField.get.
    eapply exec_bind; [exact Hcheck|]. eapply exec_bind; [exact Hsame|].
    eapply exec_bind; [apply getObject_lookup, Ho|]. reflexivity.
  - unfold Derived.get.
    eapply exec_bind; [exact Hcheck|].
    eapply exec_bind.
    { unfold Derived.updateValueIfNecessary.
      eapply exec_bind; [apply getObject_lookup, Ho|]. rewrite Hd. reflexivity. }
    eapply exec_bind; [apply getObject_lookup, Ho|]. reflexivity.
  - unfold Signal.get.
    eapply exec_bind; [exact Hcheck|]. eapply exec_bind; [exact Hsame|].
    eapply exec_bind; [apply getObject_lookup, Ho|]. reflexivity.
Qed.

Section Caching.
Variable V : jsval -> Prop.
Hypothesis V_inj : forall a b, V a -> V b -> looseNeq a b = false -> a = b.

(** X18. Caching: in the graphs a client of fields and derived values
    builds, a [get] that follows a [get] returns the same value and
    changes nothing: no compute function runs, no dependency is read,
    no listener is registered or removed. *)
Theorem second_get_changes_nothing fuel h w :
  ClientProgram.reachable V fuel h -> w < length (objects h) -> S w <= fuel ->
  exists h1 v,
    read fuel w h = (h1, Ok v) /\ read fuel w h1 = (h1, Ok v).
Proof.
  intros Hr Hw Hfuel. pose proof (reachable_wellFormed V V_inj fuel h Hr) as Hwf.
  destruct (get_spec V V_inj w fuel Hfuel h Hw (wellFormed_static V h Hwf))
    as (h1 & Hrun1 & Hb & Hm & Ha & (o1 & Ho1 & Hd1)).
  { intros y o _ Ho. apply (Hwf _ _ Ho). }
  destruct (read_wellFormed V V_inj h w fuel Hwf Hw Hfuel) as (h1' & Hrun1' & Hwf1 & Hm1).
  unfold read in *. rewrite Hrun1 in Hrun1'. injection Hrun1' as <-.
  destruct (read_wellFormed V V_inj h1 w fuel Hwf1) as (h2 & Hrun2 & _);
    [destruct Hm1 as [[-> _] _]; exact Hw|exact Hfuel|].
  unfold read in Hrun2.
  destruct fuel as [|n]; [lia|].
  assert (Hclean : run (S n) (CallGet w) h1 = (h1, Ok (value o1))).
  { apply get_clean; [exact Ho1|exact Hd1|]. apply (Hwf1 _ _ Ho1). }
  exists h1, (truth h w). split; [exact Hrun1|].
  rewrite Hclean in Hrun2. injection Hrun2 as _ Hv.
  rewrite Hclean, Hv, (truth_skeleton h h1) by apply Hm1. reflexivity.
Qed.
End Caching.

Lemma second_get_changes_nothing_witness :
  exists h1 v,
    read Scenario.fuel 2
      (ClientProgram.runProgram Scenario.fuel Scenario.numbered emptyHeap) = (h1, Ok v)
    /\ read Scenario.fuel 2 h1 = (h1, Ok v).
Proof.
  apply (second_get_changes_nothing isNumber isNumber_strict).
  - exact numbered_reachable.
  - vm_compute. lia.
  - vm_compute. lia.
Defined.

Lemma registrations_decide_who_is_called_witness :
  exists h',
    (forEach [OnDirty 3; OnDirty 3; RemoveDirty 1; OnChange 3; RemoveChange 3]
             (register 0);;
     setPlain Scenario.fuel 0 (VNum 1)) (Scenario.after Scenario.readField) = (h', Ok tt)
    /\ forall n,
         callsOf n h'
         = callsOf n (Scenario.after Scenario.readField)
           + Nat.b2n (listensDirty n
                        (IterableWeakSet.has [Some Scenario.onDirtyMock] (UserListener n []))
                        [OnDirty 3; OnDirty 3; RemoveDirty 1; OnChange 3; RemoveChange 3])
           + Nat.b2n (listensChange n
                        (IterableWeakSet.has [Some Scenario.onChangeMock] (UserListener n []))
                        [OnDirty 3; OnDirty 3; RemoveDirty 1; OnChange 3; RemoveChange 3]).
Proof.
  refine (registrations_decide_who_is_called Scenario.fuel
            (Scenario.after Scenario.readField) 0
            {| dirtyListeners := [Some Scenario.onDirtyMock];
               changeListeners := [Some Scenario.onChangeMock];
               callingDirtyListeners := false; callingChangeListeners := false;
               dirty := false; signaled := false; value := VNum 0;
               cls := PlainFieldClass PlainField.defaultEquals |}
            PlainField.defaultEquals (VNum 1)
            [OnDirty 3; OnDirty 3; RemoveDirty 1; OnChange 3; RemoveChange 3]
            eq_refl eq_refl _ _ _ eq_refl eq_refl _).
  - split; repeat constructor; eexists; reflexivity.
  - apply NoDup_singleton.
  - apply NoDup_singleton.
  - vm_compute. lia.
Defined.

(** ** Observer *)

Lemma has_reader_mocks (s : IterableWeakSet.t) n w rs :
  Forall isMock (IterableWeakSet.values s) ->
  IterableWeakSet.has s (UserListener n (w :: rs)) = false.
Proof.
  intros Hm. apply not_true_is_false. rewrite has_true, <- values_elem. intros Hin.
  rewrite Forall_forall in Hm. destruct (Hm _ Hin) as [k Hk]. discriminate Hk.
Qed.

(** A listener that reads the plain field it listens to. *)
Lemma run_reader fuel n w h o :
  objects h !! w = Some o ->
  (exists eq, cls o = PlainFieldClass eq) ->
  callingDirtyListeners o = false ->
  run (S (S fuel)) (CallListener (UserListener n [w])) h
  = (with_log (fun l => l ++ [Called n; ReadValue n w (value o)])
       (store w (with_dirty false o) h), Ok VUndefined).
Proof.
  intros Ho Hcls Hc.
  change (run (S (S fuel)) (CallListener (UserListener n [w])))
    with (invokeListener (run (S fuel)) (UserListener n [w]) ≫= fun _ => mret VUndefined).
  eapply exec_bind; [|reflexivity]. unfold invokeListener.
  eapply exec_bind; [reflexivity|]. simpl forEach.
  eapply exec_bind; [|reflexivity].
  eapply exec_bind.
  { apply (read_plain_own_flag fuel _ w o); [exact Ho|right; exact Hcls|exact Hc]. }
  unfold record, modify. f_equal. unfold with_log, store, with_objects. simpl.
  rewrite <- app_assoc. reflexivity.
Qed.

Lemma loopChange_observed w o n CL :
  changeListeners o = CL ++ [Some (UserListener n [w])] ->
  Forall isMock (IterableWeakSet.values CL) ->
  (exists eq, cls o = PlainFieldClass eq) ->
  callingDirtyListeners o = false ->
  forall k i fuel h,
    objects h !! w = Some o ->
    length CL - i <= k -> i <= length CL -> k + 4 <= fuel ->
    run fuel (LoopChange w i) h
    = (with_log (fun l => l ++ (IterableWeakSet.values (drop i CL) ≫= recordedBy)
                            ++ [Called n; ReadValue n w (value o)])
         (store w (with_dirty false o) h), Ok VUndefined).
Proof.
  intros HCL Hm Hcls Hc. unfold IterableWeakSet.values in *.
  induction k as [|k IH]; intros i fuel h Ho Hlen Hi Hfuel.
  - assert (i = length CL) as -> by lia.
    destruct fuel as [|[|[|fuel]]]; try lia.
    change (run (S (S (S fuel))) (LoopChange w (length CL)))
      with (ListenerManager.loopChange (run (S (S fuel))) w (length CL)).
    unfold ListenerManager.loopChange.
    eapply exec_bind; [apply getObject_lookup, Ho|].
    rewrite HCL, list_lookup_middle by reflexivity.
    eapply exec_bind; [apply (run_reader fuel n w h o Ho Hcls Hc)|].
    change (run (S (S fuel)) (LoopChange w (S (length CL))))
      with (ListenerManager.loopChange (run (S fuel)) w (S (length CL))).
    unfold ListenerManager.loopChange.
    eapply exec_bind; [apply getObject_lookup; solve_lookup|].
    cbn [changeListeners with_dirty]. rewrite HCL.
    rewrite lookup_ge_None_2 by (rewrite length_app; simpl; lia).
    rewrite drop_ge by lia. reflexivity.
  - destruct (decide (i = length CL)) as [->|Hne]; [apply (IH (length CL)); auto; lia|].
    destruct fuel as [|fuel]; [lia|].
    change (run (S fuel) (LoopChange w i)) with (ListenerManager.loopChange (run fuel) w i).
    unfold ListenerManager.loopChange.
    eapply exec_bind; [apply getObject_lookup, Ho|].
    destruct (lookup_lt_is_Some_2 CL i ltac:(lia)) as [e He].
    rewrite HCL, (lookup_app_l_Some _ _ _ _ He).
    rewrite (drop_S _ _ _ He) in *.
    destruct e as [l|].
    + simpl in Hm. 
      assert (Hl : isMock l).
      { rewrite Forall_forall in Hm. apply Hm.
        apply list_elem_of_omap. exists (Some l). split; [|reflexivity].
        eapply list_elem_of_lookup_2, He. }
      destruct Hl as [m ->].
      destruct fuel as [|fuel]; [lia|].
      eapply exec_bind; [apply run_mock|].
      rewrite (IH (S i) (S fuel)); [|exact Ho|lia|lia|lia].
      f_equal. unfold with_log, store, with_objects. simpl. rewrite <- !app_assoc. reflexivity.
    + rewrite (IH (S i) fuel); [|exact Ho|lia|lia|lia]. reflexivity.
Qed.

Lemma calls_calledOnly (s : IterableWeakSet.t) :
  Forall (fun e => exists n, e = Called n) (calls s).
Proof.
  unfold calls. induction (IterableWeakSet.values s) as [|l ls IH]; [constructor|].
  change ((l :: ls) ≫= recordedBy) with (recordedBy l ++ (ls ≫= recordedBy)).
  apply Forall_app. split; [|exact IH].
  destruct l as [| |n [|]]; simpl; repeat constructor. eexists; reflexivity.
Qed.

Lemma replay_calledOnly es es' ob :
  Forall (fun e => exists n, e = Called n) es ->
  Observer.replay (es ++ es') ob = Observer.replay es' ob.
Proof.
  induction 1 as [|e es [n ->] _ IH]; [reflexivity|]. simpl. exact IH.
Qed.

Lemma replay_read ob x :
  Observer.replay [Called (Observer.self ob); ReadValue (Observer.self ob) (Observer.source ob) x] ob
  = Observer.change x ob.
Proof.
  simpl. rewrite !Nat.eqb_refl. simpl.
  destruct (Observer.change x ob) as [o1 ns1]. rewrite app_nil_r. reflexivity.
Qed.

Lemma setPlain_observed fuel h f o n CL v :
  objects h !! f = Some o ->
  Observer.observedBy n f CL o ->
  length (dirtyListeners o) + length CL + 5 <= fuel ->
  exists h' o' es,
    setPlain fuel f v h = (h', Ok tt)
    /\ objects h' !! f = Some o'
    /\ Observer.observedBy n f CL o'
    /\ dirtyListeners o' = dirtyListeners o
    /\ log h' = log h ++ es
    /\ value o' = (if looseEq (value o) v then value o else v)
    /\ forall ob, Observer.self ob = n -> Observer.source ob = f ->
         Observer.replay es ob
         = if looseEq (value o) v
           then (if signaled o then (ob, []) else Observer.change (value o) ob)
           else Observer.change v ob.
Proof.
  intros Ho (Hcls & Hdl & HCL & Hcl & Hd & Hc) Hfuel.
  assert (Hbroadcast : forall h1 o1,
    objects h1 !! f = Some o1 -> cls o1 = cls o -> changeListeners o1 = changeListeners o ->
    callingDirtyListeners o1 = false -> signaled o1 = false ->
    ListenerManager.callChangeListeners (run fuel) f h1
    = (with_log (fun l => l ++ calls CL ++ [Called n; ReadValue n f (value o1)])
         (store f (with_callingChangeListeners false
                     (with_dirty false (with_callingChangeListeners true
                                          (with_signaled true o1)))) h1), Ok tt)).
  { intros h1 o1 Ho1 Hcls1 HCL1 Hc1 Hs1. unfold ListenerManager.callChangeListeners.
    exec. rewrite Hs1. exec. exec.
    eapply exec_bind.
    { eapply (loopChange_observed f
                (with_callingChangeListeners true (with_signaled true o1)) n CL)
        with (k := length CL) (i := 0).
      - simpl. rewrite HCL1. exact HCL.
      - exact Hcl.
      - exists PlainField.defaultEquals. simpl. congruence.
      - exact Hc1.
      - solve_lookup.
      - lia.
      - lia.
      - lia. }
    rewrite drop_0. erewrite update_lookup by solve_lookup.
    f_equal. unfold store, with_objects, with_log. simpl. f_equal.
    rewrite !list_insert_insert_eq. reflexivity. }
  unfold setPlain. destruct (looseEq (value o) v) eqn:Heq.
  - destruct (signaled o) eqn:Hs.
    + exists h, o, []. split.
      { eapply commit_new.
        - simpl. unfold PlainField.set_perform.
          eapply exec_bind; [exec; rewrite Hcls; unfold PlainField.defaultEquals; rewrite Heq;
                             reflexivity|reflexivity].
        - simpl. unfold PlainField.set_signal, ListenerManager.callChangeListeners.
          exec. rewrite Hs. reflexivity. }
      split; [exact Ho|]. split; [repeat split; assumption|]. split; [reflexivity|].
      split; [rewrite app_nil_r; reflexivity|]. split; [reflexivity|]. reflexivity.
    + eexists _, _, _. split.
      { eapply commit_new.
        - simpl. unfold PlainField.set_perform.
          eapply exec_bind; [exec; rewrite Hcls; unfold PlainField.defaultEquals; rewrite Heq;
                             reflexivity|reflexivity].
        - simpl. unfold PlainField.set_signal.
          apply (Hbroadcast h o Ho eq_refl eq_refl Hc Hs). }
      split; [solve_lookup|]. split; [repeat split; assumption|]. split; [reflexivity|].
      split; [reflexivity|]. split; [reflexivity|].
      intros ob <- <-. rewrite replay_calledOnly by apply calls_calledOnly.
      apply replay_read.
  - eexists _, _, _. split.
    { eapply commit_new.
      - simpl. unfold PlainField.set_perform.
        eapply exec_bind; [|reflexivity].
        exec. rewrite Hcls. unfold PlainField.defaultEquals. rewrite Heq.
        eapply exec_bind.
        { apply (callDirtyListeners_mocks fuel h f o Ho Hdl). lia. }
        rewrite Hd. solve_run.
      - simpl. unfold PlainField.set_signal.
        eapply Hbroadcast; [solve_lookup|reflexivity|reflexivity|reflexivity|reflexivity]. }
    split; [solve_lookup|]. split; [repeat split; assumption|]. split; [reflexivity|].
    split; [simpl; rewrite <- app_assoc; reflexivity|]. split; [reflexivity|].
    intros ob <- <-.
    rewrite replay_calledOnly by apply calls_calledOnly.
    rewrite replay_calledOnly by apply calls_calledOnly.
    apply replay_read.
Qed.

Lemma looseEq_left_refl a b : looseEq a b = true -> looseEq a a = true.
Proof.
  intros H. apply looseEq_refl. intros ->. destruct b; discriminate H.
Qed.

Lemma commitObserved_step fuel h h' v ob ns es :
  setPlain fuel (Observer.source ob) v h = (h', Ok tt) ->
  log h' = log h ++ es ->
  Observer.commitObserved fuel v (ob, ns) h
  = (h', Ok (fst (Observer.replay es ob), ns ++ snd (Observer.replay es ob))).
Proof.
  intros Hrun Hlog. unfold Observer.commitObserved. simpl fst. simpl snd.
  rewrite Hrun, Hlog, drop_app_length.
  destruct (Observer.replay es ob). reflexivity.
Qed.

Lemma commitsObserved_spec fuel n f l CL : forall vs h o ob ns,
  objects h !! f = Some o ->
  Observer.observedBy n f CL o ->
  length (dirtyListeners o) + length CL + 5 <= fuel ->
  Observer.self ob = n -> Observer.source ob = f ->
  Observer.listeners ob = [l] ->
  Observer.previous ob = value o ->
  exists h' o' ob',
    Observer.commitsObserved fuel vs (ob, ns) h
    = (h', Ok (ob', ns ++ Observer.changes l (value o) vs))
    /\ objects h' !! f = Some o'
    /\ Observer.observedBy n f CL o'
    /\ dirtyListeners o' = dirtyListeners o
    /\ Observer.self ob' = n /\ Observer.source ob' = f
    /\ Observer.innerDestroy ob' = Observer.innerDestroy ob.
Proof.
  induction vs as [|v vs IH]; intros h o ob ns Ho Hobs Hfuel Hself Hsrc Hls Hprev.
  - exists h, o, ob. rewrite app_nil_r. auto 10.
  - destruct (setPlain_observed fuel h f o n CL v Ho Hobs Hfuel)
      as (h1 & o1 & es & Hrun & Ho1 & Hobs1 & Hdl1 & Hlog & Hval & Hreplay).
    specialize (Hreplay ob Hself Hsrc).
    assert (Hstep : exists ob1,
      Observer.replay es ob
      = (ob1, if looseEq (value o) v then [] else [Observer.Notified l v (Some (value o))])
      /\ Observer.self ob1 = n /\ Observer.source ob1 = f
      /\ Observer.listeners ob1 = [l]
      /\ Observer.previous ob1 = value o1
      /\ Observer.innerDestroy ob1 = Observer.innerDestroy ob).
    { rewrite Hreplay, Hval. unfold Observer.change. rewrite Hprev.
      destruct (looseEq (value o) v) eqn:Heq.
      - exists ob. rewrite (looseEq_left_refl _ _ Heq).
        destruct (signaled o); auto 10.
      - eexists. split; [rewrite Hls; reflexivity|]. simpl. auto. }
    destruct Hstep as (ob1 & Hrep & Hself1 & Hsrc1 & Hls1 & Hprev1 & Hd1).
    destruct (IH h1 o1 ob1
                (ns ++ if looseEq (value o) v then []
                       else [Observer.Notified l v (Some (value o))])
                Ho1 Hobs1 ltac:(rewrite Hdl1; exact Hfuel) Hself1 Hsrc1 Hls1 Hprev1)
      as (h' & o' & ob' & Hrun' & Ho' & Hobs' & Hdl' & Hself' & Hsrc' & Hd').
    exists h', o', ob'. split.
    { simpl Observer.commitsObserved. eapply exec_bind.
      - apply (commitObserved_step fuel h h1 v ob ns es); [rewrite Hsrc; exact Hrun|exact Hlog].
      - rewrite Hrep. simpl fst. simpl snd. rewrite Hrun'. f_equal. f_equal. f_equal.
        rewrite <- app_assoc. f_equal. simpl. rewrite Hval.
        destruct (looseEq (value o) v); reflexivity. }
    split; [exact Ho'|]. split; [exact Hobs'|]. split; [congruence|].
    split; [exact Hself'|]. split; [exact Hsrc'|]. congruence.
Qed.

Lemma commitPlain_calledOnly eq v o :
  Forall (fun e => exists n, e = Called n) (snd (commitPlain eq v o)).
Proof.
  unfold commitPlain, performPlain, signalPlain.
  destruct (eq (value o) v); [|destruct (dirty o)]; simpl;
    repeat match goal with |- context [if ?b then _ else _] => destruct b end; simpl;
    rewrite ?app_nil_r; try apply Forall_app; repeat split;
    try apply calls_calledOnly; constructor.
Qed.

Lemma commitsObserved_mocks fuel f eq : forall us h o ob ns,
  objects h !! f = Some o ->
  cls o = PlainFieldClass eq ->
  mockListeners o ->
  length (dirtyListeners o) + length (changeListeners o) + 2 <= fuel ->
  Observer.source ob = f ->
  exists h', Observer.commitsObserved fuel us (ob, ns) h = (h', Ok (ob, ns)).
Proof.
  induction us as [|v us IH]; intros h o ob ns Ho Hcls Hm Hfuel Hsrc.
  - exists h. reflexivity.
  - pose proof (setPlain_mocks fuel h f o eq v Ho Hcls Hm Hfuel) as Hrun.
    destruct (commitPlain_listeners eq v o) as (Hdl & Hcl & Hc).
    destruct (IH (with_log (fun l => l ++ snd (commitPlain eq v o))
                    (store f (fst (commitPlain eq v o)) h))
                 (fst (commitPlain eq v o)) ob ns) as (h' & Hrun').
    { solve_lookup. }
    { congruence. }
    { unfold mockListeners. rewrite Hdl, Hcl. exact Hm. }
    { rewrite Hdl, Hcl. exact Hfuel. }
    { exact Hsrc. }
    exists h'. simpl Observer.commitsObserved. eapply exec_bind.
    + apply (commitObserved_step fuel h _ v ob ns (snd (commitPlain eq v o)));
        [rewrite Hsrc; exact Hrun|reflexivity].
    + pose proof (replay_calledOnly _ [] ob (commitPlain_calledOnly eq v o)) as Hrep.
      rewrite app_nil_r in Hrep. rewrite Hrep. simpl. rewrite app_nil_r. exact Hrun'.
Qed.

(** X19. An observer of a plain field with the default equality
    reports each change once: its listener is called, with the new
    and the previous value, for every commit of a value that is not
    [==] to the field's value at that moment, in the order of the
    commits, and for no other commit; after [destroy] it is not called
    any more. *)
Theorem observer_reports_each_change
    (fuel : nat) (h : heap) (f : nat) (o : object) (self l : nat) (vs us : list jsval) :
  objects h !! f = Some o ->
  cls o = PlainFieldClass PlainField.defaultEquals ->
  mockListeners o ->
  callingDirtyListeners o = false ->
  length (dirtyListeners o) + length (changeListeners o) + 6 <= fuel ->
  exists h' ob,
    Observer.observe fuel self f l vs us h
    = (h', Ok (ob, Observer.changes l (value o) vs))
    /\ Observer.innerDestroy ob = false.
Proof.
  intros Ho Hcls [Hmd Hmc] Hc Hfuel.
  destruct fuel as [|fuel']; [lia|]. set (fuel := S fuel') in *.
  set (obs := UserListener self [f]).
  set (o1 := with_changeListeners (IterableWeakSet.add obs) (with_dirty false o)).
  set (ob := {| Observer.source := f; Observer.self := self; Observer.previous := value o;
                Observer.listeners := []; Observer.innerDestroy := true |}).
  assert (Hnew : Observer.new fuel self f h = (store f o1 h, Ok ob)).
  { unfold Observer.new.
    eapply exec_bind.
    { apply (read_plain_own_flag fuel' h f o Ho); [right; eexists; exact Hcls|exact Hc]. }
    eapply exec_bind.
    { unfold ListenerManager.onChange. eapply update_lookup. solve_lookup. }
    rewrite store_store. reflexivity. }
  assert (Hobs : Observer.observedBy self f (changeListeners o) o1).
  { unfold Observer.observedBy, o1, obs. simpl. unfold IterableWeakSet.add.
    rewrite (has_reader_mocks _ _ _ _ Hmc). auto 10. }
  destruct (commitsObserved_spec fuel self f l (changeListeners o) vs (store f o1 h) o1
              (fst (Observer.add l false ob)) [])
    as (h2 & o2 & ob2 & Hrun2 & Ho2 & Hobs2 & Hdl2 & Hself2 & Hsrc2 & Hd2);
    [solve_lookup|exact Hobs|simpl; lia|reflexivity|reflexivity|reflexivity|reflexivity|].
  simpl in Hrun2, Hd2.
  set (o3 := with_changeListeners (IterableWeakSet.delete obs) o2).
  destruct Hobs2 as (Hcls2 & Hmd2 & HCL2 & _ & _ & _).
  assert (Hm3 : mockListeners o3).
  { split; [exact Hmd2|]. unfold o3. simpl. rewrite values_delete, HCL2, values_app.
    rewrite Forall_forall. intros x Hx. apply list_elem_of_filter in Hx as [Hne Hx].
    apply elem_of_app in Hx as [Hx|Hx].
    - rewrite Forall_forall in Hmc. apply Hmc, Hx.
    - simpl in Hx. apply list_elem_of_singleton in Hx. contradiction. }
  destruct (commitsObserved_mocks fuel f PlainField.defaultEquals us
              (store f o3 h2) o3
              {| Observer.source := f; Observer.self := self;
                 Observer.previous := Observer.previous ob2;
                 Observer.listeners := Observer.listeners ob2;
                 Observer.innerDestroy := false |}
              (Observer.changes l (value o) vs)) as (h' & Hrun').
  { solve_lookup. }
  { exact Hcls2. }
  { exact Hm3. }
  { unfold o3. simpl. unfold IterableWeakSet.delete. rewrite length_fmap, HCL2, length_app.
    simpl. rewrite Hdl2. simpl. lia. }
  { reflexivity. }
  exists h', {| Observer.source := f; Observer.self := self;
                Observer.previous := Observer.previous ob2;
                Observer.listeners := Observer.listeners ob2;
                Observer.innerDestroy := false |}.
  split; [|reflexivity].
  unfold Observer.observe.
  eapply exec_bind; [exact Hnew|].
  eapply exec_bind; [exact Hrun2|]. simpl fst. simpl snd.
  eapply exec_bind.
  { unfold Observer.destroy. rewrite Hd2.
    eapply exec_bind; [|reflexivity].
    unfold ListenerManager.removeChange, Observer.changeListener. rewrite Hself2, Hsrc2.
    eapply update_lookup. exact Ho2. }
  rewrite Hself2, Hsrc2. exact Hrun'.
Qed.

Lemma observer_reports_each_change_witness :
  exists h' ob,
    Observer.observe Scenario.fuel 7 0 9 [VNum 0; VNum 1; VNum 1; VNum 2] [VNum 5]
      (Scenario.after Scenario.readField)
    = (h', Ok (ob, Observer.changes 9 (VNum 0) [VNum 0; VNum 1; VNum 1; VNum 2]))
    /\ Observer.innerDestroy ob = false.
Proof.
  refine (observer_reports_each_change Scenario.fuel (Scenario.after Scenario.readField) 0
            {| dirtyListeners := [Some Scenario.onDirtyMock];
               changeListeners := [Some Scenario.onChangeMock];
               callingDirtyListeners := false; callingChangeListeners := false;
               dirty := false; signaled := false; value := VNum 0;
               cls := PlainFieldClass PlainField.defaultEquals |}
            7 9 [VNum 0; VNum 1; VNum 1; VNum 2] [VNum 5]
            eq_refl eq_refl _ eq_refl _).
  - split; repeat constructor; eexists; reflexivity.
  - vm_compute. lia.
Defined.

(** ** PassiveDerived *)

Ltac execd :=
  eapply exec_bind; [eapply getDerived_lookup; [solve_lookup|reflexivity]|cbv beta].

Ltac look :=
  repeat first
    [ rewrite list_lookup_insert_eq by (rewrite ?length_insert; eapply lookup_lt_Some; eassumption)
    | rewrite list_lookup_insert_ne by congruence ];
  try reflexivity; try eassumption.

(** The first read of a derived value whose compute function watches
    one plain field and returns. *)
Lemma first_read_watch fuel h p s os sub c k r :
  objects h !! p
  = Some (newObject VUndefined
            (DerivedClass {| compute := c; dependencies := [];
                             computationID := 0; initialized := false |} sub)) ->
  (forall old, c old = Watch s k) ->
  k (value os) = Return r ->
  objects h !! s = Some os ->
  (exists eq, cls os = PlainFieldClass eq) ->
  callingDirtyListeners os = false ->
  p <> s ->
  exists h',
    read (S (S fuel)) p h = (h', Ok r)
    /\ objects h' !! p
       = Some {| dirtyListeners := []; changeListeners := [];
                 callingDirtyListeners := false; callingChangeListeners := false;
                 dirty := false; signaled := false; value := r;
                 cls := DerivedClass
                          {| compute := c;
                             dependencies :=
                               [{| IDependency.watchable := s; IDependency.value := value os;
                                   IDependency.unsubDirty := true;
                                   IDependency.unsubChange := true |}];
                             computationID := 1; initialized := true |} sub |}
    /\ objects h' !! s
       = Some (with_changeListeners (IterableWeakSet.add (ChangeListenerOf p))
                 (with_dirtyListeners (IterableWeakSet.add (DirtyListenerOf p))
                    (with_dirty false os)))
    /\ log h' = log h /\ timers h' = timers h /\ nextAddr h' = nextAddr h
    /\ forall y, y <> p -> y <> s -> objects h' !! y = objects h !! y.
Proof.
  intros Hp Hcomp Hk Hs Hcls Hc Hne. eexists. split.
  - unfold read. change (run (S (S fuel)) (CallGet p)) with (get (run (S fuel)) p).
    unfold get. exec. simpl cls. unfold Derived.get.
    eapply exec_bind.
    { unfold ListenerManager.checkNotDispatchingDirty. exec. reflexivity. }
    eapply exec_bind.
    { unfold Derived.updateValueIfNecessary. exec. simpl dirty. cbn [negb].
      exec.
      eapply exec_bind.
      { unfold Derived.requiresRecompute. execd. reflexivity. }
      cbn [negb].
      execd. cbn [computationID]. exec.
      eapply exec_bind; [reflexivity|].
      eapply exec_bind; [unfold Derived.setDependencies; solve_run|].
      exec. simpl compute. rewrite Hcomp.
      eapply exec_bind.
      { simpl Derived.runCompute.
        eapply exec_bind.
        { apply (read_plain_own_flag fuel _ s os); [solve_lookup|right; exact Hcls|exact Hc]. }
        execd. simpl.
        eapply exec_bind.
        { unfold Derived.createDependency, ListenerManager.onDirty, ListenerManager.onChange.
          exec. exec. reflexivity. }
        execd. eapply exec_bind; [unfold Derived.setDependencies; solve_run|].
        rewrite Hk. reflexivity. }
      exec. solve_run. }
    exec. reflexivity.
  - simpl. repeat split; look.
    intros y Hyp Hys. look.
Qed.

Lemma mocks_delete_added (s s' : IterableWeakSet.t) l :
  (forall x, Some x ∈ s' -> x = l \/ Some x ∈ s) ->
  Forall isMock (IterableWeakSet.values s) ->
  Forall isMock (IterableWeakSet.values (IterableWeakSet.delete l s')).
Proof.
  intros Hsub Hm. rewrite values_delete, Forall_forall. intros x Hx.
  apply list_elem_of_filter in Hx as [Hne Hx]. apply values_elem in Hx.
  rewrite Forall_forall in Hm. apply Hm. apply values_elem.
  destruct (Hsub _ Hx); [contradiction|assumption].
Qed.

Lemma added_twice (s : IterableWeakSet.t) l x :
  Some x ∈ IterableWeakSet.add l (IterableWeakSet.add l s) -> x = l \/ Some x ∈ s.
Proof. rewrite !elem_of_add. tauto. Qed.

Lemma length_added_twice (s : IterableWeakSet.t) l :
  length (IterableWeakSet.delete l (IterableWeakSet.add l (IterableWeakSet.add l s)))
  <= S (S (length s)).
Proof.
  rewrite length_delete.
  pose proof (length_add l (IterableWeakSet.add l s)). pose proof (length_add l s). lia.
Qed.

(** X20. A [PassiveDerived] whose last listener is removed stops
    following its source: it unsubscribes from the source and keeps
    its cached value, so that after a commit on the source its [get]
    still returns the value from before the commit, while the source
    returns the new one. *)
Theorem passive_derived_freezes_when_unobserved
    (fuel : nat) (h : heap) (s : nat) (os : object) (eq : jsval -> jsval -> bool)
    (l : nat) (x : jsval) :
  objects h !! s = Some os ->
  cls os = PlainFieldClass eq ->
  mockListeners os ->
  callingDirtyListeners os = false ->
  eq (value os) x = false ->
  length (dirtyListeners os) + length (changeListeners os) + 6 <= fuel ->
  exists h',
    PassiveDerived.listenedOnce fuel s l x h = (h', Ok (value os, value os, x)).
Proof.
  intros Hs Hcls [Hmd Hmc] Hc Heq Hfuel.
  destruct fuel as [|[|fuel']]; try lia. set (fuel := S (S fuel')) in *.
  set (p := length (objects h)).
  set (op := newObject VUndefined
               (DerivedClass {| compute := fun _ => Watch s Return; dependencies := [];
                                computationID := 0; initialized := false |} JustDerived)).
  set (h0 := with_objects (fun os => os ++ [op]) h).
  assert (Hps : p <> s) by (apply lookup_lt_Some in Hs; unfold p; lia).
  assert (Hp0 : objects h0 !! p = Some op) by (apply list_lookup_middle; reflexivity).
  assert (Hs0 : objects h0 !! s = Some os) by (apply lookup_app_l_Some, Hs).
  destruct (first_read_watch fuel' h0 p s os JustDerived _ Return (value os) Hp0
              ltac:(reflexivity) eq_refl Hs0 ltac:(eexists; exact Hcls) Hc Hps)
    as (h1 & Hrun1 & Hp1 & Hs1 & Hlog1 & Htim1 & _).
  unfold PassiveDerived.listenedOnce.
  eapply ex_intro.
  eapply (exec_bind _ _ h h0 {| PassiveDerived.self := p; PassiveDerived.isPassive := true |});
    [reflexivity|]. cbn [PassiveDerived.self].
  clearbody p op h0.
  eapply exec_bind; [exact Hrun1|].
  (* onDirty *)
  eapply exec_bind.
  { unfold PassiveDerived.onDirty. cbn [PassiveDerived.self].
    eapply exec_bind; [unfold ListenerManager.onDirty; solve_run|].
    unfold PassiveDerived.updatePassive. cbn [PassiveDerived.self PassiveDerived.isPassive].
    exec. simpl.
    execd. simpl.
    eapply exec_bind.
    { eapply exec_bind.
      { unfold Derived.createDependency, ListenerManager.onDirty, ListenerManager.onChange.
        exec. exec. reflexivity. }
      reflexivity. }
    eapply exec_bind; [unfold Derived.setDependencies; solve_run|]. reflexivity. }
  (* the closure it returned *)
  eapply exec_bind.
  { unfold PassiveDerived.removeDirty. cbn [PassiveDerived.self].
    eapply exec_bind; [unfold ListenerManager.removeDirty; solve_run|].
    unfold PassiveDerived.updatePassive. cbn [PassiveDerived.self PassiveDerived.isPassive].
    exec. simpl. rewrite decide_True by reflexivity. simpl.
    execd. simpl.
    eapply exec_bind.
    { eapply exec_bind.
      { unfold Derived.unsubDirtyOf, ListenerManager.removeDirty. simpl. solve_run. }
      eapply exec_bind.
      { unfold Derived.unsubChangeOf, ListenerManager.removeChange. simpl. solve_run. }
      reflexivity. }
    eapply exec_bind; [unfold Derived.setDependencies; solve_run|]. reflexivity. }
  rewrite !store_store.
  match goal with |- _ ?H = _ => set (h3 := H) end.
  eassert (Hs3 : objects h3 !! s = Some _) by (unfold h3; solve_lookup).
  eassert (Hp3 : objects h3 !! p = Some _) by (unfold h3; solve_lookup).
  match type of Hs3 with _ = Some ?o => set (os3 := o) in * end.
  match type of Hp3 with _ = Some ?o => set (op3 := o) in * end.
  assert (Hm3 : mockListeners os3).
  { split; unfold os3; simpl.
    - eapply mocks_delete_added; [apply added_twice|exact Hmd].
    - eapply mocks_delete_added; [apply added_twice|exact Hmc]. }
  assert (Hlen3 : length (dirtyListeners os3) + length (changeListeners os3) + 2 <= fuel).
  { unfold os3. simpl.
    pose proof (length_added_twice (dirtyListeners os) (DirtyListenerOf p)).
    pose proof (length_added_twice (changeListeners os) (ChangeListenerOf p)). lia. }
  assert (Hcommit : commitPlain eq x os3
                    = (afterChangeBroadcast (with_value x (afterDirtyBroadcast os3)),
                       calls (dirtyListeners os3) ++ calls (changeListeners os3))).
  { unfold commitPlain, performPlain, signalPlain.
    change (value os3) with (value os). rewrite Heq. reflexivity. }
  eapply exec_bind.
  { apply (setPlain_mocks fuel h3 s os3 eq x Hs3 Hcls Hm3 Hlen3). }
  rewrite Hcommit. cbn [fst snd].
  eapply exec_bind.
  { apply (get_clean (S fuel') _ p op3); [solve_lookup|reflexivity|reflexivity]. }
  eapply exec_bind.
  { eapply (read_plain_own_flag (S fuel') _ s);
      [solve_lookup|right; exists eq; exact Hcls|reflexivity]. }
  subst os3 op3 h3. reflexivity.
Qed.

Lemma passive_derived_freezes_when_unobserved_witness :
  exists h',
    PassiveDerived.listenedOnce Scenario.fuel 0 5 (VNum 1) (Scenario.after Scenario.readField)
    = (h', Ok (VNum 0, VNum 0, VNum 1)).
Proof.
  refine (passive_derived_freezes_when_unobserved Scenario.fuel
            (Scenario.after Scenario.readField) 0
            {| dirtyListeners := [Some Scenario.onDirtyMock];
               changeListeners := [Some Scenario.onChangeMock];
               callingDirtyListeners := false; callingChangeListeners := false;
               dirty := false; signaled := false; value := VNum 0;
               cls := PlainFieldClass PlainField.defaultEquals |}
            PlainField.defaultEquals 5 (VNum 1)
            eq_refl eq_refl _ eq_refl eq_refl _).
  - split; repeat constructor; eexists; reflexivity.
  - vm_compute. lia.
Defined.

(** ** Field *)

Lemma run_S fuel c : run (S fuel) c = step (run fuel) c.
Proof. reflexivity. Qed.

Lemma delete_single l : IterableWeakSet.delete l [Some l] = [None].
Proof. unfold IterableWeakSet.delete. simpl. rewrite decide_True by reflexivity. reflexivity. Qed.

Section FieldCommit.
Variables (n f val a : nat) (v v2 : jsval) (eq : jsval -> jsval -> bool).
Hypothesis Hfv : f <> val.

#[local] Abbreviation fuel := (S (S (S (S (S n))))).

#[local] Abbreviation ofld := (FieldPrograms.fieldAfterRead val a v).
#[local] Abbreviation oval := (FieldPrograms.innerAfterRead f a v eq).
#[local] Abbreviation ofld2 := (FieldPrograms.fieldAfterCommit val a v).
#[local] Abbreviation oval2 := (fun a2 => FieldPrograms.innerAfterCommit a2 v2 eq).

#[local] Ltac simp_obj :=
  cbn [dirty signaled value cls dirtyListeners changeListeners
       callingDirtyListeners callingChangeListeners
       with_derived with_cls with_dependencies with_computationID with_initialized
       with_dirty with_signaled with_value
       with_callingDirtyListeners with_callingChangeListeners
       with_dirtyListeners with_changeListeners
       FieldPrograms.fieldAfterRead FieldPrograms.innerAfterRead
       FieldPrograms.fieldAfterCommit FieldPrograms.innerAfterCommit
       afterDirtyBroadcast afterChangeBroadcast
       dependencies computationID initialized compute fmap list_fmap
       Derived.clearUnsubDirty Derived.clearUnsubChange
       IDependency.watchable IDependency.value IDependency.unsubDirty
       IDependency.unsubChange when negb].

Lemma field_set_equal h :
  objects h !! f = Some ofld ->
  objects h !! val = Some oval ->
  eq v v2 = true ->
  exists h',
    setField fuel f v2 h = (h', Ok tt)
    /\ log h' = log h ++ [Called 2]
    /\ exists o, objects h' !! f = Some o /\ dirty o = false
                 /\ callingDirtyListeners o = false /\ value o = v.
Proof.
  intros Hf Hv Heq. eexists. split; [|split].
  - unfold setField.
    eapply exec_bind.
    { unfold Field.set, Field.getVal. exec. cbn [cls FieldPrograms.fieldAfterRead].
      eapply exec_bind; [reflexivity|]. reflexivity. }
    eapply commit_new.
    + cbn [Mutator.performCB PlainField.set Mutator.plain].
      eapply exec_bind; [|reflexivity].
      unfold PlainField.set_perform. exec. cbn [cls FieldPrograms.innerAfterRead value].
      unfold Field.innerEquals.
      cbn [Field.member_watchable Field.has_plain Field.member_plain truthy andb orb].
      rewrite Heq. reflexivity.
    + cbn [Mutator.signalCB PlainField.set Mutator.plain].
      unfold PlainField.set_signal, ListenerManager.callChangeListeners.
      exec. cbn [signaled FieldPrograms.innerAfterRead]. exec. exec.
      eapply exec_bind.
      { rewrite run_S. cbn [step]. unfold ListenerManager.loopChange.
        exec. cbn [changeListeners with_callingChangeListeners with_signaled FieldPrograms.innerAfterRead lookup list_lookup].
        eapply exec_bind.
        { rewrite run_S. cbn [step].
          eapply exec_bind; [|reflexivity].
          unfold invokeListener, whenChange. exec. cbn [cls FieldPrograms.fieldAfterRead].
          unfold Derived.whenChange. exec. cbn [dirty FieldPrograms.fieldAfterRead when].
          eapply exec_bind; [reflexivity|].
          apply (callChangeListeners_mocks (S (S (S n))) _ f ofld);
            [solve_lookup|repeat constructor; eexists; reflexivity|simpl; lia]. }
        cbn [signaled FieldPrograms.fieldAfterRead].
        rewrite run_S. cbn [step]. unfold ListenerManager.loopChange. exec.
        reflexivity. }
      solve_run.
  - reflexivity.
  - eexists. split; [solve_lookup|]. auto.
Qed.

Lemma field_set_different h :
  objects h !! f = Some ofld ->
  objects h !! val = Some oval ->
  eq v v2 = false ->
  exists h',
    setField fuel f v2 h = (h', Ok tt)
    /\ log h' = log h ++ [Called 1; Called 2]
    /\ objects h' !! f = Some ofld2
    /\ objects h' !! val = Some (oval2 (nextAddr h)).
Proof.
  intros Hf Hv Heq. eexists. split; [|split; [|split]].
  - unfold setField.
    eapply exec_bind.
    { unfold Field.set, Field.getVal. exec. cbn [cls FieldPrograms.fieldAfterRead].
      eapply exec_bind; [reflexivity|]. reflexivity. }
    eapply commit_new.
    + cbn [Mutator.performCB PlainField.set Mutator.plain].
      eapply exec_bind; [|reflexivity].
      unfold PlainField.set_perform. exec. cbn [cls FieldPrograms.innerAfterRead value].
      unfold Field.innerEquals.
      cbn [Field.member_watchable Field.has_plain Field.member_plain truthy andb orb].
      rewrite Heq.
      eapply exec_bind.
      { unfold ListenerManager.callDirtyListeners. exec. cbn [dirty FieldPrograms.innerAfterRead].
        exec. exec. exec.
        eapply exec_bind.
        { rewrite run_S. cbn [step]. unfold ListenerManager.loopDirty.
          exec. cbn [dirtyListeners with_callingDirtyListeners with_signaled with_dirty
                     FieldPrograms.innerAfterRead lookup list_lookup].
          eapply exec_bind.
          { rewrite run_S. cbn [step].
            eapply exec_bind; [|reflexivity].
            unfold invokeListener, whenDirty. exec. cbn [cls FieldPrograms.fieldAfterRead].
            unfold Derived.whenDirty.
            eapply exec_bind.
            { unfold Derived.unsubDirtyDependencies. exec. cbn [dirty FieldPrograms.fieldAfterRead].
              execd. cbn [dependencies].
              eapply exec_bind.
              { simpl forEach. eapply exec_bind; [|reflexivity].
                unfold Derived.unsubDirtyOf. cbn [IDependency.unsubDirty when IDependency.watchable].
                unfold ListenerManager.removeDirty. solve_run. }
              unfold Derived.setDependencies. solve_run. }
            eapply (callDirtyListeners_mocks (S (S (S n))) _ f);
              [solve_lookup|repeat constructor; eexists; reflexivity|simpl; lia]. }
          simp_obj. rewrite !store_store.
          rewrite run_S. cbn [step]. unfold ListenerManager.loopDirty. exec.
          reflexivity. }
        solve_run. }
      solve_run.
    + cbn [Mutator.signalCB PlainField.set Mutator.plain].
      unfold PlainField.set_signal, ListenerManager.callChangeListeners.
      exec. simp_obj. exec. exec.
      eapply exec_bind.
      { rewrite run_S. cbn [step]. unfold ListenerManager.loopChange.
        exec. simp_obj. cbn [lookup list_lookup].
        eapply exec_bind.
        { rewrite run_S. cbn [step]. eapply exec_bind; [|reflexivity].
          unfold invokeListener, whenChange. exec. simp_obj.
          unfold Derived.whenChange. exec. simp_obj.
          eapply exec_bind.
          { unfold Derived.unsubChangeDependencies. exec. simp_obj. execd. simp_obj.
            eapply exec_bind.
            { simpl forEach. eapply exec_bind; [|reflexivity].
              unfold Derived.unsubChangeOf. simp_obj.
              unfold ListenerManager.removeChange. solve_run. }
            unfold Derived.setDependencies. solve_run. }
          eapply (callChangeListeners_mocks (S (S (S n))) _ f);
            [solve_lookup|repeat constructor; eexists; reflexivity|simpl; lia]. }
        simp_obj. rewrite !store_store.
        rewrite run_S. cbn [step]. unfold ListenerManager.loopChange. exec.
        reflexivity. }
      solve_run.
  - simpl. rewrite <- !app_assoc. reflexivity.
  - simpl objects. look.
  - simpl objects. look. unfold FieldPrograms.innerAfterCommit, FieldPrograms.innerAfterRead.
    cbv [with_callingChangeListeners with_changeListeners with_signaled with_value
         with_callingDirtyListeners with_dirtyListeners with_dirty
         dirtyListeners changeListeners callingDirtyListeners callingChangeListeners
         dirty signaled value cls].
    rewrite !delete_single. reflexivity.
Qed.

Lemma field_reread h a2 :
  objects h !! f = Some ofld2 ->
  objects h !! val = Some (oval2 a2) ->
  a < a2 ->
  exists h', read fuel f h = (h', Ok v2) /\ log h' = log h.
Proof.
  intros Hf Hv Ha. eexists. split.
  - unfold read. rewrite run_S. cbn [step]. unfold get. exec. cbn [cls FieldPrograms.fieldAfterCommit].
    unfold Derived.get.
    eapply exec_bind.
    { unfold ListenerManager.checkNotDispatchingDirty. exec. reflexivity. }
    eapply exec_bind.
    { unfold Derived.updateValueIfNecessary. exec. cbn [dirty FieldPrograms.fieldAfterCommit negb].
      exec.
      eapply exec_bind.
      { unfold Derived.requiresRecompute. execd. cbn [initialized negb dependencies].
        cbn [Derived.anyChanged IDependency.watchable IDependency.value].
        eapply exec_bind.
        { apply (read_plain_own_flag (S (S (S n))) _ val (oval2 a2));
            [solve_lookup|right; eexists; reflexivity|reflexivity]. }
        cbn [value FieldPrograms.innerAfterCommit]. unfold looseNeq. cbn [looseEq].
        rewrite (proj2 (Nat.eqb_neq a2 a)) by lia. reflexivity. }
      cbn [negb].
      execd. cbn [computationID]. exec.
      eapply exec_bind.
      { cbn [dependencies forEach]. eapply exec_bind; [reflexivity|]. reflexivity. }
      eapply exec_bind; [unfold Derived.setDependencies; solve_run|].
      exec. cbn [compute]. unfold Field.fieldCompute.
      eapply exec_bind.
      { cbn [Derived.runCompute].
        eapply exec_bind.
        { eapply (read_plain_own_flag (S (S (S n))) _ val);
            [solve_lookup|right; eexists; reflexivity|reflexivity]. }
        execd. simpl.
        eapply exec_bind.
        { unfold Derived.createDependency, ListenerManager.onDirty, ListenerManager.onChange.
          exec. exec. reflexivity. }
        execd. eapply exec_bind; [unfold Derived.setDependencies; solve_run|].
        reflexivity. }
      exec. solve_run. }
    exec. reflexivity.
  - reflexivity.
Qed.
End FieldCommit.


(** X21. Round trip through a [Field]: a new field reads as its
    initial value; after [set(v2).commit()] it reads as [v2], or still
    as the old value when the field's equality holds between the two.
    A dirty listener of the field is called once by the commit exactly
    when the value changes; a change listener is called once by this
    first commit in either case. *)
Theorem field_round_trip (fuel : nat) (h : heap) (v v2 : jsval) (eq : jsval -> jsval -> bool) :
  5 <= fuel ->
  exists h',
    FieldPrograms.roundTrip fuel v v2 eq h = (h', Ok (v, if eq v v2 then v else v2))
    /\ callsOf 1 h' = callsOf 1 h + (if eq v v2 then 0 else 1)
    /\ callsOf 2 h' = callsOf 2 h + 1.
Proof.
  intros Hfuel.
  destruct fuel as [|[|[|[|[|n]]]]]; try lia. clear Hfuel.
  set (f := length (objects h)).
  set (val := S f).
  set (a := nextAddr h).
  set (o0 := newObject VUndefined
               (DerivedClass {| compute := Field.fieldCompute val; dependencies := [];
                                computationID := 0; initialized := false |} (FieldClass val))).
  set (oval0 := newObject (VPlainObj a v) (PlainFieldClass (Field.innerEquals eq))).
  set (h0 := with_objects (fun os => os ++ [oval0])
               (with_nextAddr (S a) (with_objects (fun os => os ++ [o0]) h))).
  assert (Hnew : Field.new v eq h = (h0, Ok f)) by reflexivity.
  assert (Hfv : f <> val) by (unfold val; lia).
  assert (Hf0 : objects h0 !! f = Some o0).
  { unfold h0. simpl. rewrite lookup_app_l by (rewrite length_app; simpl; unfold f; lia).
    apply list_lookup_middle. reflexivity. }
  assert (Hv0 : objects h0 !! val = Some oval0).
  { unfold h0. simpl. apply list_lookup_middle. rewrite length_app. simpl. unfold val, f. lia. }
  assert (Ha0 : nextAddr h0 = S a) by reflexivity.
  assert (Hlog0 : log h0 = log h) by reflexivity.
  clearbody h0 f val a.
  destruct (first_read_watch (S (S (S n))) h0 f val oval0 (FieldClass val)
              (Field.fieldCompute val)
              (fun v => match v with
                        | VSourceObj _ s => Watch s Return
                        | _ => Return (Field.member_plain v)
                        end) v Hf0 ltac:(reflexivity) eq_refl Hv0
              ltac:(eexists; reflexivity) eq_refl Hfv)
    as (h1 & Hrun1 & Hf1 & Hv1 & Hlog1 & _ & Ha1 & _).
  set (ofld := with_changeListeners (IterableWeakSet.add (UserListener 2 []))
                 (with_dirtyListeners (IterableWeakSet.add (UserListener 1 []))
                    {| dirtyListeners := []; changeListeners := [];
                       callingDirtyListeners := false; callingChangeListeners := false;
                       dirty := false; signaled := false; value := v;
                       cls := DerivedClass
                                {| compute := Field.fieldCompute val;
                                   dependencies :=
                                     [{| IDependency.watchable := val;
                                         IDependency.value := value oval0;
                                         IDependency.unsubDirty := true;
                                         IDependency.unsubChange := true |}];
                                   computationID := 1; initialized := true |}
                                (FieldClass val) |})).
  set (h2 := store f ofld h1).
  assert (Hreg : forall B (k : unit -> M heap B),
            (ListenerManager.onDirty f (UserListener 1 []) ≫= fun _ =>
               ListenerManager.onChange f (UserListener 2 []) ≫= k) h1 = k tt h2).
  { intros B k.
    eapply exec_bind; [unfold ListenerManager.onDirty; solve_run|].
    eapply exec_bind; [unfold ListenerManager.onChange; solve_run|].
    rewrite store_store. reflexivity. }
  assert (Hf2 : objects h2 !! f = Some ofld) by (unfold h2; solve_lookup).
  assert (Hv2 : objects h2 !! val = objects h1 !! val)
    by (unfold h2; apply lookup_store_ne; exact Hfv).
  rewrite Hv1 in Hv2.
  assert (Hlog2 : log h2 = log h) by (unfold h2; simpl; congruence).
  assert (Ha2 : nextAddr h2 = S a) by (unfold h2; simpl; congruence).
  clearbody h2.
  assert (Hcount : forall es k,
            length (filter (fun e => e = Called k) (log h ++ es))
            = callsOf k h + length (filter (fun e => e = Called k) es)).
  { intros es k. unfold callsOf. rewrite filter_app, length_app. reflexivity. }
  destruct (eq v v2) eqn:Heq.
  - destruct (field_set_equal n f val a v v2 eq Hfv h2 Hf2 Hv2 Heq)
      as (h3 & Hrun3 & Hlog3 & o3 & Ho3 & Hd3 & Hc3 & Hval3).
    exists h3. split.
    + unfold FieldPrograms.roundTrip.
      eapply exec_bind; [exact Hnew|].
      eapply exec_bind; [exact Hrun1|].
      rewrite Hreg.
      eapply exec_bind; [exact Hrun3|].
      eapply exec_bind; [apply (get_clean _ h3 f o3 Ho3 Hd3 Hc3)|].
      rewrite Hval3. reflexivity.
    + unfold callsOf at 1 3. rewrite Hlog3, Hlog2, !Hcount. split; reflexivity.
  - destruct (field_set_different n f val a v v2 eq Hfv h2 Hf2 Hv2 Heq)
      as (h3 & Hrun3 & Hlog3 & Hf3 & Hv3).
    destruct (field_reread n f val a v v2 eq Hfv h3 (nextAddr h2) Hf3 Hv3 ltac:(lia))
      as (h4 & Hrun4 & Hlog4).
    exists h4. split.
    + unfold FieldPrograms.roundTrip.
      eapply exec_bind; [exact Hnew|].
      eapply exec_bind; [exact Hrun1|].
      rewrite Hreg.
      eapply exec_bind; [exact Hrun3|].
      eapply exec_bind; [exact Hrun4|]. reflexivity.
    + unfold callsOf at 1 3. rewrite Hlog4, Hlog3, Hlog2, !Hcount. split; reflexivity.
Qed.

Lemma field_round_trip_witness :
  exists h',
    FieldPrograms.roundTrip Scenario.fuel (VNum 1) (VNum 2) looseEq emptyHeap
    = (h', Ok (VNum 1, VNum 2))
    /\ callsOf 1 h' = 0 + 1
    /\ callsOf 2 h' = 0 + 1.
Proof.
  apply (field_round_trip Scenario.fuel emptyHeap (VNum 1) (VNum 2) looseEq).
  vm_compute. lia.
Defined.

(** ** A field that mirrors a source *)

Section FieldMirror.
Variables (n s f val : nat) (v x0 x1 : jsval) (eq : jsval -> jsval -> bool).
Hypothesis Hfv : f <> val.
Hypothesis Hsf : s <> f.
Hypothesis Hsv : s <> val.

#[local] Abbreviation fuel := (S (S (S (S (S n))))).

#[local] Ltac simp_obj :=
  cbn [dirty signaled value cls dirtyListeners changeListeners
       callingDirtyListeners callingChangeListeners
       with_derived with_cls with_dependencies with_computationID with_initialized
       with_dirty with_signaled with_value
       with_callingDirtyListeners with_callingChangeListeners
       with_dirtyListeners with_changeListeners
       FieldSource.field FieldSource.inner FieldSource.source newObject
       afterDirtyBroadcast afterChangeBroadcast
       dependencies computationID initialized compute fmap list_fmap
       Derived.clearUnsubDirty Derived.clearUnsubChange
       IDependency.watchable IDependency.value IDependency.unsubDirty
       IDependency.unsubChange when negb].

(** [f.setSource(s).commit()] on a field that was not read yet. *)
Lemma setSource_fresh h a d :
  objects h !! f = Some (newObject VUndefined (DerivedClass d (FieldClass val))) ->
  objects h !! val
  = Some (newObject (VPlainObj a v) (PlainFieldClass (Field.innerEquals eq))) ->
  exists h',
    setFieldSource fuel f s h = (h', Ok tt)
    /\ objects h' !! val
       = Some (with_signaled true (with_value (VSourceObj (nextAddr h) s)
                 (newObject (VPlainObj a v) (PlainFieldClass (Field.innerEquals eq)))))
    /\ (forall y, y <> val -> objects h' !! y = objects h !! y)
    /\ log h' = log h.
Proof.
  intros Hf Hv. eexists. split; [|split; [|split]].
  - unfold setFieldSource.
    eapply exec_bind.
    { unfold Field.setSource, Field.getVal. exec. cbn [cls newObject].
      eapply exec_bind; [reflexivity|]. reflexivity. }
    eapply commit_new.
    + cbn [Mutator.performCB PlainField.set Mutator.plain].
      eapply exec_bind; [|reflexivity].
      unfold PlainField.set_perform. exec. cbn [cls newObject value].
      unfold Field.innerEquals.
      cbn [Field.member_watchable Field.has_plain Field.member_plain truthy andb orb].
      eapply exec_bind.
      { unfold ListenerManager.callDirtyListeners. exec. reflexivity. }
      solve_run.
    + cbn [Mutator.signalCB PlainField.set Mutator.plain].
      unfold PlainField.set_signal, ListenerManager.callChangeListeners.
      exec. simp_obj. exec. exec.
      eapply exec_bind.
      { rewrite run_S. cbn [step]. unfold ListenerManager.loopChange. exec. reflexivity. }
      solve_run.
  - simpl objects. look.
  - intros y Hy. simpl objects. look.
  - reflexivity.
Qed.

(** The first read of the field goes through the source. *)
Lemma read_through_source h a a2 :
  objects h !! f
  = Some (newObject VUndefined
            (DerivedClass {| compute := Field.fieldCompute val; dependencies := [];
                             computationID := 0; initialized := false |} (FieldClass val))) ->
  objects h !! val
  = Some (with_signaled true (with_value (VSourceObj a2 s)
            (newObject (VPlainObj a v) (PlainFieldClass (Field.innerEquals eq))))) ->
  objects h !! s = Some (newObject x0 (PlainFieldClass PlainField.defaultEquals)) ->
  exists h',
    read fuel f h = (h', Ok x0)
    /\ objects h' !! f = Some (FieldSource.field val s a2 x0 true false)
    /\ objects h' !! val
       = Some (FieldSource.inner s a2 eq [Some (DirtyListenerOf f)] [Some (ChangeListenerOf f)])
    /\ objects h' !! s
       = Some (FieldSource.source x0 [Some (DirtyListenerOf f)] [Some (ChangeListenerOf f)]
                 false false)
    /\ log h' = log h.
Proof.
  intros Hf Hv Hs. eexists. split.
  - unfold read. rewrite run_S. cbn [step]. unfold get. exec. cbn [cls newObject].
    unfold Derived.get.
    eapply exec_bind.
    { unfold ListenerManager.checkNotDispatchingDirty. exec. reflexivity. }
    eapply exec_bind.
    { unfold Derived.updateValueIfNecessary. exec. cbn [dirty newObject negb].
      exec.
      eapply exec_bind.
      { unfold Derived.requiresRecompute. execd. reflexivity. }
      cbn [negb].
      execd. cbn [computationID]. exec.
      eapply exec_bind; [reflexivity|].
      eapply exec_bind; [unfold Derived.setDependencies; solve_run|].
      exec. cbn [compute]. unfold Field.fieldCompute.
      eapply exec_bind.
      { cbn [Derived.runCompute].
        eapply exec_bind.
        { eapply (read_plain_own_flag (S (S (S n))) _ val);
            [solve_lookup|right; eexists; reflexivity|reflexivity]. }
        execd. simp_obj. cbn [Nat.eqb negb bool_decide].
        rewrite bool_decide_eq_false_2 by (apply not_elem_of_nil).
        eapply exec_bind.
        { unfold Derived.createDependency, ListenerManager.onDirty, ListenerManager.onChange.
          exec. exec. reflexivity. }
        execd. eapply exec_bind; [unfold Derived.setDependencies; solve_run|].
        cbn [Derived.runCompute].
        eapply exec_bind.
        { eapply (read_plain_own_flag (S (S (S n))) _ s);
            [solve_lookup|right; eexists; reflexivity|reflexivity]. }
        execd. simp_obj. cbn [Nat.eqb negb].
        rewrite bool_decide_eq_false_2
          by (rewrite list_elem_of_singleton; exact Hsv).
        eapply exec_bind.
        { unfold Derived.createDependency, ListenerManager.onDirty, ListenerManager.onChange.
          exec. exec. reflexivity. }
        execd. eapply exec_bind; [unfold Derived.setDependencies; solve_run|].
        reflexivity. }
      exec. solve_run. }
    exec. reflexivity.
  - simpl objects. repeat split; look.
Qed.

#[local] Abbreviation D := (DirtyListenerOf f).
#[local] Abbreviation C := (ChangeListenerOf f).

(** A commit on the source that its equality takes for no change. *)
Lemma source_set_equal h a2 :
  objects h !! f = Some (FieldSource.field val s a2 x0 true false) ->
  objects h !! s = Some (FieldSource.source x0 [Some D] [Some C] false false) ->
  looseEq x0 x1 = true ->
  exists h' o,
    setPlain fuel s x1 h = (h', Ok tt)
    /\ objects h' !! f = Some o /\ dirty o = false
    /\ callingDirtyListeners o = false /\ value o = x0.
Proof.
  intros Hf Hs Heq. eexists _, _. split.
  - unfold setPlain. eapply commit_new.
    + cbn [Mutator.performCB PlainField.set Mutator.plain].
      eapply exec_bind; [|reflexivity].
      unfold PlainField.set_perform. exec. simp_obj.
      unfold PlainField.defaultEquals. rewrite Heq. reflexivity.
    + cbn [Mutator.signalCB PlainField.set Mutator.plain].
      unfold PlainField.set_signal, ListenerManager.callChangeListeners.
      exec. simp_obj. exec. exec.
      eapply exec_bind.
      { rewrite run_S. cbn [step]. unfold ListenerManager.loopChange.
        exec. simp_obj. cbn [lookup list_lookup].
        eapply exec_bind.
        { rewrite run_S. cbn [step]. eapply exec_bind; [|reflexivity].
          unfold invokeListener, whenChange. exec. simp_obj.
          unfold Derived.whenChange. exec. simp_obj.
          eapply exec_bind; [reflexivity|].
          eapply (callChangeListeners_mocks (S (S (S n))) _ f);
            [solve_lookup|constructor|simpl; lia]. }
        simp_obj.
        rewrite run_S. cbn [step]. unfold ListenerManager.loopChange. exec.
        reflexivity. }
      solve_run.
  - split; [solve_lookup|]. auto.
Qed.

(** A commit on the source of a different value. *)
Lemma source_set_different h a2 :
  objects h !! f = Some (FieldSource.field val s a2 x0 true false) ->
  objects h !! val = Some (FieldSource.inner s a2 eq [Some D] [Some C]) ->
  objects h !! s = Some (FieldSource.source x0 [Some D] [Some C] false false) ->
  looseEq x0 x1 = false ->
  exists h',
    setPlain fuel s x1 h = (h', Ok tt)
    /\ objects h' !! f = Some (FieldSource.field val s a2 x0 false true)
    /\ objects h' !! val = Some (FieldSource.inner s a2 eq [None] [None])
    /\ objects h' !! s = Some (FieldSource.source x1 [None] [None] true true).
Proof.
  intros Hf Hv Hs Heq. eexists. split.
  - unfold setPlain. eapply commit_new.
    + cbn [Mutator.performCB PlainField.set Mutator.plain].
      eapply exec_bind; [|reflexivity].
      unfold PlainField.set_perform. exec. simp_obj.
      unfold PlainField.defaultEquals. rewrite Heq.
      eapply exec_bind.
      { unfold ListenerManager.callDirtyListeners. exec. simp_obj.
        exec. exec. exec.
        eapply exec_bind.
        { rewrite run_S. cbn [step]. unfold ListenerManager.loopDirty.
          exec. simp_obj. cbn [lookup list_lookup].
          eapply exec_bind.
          { rewrite run_S. cbn [step].
            eapply exec_bind; [|reflexivity].
            unfold invokeListener, whenDirty. exec. simp_obj.
            unfold Derived.whenDirty.
            eapply exec_bind.
            { unfold Derived.unsubDirtyDependencies. exec. simp_obj.
              execd. simp_obj.
              eapply exec_bind.
              { cbn [forEach].
                eapply exec_bind.
                { unfold Derived.unsubDirtyOf. simp_obj.
                  unfold ListenerManager.removeDirty. solve_run. }
                eapply exec_bind; [|reflexivity].
                unfold Derived.unsubDirtyOf. simp_obj.
                unfold ListenerManager.removeDirty. solve_run. }
              unfold Derived.setDependencies. solve_run. }
            eapply (callDirtyListeners_mocks (S (S (S n))) _ f);
              [solve_lookup|constructor|simpl; lia]. }
          simp_obj. rewrite !store_store.
          rewrite run_S. cbn [step]. unfold ListenerManager.loopDirty. exec.
          reflexivity. }
        solve_run. }
      solve_run.
    + cbn [Mutator.signalCB PlainField.set Mutator.plain].
      unfold PlainField.set_signal, ListenerManager.callChangeListeners.
      exec. simp_obj. exec. exec.
      eapply exec_bind.
      { rewrite run_S. cbn [step]. unfold ListenerManager.loopChange.
        exec. simp_obj. cbn [lookup list_lookup].
        eapply exec_bind.
        { rewrite run_S. cbn [step]. eapply exec_bind; [|reflexivity].
          unfold invokeListener, whenChange. exec. simp_obj.
          unfold Derived.whenChange. exec. simp_obj.
          eapply exec_bind.
          { unfold Derived.unsubChangeDependencies. exec. simp_obj. execd. simp_obj.
            eapply exec_bind.
            { cbn [forEach].
              eapply exec_bind.
              { unfold Derived.unsubChangeOf. simp_obj.
                unfold ListenerManager.removeChange. solve_run. }
              eapply exec_bind; [|reflexivity].
              unfold Derived.unsubChangeOf. simp_obj.
              unfold ListenerManager.removeChange. solve_run. }
            unfold Derived.setDependencies. solve_run. }
          eapply (callChangeListeners_mocks (S (S (S n))) _ f);
            [solve_lookup|constructor|simpl; lia]. }
        simp_obj. rewrite !store_store.
        rewrite run_S. cbn [step]. unfold ListenerManager.loopChange. exec.
        reflexivity. }
      solve_run.
  - simpl objects. repeat split; look;
      unfold FieldSource.inner, FieldSource.source;
      cbv [with_callingChangeListeners with_changeListeners with_signaled with_value
           with_callingDirtyListeners with_dirtyListeners with_dirty
           dirtyListeners changeListeners callingDirtyListeners callingChangeListeners
           dirty signaled value cls];
      rewrite !delete_single; reflexivity.
Qed.

(** The read that follows it. *)
Lemma reread_through_source h a2 :
  objects h !! f = Some (FieldSource.field val s a2 x0 false true) ->
  objects h !! val = Some (FieldSource.inner s a2 eq [None] [None]) ->
  objects h !! s = Some (FieldSource.source x1 [None] [None] true true) ->
  looseEq x0 x1 = false ->
  exists h', read fuel f h = (h', Ok x1).
Proof.
  intros Hf Hv Hs Heq. eexists.
  unfold read. rewrite run_S. cbn [step]. unfold get. exec. simp_obj.
  unfold Derived.get.
  eapply exec_bind.
  { unfold ListenerManager.checkNotDispatchingDirty. exec. reflexivity. }
  eapply exec_bind.
  { unfold Derived.updateValueIfNecessary. exec. simp_obj.
    exec.
    eapply exec_bind.
    { unfold Derived.requiresRecompute. execd. simp_obj.
      cbn [Derived.anyChanged IDependency.watchable IDependency.value].
      eapply exec_bind.
      { eapply (read_plain_own_flag (S (S (S n))) _ val);
          [solve_lookup|right; eexists; reflexivity|reflexivity]. }
      simp_obj. unfold looseNeq at 1. cbn [looseEq]. rewrite Nat.eqb_refl. cbn [negb].
      eapply exec_bind.
      { eapply (read_plain_own_flag (S (S (S n))) _ s);
          [solve_lookup|right; eexists; reflexivity|reflexivity]. }
      simp_obj. unfold looseNeq. rewrite looseEq_sym, Heq. reflexivity. }
    cbn [negb].
    execd. simp_obj. exec.
    eapply exec_bind.
    { cbn [forEach]. eapply exec_bind; [reflexivity|].
      eapply exec_bind; [reflexivity|]. reflexivity. }
    eapply exec_bind; [unfold Derived.setDependencies; solve_run|].
    exec. simp_obj. unfold Field.fieldCompute.
    eapply exec_bind.
    { cbn [Derived.runCompute].
      eapply exec_bind.
      { eapply (read_plain_own_flag (S (S (S n))) _ val);
          [solve_lookup|right; eexists; reflexivity|reflexivity]. }
      execd. simp_obj. cbn [Nat.eqb negb].
      rewrite bool_decide_eq_false_2 by (apply not_elem_of_nil).
      eapply exec_bind.
      { unfold Derived.createDependency, ListenerManager.onDirty, ListenerManager.onChange.
        exec. exec. reflexivity. }
      execd. eapply exec_bind; [unfold Derived.setDependencies; solve_run|].
      cbn [Derived.runCompute].
      eapply exec_bind.
      { eapply (read_plain_own_flag (S (S (S n))) _ s);
          [solve_lookup|right; eexists; reflexivity|reflexivity]. }
      execd. simp_obj. cbn [Nat.eqb negb].
      rewrite bool_decide_eq_false_2
        by (rewrite list_elem_of_singleton; exact Hsv).
      eapply exec_bind.
      { unfold Derived.createDependency, ListenerManager.onDirty, ListenerManager.onChange.
        exec. exec. reflexivity. }
      execd. eapply exec_bind; [unfold Derived.setDependencies; solve_run|].
      reflexivity. }
    exec. solve_run. }
  exec. reflexivity.
Qed.
End FieldMirror.

(** X22. A field mirrors its source, in any heap: after
    [f.setSource(s).commit()] on a new field, [f.get()] is the value of
    the plain field [s], whatever [f] was constructed with; after
    [s.set(x1).commit()] it is [x1], or still the old value when that is
    [==] to [x1]. *)
Theorem field_mirrors_its_source
    (fuel : nat) (h : heap) (v x0 x1 : jsval) (eq : jsval -> jsval -> bool) :
  5 <= fuel ->
  exists h',
    FieldSource.mirror fuel v x0 x1 eq h
    = (h', Ok (x0, if looseEq x0 x1 then x0 else x1)).
Proof.
  intros Hfuel.
  destruct fuel as [|[|[|[|[|n]]]]]; try lia. clear Hfuel.
  set (s := length (objects h)).
  set (os := newObject x0 (PlainFieldClass PlainField.defaultEquals)).
  set (hs := with_objects (fun os' => os' ++ [os]) h).
  set (f := length (objects hs)).
  set (val := S f).
  set (a := nextAddr hs).
  set (o0 := newObject VUndefined
               (DerivedClass {| compute := Field.fieldCompute val; dependencies := [];
                                computationID := 0; initialized := false |} (FieldClass val))).
  set (oval0 := newObject (VPlainObj a v) (PlainFieldClass (Field.innerEquals eq))).
  set (h0 := with_objects (fun os' => os' ++ [oval0])
               (with_nextAddr (S a) (with_objects (fun os' => os' ++ [o0]) hs))).
  assert (Hnews : PlainField.new x0 PlainField.defaultEquals h = (hs, Ok s)) by reflexivity.
  assert (Hnew : Field.new v eq hs = (h0, Ok f)) by reflexivity.
  assert (Hf : f = S s) by (unfold f, hs, s; simpl; rewrite length_app; simpl; lia).
  assert (Hfv : f <> val) by (unfold val; lia).
  assert (Hsf : s <> f) by lia.
  assert (Hsv : s <> val) by (unfold val; lia).
  assert (Hs0 : objects h0 !! s = Some os).
  { unfold h0, hs. simpl. rewrite <- !app_assoc. apply list_lookup_middle. reflexivity. }
  assert (Hf0 : objects h0 !! f = Some o0).
  { unfold h0. simpl. rewrite <- app_assoc. apply list_lookup_middle. reflexivity. }
  assert (Hv0 : objects h0 !! val = Some oval0).
  { unfold h0. apply list_lookup_middle. unfold val, f, hs. simpl.
    rewrite !length_app. simpl. lia. }
  clearbody h0 hs val a. clear Hf. clearbody f s.
  destruct (setSource_fresh n s f val v eq h0 a _ Hf0 Hv0)
    as (h1 & Hrun1 & Hv1 & Hframe1 & _).
  assert (Hf1 : objects h1 !! f = Some o0) by (rewrite Hframe1 by exact Hfv; exact Hf0).
  assert (Hs1 : objects h1 !! s = Some os) by (rewrite Hframe1 by exact Hsv; exact Hs0).
  destruct (read_through_source n s f val v x0 eq Hfv Hsf Hsv h1 a (nextAddr h0) Hf1 Hv1 Hs1)
    as (h2 & Hrun2 & Hf2 & Hv2 & Hs2 & _).
  destruct (looseEq x0 x1) eqn:Heq.
  - destruct (source_set_equal n s f val x0 x1 Hfv Hsf Hsv h2 (nextAddr h0) Hf2 Hs2 Heq)
      as (h3 & o3 & Hrun3 & Ho3 & Hd3 & Hc3 & Hval3).
    exists h3. unfold FieldSource.mirror.
    eapply exec_bind; [exact Hnews|].
    eapply exec_bind; [exact Hnew|].
    eapply exec_bind; [exact Hrun1|].
    eapply exec_bind; [exact Hrun2|].
    eapply exec_bind; [exact Hrun3|].
    eapply exec_bind; [apply (get_clean _ h3 f o3 Ho3 Hd3 Hc3)|].
    rewrite Hval3. reflexivity.
  - destruct (source_set_different n s f val x0 x1 eq Hfv Hsf Hsv h2 (nextAddr h0) Hf2 Hv2 Hs2 Heq)
      as (h3 & Hrun3 & Hf3 & Hv3 & Hs3).
    destruct (reread_through_source n s f val x0 x1 eq Hfv Hsf Hsv h3 (nextAddr h0) Hf3 Hv3 Hs3 Heq)
      as (h4 & Hrun4).
    exists h4. unfold FieldSource.mirror.
    eapply exec_bind; [exact Hnews|].
    eapply exec_bind; [exact Hnew|].
    eapply exec_bind; [exact Hrun1|].
    eapply exec_bind; [exact Hrun2|].
    eapply exec_bind; [exact Hrun3|].
    eapply exec_bind; [exact Hrun4|]. reflexivity.
Qed.

Lemma field_mirrors_its_source_witness :
  exists h',
    FieldSource.mirror Scenario.fuel (VNum 9) (VNum 1) (VNum 2) looseEq emptyHeap
    = (h', Ok (VNum 1, VNum 2)).
Proof.
  apply (field_mirrors_its_source Scenario.fuel emptyHeap (VNum 9) (VNum 1) (VNum 2) looseEq).
  vm_compute. lia.
Defined.

(** ** A throttle period *)

Section ThrottlePeriod.
Variables (n s t p e b i : nat) (x0 x1 x2 : jsval).
Hypothesis Hst : s <> t.
Hypothesis Hbt : b <> t.
Hypothesis Hbs : b <> s.
Hypothesis Het : e <> t.
Hypothesis Hes : e <> s.

#[local] Abbreviation fuel := (S (S (S (S (S n))))).
#[local] Abbreviation D := (DirtyListenerOf t).
#[local] Abbreviation C := (ChangeListenerOf t).
#[local] Abbreviation obj := (ThrottledCycle.throttled s p e b i).

#[local] Ltac simp_obj :=
  cbn [dirty signaled value cls dirtyListeners changeListeners
       callingDirtyListeners callingChangeListeners
       with_derived with_cls with_dependencies with_computationID with_initialized
       with_dirty with_signaled with_value with_throttle
       with_callingDirtyListeners with_callingChangeListeners
       with_dirtyListeners with_changeListeners
       ThrottledCycle.throttled ThrottledCycle.epoch FieldSource.source newObject
       afterDirtyBroadcast afterChangeBroadcast
       source period throttleEndSignal throttleStartSignal throttle activeIndicator
       throttling Throttle.type Throttle.signal Throttle.timeoutID
       dependencies computationID initialized compute fmap list_fmap
       Derived.clearUnsubDirty Derived.clearUnsubChange
       IDependency.watchable IDependency.value IDependency.unsubDirty
       IDependency.unsubChange when negb].

#[local] Ltac objs :=
  cbn [objects store with_log with_objects with_timers with_nextTimeoutID]; look.

#[local] Ltac heap_proj :=
  cbn [log timers nextTimeoutID store with_log with_objects with_timers with_nextTimeoutID
       period ThrottledCycle.throttled ThrottledCycle.epoch cls with_signaled with_cls
       with_throttle afterDirtyBroadcast afterChangeBroadcast Throttle.timeoutID throttle].

#[local] Ltac deleted :=
  unfold FieldSource.source;
  cbv [with_callingChangeListeners with_changeListeners with_signaled with_value
       with_callingDirtyListeners with_dirtyListeners with_dirty
       dirtyListeners changeListeners callingDirtyListeners callingChangeListeners
       dirty signaled value cls];
  rewrite ?delete_single; reflexivity.

#[local] Ltac mocks := repeat constructor; eexists; reflexivity.

#[local] Ltac exect :=
  eapply exec_bind; [eapply getThrottled_lookup; [solve_lookup|reflexivity]|cbv beta].

(** [s.set(x)]'s perform callback while no period runs: a period of
    type "dirty" starts and the dirty listeners are called. *)
Lemma perform_starts_period h v dv x ud uc id sg cl sg' :
  objects h !! t = Some (obj false sg v dv ud uc id None) ->
  objects h !! s = Some (FieldSource.source dv [Some D] cl false sg') ->
  looseEq dv x = false ->
  exists h',
    PlainField.set_perform (run fuel) s x h = (h', Ok tt)
    /\ objects h' !! t
       = Some (obj true false v dv ud uc id
                 (ThrottledCycle.epoch SigDirty None (nextTimeoutID h)))
    /\ objects h' !! s = Some (FieldSource.source x [Some D] cl true false)
    /\ (forall y, y <> t -> y <> s -> objects h' !! y = objects h !! y)
    /\ log h' = log h ++ [Called 1]
    /\ timers h' = timers h ++ [ThrottledCycle.timeout (nextTimeoutID h) t p]
    /\ nextTimeoutID h' = S (nextTimeoutID h).
Proof.
  intros Ht Hs Heq. eexists. split.
  - unfold PlainField.set_perform. exec. simp_obj.
    unfold PlainField.defaultEquals. rewrite Heq.
    eapply exec_bind.
    { unfold ListenerManager.callDirtyListeners. exec. simp_obj.
      exec. exec. exec.
      eapply exec_bind.
      { rewrite run_S. cbn [step]. unfold ListenerManager.loopDirty.
        exec. simp_obj. cbn [lookup list_lookup].
        eapply exec_bind.
        { rewrite run_S. cbn [step].
          eapply exec_bind; [|reflexivity].
          unfold invokeListener, whenDirty. exec. simp_obj.
          unfold Throttled.whenDirty. exec. exect. simp_obj.
          eapply exec_bind; [reflexivity|].
          eapply exec_bind.
          { unfold Throttled.startEpoch. exect. simp_obj.
            eapply exec_bind; [reflexivity|]. solve_run. }
          eapply (callDirtyListeners_mocks (S (S (S n))) _ t);
            [solve_lookup|mocks|simpl; lia]. }
        simp_obj.
        rewrite run_S. cbn [step]. unfold ListenerManager.loopDirty. exec.
        reflexivity. }
      solve_run. }
    solve_run.
  - split; [|split; [|split; [|split; [|split]]]].
    + objs.
    + objs.
    + intros y Hyt Hys. objs.
    + heap_proj. reflexivity.
    + heap_proj. reflexivity.
    + heap_proj. reflexivity.
Qed.

(** The signal callback that follows: the period restarts as one of
    type "change" and the change listeners are called.  [skip] tells
    whether an emptied entry precedes the listener of [t]. *)
Lemma signal_restarts_period h v dv x ud uc id tid ob (skip : bool) :
  objects h !! t = Some (obj true false v dv ud uc id (ThrottledCycle.epoch SigDirty None tid)) ->
  objects h !! s
  = Some (FieldSource.source x [Some D] ((if skip then [None] else []) ++ [Some C])
            true false) ->
  objects h !! b = Some ob -> dirty ob = true ->
  (if skip then 2 else 0) <= n ->
  exists h',
    PlainField.set_signal (run fuel) s h = (h', Ok tt)
    /\ objects h' !! t
       = Some (obj true true v dv ud uc id
                 (ThrottledCycle.epoch SigChange None (nextTimeoutID h)))
    /\ objects h' !! s
       = Some (FieldSource.source x [Some D] ((if skip then [None] else []) ++ [Some C])
                 true true)
    /\ (forall y, y <> t -> y <> s -> objects h' !! y = objects h !! y)
    /\ log h' = log h ++ [Called 2]
    /\ timers h'
       = filter (fun tm => timer_id tm <> tid) (timers h)
         ++ [ThrottledCycle.timeout (nextTimeoutID h) t p]
    /\ nextTimeoutID h' = S (nextTimeoutID h).
Proof.
  intros Ht Hs Hb Hdb Hn. destruct skip; cbn [app] in Hs |- *.
  - eexists. split.
    + unfold PlainField.set_signal, ListenerManager.callChangeListeners.
      exec. simp_obj. exec. exec.
      eapply exec_bind.
      { rewrite run_S. cbn [step]. unfold ListenerManager.loopChange.
        exec. simp_obj. cbn [lookup list_lookup].
        rewrite run_S. cbn [step]. unfold ListenerManager.loopChange.
        exec. simp_obj. cbn [lookup list_lookup].
        eapply exec_bind.
        { rewrite run_S. cbn [step]. eapply exec_bind; [|reflexivity].
          unfold invokeListener, whenChange. exec. simp_obj.
          unfold Throttled.whenChange. exec. simp_obj. exect. simp_obj.
          rewrite decide_False by discriminate.
          eapply exec_bind; [reflexivity|].
          eapply exec_bind; [reflexivity|].
          eapply exec_bind.
          { unfold Throttled.startEpoch. exect. simp_obj.
            eapply exec_bind; [reflexivity|]. solve_run. }
          unfold Throttled.callChangeListeners. exect. simp_obj.
          eapply exec_bind.
          { eapply exec_bind; [unfold Signal.isDirty; exec; reflexivity|].
            cbv beta zeta. rewrite Hdb. reflexivity. }
          eapply (callChangeListeners_mocks (S (S n)) _ t);
            [solve_lookup|mocks|simpl; lia]. }
        simp_obj.
        rewrite run_S. cbn [step]. unfold ListenerManager.loopChange. exec.
        reflexivity. }
      solve_run.
    + split; [|split; [|split; [|split; [|split]]]].
      * objs.
      * objs.
      * intros y Hyt Hys. objs.
      * heap_proj. reflexivity.
      * heap_proj. reflexivity.
      * heap_proj. reflexivity.
  - eexists. split.
    + unfold PlainField.set_signal, ListenerManager.callChangeListeners.
      exec. simp_obj. exec. exec.
      eapply exec_bind.
      { rewrite run_S. cbn [step]. unfold ListenerManager.loopChange.
        exec. simp_obj. cbn [lookup list_lookup].
        eapply exec_bind.
        { rewrite run_S. cbn [step]. eapply exec_bind; [|reflexivity].
          unfold invokeListener, whenChange. exec. simp_obj.
          unfold Throttled.whenChange. exec. simp_obj. exect. simp_obj.
          rewrite decide_False by discriminate.
          eapply exec_bind; [reflexivity|].
          eapply exec_bind; [reflexivity|].
          eapply exec_bind.
          { unfold Throttled.startEpoch. exect. simp_obj.
            eapply exec_bind; [reflexivity|]. solve_run. }
          unfold Throttled.callChangeListeners. exect. simp_obj.
          eapply exec_bind.
          { eapply exec_bind; [unfold Signal.isDirty; exec; reflexivity|].
            cbv beta zeta. rewrite Hdb. reflexivity. }
          eapply (callChangeListeners_mocks (S (S (S n))) _ t);
            [solve_lookup|mocks|simpl; lia]. }
        simp_obj.
        rewrite run_S. cbn [step]. unfold ListenerManager.loopChange. exec.
        reflexivity. }
      solve_run.
    + split; [|split; [|split; [|split; [|split]]]].
      * objs.
      * objs.
      * intros y Hyt Hys. objs.
      * heap_proj. reflexivity.
      * heap_proj. reflexivity.
      * heap_proj. reflexivity.
Qed.

(** The perform callback while a period runs: the throttled value
    notes the pending signal and calls no listener. *)
Lemma perform_withheld h v dv x uc id ty tid sg sg' cl ob :
  objects h !! t = Some (obj false sg v dv true uc id (ThrottledCycle.epoch ty None tid)) ->
  objects h !! s = Some (FieldSource.source dv [Some D] cl false sg') ->
  objects h !! b = Some ob -> dirty ob = true ->
  looseEq dv x = false ->
  exists h',
    PlainField.set_perform (run fuel) s x h = (h', Ok tt)
    /\ objects h' !! t
       = Some (obj false false v dv false uc id
                 (ThrottledCycle.epoch ty (Some SigDirty) tid))
    /\ objects h' !! s = Some (FieldSource.source x [None] cl true false)
    /\ (forall y, y <> t -> y <> s -> objects h' !! y = objects h !! y)
    /\ log h' = log h /\ timers h' = timers h.
Proof.
  intros Ht Hs Hb Hdb Heq. eexists. split.
  - unfold PlainField.set_perform. exec. simp_obj.
    unfold PlainField.defaultEquals. rewrite Heq.
    eapply exec_bind.
    { unfold ListenerManager.callDirtyListeners. exec. simp_obj.
      exec. exec. exec.
      eapply exec_bind.
      { rewrite run_S. cbn [step]. unfold ListenerManager.loopDirty.
        exec. simp_obj. cbn [lookup list_lookup].
        eapply exec_bind.
        { rewrite run_S. cbn [step].
          eapply exec_bind; [|reflexivity].
          unfold invokeListener, whenDirty. exec. simp_obj.
          unfold Throttled.whenDirty. exec. exect. simp_obj.
          eapply exec_bind.
          { unfold Derived.unsubDirtyDependencies. exec. simp_obj.
            execd. simp_obj.
            eapply exec_bind.
            { cbn [forEach]. eapply exec_bind; [|reflexivity].
              unfold Derived.unsubDirtyOf. simp_obj.
              unfold ListenerManager.removeDirty. solve_run. }
            unfold Derived.setDependencies. solve_run. }
          eapply exec_bind; [unfold Throttled.setPending; solve_run|].
          unfold Signal.markDirty. exec. rewrite Hdb. reflexivity. }
        simp_obj.
        rewrite run_S. cbn [step]. unfold ListenerManager.loopDirty. exec.
        simp_obj. rewrite delete_single. reflexivity. }
      solve_run. }
    solve_run.
  - split; [|split; [|split; [|split]]].
    + objs.
    + objs. deleted.
    + intros y Hyt Hys. objs.
    + heap_proj. reflexivity.
    + heap_proj. reflexivity.
Qed.

(** The signal callback while a period of type "change" runs: the
    change is noted as pending and no listener is called. *)
Lemma signal_withheld h v dv x ud uc id tid dl :
  objects h !! t
  = Some (obj false false v dv ud uc id (ThrottledCycle.epoch SigChange (Some SigDirty) tid)) ->
  objects h !! s = Some (FieldSource.source x dl [None; Some C] true false) ->
  objects h !! b = Some (newObject VUndefined SignalClass) ->
  exists h' ob,
    PlainField.set_signal (run fuel) s h = (h', Ok tt)
    /\ objects h' !! t
       = Some (obj false true v dv ud uc id
                 (ThrottledCycle.epoch SigChange (Some SigChange) tid))
    /\ objects h' !! s = Some (FieldSource.source x dl [None; Some C] true true)
    /\ objects h' !! b = Some ob /\ dirty ob = true
    /\ (forall y, y <> t -> y <> s -> y <> b -> objects h' !! y = objects h !! y)
    /\ log h' = log h /\ timers h' = timers h.
Proof.
  intros Ht Hs Hb. eexists _, _. split.
  - unfold PlainField.set_signal, ListenerManager.callChangeListeners.
    exec. simp_obj. exec. exec.
    eapply exec_bind.
    { rewrite run_S. cbn [step]. unfold ListenerManager.loopChange.
      exec. simp_obj. cbn [lookup list_lookup].
      rewrite run_S. cbn [step]. unfold ListenerManager.loopChange.
      exec. simp_obj. cbn [lookup list_lookup].
      eapply exec_bind.
      { rewrite run_S. cbn [step]. eapply exec_bind; [|reflexivity].
        unfold invokeListener, whenChange. exec. simp_obj.
        unfold Throttled.whenChange. exec. simp_obj. exect. simp_obj.
        rewrite decide_True by reflexivity.
        exec.
        eapply exec_bind.
        { unfold Derived.unsubChangeDependencies. exec. reflexivity. }
        eapply exec_bind; [unfold Throttled.setPending; solve_run|].
        unfold Signal.markChanged, ListenerManager.callChangeListeners.
        exec. simp_obj. exec. exec.
        eapply exec_bind.
        { rewrite run_S. cbn [step]. unfold ListenerManager.loopChange. exec.
          reflexivity. }
        solve_run. }
      simp_obj.
      rewrite run_S. cbn [step]. unfold ListenerManager.loopChange. exec.
      reflexivity. }
    solve_run.
  - split; [|split; [|split; [|split; [|split; [|split]]]]].
    + objs.
    + objs.
    + objs.
    + reflexivity.
    + intros y Hyt Hys Hyb. objs.
    + heap_proj. reflexivity.
    + heap_proj. reflexivity.
Qed.

(** The timer of a period that withheld a change expires: the next
    period starts and both kinds of listeners are called. *)
Lemma period_end_delivers h v dv ud uc id ty tid sg ob rest :
  objects h !! t
  = Some (obj false sg v dv ud uc id (ThrottledCycle.epoch ty (Some SigChange) tid)) ->
  objects h !! e = Some (newObject VUndefined SignalClass) ->
  objects h !! b = Some ob -> dirty ob = true ->
  filter (fun tm => timer_id tm = tid) (timers h) = ThrottledCycle.timeout tid t p :: rest ->
  exists h',
    fireTimeout fuel tid h = (h', Ok tt)
    /\ objects h' !! t
       = Some (obj true true v dv ud uc id
                 (ThrottledCycle.epoch SigChange None (nextTimeoutID h)))
    /\ (forall y, y <> t -> y <> e -> objects h' !! y = objects h !! y)
    /\ log h' = log h ++ [Called 1; Called 2].
Proof.
  intros Ht He Hb Hdb Htm. eexists. split.
  - unfold fireTimeout. rewrite Htm. cbn [timer_target ThrottledCycle.timeout].
    eapply exec_bind; [reflexivity|].
    unfold Throttled.throttleEnd. exect. simp_obj.
    eapply exec_bind.
    { unfold Throttled.startEpoch. exect. simp_obj.
      eapply exec_bind; [reflexivity|]. solve_run. }
    eapply exec_bind.
    { eapply (callDirtyListeners_mocks fuel _ t); [solve_lookup|mocks|simpl; lia]. }
    simp_obj.
    eapply exec_bind.
    { unfold Signal.markDirty. exec. reflexivity. }
    rewrite decide_True by reflexivity.
    eapply exec_bind.
    { unfold Throttled.callChangeListeners. exect. simp_obj.
      eapply exec_bind.
      { eapply exec_bind; [unfold Signal.isDirty; exec; reflexivity|].
        cbv beta zeta. rewrite Hdb. reflexivity. }
      eapply (callChangeListeners_mocks fuel _ t); [solve_lookup|mocks|simpl; lia]. }
    simp_obj.
    unfold Signal.markChanged, ListenerManager.callChangeListeners.
    exec. simp_obj. exec. exec.
    eapply exec_bind.
    { rewrite run_S. cbn [step]. unfold ListenerManager.loopChange. exec.
      reflexivity. }
    solve_run.
  - split; [|split].
    + objs.
    + intros y Hyt Hye. objs.
    + heap_proj. rewrite <- app_assoc. reflexivity.
Qed.

(** The timer of a period that withheld nothing expires: the throttle
    is released and no listener is called. *)
Lemma period_end_idle h d sg v dv ud uc id ty tid rest :
  objects h !! t = Some (obj d sg v dv ud uc id (ThrottledCycle.epoch ty None tid)) ->
  filter (fun tm => timer_id tm = tid) (timers h) = ThrottledCycle.timeout tid t p :: rest ->
  exists h',
    fireTimeout fuel tid h = (h', Ok tt)
    /\ objects h' !! t = Some (obj d sg v dv ud uc id None)
    /\ (forall y, y <> t -> objects h' !! y = objects h !! y)
    /\ log h' = log h.
Proof.
  intros Ht Htm. eexists. split.
  - unfold fireTimeout. rewrite Htm. cbn [timer_target ThrottledCycle.timeout].
    eapply exec_bind; [reflexivity|].
    unfold Throttled.throttleEnd. exect. simp_obj. solve_run.
  - split; [|split].
    + objs.
    + intros y Hyt. objs.
    + heap_proj. reflexivity.
Qed.

(** A read of the throttled value after its listeners were called:
    the source changed, so it is read again. *)
Lemma read_after_change h v dv x ud id th sg dl cl d sg' :
  objects h !! t = Some (obj true sg v dv ud true id th) ->
  objects h !! s = Some (FieldSource.source x dl cl d sg') ->
  looseEq x dv = false ->
  exists h',
    read fuel t h = (h', Ok x)
    /\ objects h' !! t = Some (obj false sg x x true true (S id) th)
    /\ objects h' !! s
       = Some (FieldSource.source x
                 (IterableWeakSet.add D dl)
                 (IterableWeakSet.add C (IterableWeakSet.delete C cl)) false sg')
    /\ (forall y, y <> t -> y <> s -> objects h' !! y = objects h !! y)
    /\ log h' = log h /\ timers h' = timers h.
Proof.
  intros Ht Hs Heq. eexists. split.
  - unfold read. rewrite run_S. cbn [step]. unfold get. exec. simp_obj.
    unfold Derived.get.
    eapply exec_bind.
    { unfold ListenerManager.checkNotDispatchingDirty. exec. reflexivity. }
    eapply exec_bind.
    { unfold Derived.updateValueIfNecessary. exec. simp_obj.
      exec.
      eapply exec_bind.
      { unfold Derived.requiresRecompute. execd. simp_obj.
        cbn [Derived.anyChanged IDependency.watchable IDependency.value].
        eapply exec_bind.
        { eapply (read_plain_own_flag (S (S (S n))) _ s);
            [solve_lookup|right; eexists; reflexivity|reflexivity]. }
        simp_obj. unfold looseNeq. rewrite Heq. reflexivity. }
      cbn [negb].
      execd. simp_obj. exec.
      eapply exec_bind.
      { cbn [forEach]. eapply exec_bind; [|reflexivity].
        unfold Derived.unsubChangeOf. simp_obj.
        unfold ListenerManager.removeChange. solve_run. }
      eapply exec_bind; [unfold Derived.setDependencies; solve_run|].
      exec. simp_obj.
      eapply exec_bind.
      { cbn [Derived.runCompute].
        eapply exec_bind.
        { eapply (read_plain_own_flag (S (S (S n))) _ s);
            [solve_lookup|right; eexists; reflexivity|reflexivity]. }
        execd. simp_obj. rewrite Nat.eqb_refl. cbn [negb].
        rewrite bool_decide_eq_false_2 by (apply not_elem_of_nil).
        eapply exec_bind.
        { unfold Derived.createDependency, ListenerManager.onDirty, ListenerManager.onChange.
          exec. exec. reflexivity. }
        execd. eapply exec_bind; [unfold Derived.setDependencies; solve_run|].
        reflexivity. }
      exec. solve_run. }
    exec. reflexivity.
  - split; [|split; [|split; [|split]]].
    + objs.
    + objs.
    + intros y Hyt Hys. objs.
    + heap_proj. reflexivity.
    + heap_proj. reflexivity.
Qed.

(** The first read of a new throttled value, and the registration of
    the two listeners. *)
Lemma first_read_listened h :
  objects h !! t
  = Some (newObject VUndefined
            (DerivedClass
               {| compute := fun _ => Watch s Return; dependencies := [];
                  computationID := 0; initialized := false |}
               (ThrottledClass
                  {| source := s; period := p;
                     throttleEndSignal := e; throttleStartSignal := b;
                     throttle := None; activeIndicator := true; throttling := i |}))) ->
  objects h !! s = Some (newObject x0 (PlainFieldClass PlainField.defaultEquals)) ->
  exists h',
    ThrottledCycle.listen fuel t h = (h', Ok tt)
    /\ objects h' !! t = Some (obj false false x0 x0 true true 1 None)
    /\ objects h' !! s = Some (FieldSource.source x0 [Some D] [Some C] false false)
    /\ (forall y, y <> t -> y <> s -> objects h' !! y = objects h !! y)
    /\ log h' = log h /\ timers h' = timers h /\ nextTimeoutID h' = nextTimeoutID h.
Proof.
  intros Ht Hs. eexists. split.
  - unfold ThrottledCycle.listen. eapply exec_bind.
    { unfold read. rewrite run_S. cbn [step]. unfold get. exec. simp_obj.
      unfold Derived.get.
      eapply exec_bind.
      { unfold ListenerManager.checkNotDispatchingDirty. exec. reflexivity. }
      eapply exec_bind.
      { unfold Derived.updateValueIfNecessary. exec. simp_obj.
        exec.
        eapply exec_bind.
        { unfold Derived.requiresRecompute. execd. reflexivity. }
        cbn [negb].
        execd. simp_obj. exec.
        eapply exec_bind; [reflexivity|].
        eapply exec_bind; [unfold Derived.setDependencies; solve_run|].
        exec. simp_obj.
        eapply exec_bind.
        { cbn [Derived.runCompute].
          eapply exec_bind.
          { eapply (read_plain_own_flag (S (S (S n))) _ s);
              [solve_lookup|right; eexists; reflexivity|reflexivity]. }
          execd. simp_obj. cbn [Nat.eqb negb].
          rewrite bool_decide_eq_false_2 by (apply not_elem_of_nil).
          eapply exec_bind.
          { unfold Derived.createDependency, ListenerManager.onDirty, ListenerManager.onChange.
            exec. exec. reflexivity. }
          execd. eapply exec_bind; [unfold Derived.setDependencies; solve_run|].
          reflexivity. }
        exec. solve_run. }
      exec. reflexivity. }
    unfold ListenerManager.onDirty, ListenerManager.onChange. solve_run.
  - split; [|split; [|split; [|split; [|split]]]].
    + objs.
    + objs.
    + intros y Hyt Hys. objs.
    + heap_proj. reflexivity.
    + heap_proj. reflexivity.
    + heap_proj. reflexivity.
Qed.
End ThrottlePeriod.

Lemma add_present l : IterableWeakSet.add l [Some l] = [Some l].
Proof.
  unfold IterableWeakSet.add, IterableWeakSet.has.
  rewrite bool_decide_eq_true_2 by (apply list_elem_of_singleton; reflexivity).
  reflexivity.
Qed.

Lemma add_deleted l : IterableWeakSet.add l [None] = [None; Some l].
Proof.
  unfold IterableWeakSet.add, IterableWeakSet.has.
  rewrite bool_decide_eq_false_2
    by (rewrite list_elem_of_singleton; discriminate).
  reflexivity.
Qed.

(** The timer of the running period is the one its identifier finds,
    when every older timer got a smaller identifier. *)
Lemma pending_timer (ts : list timer) (id t p : nat) :
  Forall (fun tm => timer_id tm < id) ts ->
  filter (fun tm => timer_id tm = S id)
    (filter (fun tm => timer_id tm <> id) (ts ++ [ThrottledCycle.timeout id t p])
     ++ [ThrottledCycle.timeout (S id) t p])
  = [ThrottledCycle.timeout (S id) t p].
Proof.
  intros Hts. rewrite !filter_app.
  assert (Hnone : filter (fun tm => timer_id tm = S id)
                    (filter (fun tm => timer_id tm <> id) ts) = []).
  { induction Hts as [|tm ts Htm _ IH]; [reflexivity|].
    rewrite filter_cons_True by lia.
    rewrite filter_cons_False by lia. exact IH. }
  rewrite Hnone.
  rewrite (filter_cons_False _ (ThrottledCycle.timeout id t p))
    by (cbn [timer_id ThrottledCycle.timeout]; intros H; apply H; reflexivity).
  rewrite (filter_cons_True _ (ThrottledCycle.timeout (S id) t p)) by reflexivity.
  reflexivity.
Qed.

(** The first change of the source of a new throttled value is passed
    on at once; the state it leaves, with a period running. *)
Lemma first_change_passed (n : nat) (h : heap) (x0 x1 : jsval) (period : nat) :
  looseEq x0 x1 = false ->
  exists h1 s t e b i,
    s = length (objects h) /\ t = S s /\ s <> t /\ b <> t /\ b <> s /\ e <> t /\ e <> s
    /\ e <> b
    /\ ThrottledCycle.passed (S (S (S (S (S n))))) x0 x1 period h = (h1, Ok (s, t, x1))
    /\ objects h1 !! t
       = Some (ThrottledCycle.throttled s period e b i false true x1 x1 true true 2
                 (ThrottledCycle.epoch SigChange None (S (nextTimeoutID h))))
    /\ objects h1 !! s
       = Some (FieldSource.source x1 [Some (DirtyListenerOf t)]
                 [None; Some (ChangeListenerOf t)] false true)
    /\ objects h1 !! b = Some (newObject VUndefined SignalClass)
    /\ objects h1 !! e = Some (newObject VUndefined SignalClass)
    /\ log h1 = log h ++ [Called 1; Called 2]
    /\ timers h1
       = filter (fun tm => timer_id tm <> nextTimeoutID h)
           (timers h ++ [ThrottledCycle.timeout (nextTimeoutID h) t period])
         ++ [ThrottledCycle.timeout (S (nextTimeoutID h)) t period].
Proof.
  intros H01.
  set (s := length (objects h)).
  set (os := newObject x0 (PlainFieldClass PlainField.defaultEquals)).
  set (hs := with_objects (fun os' => os' ++ [os]) h).
  set (t := length (objects hs)).
  set (ot := newObject VUndefined
               (DerivedClass
                  {| compute := fun _ => Watch s Return; dependencies := [];
                     computationID := 0; initialized := false |}
                  (ThrottledClass
                     {| source := s; period := period;
                        throttleEndSignal := t + 1; throttleStartSignal := t + 2;
                        throttle := None; activeIndicator := true;
                        throttling := t + 3 |}))).
  set (osig := newObject VUndefined SignalClass).
  set (oind := newObject VUndefined
                 (DerivedClass
                    {| compute := Throttled.throttlingCompute t (t + 2) (t + 1);
                       dependencies := []; computationID := 0; initialized := false |}
                    JustDerived)).
  set (h0 := with_objects (fun os' => os' ++ [oind])
               (with_objects (fun os' => os' ++ [osig])
                  (with_objects (fun os' => os' ++ [osig])
                     (with_objects (fun os' => os' ++ [ot]) hs)))).
  assert (Hnews : PlainField.new x0 PlainField.defaultEquals h = (hs, Ok s)) by reflexivity.
  assert (Hnew : Throttled.new s period hs = (h0, Ok t)) by reflexivity.
  assert (Hss : objects hs !! s = Some os) by (apply list_lookup_middle; reflexivity).
  assert (Hlen : length (objects hs) = S s)
    by (unfold hs, s; cbn [objects with_objects]; rewrite length_app; simpl; lia).
  assert (Hobj0 : objects h0 = objects hs ++ [ot; osig; osig; oind])
    by (unfold h0; cbn [objects with_objects]; rewrite <- !app_assoc; reflexivity).
  assert (Hlog0 : log h0 = log h) by reflexivity.
  assert (Htim0 : timers h0 = timers h) by reflexivity.
  assert (Hnid0 : nextTimeoutID h0 = nextTimeoutID h) by reflexivity.
  clearbody h0 hs.
  assert (Hs0 : objects h0 !! s = Some os)
    by (rewrite Hobj0; apply lookup_app_l_Some; exact Hss).
  assert (Ht0 : objects h0 !! t = Some ot)
    by (rewrite Hobj0; apply list_lookup_middle; reflexivity).
  assert (He0 : objects h0 !! (t + 1) = Some osig).
  { rewrite Hobj0, lookup_app_r by (unfold t; lia).
    replace (t + 1 - length (objects hs)) with 1 by (unfold t; lia). reflexivity. }
  assert (Hb0 : objects h0 !! (t + 2) = Some osig).
  { rewrite Hobj0, lookup_app_r by (unfold t; lia).
    replace (t + 2 - length (objects hs)) with 2 by (unfold t; lia). reflexivity. }
  assert (Hts : t = S s) by (unfold t; lia).
  clear Hobj0 Hss. clearbody t.
  assert (Hst : s <> t) by lia.
  assert (Hbt : t + 2 <> t) by lia.
  assert (Hbs : t + 2 <> s) by lia.
  assert (Het : t + 1 <> t) by lia.
  assert (Hes : t + 1 <> s) by lia.
  assert (Heb : t + 1 <> t + 2) by lia.
  set (e := t + 1) in *. set (b := t + 2) in *. set (i := t + 3) in *.
  clearbody e b i.
  destruct (first_read_listened n s t period e b i x0 Hst h0 Ht0 Hs0)
    as (h1 & Hrun1 & Ht1 & Hs1 & Hfr1 & Hlog1 & Htim1 & Hnid1).
  assert (Hb1 : objects h1 !! b = Some osig) by (rewrite Hfr1 by assumption; exact Hb0).
  assert (He1 : objects h1 !! e = Some osig) by (rewrite Hfr1 by assumption; exact He0).
  destruct (perform_starts_period n s t period e b i Hst Hbt Hbs Het Hes h1 x0 x0 x1
              true true 1 false _ false Ht1 Hs1 H01)
    as (h2 & Hrun2 & Ht2 & Hs2 & Hfr2 & Hlog2 & Htim2 & Hnid2).
  assert (Hb2 : objects h2 !! b = Some osig) by (rewrite Hfr2 by assumption; exact Hb1).
  destruct (signal_restarts_period n s t period e b i Hst Hbt Hbs Het Hes h2 x0 x0 x1
              true true 1 (nextTimeoutID h1) osig false Ht2 Hs2 Hb2 eq_refl (Nat.le_0_l n))
    as (h3 & Hrun3 & Ht3 & Hs3 & Hfr3 & Hlog3 & Htim3 & Hnid3).
  assert (Hcommit1 : setPlain (S (S (S (S (S n))))) s x1 h1 = (h3, Ok tt)).
  { unfold setPlain. eapply commit_new.
    - cbn [Mutator.performCB PlainField.set Mutator.plain].
      eapply exec_bind; [exact Hrun2|reflexivity].
    - exact Hrun3. }
  assert (H10 : looseEq x1 x0 = false) by (rewrite looseEq_sym; exact H01).
  cbn [app] in Hs3.
  destruct (read_after_change n s t period e b i Hst h3 x0 x0 x1 true 1 _ true _ _ true true
              Ht3 Hs3 H10)
    as (h4 & Hrun4 & Ht4 & Hs4 & Hfr4 & Hlog4 & Htim4).
  rewrite add_present, delete_single, add_deleted in Hs4.
  exists h4, s, t, e, b, i.
  split; [reflexivity|]. split; [exact Hts|].
  split; [exact Hst|]. split; [exact Hbt|]. split; [exact Hbs|].
  split; [exact Het|]. split; [exact Hes|]. split; [exact Heb|].
  split; [|split; [|split; [|split; [|split; [|split]]]]].
  - unfold ThrottledCycle.passed.
    eapply exec_bind; [exact Hnews|].
    eapply exec_bind; [exact Hnew|].
    eapply exec_bind; [exact Hrun1|].
    eapply exec_bind; [exact Hcommit1|].
    eapply exec_bind; [exact Hrun4|].
    reflexivity.
  - rewrite Hnid2, Hnid1, Hnid0 in Ht4. exact Ht4.
  - exact Hs4.
  - rewrite Hfr4, Hfr3, Hfr2 by assumption. exact Hb1.
  - rewrite Hfr4, Hfr3, Hfr2 by assumption. exact He1.
  - rewrite Hlog4, Hlog3, Hlog2, Hlog1, Hlog0, <- app_assoc. reflexivity.
  - rewrite Htim4, Htim3, Htim2, Hnid2, Hnid1, Htim1, Htim0, Hnid0. reflexivity.
Qed.

(** X23. A throttle period, in any heap whose timers were numbered by
    [setTimeout]: the first change of the source is passed on at once,
    to the dirty listener and then to the change listener; a second
    change within the period is withheld, [t.get()] still returning the
    first one, and no listener is called; when the timer of the period
    expires both listeners are called once more, and [t.get()] returns
    the second value. *)
Theorem throttled_withholds_until_period_ends
    (fuel : nat) (h : heap) (x0 x1 x2 : jsval) (period : nat) :
  5 <= fuel ->
  looseEq x0 x1 = false ->
  looseEq x1 x2 = false ->
  Forall (fun tm => timer_id tm < nextTimeoutID h) (timers h) ->
  exists h1 h2 h3,
    ThrottledCycle.passed fuel x0 x1 period h
    = (h1, Ok (length (objects h), S (length (objects h)), x1))
    /\ log h1 = log h ++ [Called 1; Called 2]
    /\ ThrottledCycle.changed fuel (length (objects h)) (S (length (objects h))) x2 h1
       = (h2, Ok x1)
    /\ log h2 = log h1
    /\ ThrottledCycle.delivered fuel (S (length (objects h))) (S (nextTimeoutID h)) h2
       = (h3, Ok x2)
    /\ log h3 = log h2 ++ [Called 1; Called 2].
Proof.
  intros Hfuel H01 H12 Htimers.
  destruct fuel as [|[|[|[|[|n]]]]]; try lia. clear Hfuel.
  destruct (first_change_passed n h x0 x1 period H01)
    as (h4 & s & t & e & b & i & Hs & Hts & Hst & Hbt & Hbs & Het & Hes & Heb
        & Hrun & Ht4 & Hs4 & Hb4 & He4 & Hlog4 & Htim4).
  rewrite <- Hs, <- Hts. clear Hs Hts.
  set (nid := nextTimeoutID h) in *.
  destruct (perform_withheld n s t period e b i Hst Hbt Hbs h4 x1 x1 x2 true 2 SigChange _
              true true _ _ Ht4 Hs4 Hb4 eq_refl H12)
    as (h5 & Hrun5 & Ht5 & Hs5 & Hfr5 & Hlog5 & Htim5).
  assert (Hb5 : objects h5 !! b = Some (newObject VUndefined SignalClass))
    by (rewrite Hfr5 by assumption; exact Hb4).
  destruct (signal_withheld n s t period e b i Hst Hbt Hbs h5 x1 x1 x2 false true 2 _ _
              Ht5 Hs5 Hb5)
    as (h6 & ob & Hrun6 & Ht6 & Hs6 & Hb6 & Hdb6 & Hfr6 & Hlog6 & Htim6).
  assert (Hcommit2 : setPlain (S (S (S (S (S n))))) s x2 h4 = (h6, Ok tt)).
  { unfold setPlain. eapply commit_new.
    - cbn [Mutator.performCB PlainField.set Mutator.plain].
      eapply exec_bind; [exact Hrun5|reflexivity].
    - exact Hrun6. }
  assert (Hrun7 : read (S (S (S (S (S n))))) t h6 = (h6, Ok x1)).
  { apply (get_clean _ h6 t _ Ht6); reflexivity. }
  assert (He6 : objects h6 !! e = Some (newObject VUndefined SignalClass)).
  { rewrite Hfr6, Hfr5 by assumption. exact He4. }
  assert (Hpending : filter (fun tm => timer_id tm = S nid) (timers h6)
                     = [ThrottledCycle.timeout (S nid) t period]).
  { rewrite Htim6, Htim5, Htim4. apply pending_timer. exact Htimers. }
  destruct (period_end_delivers n s t period e b i Hst Hbt Hbs Het Hes h6 x1 x1 false true 2
              SigChange (S nid) true ob [] Ht6 He6 Hb6 Hdb6 Hpending)
    as (h7 & Hrun8 & Ht7 & Hfr7 & Hlog7).
  assert (Hs7 : objects h7 !! s
                = Some (FieldSource.source x2 [None] [None; Some (ChangeListenerOf t)]
                          true true)).
  { rewrite Hfr7 by congruence. exact Hs6. }
  assert (H21 : looseEq x2 x1 = false) by (rewrite looseEq_sym; exact H12).
  destruct (read_after_change n s t period e b i Hst h7 x1 x1 x2 false 2 _ true _ _ true true
              Ht7 Hs7 H21)
    as (h8 & Hrun9 & _ & _ & _ & Hlog9 & _).
  exists h4, h6, h8. split; [exact Hrun|]. split; [exact Hlog4|].
  split; [|split; [|split]].
  - unfold ThrottledCycle.changed. eapply exec_bind; [exact Hcommit2|]. exact Hrun7.
  - rewrite Hlog6, Hlog5. reflexivity.
  - unfold ThrottledCycle.delivered. eapply exec_bind; [exact Hrun8|]. exact Hrun9.
  - rewrite Hlog9, Hlog7. reflexivity.
Qed.

Lemma throttled_withholds_until_period_ends_witness :
  exists h1 h2 h3,
    ThrottledCycle.passed Scenario.fuel (VNum 1) (VNum 2) 100 emptyHeap
    = (h1, Ok (0, 1, VNum 2))
    /\ log h1 = [Called 1; Called 2]
    /\ ThrottledCycle.changed Scenario.fuel 0 1 (VNum 3) h1 = (h2, Ok (VNum 2))
    /\ log h2 = log h1
    /\ ThrottledCycle.delivered Scenario.fuel 1 2 h2 = (h3, Ok (VNum 3))
    /\ log h3 = log h2 ++ [Called 1; Called 2].
Proof.
  apply (throttled_withholds_until_period_ends
           Scenario.fuel emptyHeap (VNum 1) (VNum 2) (VNum 3) 100).
  - vm_compute. lia.
  - reflexivity.
  - reflexivity.
  - apply Forall_nil. exact I.
Defined.

(** X24. A period in which nothing more changed releases the
    throttle, in any heap whose timers were numbered by [setTimeout]:
    after the first change was passed on, the timer of the period
    expires without a listener being called, and the next change of the
    source is passed on at once again, to the dirty listener and then to
    the change listener, [t.get()] returning the new value. *)
Theorem throttled_idle_period_releases
    (fuel : nat) (h : heap) (x0 x1 x2 : jsval) (period : nat) :
  7 <= fuel ->
  looseEq x0 x1 = false ->
  looseEq x1 x2 = false ->
  Forall (fun tm => timer_id tm < nextTimeoutID h) (timers h) ->
  exists h1 h2 h3,
    ThrottledCycle.passed fuel x0 x1 period h
    = (h1, Ok (length (objects h), S (length (objects h)), x1))
    /\ fireTimeout fuel (S (nextTimeoutID h)) h1 = (h2, Ok tt)
    /\ log h2 = log h1
    /\ ThrottledCycle.changed fuel (length (objects h)) (S (length (objects h))) x2 h2
       = (h3, Ok x2)
    /\ log h3 = log h2 ++ [Called 1; Called 2].
Proof.
  intros Hfuel H01 H12 Htimers.
  destruct fuel as [|[|[|[|[|n]]]]]; try lia.
  assert (Hn : 2 <= n) by lia. clear Hfuel.
  destruct (first_change_passed n h x0 x1 period H01)
    as (h4 & s & t & e & b & i & Hs & Hts & Hst & Hbt & Hbs & Het & Hes & Heb
        & Hrun & Ht4 & Hs4 & Hb4 & He4 & Hlog4 & Htim4).
  rewrite <- Hs, <- Hts. clear Hs Hts.
  set (nid := nextTimeoutID h) in *.
  assert (Hpending : filter (fun tm => timer_id tm = S nid) (timers h4)
                     = [ThrottledCycle.timeout (S nid) t period]).
  { rewrite Htim4. apply pending_timer. exact Htimers. }
  destruct (period_end_idle n s t period e b i h4 false true x1 x1 true true 2
              SigChange (S nid) [] Ht4 Hpending)
    as (h5 & Hrun5 & Ht5 & Hfr5 & Hlog5).
  assert (Hs5 : objects h5 !! s
                = Some (FieldSource.source x1 [Some (DirtyListenerOf t)]
                          [None; Some (ChangeListenerOf t)] false true)).
  { rewrite Hfr5 by congruence. exact Hs4. }
  assert (Hb5 : objects h5 !! b = Some (newObject VUndefined SignalClass))
    by (rewrite Hfr5 by assumption; exact Hb4).
  destruct (perform_starts_period n s t period e b i Hst Hbt Hbs Het Hes h5 x1 x1 x2
              true true 2 true _ true Ht5 Hs5 H12)
    as (h6 & Hrun6 & Ht6 & Hs6 & Hfr6 & Hlog6 & Htim6 & Hnid6).
  assert (Hb6 : objects h6 !! b = Some (newObject VUndefined SignalClass))
    by (rewrite Hfr6 by assumption; exact Hb5).
  destruct (signal_restarts_period n s t period e b i Hst Hbt Hbs Het Hes h6 x1 x1 x2
              true true 2 (nextTimeoutID h5) _ true Ht6 Hs6 Hb6 eq_refl Hn)
    as (h7 & Hrun7 & Ht7 & Hs7 & Hfr7 & Hlog7 & _).
  assert (Hcommit : setPlain (S (S (S (S (S n))))) s x2 h5 = (h7, Ok tt)).
  { unfold setPlain. eapply commit_new.
    - cbn [Mutator.performCB PlainField.set Mutator.plain].
      eapply exec_bind; [exact Hrun6|reflexivity].
    - exact Hrun7. }
  assert (H21 : looseEq x2 x1 = false) by (rewrite looseEq_sym; exact H12).
  cbn [app] in Hs7.
  destruct (read_after_change n s t period e b i Hst h7 x1 x1 x2 true 2 _ true _ _ true true
              Ht7 Hs7 H21)
    as (h8 & Hrun8 & _ & _ & _ & Hlog8 & _).
  exists h4, h5, h8. split; [exact Hrun|]. split; [exact Hrun5|]. split; [exact Hlog5|].
  split.
  - unfold ThrottledCycle.changed. eapply exec_bind; [exact Hcommit|]. exact Hrun8.
  - rewrite Hlog8, Hlog7, Hlog6, <- app_assoc. reflexivity.
Qed.

Lemma throttled_idle_period_releases_witness :
  exists h1 h2 h3,
    ThrottledCycle.passed Scenario.fuel (VNum 1) (VNum 2) 100 emptyHeap
    = (h1, Ok (0, 1, VNum 2))
    /\ fireTimeout Scenario.fuel 2 h1 = (h2, Ok tt)
    /\ log h2 = log h1
    /\ ThrottledCycle.changed Scenario.fuel 0 1 (VNum 3) h2 = (h3, Ok (VNum 3))
    /\ log h3 = log h2 ++ [Called 1; Called 2].
Proof.
  apply (throttled_idle_period_releases
           Scenario.fuel emptyHeap (VNum 1) (VNum 2) (VNum 3) 100).
  - vm_compute. lia.
  - reflexivity.
  - reflexivity.
  - apply Forall_nil. exact I.
Defined.
